(** * Certifiable-Quant: a shallow embedding of the certification core

    The development follows the layout of the C sources:
    - [cq_types.h]  : fault flags and the overflow-proof record;
    - [dvm/primitives.c] : saturating and round-to-nearest-even integer
      primitives;
    - [audit/sha256.c] : the SHA-256 used by the digests and the Merkle
      root;
    - [analyze/analyze.c] : overflow proofs and the error recurrence;
    - [calibrate/calibrate.c] : per-tensor statistics and coverage;
    - [verify/verify.c] : bound checking and the verification digest;
    - [certificate/certificate.c] : the certificate builder.

    Integers are modelled in [Z] with the C widths written out.  C [float]
    and [double] values are IEEE-754 binary32 and binary64 numbers of the
    standard library's executable specification ([spec_float]). *)

From Stdlib Require Import ZArith List Bool Lia Znumtheory Permutation.
From Stdlib Require Import Floats.SpecFloat.
Import ListNotations.

Local Open Scope Z_scope.

Ltac Zify.zify_post_hook ::= Z.to_euclidean_division_equations.

(** Replaces every closed power of two by its value. *)
Ltac eval_pows :=
  repeat match goal with
  | H : context [2 ^ ?k] |- _ =>
      let v := eval vm_compute in (2 ^ k) in
      progress change (2 ^ k) with v in H
  | |- context [2 ^ ?k] =>
      let v := eval vm_compute in (2 ^ k) in
      progress change (2 ^ k) with v
  end.

(* ====================================================================== *)
(** ** cq_types.h *)
(* ====================================================================== *)

Definition INT32_MAX : Z := 2147483647.
Definition INT32_MIN : Z := -2147483648.
Definition INT64_MAX : Z := 9223372036854775807.
Definition INT64_MIN : Z := -9223372036854775808.
Definition UINT32_MAX : Z := 4294967295.
Definition UINT64_MAX : Z := 18446744073709551615.

Definition is_int32 (x : Z) : Prop := INT32_MIN <= x <= INT32_MAX.
Definition is_int64 (x : Z) : Prop := INT64_MIN <= x <= INT64_MAX.
Definition is_uint32 (x : Z) : Prop := 0 <= x <= UINT32_MAX.

(** Unsigned 64-bit arithmetic wraps modulo 2^64. *)
Definition wrap_u64 (x : Z) : Z := x mod 2 ^ 64.
Definition mul_u64 (a b : Z) : Z := wrap_u64 (a * b).

(** Conversion of an out-of-range value to [int32_t] keeps the low 32 bits. *)
Definition wrap_s32 (x : Z) : Z := (x + 2 ^ 31) mod 2 ^ 32 - 2 ^ 31.

Definition CQ_Q16_SHIFT : Z := 16.

Definition CQ_ERROR_NULL_POINTER : Z := -1.
Definition CQ_FAULT_BOUND_VIOLATION : Z := 64.

(** [cq_fault_flags_t]: seven one-bit fields (the reserved bits carry no
    information and are left out). *)
Record cq_fault_flags_t : Type := mk_faults {
  overflow : bool;
  underflow : bool;
  div_zero : bool;
  range_exceed : bool;
  unfolded_bn : bool;
  asymmetric : bool;
  bound_violation : bool
}.

Definition cq_fault_clear : cq_fault_flags_t :=
  mk_faults false false false false false false false.

Definition cq_has_fatal_fault (f : cq_fault_flags_t) : bool :=
  div_zero f || range_exceed f || unfolded_bn f || asymmetric f
  || bound_violation f.

(** [cq_fault_merge] ORs the two flag words. *)
Definition cq_fault_merge (dst src : cq_fault_flags_t) : cq_fault_flags_t :=
  mk_faults (overflow dst || overflow src)
            (underflow dst || underflow src)
            (div_zero dst || div_zero src)
            (range_exceed dst || range_exceed src)
            (unfolded_bn dst || unfolded_bn src)
            (asymmetric dst || asymmetric src)
            (bound_violation dst || bound_violation src).

Definition set_overflow (f : cq_fault_flags_t) : cq_fault_flags_t :=
  mk_faults true (underflow f) (div_zero f) (range_exceed f)
            (unfolded_bn f) (asymmetric f) (bound_violation f).

Definition set_underflow (f : cq_fault_flags_t) : cq_fault_flags_t :=
  mk_faults (overflow f) true (div_zero f) (range_exceed f)
            (unfolded_bn f) (asymmetric f) (bound_violation f).

Definition set_div_zero (f : cq_fault_flags_t) : cq_fault_flags_t :=
  mk_faults (overflow f) (underflow f) true (range_exceed f)
            (unfolded_bn f) (asymmetric f) (bound_violation f).

Definition set_range_exceed (f : cq_fault_flags_t) : cq_fault_flags_t :=
  mk_faults (overflow f) (underflow f) (div_zero f) true
            (unfolded_bn f) (asymmetric f) (bound_violation f).

Definition set_bound_violation (f : cq_fault_flags_t) : cq_fault_flags_t :=
  mk_faults (overflow f) (underflow f) (div_zero f) (range_exceed f)
            (unfolded_bn f) (asymmetric f) true.

(** [cq_overflow_proof_t] (padding left out). *)
Record cq_overflow_proof_t : Type := mk_overflow_proof {
  max_weight_mag : Z;
  max_input_mag : Z;
  dot_product_len : Z;
  safety_margin : Z;
  is_safe : bool
}.

(** Conversion of an out-of-range value to [int64_t] keeps the low 64 bits. *)
Definition wrap_s64 (x : Z) : Z := (x + 2 ^ 63) mod 2 ^ 64 - 2 ^ 63.

Definition wrap_u32 (x : Z) : Z := x mod 2 ^ 32.

Definition CQ_Q16_ONE : Z := 65536.

Definition cq_has_fault (f : cq_fault_flags_t) : bool :=
  overflow f || underflow f || div_zero f || range_exceed f
  || unfolded_bn f || asymmetric f || bound_violation f.

(* ====================================================================== *)
(** ** dvm/primitives.c *)
(* ====================================================================== *)

Module DVM.

(** The fault pointer of every primitive is modelled by passing the flag
    record in and returning the updated record with the result. *)

Definition cq_clamp32 (x : Z) (faults : cq_fault_flags_t)
  : Z * cq_fault_flags_t :=
  if x >? INT32_MAX then (INT32_MAX, set_overflow faults)
  else if x <? INT32_MIN then (INT32_MIN, set_underflow faults)
  else (x, faults).

(** [x / divisor] and [x % divisor] truncate toward zero ([Z.quot], [Z.rem]);
    [quot & 1] is the two's-complement low bit ([Z.land]). *)
Definition cq_round_shift_rne (x shift : Z) (faults : cq_fault_flags_t)
  : Z * cq_fault_flags_t :=
  if shift >? 62 then (0, set_overflow faults)
  else if shift =? 0 then cq_clamp32 x faults
  else
    let divisor := Z.shiftl 1 shift in
    let half := Z.quot divisor 2 in
    let quot := Z.quot x divisor in
    let remainder := Z.rem x divisor in
    let quot :=
      if remainder >? half then quot + 1
      else if remainder <? - half then quot - 1
      else if remainder =? half then quot + Z.land quot 1
      else if remainder =? - half then quot - Z.land quot 1
      else quot in
    cq_clamp32 quot faults.

Definition cq_mul_q16 (a b : Z) (faults : cq_fault_flags_t)
  : Z * cq_fault_flags_t :=
  let wide := a * b in
  cq_round_shift_rne wide CQ_Q16_SHIFT faults.

(** [b] is an [int32_t]: the negation [-b] is an [int] operation, which for
    [b = INT32_MIN] does not fit and keeps the low 32 bits. The shifted
    dividend [(int64_t)a << 16] is [a * 2^16] and fits in 64 bits. *)
Definition cq_div_q16 (a b : Z) (faults : cq_fault_flags_t)
  : Z * cq_fault_flags_t :=
  if b =? 0 then (0, set_div_zero faults)
  else
    let wide_a := a * 2 ^ CQ_Q16_SHIFT in
    let quot := Z.quot wide_a b in
    let rem := Z.rem wide_a b in
    let half_b := if b >? 0 then Z.quot b 2 else Z.quot (wrap_s32 (- b)) 2 in
    let abs_rem := if rem >=? 0 then rem else - rem in
    let quot :=
      if abs_rem >? half_b then quot + (if quot >=? 0 then 1 else -1)
      else if abs_rem =? half_b then
        if negb (Z.land quot 1 =? 0)
        then quot + (if quot >=? 0 then 1 else -1)
        else quot
      else quot in
    cq_clamp32 quot faults.

(** [cq_overflow_is_safe]: one unguarded product in [uint64_t]. *)
Definition cq_overflow_is_safe (proof : cq_overflow_proof_t) : bool :=
  if dot_product_len proof =? 0 then true
  else
    let product :=
      mul_u64 (mul_u64 (dot_product_len proof) (max_weight_mag proof))
              (max_input_mag proof) in
    product <? Z.shiftl 1 63.

(** [cq_add64_sat]: the guards are evaluated left to right, so that
    [INT64_MAX - b] is computed for [b > 0] only and [INT64_MIN - b] for
    [b < 0] only; the final sum is the 64-bit machine sum. *)
Definition cq_add64_sat (a b : Z) (faults : cq_fault_flags_t)
  : Z * cq_fault_flags_t :=
  if (b >? 0) && (a >? INT64_MAX - b) then (INT64_MAX, set_overflow faults)
  else if (b <? 0) && (a <? INT64_MIN - b) then (INT64_MIN, set_underflow faults)
  else (wrap_s64 (a + b), faults).

Definition cq_sub64_sat (a b : Z) (faults : cq_fault_flags_t)
  : Z * cq_fault_flags_t :=
  if (b <? 0) && (a >? INT64_MAX + b) then (INT64_MAX, set_overflow faults)
  else if (b >? 0) && (a <? INT64_MIN + b) then (INT64_MIN, set_underflow faults)
  else (wrap_s64 (a - b), faults).

(** [cq_mac_q16]: the accumulator is passed in and returned. The product
    of two [int32_t] values is computed in [int64_t]. *)
Definition cq_mac_q16 (acc a b : Z) (faults : cq_fault_flags_t)
  : Z * cq_fault_flags_t :=
  let product := a * b in
  cq_add64_sat acc product faults.

Definition cq_acc_to_q16 (acc : Z) (faults : cq_fault_flags_t)
  : Z * cq_fault_flags_t :=
  cq_round_shift_rne acc CQ_Q16_SHIFT faults.

(** [v >> s] on a negative signed operand is implementation-defined: a
    compiler either copies the sign bit in or shifts zeros in. *)
Inductive signed_shift : Type := SignExtending | ZeroFilling.

Definition shr_s32 (impl : signed_shift) (v s : Z) : Z :=
  match impl with
  | SignExtending => Z.shiftr v s
  | ZeroFilling => wrap_s32 (Z.shiftr (wrap_u32 v) s)
  end.

Definition shr_s64 (impl : signed_shift) (v s : Z) : Z :=
  match impl with
  | SignExtending => Z.shiftr v s
  | ZeroFilling => wrap_s64 (Z.shiftr (wrap_u64 v) s)
  end.

(** [cq_sra32], [cq_sra64]: the branch compiled by GCC and Clang, whose
    shift is sign-extending, and the fallback of the other compilers. The
    mask [~(~0U >> s)] is unsigned, so the [|] is computed on the unsigned
    images and its result converted back on return. *)
Definition cq_sra32_gnu (v s : Z) : Z := shr_s32 SignExtending v s.

Definition cq_sra32_fallback (impl : signed_shift) (v s : Z) : Z :=
  if (v <? 0) && (s >? 0) then
    wrap_s32 (Z.lor (wrap_u32 (shr_s32 impl v s))
                    (wrap_u32 (Z.lnot (Z.shiftr UINT32_MAX s))))
  else shr_s32 impl v s.

Definition cq_sra64_gnu (v s : Z) : Z := shr_s64 SignExtending v s.

Definition cq_sra64_fallback (impl : signed_shift) (v s : Z) : Z :=
  if (v <? 0) && (s >? 0) then
    wrap_s64 (Z.lor (wrap_u64 (shr_s64 impl v s))
                    (wrap_u64 (Z.lnot (Z.shiftr UINT64_MAX s))))
  else shr_s64 impl v s.

End DVM.

(** The exact quotient [x / d] rounded to the nearest integer, ties to the
    even integer, stated without reference to any algorithm: [q] is within
    one half of [x / d], and when it is exactly one half away it is even. *)
Definition is_rne (x d q : Z) : Prop :=
  2 * Z.abs (x - q * d) <= Z.abs d /\
  (2 * Z.abs (x - q * d) = Z.abs d -> Z.even q = true).


(* ====================================================================== *)
(** ** IEEE-754 arithmetic of C [float] and [double] *)
(* ====================================================================== *)

(** C comparisons on floating-point values: [a < b] is [SFltb a b],
    [a > b] is [SFltb b a], [a <= b] is [SFleb a b]; all are false as soon
    as one operand is a NaN. *)

Definition isnan (v : spec_float) : bool :=
  match v with S754_nan => true | _ => false end.

Definition isinf (v : spec_float) : bool :=
  match v with S754_infinity _ => true | _ => false end.

(** Conversion of a floating-point value to an unsigned integer discards
    the fractional part. *)
Definition float_to_uint (v : spec_float) : Z :=
  match v with
  | S754_finite false m (Zneg p) => Z.shiftr (Zpos m) (Zpos p)
  | S754_finite false m e => Z.shiftl (Zpos m) e
  | _ => 0
  end.

(** binary32: the C type [float]. *)
Module F32.
Definition prec : Z := 24.
Definition emax : Z := 128.
Definition add := SFadd prec emax.
Definition sub := SFsub prec emax.
Definition mul := SFmul prec emax.
Definition div := SFdiv prec emax.
Definition valid := valid_binary prec emax.
Definition of_Z (n : Z) : spec_float := binary_normalize prec emax n 0 false.
Definition zero : spec_float := S754_zero false.
Definition one : spec_float := Eval vm_compute in of_Z 1.
(** [FLT_MAX] = (2^24 - 1) * 2^104. *)
Definition FLT_MAX : spec_float := S754_finite false 16777215 104.
(** The literal [0.1f] = 13421773 * 2^-27. *)
Definition lit_0_1 : spec_float := S754_finite false 13421773 (-27).
(** The literal [1e-7f] = 14073749 * 2^-47. *)
Definition lit_1em7 : spec_float := S754_finite false 14073749 (-47).
End F32.

(** binary64: the C type [double]. *)
Module F64.
Definition prec : Z := 53.
Definition emax : Z := 1024.
Definition add := SFadd prec emax.
Definition sub := SFsub prec emax.
Definition mul := SFmul prec emax.
Definition div := SFdiv prec emax.
Definition valid := valid_binary prec emax.
Definition of_Z (n : Z) : spec_float := binary_normalize prec emax n 0 false.
(** [m * 2^e] rounded to binary64 (exact for the dyadic literals below). *)
Definition dyadic (m e : Z) : spec_float := binary_normalize prec emax m e false.
Definition zero : spec_float := S754_zero false.
Definition one : spec_float := Eval vm_compute in of_Z 1.
Definition half : spec_float := Eval vm_compute in dyadic 1 (-1).
(** The conversion [(double)f] of a [float]: every binary32 number is a
    binary64 number, so that the rounding of [binary_normalize] is exact. *)
Definition of_float (x : spec_float) : spec_float :=
  match x with
  | S754_finite s m e =>
      binary_normalize prec emax (if s then Zneg m else Zpos m) e s
  | _ => x
  end.

End F64.

(* ====================================================================== *)
(** ** audit/sha256.c *)
(* ====================================================================== *)

Module SHA256.

(** Bytes are integers in [0, 255], 32-bit words integers in [0, 2^32). *)
Definition wrap_u8 (x : Z) : Z := x mod 2 ^ 8.
(** The round constants [K[64]], row by row as the source lays them out. *)
Definition K : list Z := Eval cbv in
  concat
    [[0x428a2f98; 0x71374491; 0xb5c0fbcf; 0xe9b5dba5];
     [0x3956c25b; 0x59f111f1; 0x923f82a4; 0xab1c5ed5];
     [0xd807aa98; 0x12835b01; 0x243185be; 0x550c7dc3];
     [0x72be5d74; 0x80deb1fe; 0x9bdc06a7; 0xc19bf174];
     [0xe49b69c1; 0xefbe4786; 0x0fc19dc6; 0x240ca1cc];
     [0x2de92c6f; 0x4a7484aa; 0x5cb0a9dc; 0x76f988da];
     [0x983e5152; 0xa831c66d; 0xb00327c8; 0xbf597fc7];
     [0xc6e00bf3; 0xd5a79147; 0x06ca6351; 0x14292967];
     [0x27b70a85; 0x2e1b2138; 0x4d2c6dfc; 0x53380d13];
     [0x650a7354; 0x766a0abb; 0x81c2c92e; 0x92722c85];
     [0xa2bfe8a1; 0xa81a664b; 0xc24b8b70; 0xc76c51a3];
     [0xd192e819; 0xd6990624; 0xf40e3585; 0x106aa070];
     [0x19a4c116; 0x1e376c08; 0x2748774c; 0x34b0bcb5];
     [0x391c0cb3; 0x4ed8aa4a; 0x5b9cca4f; 0x682e6ff3];
     [0x748f82ee; 0x78a5636f; 0x84c87814; 0x8cc70208];
     [0x90befffa; 0xa4506ceb; 0xbef9a3f7; 0xc67178f2]].

Definition rotr (x n : Z) : Z :=
  Z.lor (Z.shiftr x n) (wrap_u32 (Z.shiftl x (32 - n))).

Record cq_sha256_ctx_t : Type := mk_ctx {
  state : list Z;
  count : Z;
  buffer : list Z
}.

(** The big-endian word [i] of a block. *)
Definition load_word (data : list Z) (i : nat) : Z :=
  Z.lor (Z.lor (Z.lor (Z.shiftl (nth (i * 4 + 0) data 0) 24)
                      (Z.shiftl (nth (i * 4 + 1) data 0) 16))
               (Z.shiftl (nth (i * 4 + 2) data 0) 8))
        (nth (i * 4 + 3) data 0).

(** The second loop of [transform]: [w] holds the words computed so far
    and is extended by [n] words. *)
Fixpoint expand (n : nat) (w : list Z) : list Z :=
  match n with
  | O => w
  | S n' =>
      let i := length w in
      let w15 := nth (i - 15) w 0 in
      let w2 := nth (i - 2) w 0 in
      let s0 := Z.lxor (Z.lxor (rotr w15 7) (rotr w15 18)) (Z.shiftr w15 3) in
      let s1 := Z.lxor (Z.lxor (rotr w2 17) (rotr w2 19)) (Z.shiftr w2 10) in
      expand n' (w ++ [wrap_u32 (nth (i - 16) w 0 + s0 + nth (i - 7) w 0 + s1)])
  end.

Record working : Type := mk_working {
  wa : Z; wb : Z; wc : Z; wd : Z; we : Z; wf : Z; wg : Z; wh : Z
}.

(** One iteration of the third loop, on [K[i]] and [w[i]]. *)
Definition round (v : working) (kw : Z * Z) : working :=
  let '(k, w) := kw in
  let S1 := Z.lxor (Z.lxor (rotr (we v) 6) (rotr (we v) 11)) (rotr (we v) 25) in
  let ch := Z.lxor (Z.land (we v) (wf v))
                   (Z.land (wrap_u32 (Z.lnot (we v))) (wg v)) in
  let temp1 := wrap_u32 (wh v + S1 + ch + k + w) in
  let S0 := Z.lxor (Z.lxor (rotr (wa v) 2) (rotr (wa v) 13)) (rotr (wa v) 22) in
  let maj := Z.lxor (Z.lxor (Z.land (wa v) (wb v)) (Z.land (wa v) (wc v)))
                    (Z.land (wb v) (wc v)) in
  let temp2 := wrap_u32 (S0 + maj) in
  mk_working (wrap_u32 (temp1 + temp2)) (wa v) (wb v) (wc v)
             (wrap_u32 (wd v + temp1)) (we v) (wf v) (wg v).

(** [transform]: the new value of [ctx->state] after the 64 bytes at
    [data] have been absorbed. *)
Definition transform (st : list Z) (data : list Z) : list Z :=
  let w := expand 48 (map (load_word data) (seq 0 16)) in
  let s i := nth i st 0 in
  let v := fold_left round (combine K w)
             (mk_working (s 0%nat) (s 1%nat) (s 2%nat) (s 3%nat)
                         (s 4%nat) (s 5%nat) (s 6%nat) (s 7%nat)) in
  [wrap_u32 (s 0%nat + wa v); wrap_u32 (s 1%nat + wb v);
   wrap_u32 (s 2%nat + wc v); wrap_u32 (s 3%nat + wd v);
   wrap_u32 (s 4%nat + we v); wrap_u32 (s 5%nat + wf v);
   wrap_u32 (s 6%nat + wg v); wrap_u32 (s 7%nat + wh v)].

(** [cq_sha256_init] sets the state and the count; the 64 bytes of
    [ctx->buffer] keep whatever they held. *)
Definition cq_sha256_init (ctx : cq_sha256_ctx_t) : cq_sha256_ctx_t :=
  mk_ctx [0x6a09e667; 0xbb67ae85; 0x3c6ef372; 0xa54ff53a;
          0x510e527f; 0x9b05688c; 0x1f83d9ab; 0x5be0cd19]
         0 (buffer ctx).

(** [memcpy (dst + off, src, length src)] and [memset (dst + off, c, n)]
    inside an array. *)
Definition memcpy_at (dst : list Z) (off : nat) (src : list Z) : list Z :=
  firstn off dst ++ src ++ skipn (off + length src) dst.

Definition memset_at (dst : list Z) (off : nat) (c : Z) (n : nat) : list Z :=
  firstn off dst ++ repeat c n ++ skipn (off + n) dst.

(** The loop [while (len >= 64)] of [cq_sha256_update]: returns the state
    and the bytes left at [p]. At most [length p / 64] iterations run, so
    that a fuel of [length p] never runs out. *)
Fixpoint transform_blocks (fuel : nat) (st : list Z) (p : list Z)
  : list Z * list Z :=
  match fuel with
  | O => (st, p)
  | S fuel' =>
      if (64 <=? length p)%nat
      then transform_blocks fuel' (transform st (firstn 64 p)) (skipn 64 p)
      else (st, p)
  end.

Definition cq_sha256_update (ctx : cq_sha256_ctx_t) (data : list Z)
  : cq_sha256_ctx_t :=
  let len := length data in
  let idx := Z.to_nat (Z.land (count ctx) 63) in
  let count' := wrap_u64 (count ctx + Z.of_nat len) in
  if (0 <? idx)%nat then
    let fill := (64 - idx)%nat in
    if (len <? fill)%nat then
      mk_ctx (state ctx) count' (memcpy_at (buffer ctx) idx data)
    else
      let buffer1 := memcpy_at (buffer ctx) idx (firstn fill data) in
      let state1 := transform (state ctx) buffer1 in
      let p := skipn fill data in
      let '(state2, p') := transform_blocks (length p) state1 p in
      mk_ctx state2 count'
             (if (0 <? length p')%nat then memcpy_at buffer1 0 p' else buffer1)
  else
    let '(state2, p') := transform_blocks len (state ctx) data in
    mk_ctx state2 count'
           (if (0 <? length p')%nat then memcpy_at (buffer ctx) 0 p'
            else buffer ctx).

(** [cq_sha256_final]: the context on return and the 32 digest bytes. *)
Definition cq_sha256_final (ctx : cq_sha256_ctx_t)
  : cq_sha256_ctx_t * list Z :=
  let bits := wrap_u64 (count ctx * 8) in
  let idx := Z.to_nat (Z.land (count ctx) 63) in
  let buffer1 := memset_at (buffer ctx) idx 0x80 1 in
  let idx := S idx in
  let '(state1, buffer2, idx) :=
    if (56 <? idx)%nat then
      let b := memset_at buffer1 idx 0 (64 - idx) in
      (transform (state ctx) b, b, O)
    else (state ctx, buffer1, idx) in
  let buffer3 := memset_at buffer2 idx 0 (56 - idx) in
  let buffer4 :=
    memcpy_at buffer3 56
      (map (fun i => wrap_u8 (Z.shiftr bits (56 - Z.of_nat i * 8))) (seq 0 8)) in
  let state2 := transform state1 buffer4 in
  (mk_ctx state2 (count ctx) buffer4,
   flat_map (fun s => [wrap_u8 (Z.shiftr s 24); wrap_u8 (Z.shiftr s 16);
                       wrap_u8 (Z.shiftr s 8); wrap_u8 s])
            state2).

(** [cq_sha256]: [ctx] is the uninitialised local context. *)
Definition cq_sha256 (ctx : cq_sha256_ctx_t) (data : list Z) : list Z :=
  let ctx := cq_sha256_init ctx in
  let ctx := cq_sha256_update ctx data in
  snd (cq_sha256_final ctx).

End SHA256.

(* ====================================================================== *)
(** ** analyze/analyze.c *)
(* ====================================================================== *)

Module Analyze.

(** [cq_compute_overflow_proof]: returns the boolean result together with
    the populated proof record. Every product is the wrapping [uint64_t]
    product; the guards decide whether it is computed at all. *)
Definition cq_compute_overflow_proof (max_weight_mag max_input_mag
                                      dot_product_len : Z)
  : bool * cq_overflow_proof_t :=
  let proof_with := mk_overflow_proof max_weight_mag max_input_mag
                                      dot_product_len in
  let n := dot_product_len in
  let w := max_weight_mag in
  let x := max_input_mag in
  if (n =? 0) || (w =? 0) || (x =? 0) then
    (true, proof_with (Z.shiftl 1 63) true)
  else if w >? UINT64_MAX / n then
    (false, proof_with 0 false)
  else
    let nw := mul_u64 n w in
    if x >? UINT64_MAX / nw then
      (false, proof_with 0 false)
    else
      let product := mul_u64 nw x in
      let limit := Z.shiftl 1 63 in
      if product <? limit then (true, proof_with (limit - product) true)
      else (false, proof_with 0 false).

(** [cq_layer_contract_t]: the fields read or written by the error
    recurrence (the ranges and padding play no role in it). *)
Record cq_layer_contract_t : Type := mk_contract {
  layer_index : Z;
  layer_type : Z;
  fan_in : Z;
  fan_out : Z;
  amp_factor : spec_float;
  weight_error_contrib : spec_float;
  bias_error_contrib : spec_float;
  projection_error : spec_float;
  local_error_sum : spec_float;
  input_error_bound : spec_float;
  output_error_bound : spec_float;
  overflow_proof : cq_overflow_proof_t;
  is_valid : bool
}.

Definition cq_layer_contract_init (layer_index layer_type fan_in fan_out : Z)
  : cq_layer_contract_t :=
  mk_contract layer_index layer_type fan_in fan_out
              F64.one F64.zero F64.zero F64.zero F64.zero F64.zero F64.zero
              (mk_overflow_proof 0 0 0 0 false) false.

(** [cq_compute_error_contributions]: the guard returns the contract
    untouched when a scale is [<= 0.0]. *)
Definition cq_compute_error_contributions (contract : cq_layer_contract_t)
    (weight_scale output_scale max_input_norm : spec_float)
  : cq_layer_contract_t :=
  if SFleb weight_scale F64.zero || SFleb output_scale F64.zero then contract
  else
    let weight_err := F64.mul (F64.div F64.half weight_scale) max_input_norm in
    let bias_err := F64.div F64.half (F64.mul weight_scale weight_scale) in
    let proj_err := F64.div F64.half output_scale in
    mk_contract (layer_index contract) (layer_type contract)
                (fan_in contract) (fan_out contract)
                (amp_factor contract)
                weight_err bias_err proj_err
                (F64.add (F64.add weight_err bias_err) proj_err)
                (input_error_bound contract) (output_error_bound contract)
                (overflow_proof contract) (is_valid contract).

Definition cq_apply_error_recurrence (contract : cq_layer_contract_t)
    (input_error_bound : spec_float) : cq_layer_contract_t :=
  mk_contract (layer_index contract) (layer_type contract)
              (fan_in contract) (fan_out contract)
              (amp_factor contract)
              (weight_error_contrib contract) (bias_error_contrib contract)
              (projection_error contract) (local_error_sum contract)
              input_error_bound
              (F64.add (F64.mul (amp_factor contract) input_error_bound)
                       (local_error_sum contract))
              (overflow_proof contract) true.

(** [cq_compute_entry_error]: 0.5 / 2^exp. *)
Definition cq_compute_entry_error (input_scale_exp : Z) : spec_float :=
  let scale := F64.of_Z (Z.shiftl 1 input_scale_exp) in
  F64.div F64.half scale.

(** [cq_analysis_ctx_t]; [layers] is the caller's array of [layer_count]
    contracts. *)
Record cq_analysis_ctx_t : Type := mk_ctx {
  entry_error : spec_float;
  input_scale_exp : Z;
  layers : list cq_layer_contract_t;
  total_error_bound : spec_float;
  is_complete : bool;
  ctx_is_valid : bool;
  faults : cq_fault_flags_t
}.

Definition layer_count (ctx : cq_analysis_ctx_t) : Z :=
  Z.of_nat (length (layers ctx)).

Definition cq_analysis_ctx_init (layers : list cq_layer_contract_t)
    (input_scale_exp : option Z) : cq_analysis_ctx_t :=
  let e := match input_scale_exp with Some e => e | None => 16 end in
  mk_ctx (cq_compute_entry_error e) e layers F64.zero false false
         cq_fault_clear.

(** The driver applies the recurrence layer by layer, feeding each layer
    the output bound of the previous one and the first layer the entry
    error (as in [test_error_recurrence_chain]). *)
Fixpoint propagate_error (eps : spec_float) (ls : list cq_layer_contract_t)
  : list cq_layer_contract_t :=
  match ls with
  | [] => []
  | c :: cs =>
      let c' := cq_apply_error_recurrence c eps in
      c' :: propagate_error (output_error_bound c') cs
  end.

Definition analyze_layers (ctx : cq_analysis_ctx_t) : cq_analysis_ctx_t :=
  mk_ctx (entry_error ctx) (input_scale_exp ctx)
         (propagate_error (entry_error ctx) (layers ctx))
         (total_error_bound ctx) (is_complete ctx) (ctx_is_valid ctx)
         (faults ctx).

(** [cq_compute_total_error] (non-null context): the total is the output
    bound of the last layer, or the entry error when there is no layer. *)
Definition cq_compute_total_error (ctx : cq_analysis_ctx_t)
  : Z * cq_analysis_ctx_t :=
  match layers ctx with
  | [] =>
      (0, mk_ctx (entry_error ctx) (input_scale_exp ctx) (layers ctx)
                 (entry_error ctx) true true (faults ctx))
  | c0 :: cs =>
      (0, mk_ctx (entry_error ctx) (input_scale_exp ctx) (layers ctx)
                 (output_error_bound (last cs c0))
                 true (forallb is_valid (layers ctx)) (faults ctx))
  end.

(** [cq_analysis_digest_t]. *)
Record cq_analysis_digest_t : Type := mk_analysis_digest {
  digest_entry_error : spec_float;
  digest_total_error_bound : spec_float;
  digest_layer_count : Z;
  overflow_safe_count : Z;
  layers_hash : list Z
}.

(** [cq_range_t] and [cq_range_magnitude] of analyze.h. *)
Record cq_range_t : Type := mk_range {
  min_val : spec_float;
  max_val : spec_float
}.

Definition cq_range_magnitude (r : cq_range_t) : spec_float :=
  let abs_min := if SFltb (min_val r) F64.zero then SFopp (min_val r)
                 else min_val r in
  let abs_max := if SFltb (max_val r) F64.zero then SFopp (max_val r)
                 else max_val r in
  if SFltb abs_max abs_min then abs_min else abs_max.

(** [cq_compute_weight_range]: [weights] is [None] for a NULL pointer and
    otherwise the array of [count] floats; the range pointer is not NULL. *)
Definition cq_compute_weight_range (weights : option (list spec_float))
  : cq_range_t :=
  match weights with
  | None | Some [] => mk_range F64.zero F64.zero
  | Some (w0 :: ws) =>
      let step (acc : spec_float * spec_float) (w : spec_float) :=
        let v := F64.of_float w in
        ((if SFltb v (fst acc) then v else fst acc),
         (if SFltb (snd acc) v then v else snd acc)) in
      let acc := fold_left step ws (F64.of_float w0, F64.of_float w0) in
      mk_range (fst acc) (snd acc)
  end.

(** [cq_propagate_range_relu] (non-null output pointer). *)
Definition cq_propagate_range_relu (input_range : option cq_range_t)
  : cq_range_t :=
  match input_range with
  | None => mk_range F64.zero F64.zero
  | Some r =>
      mk_range (if SFltb F64.zero (min_val r) then min_val r else F64.zero)
               (if SFltb F64.zero (max_val r) then max_val r else F64.zero)
  end.

(** The inner loop of [cq_row_sum_norm]: the sum of [|w|] over row [i] of
    a row-major matrix with [cols] columns. *)
Definition row_abs_sum (weights : list spec_float) (cols i : nat)
  : spec_float :=
  fold_left
    (fun row_sum j =>
       let w := F64.of_float (nth (i * cols + j) weights F32.zero) in
       F64.add row_sum (if SFltb w F64.zero then SFopp w else w))
    (seq 0 cols) F64.zero.

Definition cq_row_sum_norm (weights : option (list spec_float))
    (rows cols : nat) : spec_float :=
  match weights with
  | None => F64.zero
  | Some ws =>
      if (rows =? 0)%nat || (cols =? 0)%nat then F64.zero
      else
        fold_left
          (fun max_row_sum i =>
             let row_sum := row_abs_sum ws cols i in
             if SFltb max_row_sum row_sum then row_sum else max_row_sum)
          (seq 0 rows) F64.zero
  end.

(** [cq_analysis_passed] of analyze.h. *)
Definition cq_analysis_passed (ctx : cq_analysis_ctx_t) : bool :=
  is_complete ctx && ctx_is_valid ctx && negb (cq_has_fatal_fault (faults ctx)).

Section Digest.

(** The bytes that the array of layer contracts occupies in memory, and
    the uninitialised hashing context of the call. *)
Variable contracts_bytes : list cq_layer_contract_t -> list Z.
Variable sha_ctx : SHA256.cq_sha256_ctx_t.

(** [cq_analysis_digest_generate] (non-null pointers). *)
Definition cq_analysis_digest_generate (ctx : cq_analysis_ctx_t)
  : Z * cq_analysis_digest_t :=
  let overflow_safe :=
    fold_left (fun n c => if is_safe (overflow_proof c) then wrap_u32 (n + 1)
                          else n)
              (layers ctx) 0 in
  let hash :=
    match layers ctx with
    | [] => repeat 0 32
    | _ :: _ =>
        snd (SHA256.cq_sha256_final
               (SHA256.cq_sha256_update (SHA256.cq_sha256_init sha_ctx)
                                        (contracts_bytes (layers ctx))))
    end in
  (0, mk_analysis_digest (entry_error ctx) (total_error_bound ctx)
                         (layer_count ctx) overflow_safe hash).

End Digest.

End Analyze.

(* ====================================================================== *)
(** ** calibrate/calibrate.c *)
(* ====================================================================== *)

Module Calibrate.

Record cq_calibrate_config_t : Type := mk_config {
  coverage_min_threshold : spec_float;
  coverage_p10_threshold : spec_float;
  degenerate_epsilon : spec_float;
  min_samples : Z
}.

Record cq_tensor_stats_t : Type := mk_stats {
  tensor_id : Z;
  layer_index : Z;
  min_observed : spec_float;
  max_observed : spec_float;
  min_safe : spec_float;
  max_safe : spec_float;
  coverage_ratio : spec_float;
  is_degenerate : bool;
  range_veto : bool
}.

Definition cq_tensor_stats_init (tensor_id layer_index : Z)
    (min_safe max_safe : spec_float) : cq_tensor_stats_t :=
  mk_stats tensor_id layer_index F32.FLT_MAX (SFopp F32.FLT_MAX)
           min_safe max_safe F32.zero false false.

Definition cq_tensor_stats_update_single (stats : cq_tensor_stats_t)
    (value : spec_float) : cq_tensor_stats_t :=
  if isnan value || isinf value then stats
  else
    let mn := if SFltb value (min_observed stats) then value
              else min_observed stats in
    let mx := if SFltb (max_observed stats) value then value
              else max_observed stats in
    mk_stats (tensor_id stats) (layer_index stats) mn mx
             (min_safe stats) (max_safe stats) (coverage_ratio stats)
             (is_degenerate stats) (range_veto stats).

(** [cq_tensor_stats_update]: the loop body is the single-value update. *)
Definition cq_tensor_stats_update (stats : cq_tensor_stats_t)
    (tensor : list spec_float) : cq_tensor_stats_t :=
  fold_left cq_tensor_stats_update_single tensor stats.

(** The floating-point divisions a call performs, with their operands. *)
Inductive fp_event : Type :=
| EvDiv (numerator denominator : spec_float).

Definition set_coverage (stats : cq_tensor_stats_t) (degenerate : bool)
    (coverage : spec_float) : cq_tensor_stats_t :=
  mk_stats (tensor_id stats) (layer_index stats)
           (min_observed stats) (max_observed stats)
           (min_safe stats) (max_safe stats) coverage degenerate
           (range_veto stats).

(** [cq_tensor_compute_coverage]: [config = None] is the NULL
    configuration. The second component records the division of the last
    statement when, and only when, control reaches it. *)
Definition cq_tensor_compute_coverage (stats : cq_tensor_stats_t)
    (config : option cq_calibrate_config_t)
  : cq_tensor_stats_t * list fp_event :=
  let epsilon := match config with
                 | Some c => degenerate_epsilon c
                 | None => F32.lit_1em7
                 end in
  let observed_range := F32.sub (max_observed stats) (min_observed stats) in
  let safe_range := F32.sub (max_safe stats) (min_safe stats) in
  if SFltb (SFabs observed_range) epsilon then
    (set_coverage stats true F32.one, [])
  else if SFltb (SFabs safe_range) epsilon then
    (set_coverage stats true F32.one, [])
  else
    (set_coverage stats false (F32.div observed_range safe_range),
     [EvDiv observed_range safe_range]).

Definition cq_tensor_check_range_veto (stats : cq_tensor_stats_t)
  : bool * cq_tensor_stats_t :=
  let with_veto v :=
    mk_stats (tensor_id stats) (layer_index stats)
             (min_observed stats) (max_observed stats)
             (min_safe stats) (max_safe stats) (coverage_ratio stats)
             (is_degenerate stats) v in
  if SFltb (min_observed stats) (min_safe stats)
     || SFltb (max_safe stats) (max_observed stats)
  then (true, with_veto true)
  else (false, with_veto false).

(** [cq_calibration_report_t]; [tensors] is the caller's array of
    [tensor_count] statistics. *)
Record cq_calibration_report_t : Type := mk_report {
  dataset_hash : list Z;
  sample_count : Z;
  tensors : list cq_tensor_stats_t;
  global_coverage_min : spec_float;
  global_coverage_p10 : spec_float;
  global_coverage_mean : spec_float;
  range_veto_triggered : bool;
  coverage_veto_triggered : bool;
  faults : cq_fault_flags_t
}.

Definition tensor_count (report : cq_calibration_report_t) : Z :=
  Z.of_nat (length (tensors report)).

Definition cq_float_compare_asc (fa fb : spec_float) : Z :=
  if SFltb fa fb then -1
  else if SFltb fb fa then 1
  else 0.

(** The C library's [qsort], modelled by a straight insertion sort driven
    by the comparison callback. *)
Fixpoint qsort_insert (cmp : spec_float -> spec_float -> Z) (x : spec_float)
    (l : list spec_float) : list spec_float :=
  match l with
  | [] => [x]
  | y :: l' => if cmp x y <=? 0 then x :: l else y :: qsort_insert cmp x l'
  end.

Fixpoint qsort (cmp : spec_float -> spec_float -> Z) (l : list spec_float)
  : list spec_float :=
  match l with
  | [] => []
  | x :: l' => qsort_insert cmp x (qsort cmp l')
  end.

(** [(uint32_t)((float)n * 0.1f)], clipped to [n - 1]. *)
Definition p10_index (n : Z) : Z :=
  let p10_idx := float_to_uint (F32.mul (F32.of_Z n) F32.lit_0_1) in
  if p10_idx >=? n then n - 1 else p10_idx.

Definition coverage_sum (cs : list spec_float) : spec_float :=
  fold_left F32.add cs F32.zero.

Definition coverage_min (cs : list spec_float) : spec_float :=
  fold_left (fun min_cov c => if SFltb c min_cov then c else min_cov)
            cs F32.FLT_MAX.

(** [cq_calibration_compute_global_coverage]; [buffer_available] tells
    whether [malloc] returned the temporary sort buffer. *)
Definition cq_calibration_compute_global_coverage
    (report : cq_calibration_report_t) (buffer_available : bool)
  : cq_calibration_report_t :=
  match tensors report with
  | [] => report
  | _ :: _ =>
      let n := tensor_count report in
      let coverages := map coverage_ratio (tensors report) in
      let sum := coverage_sum coverages in
      let min_cov := coverage_min coverages in
      let mean := F32.div sum (F32.of_Z n) in
      let p10 :=
        if buffer_available then
          nth (Z.to_nat (p10_index n))
              (qsort cq_float_compare_asc coverages) F32.zero
        else min_cov in
      mk_report (dataset_hash report) (sample_count report) (tensors report)
                min_cov p10 mean
                (range_veto_triggered report)
                (coverage_veto_triggered report) (faults report)
  end.

Record cq_calibration_digest_t : Type := mk_digest {
  digest_dataset_hash : list Z;
  digest_sample_count : Z;
  digest_tensor_count : Z;
  digest_global_coverage_min : spec_float;
  digest_global_coverage_p10 : spec_float;
  range_veto_status : Z;
  coverage_veto_status : Z
}.

(** [cq_calibration_digest_generate] (non-null pointers). *)
Definition cq_calibration_digest_generate (report : cq_calibration_report_t)
  : Z * cq_calibration_digest_t :=
  (0, mk_digest (dataset_hash report) (sample_count report)
                (tensor_count report)
                (global_coverage_min report) (global_coverage_p10 report)
                (if range_veto_triggered report then 1 else 0)
                (if coverage_veto_triggered report then 1 else 0)).

(** [cq_tensor_range_valid] of calibrate.h. *)
Definition cq_tensor_range_valid (stats : cq_tensor_stats_t) : bool :=
  SFleb (min_safe stats) (min_observed stats)
  && SFleb (max_observed stats) (max_safe stats).

Definition cq_tensor_check_degenerate (stats : cq_tensor_stats_t)
    (epsilon : spec_float) : bool * cq_tensor_stats_t :=
  let with_degenerate d :=
    mk_stats (tensor_id stats) (layer_index stats)
             (min_observed stats) (max_observed stats)
             (min_safe stats) (max_safe stats) (coverage_ratio stats)
             d (range_veto stats) in
  let range := F32.sub (max_observed stats) (min_observed stats) in
  if SFltb (SFabs range) epsilon then (true, with_degenerate true)
  else (false, with_degenerate false).

Definition cq_calibration_report_init (tensors : list cq_tensor_stats_t)
  : cq_calibration_report_t :=
  mk_report (repeat 0 32) 0 tensors F32.zero F32.zero F32.zero
            false false cq_fault_clear.

(** [cq_calibration_report_add_sample] of calibrate.h: a 32-bit counter. *)
Definition cq_calibration_report_add_sample (report : cq_calibration_report_t)
  : cq_calibration_report_t :=
  mk_report (dataset_hash report) (wrap_u32 (sample_count report + 1))
            (tensors report)
            (global_coverage_min report) (global_coverage_p10 report)
            (global_coverage_mean report) (range_veto_triggered report)
            (coverage_veto_triggered report) (faults report).

Definition cq_calibration_check_coverage_threshold
    (report : cq_calibration_report_t) (config : cq_calibrate_config_t)
  : bool :=
  SFltb (global_coverage_min report) (coverage_min_threshold config)
  || SFltb (global_coverage_p10 report) (coverage_p10_threshold config).

(** State of the tensor loop of [cq_calibration_report_finalize]: the
    tensors processed so far, the report's range-veto flag and the
    caller's fault set. *)
Record finalize_state : Type := mk_finalize {
  fin_tensors : list cq_tensor_stats_t;
  fin_range_veto : bool;
  fin_faults : cq_fault_flags_t
}.

Definition finalize_tensor (config : cq_calibrate_config_t)
    (st : finalize_state) (t : cq_tensor_stats_t) : finalize_state :=
  let t1 := fst (cq_tensor_compute_coverage t (Some config)) in
  let '(veto, t2) := cq_tensor_check_range_veto t1 in
  if veto then mk_finalize (fin_tensors st ++ [t2]) true
                           (set_range_exceed (fin_faults st))
  else mk_finalize (fin_tensors st ++ [t2]) (fin_range_veto st)
                   (fin_faults st).

(** [cq_calibration_report_finalize] (non-null pointers, [tensors] an
    array of [tensor_count] elements): result code, report and caller's
    fault set on return. *)
Definition cq_calibration_report_finalize (report : cq_calibration_report_t)
    (config : cq_calibrate_config_t) (faults0 : cq_fault_flags_t)
    (buffer_available : bool)
  : Z * cq_calibration_report_t * cq_fault_flags_t :=
  let st := fold_left (finalize_tensor config) (tensors report)
              (mk_finalize [] (range_veto_triggered report) faults0) in
  let r1 := mk_report (dataset_hash report) (sample_count report)
                      (fin_tensors st)
                      (global_coverage_min report) (global_coverage_p10 report)
                      (global_coverage_mean report) (fin_range_veto st)
                      (coverage_veto_triggered report) (faults report) in
  let r2 := cq_calibration_compute_global_coverage r1 buffer_available in
  let cov_veto := if cq_calibration_check_coverage_threshold r2 config
                  then true else coverage_veto_triggered r2 in
  (0,
   mk_report (dataset_hash r2) (sample_count r2) (tensors r2)
             (global_coverage_min r2) (global_coverage_p10 r2)
             (global_coverage_mean r2) (range_veto_triggered r2)
             cov_veto (cq_fault_merge (faults r2) (fin_faults st)),
   fin_faults st).

(** [cq_calibration_passed] and [cq_calibration_passed_full]. *)
Definition cq_calibration_passed (report : cq_calibration_report_t) : bool :=
  negb (range_veto_triggered report).

Definition cq_calibration_passed_full (report : cq_calibration_report_t)
  : bool :=
  negb (range_veto_triggered report) && negb (coverage_veto_triggered report).

End Calibrate.

(* ====================================================================== *)
(** ** verify/verify.c *)
(* ====================================================================== *)

Module Verify.

Record cq_layer_comparison_t : Type := mk_layer {
  layer_index : Z;
  layer_sample_count : Z;
  error_max_measured : spec_float;
  error_mean_measured : spec_float;
  error_std_measured : spec_float;
  error_bound_theoretical : spec_float;
  error_sum : spec_float;
  error_sum_sq : spec_float;
  bound_satisfied : bool
}.

(** [cq_layer_comparison_init]: zeroed, with the bound recorded. *)
Definition cq_layer_comparison_init (layer_index : Z) (bound : spec_float)
  : cq_layer_comparison_t :=
  mk_layer layer_index 0 F64.zero F64.zero F64.zero bound F64.zero F64.zero
           false.

Definition set_bound_satisfied (layer : cq_layer_comparison_t) (b : bool)
  : cq_layer_comparison_t :=
  mk_layer (layer_index layer) (layer_sample_count layer)
           (error_max_measured layer) (error_mean_measured layer)
           (error_std_measured layer) (error_bound_theoretical layer)
           (error_sum layer) (error_sum_sq layer) b.

Definition cq_verify_check_bounds (layer : cq_layer_comparison_t)
    (faults : cq_fault_flags_t)
  : Z * cq_layer_comparison_t * cq_fault_flags_t :=
  if SFltb (error_bound_theoretical layer) (error_max_measured layer) then
    (CQ_FAULT_BOUND_VIOLATION, set_bound_satisfied layer false,
     set_bound_violation faults)
  else
    (0, set_bound_satisfied layer true, faults).

Record cq_verification_report_t : Type := mk_report {
  verification_set_hash : list Z;
  sample_count : Z;
  layers : list cq_layer_comparison_t;
  total_error_theoretical : spec_float;
  total_error_max_measured : spec_float;
  total_error_mean : spec_float;
  total_error_std : spec_float;
  total_error_sum : spec_float;
  total_error_sum_sq : spec_float;
  all_bounds_satisfied : bool;
  total_bound_satisfied : bool;
  report_faults : cq_fault_flags_t
}.

Definition cq_verification_report_init (layers : list cq_layer_comparison_t)
    (total_bound : spec_float) : cq_verification_report_t :=
  mk_report (repeat 0 32) 0 layers total_bound F64.zero F64.zero F64.zero
            F64.zero F64.zero false false cq_fault_clear.

(** State of the layer loop of [cq_verify_check_all_bounds]. *)
Record loop_state : Type := mk_loop {
  loop_result : Z;
  loop_all_satisfied : bool;
  loop_layers : list cq_layer_comparison_t;
  loop_faults : cq_fault_flags_t
}.

Fixpoint check_layers (ls : list cq_layer_comparison_t) (st : loop_state)
  : loop_state :=
  match ls with
  | [] => st
  | l :: ls' =>
      let '(layer_result, l', f') := cq_verify_check_bounds l (loop_faults st) in
      let st' :=
        if negb (layer_result =? 0)
        then mk_loop layer_result false (loop_layers st ++ [l']) f'
        else mk_loop (loop_result st) (loop_all_satisfied st)
                     (loop_layers st ++ [l']) f' in
      check_layers ls' st'
  end.

(** [cq_verify_check_all_bounds] (non-null report and fault pointers). *)
Definition cq_verify_check_all_bounds (report : cq_verification_report_t)
    (faults : cq_fault_flags_t)
  : Z * cq_verification_report_t * cq_fault_flags_t :=
  let st := check_layers (layers report) (mk_loop 0 true [] faults) in
  let total_violated :=
    SFltb (total_error_theoretical report) (total_error_max_measured report) in
  let faults' := if total_violated then set_bound_violation (loop_faults st)
                 else loop_faults st in
  let result := if total_violated then CQ_FAULT_BOUND_VIOLATION
                else loop_result st in
  (result,
   mk_report (verification_set_hash report) (sample_count report)
             (loop_layers st)
             (total_error_theoretical report)
             (total_error_max_measured report)
             (total_error_mean report) (total_error_std report)
             (total_error_sum report) (total_error_sum_sq report)
             (loop_all_satisfied st) (negb total_violated)
             (cq_fault_merge (report_faults report) faults'),
   faults').

Record cq_verification_digest_t : Type := mk_digest {
  digest_verification_set_hash : list Z;
  digest_sample_count : Z;
  layers_passed : Z;
  digest_total_error_theoretical : spec_float;
  digest_total_error_max_measured : spec_float;
  bounds_satisfied : Z
}.

(** [cq_verification_digest_generate] (non-null pointers). *)
Definition cq_verification_digest_generate (report : cq_verification_report_t)
  : Z * cq_verification_digest_t :=
  (0, mk_digest (verification_set_hash report) (sample_count report)
                (Z.of_nat (length (filter bound_satisfied (layers report))))
                (total_error_theoretical report)
                (total_error_max_measured report)
                (if all_bounds_satisfied report && total_bound_satisfied report
                 then 1 else 0)).

(** [cq_linf_norm]: [a] and [b] are arrays of [n] floats ([None] for a
    NULL pointer). *)
Definition cq_linf_norm (a b : option (list spec_float)) (n : nat)
  : spec_float :=
  match a, b with
  | Some a, Some b =>
      fold_left
        (fun max_diff i =>
           let diff := SFabs (F64.sub (F64.of_float (nth i a F32.zero))
                                      (F64.of_float (nth i b F32.zero))) in
           if SFltb max_diff diff then diff else max_diff)
        (seq 0 n) F64.zero
  | _, _ => F64.zero
  end.

(** [cq_linf_norm_q16]: [scale] is [1.0 / 65536]. *)
Definition cq_linf_norm_q16 (fp : option (list spec_float))
    (q16 : option (list Z)) (n : nat) : spec_float :=
  match fp, q16 with
  | Some fp, Some q16 =>
      let scale := F64.div F64.one (F64.of_Z (Z.shiftl 1 CQ_Q16_SHIFT)) in
      fold_left
        (fun max_diff i =>
           let q_float := F64.mul (F64.of_Z (nth i q16 0)) scale in
           let diff := SFabs (F64.sub (F64.of_float (nth i fp F32.zero))
                                      q_float) in
           if SFltb max_diff diff then diff else max_diff)
        (seq 0 n) F64.zero
  | _, _ => F64.zero
  end.

(** [cq_verify_layer_update]: the sample counter is a [uint32_t]. *)
Definition cq_verify_layer_update (layer : cq_layer_comparison_t)
    (error : spec_float) : cq_layer_comparison_t :=
  mk_layer (layer_index layer) (wrap_u32 (layer_sample_count layer + 1))
           (if SFltb (error_max_measured layer) error then error
            else error_max_measured layer)
           (error_mean_measured layer) (error_std_measured layer)
           (error_bound_theoretical layer)
           (F64.add (error_sum layer) error)
           (F64.add (error_sum_sq layer) (F64.mul error error))
           (bound_satisfied layer).

Definition cq_verify_total_update (report : cq_verification_report_t)
    (error : spec_float) : cq_verification_report_t :=
  mk_report (verification_set_hash report)
            (wrap_u32 (sample_count report + 1))
            (layers report)
            (total_error_theoretical report)
            (if SFltb (total_error_max_measured report) error then error
             else total_error_max_measured report)
            (total_error_mean report) (total_error_std report)
            (F64.add (total_error_sum report) error)
            (F64.add (total_error_sum_sq report) (F64.mul error error))
            (all_bounds_satisfied report) (total_bound_satisfied report)
            (report_faults report).

(** [cq_verify_passed] of verify.h. *)
Definition cq_verify_passed (report : cq_verification_report_t) : bool :=
  all_bounds_satisfied report && total_bound_satisfied report.

End Verify.

(* ====================================================================== *)
(** ** certificate/certificate.c *)
(* ====================================================================== *)

Module Certificate.

(** "CQCR" *)
Definition CQ_CERTIFICATE_MAGIC : list Z := [67; 81; 67; 82].
Definition CQ_SCOPE_SYMMETRIC_ONLY : Z := 1.
Definition CQ_FORMAT_Q16_16_CODE : Z := 0.
Definition CQ_FORMAT_Q8_24_CODE : Z := 1.
Definition CQ_ERROR_INCOMPLETE_BUILDER : Z := -2.

Definition zero_bytes (n : nat) : list Z := repeat 0 n.

Record cq_certificate_t : Type := mk_cert {
  magic : list Z;
  version : list Z;
  timestamp : Z;
  scope_symmetric_only : Z;
  scope_format : Z;
  source_model_hash : list Z;
  bn_folding_hash : list Z;
  bn_folding_status : Z;
  analysis_digest : list Z;
  calibration_digest : list Z;
  verification_digest : list Z;
  epsilon_0_claimed : spec_float;
  epsilon_total_claimed : spec_float;
  epsilon_max_measured : spec_float;
  target_model_hash : list Z;
  target_param_count : Z;
  target_layer_count : Z;
  merkle_root : list Z;
  signature : list Z
}.

Record cq_certificate_builder_t : Type := mk_builder {
  b_source_model_hash : list Z;
  source_model_hash_set : bool;
  b_bn_folding_hash : list Z;
  bn_folded : bool;
  bn_info_set : bool;
  b_analysis_digest : Analyze.cq_analysis_digest_t;
  analysis_set : bool;
  b_calibration_digest : Calibrate.cq_calibration_digest_t;
  calibration_set : bool;
  b_verification_digest : Verify.cq_verification_digest_t;
  verification_set : bool;
  b_target_model_hash : list Z;
  b_target_param_count : Z;
  b_target_layer_count : Z;
  target_set : bool;
  b_scope_format : Z;
  tool_version : list Z;
  b_faults : cq_fault_flags_t
}.

(** [cq_certificate_builder_init]: everything zeroed, format Q16.16,
    version 0.1.0.0. *)
Definition cq_certificate_builder_init : cq_certificate_builder_t :=
  mk_builder
    (zero_bytes 32) false
    (zero_bytes 32) false false
    (Analyze.mk_analysis_digest F64.zero F64.zero 0 0 (zero_bytes 32)) false
    (Calibrate.mk_digest (zero_bytes 32) 0 0 F32.zero F32.zero 0 0) false
    (Verify.mk_digest (zero_bytes 32) 0 0 F64.zero F64.zero 0) false
    (zero_bytes 32) 0 0 false
    CQ_FORMAT_Q16_16_CODE [0; 1; 0; 0]
    cq_fault_clear.

(** A pointer argument is [None] when it is NULL. *)
Definition cq_certificate_builder_is_complete
    (builder : option cq_certificate_builder_t) : bool :=
  match builder with
  | None => false
  | Some b =>
      source_model_hash_set b && bn_info_set b && analysis_set b
      && calibration_set b && verification_set b && target_set b
  end.

(** [cq_certificate_bounds_satisfied] of certificate.h. *)
Definition cq_certificate_bounds_satisfied (cert : cq_certificate_t) : bool :=
  SFleb (epsilon_max_measured cert) (epsilon_total_claimed cert).

Section Build.

(** The hash function, and the byte images that the in-memory layout
    gives to the three digest structures and to the first 264 bytes of a
    certificate: the build passes them through unchanged, whatever they
    are. *)
Variable sha256 : list Z -> list Z.
Variable analysis_digest_bytes : Analyze.cq_analysis_digest_t -> list Z.
Variable calibration_digest_bytes
  : Calibrate.cq_calibration_digest_t -> list Z.
Variable verification_digest_bytes
  : Verify.cq_verification_digest_t -> list Z.
Variable certificate_content_bytes : cq_certificate_t -> list Z.

Definition cq_certificate_compute_merkle (cert : cq_certificate_t)
  : list Z :=
  sha256 (certificate_content_bytes cert).

(** Steps 1 to 7 of the assembly; [now] is the value returned by
    [cq_get_timestamp]. *)
Definition assemble (b : cq_certificate_builder_t) (now : Z)
  : cq_certificate_t :=
  let unsigned_cert root :=
    mk_cert CQ_CERTIFICATE_MAGIC (tool_version b) now
            CQ_SCOPE_SYMMETRIC_ONLY (b_scope_format b)
            (b_source_model_hash b) (b_bn_folding_hash b)
            (if bn_folded b then 1 else 0)
            (sha256 (analysis_digest_bytes (b_analysis_digest b)))
            (sha256 (calibration_digest_bytes (b_calibration_digest b)))
            (sha256 (verification_digest_bytes (b_verification_digest b)))
            (Analyze.digest_entry_error (b_analysis_digest b))
            (Analyze.digest_total_error_bound (b_analysis_digest b))
            (Verify.digest_total_error_max_measured
               (b_verification_digest b))
            (b_target_model_hash b) (b_target_param_count b)
            (b_target_layer_count b)
            root (zero_bytes 64) in
  unsigned_cert (cq_certificate_compute_merkle
                   (unsigned_cert (zero_bytes 32))).

(** [cq_certificate_build]: result code, contents of [*cert] and of
    [*faults] on return. *)
Definition cq_certificate_build
    (builder : option cq_certificate_builder_t)
    (cert : option cq_certificate_t)
    (faults : option cq_fault_flags_t) (now : Z)
  : Z * option cq_certificate_t * option cq_fault_flags_t :=
  match builder, cert, faults with
  | Some b, Some c, Some f =>
      if negb (cq_certificate_builder_is_complete builder) then
        (CQ_ERROR_INCOMPLETE_BUILDER, cert, faults)
      else
        (0, Some (assemble b now), Some (cq_fault_merge f (b_faults b)))
  | _, _, _ => (CQ_ERROR_NULL_POINTER, cert, faults)
  end.

End Build.

(** The builder [b] with one group of fields replaced. *)
Definition with_source (b : cq_certificate_builder_t) (hash : list Z)
  : cq_certificate_builder_t :=
  mk_builder hash true
             (b_bn_folding_hash b) (bn_folded b) (bn_info_set b)
             (b_analysis_digest b) (analysis_set b)
             (b_calibration_digest b) (calibration_set b)
             (b_verification_digest b) (verification_set b)
             (b_target_model_hash b) (b_target_param_count b)
             (b_target_layer_count b) (target_set b)
             (b_scope_format b) (tool_version b) (b_faults b).

Definition with_bn_info (b : cq_certificate_builder_t) (folded : bool)
    (hash : list Z) : cq_certificate_builder_t :=
  mk_builder (b_source_model_hash b) (source_model_hash_set b)
             hash folded true
             (b_analysis_digest b) (analysis_set b)
             (b_calibration_digest b) (calibration_set b)
             (b_verification_digest b) (verification_set b)
             (b_target_model_hash b) (b_target_param_count b)
             (b_target_layer_count b) (target_set b)
             (b_scope_format b) (tool_version b) (b_faults b).

Definition with_analysis (b : cq_certificate_builder_t)
    (digest : Analyze.cq_analysis_digest_t) : cq_certificate_builder_t :=
  mk_builder (b_source_model_hash b) (source_model_hash_set b)
             (b_bn_folding_hash b) (bn_folded b) (bn_info_set b)
             digest true
             (b_calibration_digest b) (calibration_set b)
             (b_verification_digest b) (verification_set b)
             (b_target_model_hash b) (b_target_param_count b)
             (b_target_layer_count b) (target_set b)
             (b_scope_format b) (tool_version b) (b_faults b).

Definition with_calibration (b : cq_certificate_builder_t)
    (digest : Calibrate.cq_calibration_digest_t) : cq_certificate_builder_t :=
  mk_builder (b_source_model_hash b) (source_model_hash_set b)
             (b_bn_folding_hash b) (bn_folded b) (bn_info_set b)
             (b_analysis_digest b) (analysis_set b)
             digest true
             (b_verification_digest b) (verification_set b)
             (b_target_model_hash b) (b_target_param_count b)
             (b_target_layer_count b) (target_set b)
             (b_scope_format b) (tool_version b) (b_faults b).

Definition with_verification (b : cq_certificate_builder_t)
    (digest : Verify.cq_verification_digest_t) : cq_certificate_builder_t :=
  mk_builder (b_source_model_hash b) (source_model_hash_set b)
             (b_bn_folding_hash b) (bn_folded b) (bn_info_set b)
             (b_analysis_digest b) (analysis_set b)
             (b_calibration_digest b) (calibration_set b)
             digest true
             (b_target_model_hash b) (b_target_param_count b)
             (b_target_layer_count b) (target_set b)
             (b_scope_format b) (tool_version b) (b_faults b).

Definition with_target (b : cq_certificate_builder_t) (hash : list Z)
    (param_count layer_count : Z) : cq_certificate_builder_t :=
  mk_builder (b_source_model_hash b) (source_model_hash_set b)
             (b_bn_folding_hash b) (bn_folded b) (bn_info_set b)
             (b_analysis_digest b) (analysis_set b)
             (b_calibration_digest b) (calibration_set b)
             (b_verification_digest b) (verification_set b)
             hash param_count layer_count true
             (b_scope_format b) (tool_version b) (b_faults b).

Definition with_format_version (b : cq_certificate_builder_t) (format : Z)
    (version : list Z) : cq_certificate_builder_t :=
  mk_builder (b_source_model_hash b) (source_model_hash_set b)
             (b_bn_folding_hash b) (bn_folded b) (bn_info_set b)
             (b_analysis_digest b) (analysis_set b)
             (b_calibration_digest b) (calibration_set b)
             (b_verification_digest b) (verification_set b)
             (b_target_model_hash b) (b_target_param_count b)
             (b_target_layer_count b) (target_set b)
             format version (b_faults b).

(** The setters, on a non-null builder; a hash or digest argument is
    [None] when the pointer is NULL, and a hash is an array of 32 bytes. *)
Definition cq_certificate_builder_set_version (builder : cq_certificate_builder_t)
    (major minor patch build : Z) : cq_certificate_builder_t :=
  with_format_version builder (b_scope_format builder)
                      [major; minor; patch; build].

Definition cq_certificate_builder_set_source_hash
    (builder : cq_certificate_builder_t) (hash : option (list Z))
  : cq_certificate_builder_t :=
  match hash with
  | None => builder
  | Some h => with_source builder h
  end.

Definition cq_certificate_builder_set_bn_info
    (builder : cq_certificate_builder_t) (folded : bool)
    (hash : option (list Z)) : cq_certificate_builder_t :=
  match hash with
  | Some h => with_bn_info builder folded h
  | None => with_bn_info builder folded (zero_bytes 32)
  end.

Definition cq_certificate_builder_set_analysis
    (builder : cq_certificate_builder_t)
    (digest : option Analyze.cq_analysis_digest_t) : cq_certificate_builder_t :=
  match digest with
  | None => builder
  | Some d => with_analysis builder d
  end.

Definition cq_certificate_builder_set_calibration
    (builder : cq_certificate_builder_t)
    (digest : option Calibrate.cq_calibration_digest_t)
  : cq_certificate_builder_t :=
  match digest with
  | None => builder
  | Some d => with_calibration builder d
  end.

Definition cq_certificate_builder_set_verification
    (builder : cq_certificate_builder_t)
    (digest : option Verify.cq_verification_digest_t)
  : cq_certificate_builder_t :=
  match digest with
  | None => builder
  | Some d => with_verification builder d
  end.

Definition cq_certificate_builder_set_target
    (builder : cq_certificate_builder_t) (hash : option (list Z))
    (param_count layer_count : Z) : cq_certificate_builder_t :=
  match hash with
  | None => builder
  | Some h => with_target builder h param_count layer_count
  end.

Definition cq_certificate_builder_set_format
    (builder : cq_certificate_builder_t) (format : Z)
  : cq_certificate_builder_t :=
  with_format_version builder format (tool_version builder).

(** [memcmp (a, b, n) == 0]. *)
Definition memcmp_eq (a b : list Z) (n : nat) : bool :=
  forallb (fun i => nth i a 0 =? nth i b 0) (seq 0 n).

Definition cq_certificate_verify_header (cert : option cq_certificate_t)
  : bool :=
  match cert with
  | None => false
  | Some c =>
      if negb (memcmp_eq (magic c) CQ_CERTIFICATE_MAGIC 4) then false
      else if negb (scope_symmetric_only c =? CQ_SCOPE_SYMMETRIC_ONLY)
      then false
      else if negb (scope_format c =? CQ_FORMAT_Q16_16_CODE)
              && negb (scope_format c =? CQ_FORMAT_Q8_24_CODE)
      then false
      else true
  end.

Definition CQ_CERTIFICATE_SIZE : Z := 360.
Definition CQ_ERROR_BUFFER_TOO_SMALL : Z := -2.
Definition CQ_ERROR_INVALID_HEADER : Z := -3.

Section Image.

(** The hash function, the first 264 bytes of a certificate in memory,
    its whole 360-byte image, and the certificate that a 360-byte image
    holds. *)
Variable sha256 : list Z -> list Z.
Variable certificate_content_bytes : cq_certificate_t -> list Z.
Variable certificate_bytes : cq_certificate_t -> list Z.
Variable certificate_of_bytes : list Z -> cq_certificate_t.

Definition cq_certificate_verify_integrity (cert : option cq_certificate_t)
  : bool :=
  match cert with
  | None => false
  | Some c =>
      let computed_root :=
        cq_certificate_compute_merkle sha256 certificate_content_bytes c in
      memcmp_eq computed_root (merkle_root c) 32
  end.

(** [cq_certificate_serialise] (non-null pointers): result code, buffer
    contents and [*size]. *)
Definition cq_certificate_serialise (cert : cq_certificate_t)
  : Z * list Z * Z :=
  (0, certificate_bytes cert, CQ_CERTIFICATE_SIZE).

(** [cq_certificate_deserialise] (non-null pointers): [buffer] holds
    [size] bytes; result code and contents of [*cert] on return. *)
Definition cq_certificate_deserialise (buffer : list Z) (size : Z)
    (cert : cq_certificate_t) : Z * cq_certificate_t :=
  if size <? CQ_CERTIFICATE_SIZE then (CQ_ERROR_BUFFER_TOO_SMALL, cert)
  else
    let cert' :=
      certificate_of_bytes (firstn (Z.to_nat CQ_CERTIFICATE_SIZE) buffer) in
    if negb (cq_certificate_verify_header (Some cert'))
    then (CQ_ERROR_INVALID_HEADER, cert')
    else (0, cert').

End Image.

End Certificate.

(* ====================================================================== *)
(** ** Concrete scenarios used by the statements below *)
(* ====================================================================== *)

Module Scenario.

(** A layer contract as [cq_layer_contract_init] leaves it, with the
    amplification factor and the local error sum then set by the caller. *)
Definition contract_with (amp local : spec_float)
  : Analyze.cq_layer_contract_t :=
  let c := Analyze.cq_layer_contract_init 0 0 1 1 in
  Analyze.mk_contract
    (Analyze.layer_index c) (Analyze.layer_type c)
    (Analyze.fan_in c) (Analyze.fan_out c)
    amp
    (Analyze.weight_error_contrib c) (Analyze.bias_error_contrib c)
    (Analyze.projection_error c) local
    (Analyze.input_error_bound c) (Analyze.output_error_bound c)
    (Analyze.overflow_proof c) (Analyze.is_valid c).

(** One layer with A = 0.5 and L = 0, entered with the error of an input
    scale exponent of 0, that is 0.5. *)
Definition contracting_ctx : Analyze.cq_analysis_ctx_t :=
  Analyze.cq_analysis_ctx_init [contract_with F64.half F64.zero] (Some 0).

(** Three layers with A = 1.5 and L = 2^-10, entered with the error of an
    input scale exponent of 16, and a fourth layer to append. *)
Definition amplifying_contract : Analyze.cq_layer_contract_t :=
  contract_with (F64.dyadic 3 (-1)) (F64.dyadic 1 (-10)).

Definition amplifying_ctx : Analyze.cq_analysis_ctx_t :=
  Analyze.cq_analysis_ctx_init
    [amplifying_contract; amplifying_contract; amplifying_contract] (Some 16).

(** A tensor with safe range [1, 1] on which the values 0 and 2 were
    observed, and a configuration whose degenerate epsilon is 0. *)
Definition point_range_stats : Calibrate.cq_tensor_stats_t :=
  Calibrate.cq_tensor_stats_update
    (Calibrate.cq_tensor_stats_init 0 0 F32.one F32.one)
    [F32.zero; F32.of_Z 2].

(** A tensor with safe range [-1, 1] on which 0 and 1 were observed. *)
Definition unit_range_stats : Calibrate.cq_tensor_stats_t :=
  Calibrate.cq_tensor_stats_update
    (Calibrate.cq_tensor_stats_init 0 0 (SFopp F32.one) F32.one)
    [F32.zero; F32.one].

Definition zero_epsilon_config : Calibrate.cq_calibrate_config_t :=
  Calibrate.mk_config (S754_finite false 15099494 (-24))
                      (S754_finite false 15938355 (-24))
                      F32.zero 100.

(** A verification report with one layer whose theoretical bound is a
    NaN; nothing was measured (all maxima are 0) and the total bound is 1. *)
Definition nan_bound_report : Verify.cq_verification_report_t :=
  Verify.cq_verification_report_init
    [Verify.cq_layer_comparison_init 0 S754_nan] F64.one.

(** A complete certificate builder whose fault set carries every fatal
    flag, whose calibration digest records a range veto and whose
    verification digest records failed bounds. *)
Definition all_fatal : cq_fault_flags_t :=
  mk_faults false false true true true true true.

Definition flagged_builder : Certificate.cq_certificate_builder_t :=
  Certificate.mk_builder
    (repeat 1 32) true
    (repeat 0 32) false true
    (Analyze.mk_analysis_digest F64.half F64.one 1 0 (repeat 0 32)) true
    (Calibrate.mk_digest (repeat 0 32) 1 1 F32.one F32.one 1 0) true
    (Verify.mk_digest (repeat 0 32) 1 0 F64.one (F64.of_Z 2) 0) true
    (repeat 2 32) 10 1 true
    Certificate.CQ_FORMAT_Q16_16_CODE [0; 1; 0; 0]
    all_fatal.

Definition blank_certificate : Certificate.cq_certificate_t :=
  Certificate.mk_cert
    (repeat 0 4) (repeat 0 4) 0 0 0 (repeat 0 32) (repeat 0 32) 0
    (repeat 0 32) (repeat 0 32) (repeat 0 32)
    F64.zero F64.zero F64.zero (repeat 0 32) 0 0 (repeat 0 32) (repeat 0 64).

(** Stand-ins for the hash and the byte images, for evaluating
    [cq_certificate_build] on concrete inputs. *)
Definition constant_hash (_ : list Z) : list Z := repeat 0 32.
Definition no_bytes {A : Type} (_ : A) : list Z := [].

End Scenario.

Module BigScenario.

Definition stats_with_coverage (c : spec_float) : Calibrate.cq_tensor_stats_t :=
  Calibrate.mk_stats 0 0 F32.zero F32.zero F32.zero F32.one c false false.

(** A calibration report with 16777219 = 2^24 + 3 tensors: 1677722 of
    coverage 0.0 followed by 15099497 of coverage 1.0. *)
Definition many_tensors : list Calibrate.cq_tensor_stats_t :=
  repeat (stats_with_coverage F32.zero) (Z.to_nat 1677722)
  ++ repeat (stats_with_coverage F32.one) (Z.to_nat 15099497).

Definition many_tensor_report : Calibrate.cq_calibration_report_t :=
  Calibrate.mk_report (repeat 0 32) 0 many_tensors
                      F32.zero F32.zero F32.zero false false cq_fault_clear.

End BigScenario.

(* ====================================================================== *)
(** ** Vocabulary of the statements *)
(* ====================================================================== *)

(** The epsilon that [cq_tensor_compute_coverage] reads from its
    configuration, and the width of the claimed safe range. *)
Definition configured_epsilon (config : option Calibrate.cq_calibrate_config_t)
  : spec_float :=
  match config with
  | Some c => Calibrate.degenerate_epsilon c
  | None => F32.lit_1em7
  end.

Definition safe_width (stats : Calibrate.cq_tensor_stats_t) : spec_float :=
  F32.sub (Calibrate.max_safe stats) (Calibrate.min_safe stats).

Definition is_zero (v : spec_float) : bool :=
  match v with S754_zero _ => true | _ => false end.

(** A layer comparison violates its bound when [measured > bound]. *)
Definition violated (l : Verify.cq_layer_comparison_t) : bool :=
  SFltb (Verify.error_bound_theoretical l) (Verify.error_max_measured l).

Definition checked (l : Verify.cq_layer_comparison_t)
  : Verify.cq_layer_comparison_t :=
  Verify.set_bound_satisfied l (negb (violated l)).

Definition no_nan_report (report : Verify.cq_verification_report_t) : Prop :=
  Forall (fun l => isnan (Verify.error_max_measured l) = false /\
                   isnan (Verify.error_bound_theoretical l) = false)
         (Verify.layers report) /\
  isnan (Verify.total_error_max_measured report) = false /\
  isnan (Verify.total_error_theoretical report) = false.

(** Ascending order as the comparison callback sees it. *)
Definition cmp_le (a b : spec_float) : Prop :=
  (Calibrate.cq_float_compare_asc a b <=? 0) = true.

Fixpoint chain_sorted (l : list spec_float) : Prop :=
  match l with
  | [] => True
  | x :: t => match t with
              | [] => True
              | y :: _ => cmp_le x y /\ chain_sorted t
              end
  end.

(** Positive floating-point numbers [m * 2^e] are compared through scaled
    integer values: every exponent met in the proofs is at least twice the
    minimal exponent of the format. *)
Definition float_vbase (prec emax : Z) : Z := 2 * emin prec emax.

Definition float_val (prec emax m e : Z) : Z :=
  m * 2 ^ (e - float_vbase prec emax).

(** A valid floating-point number that is zero, positive or +infinity. *)
Definition nonneg_float (prec emax : Z) (x : spec_float) : Prop :=
  valid_binary prec emax x = true /\ SFleb (S754_zero false) x = true.

(** A layer whose amplification factor is a finite number at least 1 and
    whose local error sum is nonnegative. *)
Definition amplifying_layer (c : Analyze.cq_layer_contract_t) : Prop :=
  F64.valid (Analyze.amp_factor c) = true /\
  SFleb F64.one (Analyze.amp_factor c) = true /\
  isinf (Analyze.amp_factor c) = false /\
  nonneg_float F64.prec F64.emax (Analyze.local_error_sum c).

(** The output bound of the last contract of a processed chain, or the
    entry error when the chain is empty. *)
Definition last_output (eps : spec_float)
    (ls : list Analyze.cq_layer_contract_t) : spec_float :=
  match ls with
  | [] => eps
  | c0 :: cs => Analyze.output_error_bound (last cs c0)
  end.

(** The context with one more layer contract appended to its array. *)
Definition append_layer (ctx : Analyze.cq_analysis_ctx_t)
    (c : Analyze.cq_layer_contract_t) : Analyze.cq_analysis_ctx_t :=
  Analyze.mk_ctx (Analyze.entry_error ctx) (Analyze.input_scale_exp ctx)
                 (Analyze.layers ctx ++ [c])
                 (Analyze.total_error_bound ctx) (Analyze.is_complete ctx)
                 (Analyze.ctx_is_valid ctx) (Analyze.faults ctx).

(** Analysis of a whole chain: recurrence over the layers, then the total. *)
Definition analyzed (ctx : Analyze.cq_analysis_ctx_t)
  : Analyze.cq_analysis_ctx_t :=
  snd (Analyze.cq_compute_total_error (Analyze.analyze_layers ctx)).

(** The rounding record [mrs] holds the integer [P] shifted right by [k]
    bits: the quotient, the last bit shifted out (round bit) and whether
    any bit below it was set (sticky bit). *)
Definition shr_represents (P k : Z) (mrs : shr_record) : Prop :=
  shr_m mrs = P / 2 ^ k /\
  shr_r mrs = (0 <? k) && Z.testbit P (k - 1) /\
  shr_s mrs = (0 <? k) && negb (P mod 2 ^ (k - 1) =? 0).

(** A dot product accumulated by [cq_mac_q16] from a zero accumulator, one
    call per pair of operands, and its exact value. *)
Definition mac_all (ws xs : list Z) (faults : cq_fault_flags_t)
  : Z * cq_fault_flags_t :=
  fold_left (fun st wx => DVM.cq_mac_q16 (fst st) (fst wx) (snd wx) (snd st))
            (combine ws xs) (0, faults).

Definition dot_product (ws xs : list Z) : Z :=
  fold_left (fun s wx => s + fst wx * snd wx) (combine ws xs) 0.

(** Saturation of an exact integer to the [int64_t] range. *)
Definition sat64 (x : Z) : Z := Z.max INT64_MIN (Z.min INT64_MAX x).

(** The bytes of the buffer that are waiting for their block to fill up. *)
Definition pending (ctx : SHA256.cq_sha256_ctx_t) : list Z :=
  firstn (Z.to_nat (SHA256.count ctx mod 64)) (SHA256.buffer ctx).

Definition ctx_wf (ctx : SHA256.cq_sha256_ctx_t) : Prop :=
  0 <= SHA256.count ctx < 2 ^ 64 /\ length (SHA256.buffer ctx) = 64%nat.

(** All the blocks of [p], with the fuel that the code passes. *)
Definition absorb (st : list Z) (p : list Z) : list Z * list Z :=
  SHA256.transform_blocks (length p) st p.

(** The padding that [cq_sha256_final] appends to a message of [count]
    bytes: the byte 0x80, zeros up to 56 modulo 64, and the bit length as
    a big-endian 64-bit number. *)
Definition length_bytes (count : Z) : list Z :=
  map (fun i : nat => SHA256.wrap_u8 (Z.shiftr (wrap_u64 (count * 8))
                                               (56 - Z.of_nat i * 8)))
      (seq 0 8).

Definition padding (count : Z) : list Z :=
  let idx := Z.to_nat (count mod 64) in
  [128] ++ repeat 0 (if (56 <=? idx)%nat then 119 - idx else 55 - idx)%nat
        ++ length_bytes count.

Definition digest_bytes (st : list Z) : list Z :=
  flat_map (fun s => [SHA256.wrap_u8 (Z.shiftr s 24);
                      SHA256.wrap_u8 (Z.shiftr s 16);
                      SHA256.wrap_u8 (Z.shiftr s 8); SHA256.wrap_u8 s]) st.

(** The digest that the context [ctx] yields once [chunks] have been
    absorbed one after the other. *)
Definition digest_of_chunks (ctx : SHA256.cq_sha256_ctx_t)
    (chunks : list (list Z)) : list Z :=
  snd (SHA256.cq_sha256_final
         (fold_left SHA256.cq_sha256_update chunks (SHA256.cq_sha256_init ctx))).

(** The order of IEEE comparisons on numbers other than NaN is the
    lexicographic order of a key: the class (-infinity, negative, zero,
    positive, +infinity), then the exponent, then the mantissa. *)
Definition float_key (x : spec_float) : Z * Z * Z :=
  match x with
  | S754_nan => (0, 0, 0)
  | S754_zero _ => (0, 0, 0)
  | S754_infinity true => (-2, 0, 0)
  | S754_infinity false => (2, 0, 0)
  | S754_finite true m e => (-1, - e, - Zpos m)
  | S754_finite false m e => (1, e, Zpos m)
  end.

Definition key_lt (a b : Z * Z * Z) : Prop :=
  fst (fst a) < fst (fst b) \/
  (fst (fst a) = fst (fst b) /\
   (snd (fst a) < snd (fst b) \/
    (snd (fst a) = snd (fst b) /\ snd a < snd b))).

Definition key_eq (a b : Z * Z * Z) : Prop :=
  fst (fst a) = fst (fst b) /\ snd (fst a) = snd (fst b) /\ snd a = snd b.

Definition key_le (a b : Z * Z * Z) : Prop := key_lt a b \/ key_eq a b.

(** Turns the keys of the context into triples of integers. *)
Ltac key_cases :=
  unfold key_le, key_lt, key_eq in *;
  repeat match goal with
  | H : context [float_key ?x] |- _ =>
      let k := fresh "k" in
      set (k := float_key x) in *; clearbody k; destruct k as [[? ?] ?]
  | |- context [float_key ?x] =>
      let k := fresh "k" in
      set (k := float_key x) in *; clearbody k; destruct k as [[? ?] ?]
  end;
  cbn [fst snd] in *.

(** Two tensor statistics that differ at most in their observed range. *)
Definition same_settings (s s' : Calibrate.cq_tensor_stats_t) : Prop :=
  Calibrate.tensor_id s' = Calibrate.tensor_id s /\
  Calibrate.layer_index s' = Calibrate.layer_index s /\
  Calibrate.min_safe s' = Calibrate.min_safe s /\
  Calibrate.max_safe s' = Calibrate.max_safe s /\
  Calibrate.coverage_ratio s' = Calibrate.coverage_ratio s /\
  Calibrate.is_degenerate s' = Calibrate.is_degenerate s /\
  Calibrate.range_veto s' = Calibrate.range_veto s.

(** The observed range leaves the safe range, as the range veto tests it. *)
Definition out_of_range (t : Calibrate.cq_tensor_stats_t) : bool :=
  SFltb (Calibrate.min_observed t) (Calibrate.min_safe t)
  || SFltb (Calibrate.max_safe t) (Calibrate.max_observed t).

(** What [cq_calibration_report_finalize] leaves in a tensor. *)
Definition finalized (config : Calibrate.cq_calibrate_config_t)
    (t : Calibrate.cq_tensor_stats_t) : Calibrate.cq_tensor_stats_t :=
  snd (Calibrate.cq_tensor_check_range_veto
         (fst (Calibrate.cq_tensor_compute_coverage t (Some config)))).

(** The absolute differences that the two norms of verify.c maximise. *)
Definition abs_diff (a b : list spec_float) (i : nat) : spec_float :=
  SFabs (F64.sub (F64.of_float (nth i a F32.zero))
                 (F64.of_float (nth i b F32.zero))).

Definition abs_diff_q16 (fp : list spec_float) (q16 : list Z) (i : nat)
  : spec_float :=
  SFabs (F64.sub (F64.of_float (nth i fp F32.zero))
                 (F64.mul (F64.of_Z (nth i q16 0))
                          (F64.div F64.one
                                   (F64.of_Z (Z.shiftl 1 CQ_Q16_SHIFT))))).

(** A layer comparison after the errors [es] have been recorded. *)
Definition measured (layer : Verify.cq_layer_comparison_t)
    (es : list spec_float) : Verify.cq_layer_comparison_t :=
  fold_left Verify.cq_verify_layer_update es layer.

Definition measured_total (report : Verify.cq_verification_report_t)
    (es : list spec_float) : Verify.cq_verification_report_t :=
  fold_left Verify.cq_verify_total_update es report.

(** A call of one of the setters of the certificate builder. *)
Inductive builder_call : Type :=
| SetVersion (major minor patch build : Z)
| SetSourceHash (hash : option (list Z))
| SetBnInfo (folded : bool) (hash : option (list Z))
| SetAnalysis (digest : option Analyze.cq_analysis_digest_t)
| SetCalibration (digest : option Calibrate.cq_calibration_digest_t)
| SetVerification (digest : option Verify.cq_verification_digest_t)
| SetTarget (hash : option (list Z)) (param_count layer_count : Z)
| SetFormat (format : Z).

Definition apply_call (b : Certificate.cq_certificate_builder_t)
    (c : builder_call) : Certificate.cq_certificate_builder_t :=
  match c with
  | SetVersion major minor patch build =>
      Certificate.cq_certificate_builder_set_version b major minor patch build
  | SetSourceHash hash => Certificate.cq_certificate_builder_set_source_hash b hash
  | SetBnInfo folded hash =>
      Certificate.cq_certificate_builder_set_bn_info b folded hash
  | SetAnalysis digest => Certificate.cq_certificate_builder_set_analysis b digest
  | SetCalibration digest =>
      Certificate.cq_certificate_builder_set_calibration b digest
  | SetVerification digest =>
      Certificate.cq_certificate_builder_set_verification b digest
  | SetTarget hash param_count layer_count =>
      Certificate.cq_certificate_builder_set_target b hash param_count
                                                    layer_count
  | SetFormat format => Certificate.cq_certificate_builder_set_format b format
  end.

(** The calls that provide one of the six required inputs. *)
Definition gives_source (c : builder_call) : bool :=
  match c with SetSourceHash (Some _) => true | _ => false end.
Definition gives_bn_info (c : builder_call) : bool :=
  match c with SetBnInfo _ _ => true | _ => false end.
Definition gives_analysis (c : builder_call) : bool :=
  match c with SetAnalysis (Some _) => true | _ => false end.
Definition gives_calibration (c : builder_call) : bool :=
  match c with SetCalibration (Some _) => true | _ => false end.
Definition gives_verification (c : builder_call) : bool :=
  match c with SetVerification (Some _) => true | _ => false end.
Definition gives_target (c : builder_call) : bool :=
  match c with SetTarget (Some _) _ _ => true | _ => false end.

(** Two certificates that agree on every field that precedes the Merkle
    root in memory. *)
Definition same_content (c c' : Certificate.cq_certificate_t) : Prop :=
  Certificate.magic c = Certificate.magic c' /\
  Certificate.version c = Certificate.version c' /\
  Certificate.timestamp c = Certificate.timestamp c' /\
  Certificate.scope_symmetric_only c = Certificate.scope_symmetric_only c' /\
  Certificate.scope_format c = Certificate.scope_format c' /\
  Certificate.source_model_hash c = Certificate.source_model_hash c' /\
  Certificate.bn_folding_hash c = Certificate.bn_folding_hash c' /\
  Certificate.bn_folding_status c = Certificate.bn_folding_status c' /\
  Certificate.analysis_digest c = Certificate.analysis_digest c' /\
  Certificate.calibration_digest c = Certificate.calibration_digest c' /\
  Certificate.verification_digest c = Certificate.verification_digest c' /\
  Certificate.epsilon_0_claimed c = Certificate.epsilon_0_claimed c' /\
  Certificate.epsilon_total_claimed c = Certificate.epsilon_total_claimed c' /\
  Certificate.epsilon_max_measured c = Certificate.epsilon_max_measured c' /\
  Certificate.target_model_hash c = Certificate.target_model_hash c' /\
  Certificate.target_param_count c = Certificate.target_param_count c' /\
  Certificate.target_layer_count c = Certificate.target_layer_count c'.

(** Further concrete inputs. *)

(** What an uninitialised hashing context may hold. *)
Definition stale_sha_ctx : SHA256.cq_sha256_ctx_t :=
  SHA256.mk_ctx [1; 2; 3] 99 (repeat 77 64).

(** The hash of the library, for evaluating the certificate functions. *)
Definition real_hash (data : list Z) : list Z :=
  SHA256.cq_sha256 stale_sha_ctx data.

(** A stand-in for the first 264 bytes of a certificate: its byte-valued
    fields in the order of the structure. *)
Definition content_fields (c : Certificate.cq_certificate_t) : list Z :=
  Certificate.magic c ++ Certificate.version c
  ++ [Certificate.timestamp c; Certificate.scope_symmetric_only c;
      Certificate.scope_format c]
  ++ Certificate.source_model_hash c ++ Certificate.bn_folding_hash c
  ++ [Certificate.bn_folding_status c]
  ++ Certificate.analysis_digest c ++ Certificate.calibration_digest c
  ++ Certificate.verification_digest c
  ++ Certificate.target_model_hash c
  ++ [Certificate.target_param_count c; Certificate.target_layer_count c].

(** The calls of a complete session, in an order of no significance. *)
Definition complete_session : list builder_call :=
  [SetTarget (Some (repeat 2 32)) 10 1;
   SetVerification (Some (Verify.mk_digest (repeat 0 32) 1 1 F64.one F64.half 1));
   SetSourceHash None;
   SetBnInfo false None;
   SetFormat Certificate.CQ_FORMAT_Q8_24_CODE;
   SetCalibration
     (Some (Calibrate.mk_digest (repeat 0 32) 1 1 F32.one F32.one 0 0));
   SetSourceHash (Some (repeat 1 32));
   SetAnalysis
     (Some (Analyze.mk_analysis_digest F64.half F64.one 1 1 (repeat 0 32)))].

(** The memory image of a certificate on a little-endian machine with
    IEEE-754 doubles: the 360 bytes of [cq_certificate_t] in the order of
    its fields, the reserved bytes zero as [cq_certificate_build] leaves
    them, and the certificate that 360 such bytes hold. *)
Fixpoint le_bytes (n : nat) (v : Z) : list Z :=
  match n with
  | O => []
  | S n' => v mod 256 :: le_bytes n' (v / 256)
  end.

Definition le_value (bytes : list Z) : Z :=
  fold_right (fun b v => b + 256 * v) 0 bytes.

(** The 64 bits of a [double]: sign, 11 bits of biased exponent, 52 bits
    of fraction. *)
Definition double_bits (x : spec_float) : Z :=
  let sign (s : bool) := if s then 2 ^ 63 else 0 in
  match x with
  | S754_zero s => sign s
  | S754_infinity s => sign s + 2047 * 2 ^ 52
  | S754_nan => 2047 * 2 ^ 52 + 2 ^ 51
  | S754_finite s m e =>
      if Zpos m <? 2 ^ 52 then sign s + Zpos m
      else sign s + (e + 1075) * 2 ^ 52 + (Zpos m - 2 ^ 52)
  end.

Definition double_of_bits (bits : Z) : spec_float :=
  let s := 2 ^ 63 <=? bits in
  let biased := (bits / 2 ^ 52) mod 2 ^ 11 in
  let fraction := bits mod 2 ^ 52 in
  if biased =? 2047 then
    if fraction =? 0 then S754_infinity s else S754_nan
  else if biased =? 0 then
    match fraction with
    | Zpos m => S754_finite s m (-1074)
    | _ => S754_zero s
    end
  else
    match fraction + 2 ^ 52 with
    | Zpos m => S754_finite s m (biased - 1075)
    | _ => S754_nan
    end.

Definition slice (offset len : nat) (l : list Z) : list Z :=
  firstn len (skipn offset l).

Definition certificate_image (c : Certificate.cq_certificate_t) : list Z :=
  concat
    [Certificate.magic c;
     Certificate.version c;
     le_bytes 8 (Certificate.timestamp c);
     [Certificate.scope_symmetric_only c];
     [Certificate.scope_format c];
     repeat 0 6;
     Certificate.source_model_hash c;
     Certificate.bn_folding_hash c;
     [Certificate.bn_folding_status c];
     repeat 0 7;
     Certificate.analysis_digest c;
     Certificate.calibration_digest c;
     Certificate.verification_digest c;
     le_bytes 8 (double_bits (Certificate.epsilon_0_claimed c));
     le_bytes 8 (double_bits (Certificate.epsilon_total_claimed c));
     le_bytes 8 (double_bits (Certificate.epsilon_max_measured c));
     repeat 0 8;
     Certificate.target_model_hash c;
     le_bytes 4 (Certificate.target_param_count c);
     le_bytes 4 (Certificate.target_layer_count c);
     Certificate.merkle_root c;
     Certificate.signature c].

Definition read_image (bytes : list Z) : Certificate.cq_certificate_t :=
  Certificate.mk_cert
    (slice 0 4 bytes) (slice 4 4 bytes) (le_value (slice 8 8 bytes))
    (nth 16 bytes 0) (nth 17 bytes 0)
    (slice 24 32 bytes) (slice 56 32 bytes) (nth 88 bytes 0)
    (slice 96 32 bytes) (slice 128 32 bytes) (slice 160 32 bytes)
    (double_of_bits (le_value (slice 192 8 bytes)))
    (double_of_bits (le_value (slice 200 8 bytes)))
    (double_of_bits (le_value (slice 208 8 bytes)))
    (slice 224 32 bytes)
    (le_value (slice 256 4 bytes)) (le_value (slice 260 4 bytes))
    (slice 264 32 bytes) (slice 296 64 bytes).

(** The fields of a certificate have the sizes and ranges of their C
    types. *)
Definition fields_fit (c : Certificate.cq_certificate_t) : Prop :=
  length (Certificate.magic c) = 4%nat /\
  length (Certificate.version c) = 4%nat /\
  0 <= Certificate.timestamp c < 2 ^ 64 /\
  length (Certificate.source_model_hash c) = 32%nat /\
  length (Certificate.bn_folding_hash c) = 32%nat /\
  length (Certificate.analysis_digest c) = 32%nat /\
  length (Certificate.calibration_digest c) = 32%nat /\
  length (Certificate.verification_digest c) = 32%nat /\
  F64.valid (Certificate.epsilon_0_claimed c) = true /\
  F64.valid (Certificate.epsilon_total_claimed c) = true /\
  F64.valid (Certificate.epsilon_max_measured c) = true /\
  length (Certificate.target_model_hash c) = 32%nat /\
  0 <= Certificate.target_param_count c < 2 ^ 32 /\
  0 <= Certificate.target_layer_count c < 2 ^ 32 /\
  length (Certificate.merkle_root c) = 32%nat /\
  length (Certificate.signature c) = 64%nat.

(** The first 264 bytes of that image, which the Merkle root covers. *)
Definition content_image (c : Certificate.cq_certificate_t) : list Z :=
  firstn 264 (certificate_image c).

(** The builder after the calls of [complete_session], the certificate
    built from it, and the certificate built after a further
    [cq_certificate_builder_set_format] with the unknown code 7. *)
Definition session_builder : Certificate.cq_certificate_builder_t :=
  fold_left apply_call complete_session Certificate.cq_certificate_builder_init.

Definition built_certificate : Certificate.cq_certificate_t :=
  Certificate.assemble
    real_hash Scenario.no_bytes Scenario.no_bytes Scenario.no_bytes
    content_image session_builder 1700000000.

Definition odd_format_certificate : Certificate.cq_certificate_t :=
  Certificate.assemble
    real_hash Scenario.no_bytes Scenario.no_bytes Scenario.no_bytes
    content_image
    (Certificate.cq_certificate_builder_set_format session_builder 7)
    1700000000.

(* ====================================================================== *)
(** * Properties *)
(* ====================================================================== *)

(* ---------------------------------------------------------------------- *)
(** *** Order facts on IEEE comparisons (no validity assumption) *)

Lemma SFcompare_antisym (x y : spec_float) :
  SFcompare y x = option_map CompOpp (SFcompare x y).
Proof.
  destruct x as [sx | sx | | sx mx ex], y as [sy | sy | | sy my ey];
    cbn [SFcompare option_map];
    try reflexivity;
    try (destruct sx; reflexivity);
    try (destruct sy; reflexivity);
    try (destruct sx, sy; reflexivity).
  destruct sx, sy; cbn [CompOpp]; try reflexivity;
    rewrite (Z.compare_antisym ey ex);
    destruct (ey ?= ex) eqn:E; cbn [CompOpp]; try reflexivity;
    change (PosDef.Pos.compare_cont Eq my mx) with (Pos.compare my mx);
    change (PosDef.Pos.compare_cont Eq mx my) with (Pos.compare mx my);
    rewrite (Pos.compare_antisym mx my); try reflexivity.
Qed.

Lemma SFcompare_None (x y : spec_float) :
  SFcompare x y = None <-> isnan x = true \/ isnan y = true.
Proof.
  destruct x as [sx | sx | | sx mx ex], y as [sy | sy | | sy my ey];
    cbn [SFcompare isnan]; split; intros H;
    try discriminate; try (left; reflexivity); try (right; reflexivity);
    try reflexivity; try (destruct H; discriminate);
    try (destruct sx; discriminate); try (destruct sy; discriminate).
Qed.

(** For C: [!(a > b)] and [a <= b] agree unless an operand is a NaN. *)
Lemma SFltb_negb_SFleb (a b : spec_float) :
  isnan a = false -> isnan b = false -> SFltb b a = negb (SFleb a b).
Proof.
  intros Ha Hb. unfold SFltb, SFleb. rewrite (SFcompare_antisym a b).
  destruct (SFcompare a b) as [c|] eqn:E.
  - destruct c; reflexivity.
  - apply SFcompare_None in E. destruct E; congruence.
Qed.

Lemma SFleb_not_SFltb (a b : spec_float) :
  SFleb a b = true -> SFltb b a = false.
Proof.
  unfold SFltb, SFleb. rewrite (SFcompare_antisym a b).
  destruct (SFcompare a b) as [[ | | ]|]; cbn; congruence.
Qed.

Lemma SFltb_not_SFleb (a b : spec_float) :
  SFltb a b = true -> SFleb b a = false.
Proof.
  unfold SFltb, SFleb. rewrite (SFcompare_antisym a b).
  destruct (SFcompare a b) as [[ | | ]|]; cbn; congruence.
Qed.

Lemma SFleb_nan_l (b : spec_float) : SFleb S754_nan b = false.
Proof. reflexivity. Qed.

Lemma SFleb_nan_r (a : spec_float) : SFleb a S754_nan = false.
Proof. destruct a; reflexivity. Qed.

Lemma SFltb_nan_r (a : spec_float) : SFltb a S754_nan = false.
Proof. destruct a; reflexivity. Qed.

(* ---------------------------------------------------------------------- *)
(** *** Overflow proofs *)

Lemma le_div_iff (a b c : Z) : 0 < b -> 0 <= c -> (a <= c / b <-> a * b <= c).
Proof.
  intros Hb Hc. split; intros H.
  - pose proof (Z.mul_div_le c b Hb). nia.
  - apply Z.div_le_lower_bound; lia.
Qed.

Lemma mul_u64_exact (a b : Z) :
  0 <= a * b <= UINT64_MAX -> mul_u64 a b = a * b.
Proof.
  intros H. unfold mul_u64, wrap_u64. apply Z.mod_small.
  unfold UINT64_MAX in H. lia.
Qed.

(** The staged check of the analyzer decides the exact product: for 32-bit
    magnitudes [is_safe] (and the returned boolean) is true exactly when
    [n * w * x < 2^63], and both guarded products are computed without
    wrapping. *)
Lemma cq_compute_overflow_proof_exact (w x n : Z) :
  is_uint32 w -> is_uint32 x -> is_uint32 n ->
  let r := Analyze.cq_compute_overflow_proof w x n in
  fst r = is_safe (snd r) /\
  (is_safe (snd r) = true <-> n * w * x < 2 ^ 63) /\
  (n <> 0 -> w <> 0 -> x <> 0 ->
     mul_u64 n w = n * w /\
     (x <= UINT64_MAX / mul_u64 n w -> mul_u64 (mul_u64 n w) x = n * w * x)).
Proof.
  unfold is_uint32, UINT32_MAX. intros Hw Hx Hn.
  assert (Hnw : 0 <= n * w <= UINT64_MAX) by (unfold UINT64_MAX; nia).
  pose proof (mul_u64_exact n w Hnw) as Enw.
  cbv zeta. unfold Analyze.cq_compute_overflow_proof.
  destruct ((n =? 0) || (w =? 0) || (x =? 0)) eqn:Ez.
  { cbn [fst snd is_safe]. split; [reflexivity|]. split.
    - split; [intros _|reflexivity].
      apply orb_true_iff in Ez. destruct Ez as [Ez|Ez].
      + apply orb_true_iff in Ez. destruct Ez as [Ez|Ez];
          apply Z.eqb_eq in Ez; subst; lia.
      + apply Z.eqb_eq in Ez; subst. rewrite Z.mul_0_r. lia.
    - intros Hn0 Hw0 Hx0. exfalso.
      apply orb_true_iff in Ez. destruct Ez as [Ez|Ez];
        [apply orb_true_iff in Ez; destruct Ez as [Ez|Ez]|];
        apply Z.eqb_eq in Ez; lia. }
  apply orb_false_iff in Ez. destruct Ez as [Ez Ex0].
  apply orb_false_iff in Ez. destruct Ez as [En0 Ew0].
  apply Z.eqb_neq in En0, Ew0, Ex0.
  assert (Hg1 : (w >? UINT64_MAX / n) = false).
  { rewrite Z.gtb_ltb. apply Z.ltb_ge.
    apply le_div_iff; unfold UINT64_MAX in *; nia. }
  rewrite Hg1, Enw.
  assert (Hstep : x <= UINT64_MAX / (n * w) ->
                  mul_u64 (n * w) x = n * w * x).
  { intros Hle. apply mul_u64_exact.
    apply le_div_iff in Hle; [nia | nia | unfold UINT64_MAX; lia]. }
  destruct (x >? UINT64_MAX / (n * w)) eqn:Hg2.
  { cbn [fst snd is_safe]. split; [reflexivity|]. split.
    - split; [discriminate|]. intros Hlt. exfalso.
      assert (Hgt : ~ x <= UINT64_MAX / (n * w)) by lia.
      apply Hgt. apply le_div_iff; unfold UINT64_MAX; nia.
    - intros _ _ _. split; [reflexivity | exact Hstep]. }
  assert (Hle : x <= UINT64_MAX / (n * w)) by lia.
  rewrite (Hstep Hle).
  change (Z.shiftl 1 63) with (2 ^ 63).
  destruct (n * w * x <? 2 ^ 63) eqn:Hlt; cbn [fst snd is_safe].
  - split; [reflexivity|]. split; [|intros _ _ _; split; [reflexivity|intros _; reflexivity]].
    split; [intros _; lia | reflexivity].
  - split; [reflexivity|]. split; [|intros _ _ _; split; [reflexivity|intros _; reflexivity]].
    split; [discriminate | intros; lia].
Qed.

(** C1 (overflow pre-check). The analyzer's staged check rejects
    [(n, w, x) = (2^16, 2^24, 2^24)], whose exact product is [2^64]; the
    primitive [cq_overflow_is_safe], re-checking the very proof record the
    analyzer stored, multiplies without guards, wraps to [0] and answers
    "safe". *)
Theorem cq_overflow_is_safe_wraps :
  let proof := snd (Analyze.cq_compute_overflow_proof 16777216 16777216 65536) in
  is_uint32 (dot_product_len proof) /\
  is_uint32 (max_weight_mag proof) /\
  is_uint32 (max_input_mag proof) /\
  dot_product_len proof * max_weight_mag proof * max_input_mag proof = 2 ^ 64 /\
  is_safe proof = false /\
  DVM.cq_overflow_is_safe proof = true.
Proof.
  cbv zeta. unfold is_uint32, UINT32_MAX.
  repeat split; try (vm_compute; congruence); vm_compute; reflexivity.
Qed.

(* ---------------------------------------------------------------------- *)
(** *** Round-to-nearest-even shift and Q16.16 division *)

Lemma is_rne_unique (x d q1 q2 : Z) :
  d <> 0 -> is_rne x d q1 -> is_rne x d q2 -> q1 = q2.
Proof.
  intros Hd [H1 E1] [H2 E2].
  assert (Hclose : Z.abs (q1 - q2) * Z.abs d <= Z.abs d).
  { rewrite <- Z.abs_mul.
    replace ((q1 - q2) * d) with ((x - q2 * d) - (x - q1 * d)) by ring.
    lia. }
  assert (Hcases : q1 = q2 \/ q1 = q2 + 1 \/ q2 = q1 + 1) by nia.
  destruct Hcases as [E | [E | E]]; [exact E | exfalso | exfalso].
  - assert (T1 : 2 * Z.abs (x - q1 * d) = Z.abs d) by (subst q1; nia).
    assert (T2 : 2 * Z.abs (x - q2 * d) = Z.abs d) by (subst q1; nia).
    specialize (E1 T1). specialize (E2 T2).
    subst q1. rewrite Z.even_add in E1. rewrite E2 in E1. discriminate.
  - assert (T1 : 2 * Z.abs (x - q1 * d) = Z.abs d) by (subst q2; nia).
    assert (T2 : 2 * Z.abs (x - q2 * d) = Z.abs d) by (subst q2; nia).
    specialize (E1 T1). specialize (E2 T2).
    subst q2. rewrite Z.even_add in E2. rewrite E1 in E2. discriminate.
Qed.

Lemma land_1_even (q : Z) : Z.land q 1 = if Z.even q then 0 else 1.
Proof.
  change 1 with (Z.ones 1) at 1. rewrite Z.land_ones by lia.
  rewrite Zmod_even. change (2 ^ 1) with 2. reflexivity.
Qed.

Lemma even_succ_of_odd (q : Z) : Z.even q = false -> Z.even (q + 1) = true.
Proof. intros H. rewrite Z.even_add, H. reflexivity. Qed.

Lemma even_pred_of_odd (q : Z) : Z.even q = false -> Z.even (q - 1) = true.
Proof. intros H. rewrite Z.even_sub, H. reflexivity. Qed.

Lemma shiftl_1_pow (k : Z) : 0 <= k -> Z.shiftl 1 k = 2 ^ k.
Proof. intros. rewrite Z.shiftl_mul_pow2 by lia. lia. Qed.

Lemma cq_round_shift_rne_nearest (x k : Z) (f : cq_fault_flags_t) :
  0 <= k <= 62 ->
  exists q, is_rne x (2 ^ k) q /\
            DVM.cq_round_shift_rne x k f = DVM.cq_clamp32 q f.
Proof.
  intros Hk. unfold DVM.cq_round_shift_rne.
  destruct (k >? 62) eqn:E62; [lia|].
  destruct (k =? 0) eqn:E0.
  - apply Z.eqb_eq in E0. subst k. exists x. split; [|reflexivity].
    change (2 ^ 0) with 1. unfold is_rne. split; [lia|]. intros; lia.
  - apply Z.eqb_neq in E0.
    rewrite shiftl_1_pow by lia.
    assert (Hd : 2 ^ k = 2 * 2 ^ (k - 1)).
    { rewrite <- Z.pow_succ_r by lia. f_equal. lia. }
    assert (Hh : 0 < 2 ^ (k - 1)) by (apply Z.pow_pos_nonneg; lia).
    set (h := 2 ^ (k - 1)) in *.
    rewrite Hd.
    replace (Z.quot (2 * h) 2) with h by (rewrite Z.mul_comm, Z.quot_mul; lia).
    pose proof (Z.quot_rem' x (2 * h)) as Hqr.
    assert (Hrb : Z.abs (Z.rem x (2 * h)) < 2 * h).
    { pose proof (Z.rem_bound_abs x (2 * h)). lia. }
    set (q0 := Z.quot x (2 * h)) in *.
    set (r := Z.rem x (2 * h)) in *.
    assert (Hx : x = 2 * (h * q0) + r) by lia.
    clearbody q0 r. clear Hqr.
    rewrite !land_1_even.
    destruct (r >? h) eqn:C1.
    { exists (q0 + 1). split; [|reflexivity]. unfold is_rne.
      replace (x - (q0 + 1) * (2 * h)) with (r - 2 * h) by lia.
      split; [lia | intros; lia]. }
    destruct (r <? - h) eqn:C2.
    { exists (q0 - 1). split; [|reflexivity]. unfold is_rne.
      replace (x - (q0 - 1) * (2 * h)) with (r + 2 * h) by lia.
      split; [lia | intros; lia]. }
    destruct (r =? h) eqn:C3.
    { destruct (Z.even q0) eqn:Ev.
      - exists (q0 + 0). split; [|reflexivity]. unfold is_rne.
        replace (x - (q0 + 0) * (2 * h)) with r by lia.
        split; [lia | intros _; rewrite Z.add_0_r; exact Ev].
      - exists (q0 + 1). split; [|reflexivity]. unfold is_rne.
        replace (x - (q0 + 1) * (2 * h)) with (r - 2 * h) by lia.
        split; [lia | intros _; apply even_succ_of_odd; exact Ev]. }
    destruct (r =? - h) eqn:C4.
    { destruct (Z.even q0) eqn:Ev.
      - exists (q0 - 0). split; [|reflexivity]. unfold is_rne.
        replace (x - (q0 - 0) * (2 * h)) with r by lia.
        split; [lia | intros _; rewrite Z.sub_0_r; exact Ev].
      - exists (q0 - 1). split; [|reflexivity]. unfold is_rne.
        replace (x - (q0 - 1) * (2 * h)) with (r + 2 * h) by lia.
        split; [lia | intros _; apply even_pred_of_odd; exact Ev]. }
    exists q0. split; [|reflexivity]. unfold is_rne.
    replace (x - q0 * (2 * h)) with r by lia.
    split; [lia | intros; lia].
Qed.

Lemma cq_clamp32_saturates (q : Z) (f : cq_fault_flags_t) :
  fst (DVM.cq_clamp32 q f) = Z.max INT32_MIN (Z.min INT32_MAX q).
Proof.
  unfold DVM.cq_clamp32, INT32_MIN, INT32_MAX.
  destruct (q >? 2147483647) eqn:E1; [cbn [fst]; lia|].
  destruct (q <? -2147483648) eqn:E2; cbn [fst]; lia.
Qed.

(** No intermediate value of the shift leaves the 64-bit range. *)
Lemma cq_round_shift_rne_no_overflow (x k : Z) :
  is_int64 x -> 1 <= k <= 62 ->
  is_int64 (Z.quot x (Z.shiftl 1 k) + 1) /\
  is_int64 (Z.quot x (Z.shiftl 1 k) - 1).
Proof.
  unfold is_int64, INT64_MIN, INT64_MAX. intros Hx Hk.
  rewrite shiftl_1_pow by lia.
  assert (H2 : 2 <= 2 ^ k).
  { change 2 with (2 ^ 1) at 1. apply Z.pow_le_mono_r; lia. }
  pose proof (Z.quot_rem' x (2 ^ k)) as Hqr.
  pose proof (Z.rem_bound_abs x (2 ^ k)) as Hrb.
  assert (Hs : 0 <= Z.rem x (2 ^ k) * x) by (apply Z.rem_sign_mul; lia).
  nia.
Qed.

(** C6. For every signed 64-bit [x] and shift [k] in [0,62] the result of
    [cq_round_shift_rne] is the 32-bit saturation of the integer nearest
    to [x / 2^k], ties going to the even integer; the five test vectors of
    the specification evaluate as stated; and every shift above 62 returns
    0 with the overflow flag set. *)
Theorem cq_round_shift_rne_correct :
  (forall x k f, is_int64 x -> 0 <= k <= 62 ->
     exists q, is_rne x (2 ^ k) q /\
               fst (DVM.cq_round_shift_rne x k f)
               = Z.max INT32_MIN (Z.min INT32_MAX q)) /\
  (fst (DVM.cq_round_shift_rne 0x00018000 16 cq_fault_clear) = 2 /\
   fst (DVM.cq_round_shift_rne 0x00028000 16 cq_fault_clear) = 2 /\
   fst (DVM.cq_round_shift_rne 0x00038000 16 cq_fault_clear) = 4 /\
   fst (DVM.cq_round_shift_rne (-0x00018000) 16 cq_fault_clear) = -2 /\
   fst (DVM.cq_round_shift_rne (-0x00028000) 16 cq_fault_clear) = -2) /\
  (forall x k f, is_int64 x -> 62 < k <= UINT32_MAX ->
     fst (DVM.cq_round_shift_rne x k f) = 0 /\
     overflow (snd (DVM.cq_round_shift_rne x k f)) = true).
Proof.
  split; [|split].
  - intros x k f _ Hk.
    destruct (cq_round_shift_rne_nearest x k f Hk) as [q [Hq Eq]].
    exists q. split; [exact Hq|].
    rewrite Eq. apply cq_clamp32_saturates.
  - repeat split; vm_compute; reflexivity.
  - intros x k f _ Hk. unfold DVM.cq_round_shift_rne.
    destruct (k >? 62) eqn:E; [|lia]. split; reflexivity.
Qed.

Lemma cq_round_shift_rne_correct_witness :
  (exists q, is_rne 98304 (2 ^ 16) q /\
             fst (DVM.cq_round_shift_rne 98304 16 cq_fault_clear)
             = Z.max INT32_MIN (Z.min INT32_MAX q)) /\
  (fst (DVM.cq_round_shift_rne 98304 63 cq_fault_clear) = 0 /\
   overflow (snd (DVM.cq_round_shift_rne 98304 63 cq_fault_clear)) = true).
Proof.
  split.
  - apply (proj1 cq_round_shift_rne_correct);
      unfold is_int64, INT64_MIN, INT64_MAX; lia.
  - apply (proj2 (proj2 cq_round_shift_rne_correct));
      unfold is_int64, INT64_MIN, INT64_MAX, UINT32_MAX; lia.
Defined.

Lemma cq_div_q16_by_zero (a : Z) (f : cq_fault_flags_t) :
  DVM.cq_div_q16 a 0 f = (0, set_div_zero f) /\
  div_zero (snd (DVM.cq_div_q16 a 0 f)) = true.
Proof. split; reflexivity. Qed.

(** C7. Dividing the Q16.16 value [1] by the Q16.16 value [3]: the exact
    quotient 65536/3 = 21845.33.. has nearest integer 21845, and nothing is
    saturated, but [cq_div_q16] halves the odd divisor with an integer
    division, takes the remainder 1 for a tie and returns 21846. *)
Theorem cq_div_q16_not_nearest :
  is_int32 1 /\ is_int32 3 /\
  is_rne (1 * 2 ^ 16) 3 21845 /\
  Z.max INT32_MIN (Z.min INT32_MAX 21845) = 21845 /\
  DVM.cq_div_q16 1 3 cq_fault_clear = (21846, cq_fault_clear) /\
  ~ is_rne (1 * 2 ^ 16) 3 21846.
Proof.
  unfold is_int32, INT32_MIN, INT32_MAX, is_rne.
  repeat split; try (vm_compute; congruence); try reflexivity.
  intros [H _]. vm_compute in H. apply H. reflexivity.
Qed.

(* ---------------------------------------------------------------------- *)
(** *** IEEE rounding: nearest-even results and representable lower bounds *)

(** **** Binary digits *)

Lemma pow2_pos (k : Z) : 0 <= k -> 0 < 2 ^ k.
Proof. intros. apply Z.pow_pos_nonneg; lia. Qed.

Lemma pow2_le (a b : Z) : 0 <= a <= b -> 2 ^ a <= 2 ^ b.
Proof. intros. apply Z.pow_le_mono_r; lia. Qed.

Lemma pow2_lt (a b : Z) : 0 <= a < b -> 2 ^ a < 2 ^ b.
Proof. intros. apply Z.pow_lt_mono_r; lia. Qed.

Lemma pow2_split (a b : Z) : 0 <= a -> 0 <= b -> 2 ^ (a + b) = 2 ^ a * 2 ^ b.
Proof. intros. apply Z.pow_add_r; lia. Qed.

Lemma digits2_pos_bounds (m : positive) :
  2 ^ (Zpos (digits2_pos m) - 1) <= Zpos m < 2 ^ Zpos (digits2_pos m).
Proof.
  induction m as [p IH | p IH | ]; cbn [digits2_pos].
  - rewrite Pos2Z.inj_succ, (Pos2Z.inj_xI p).
    replace (Z.succ (Zpos (digits2_pos p)) - 1)
      with (Z.succ (Zpos (digits2_pos p) - 1)) by lia.
    rewrite !Z.pow_succ_r by lia. lia.
  - rewrite Pos2Z.inj_succ, (Pos2Z.inj_xO p).
    replace (Z.succ (Zpos (digits2_pos p)) - 1)
      with (Z.succ (Zpos (digits2_pos p) - 1)) by lia.
    rewrite !Z.pow_succ_r by lia. lia.
  - cbn. lia.
Qed.

Lemma digits2_pos_unique (m : positive) (k : Z) :
  2 ^ (k - 1) <= Zpos m < 2 ^ k -> 1 <= k -> Zpos (digits2_pos m) = k.
Proof.
  intros [Hlo Hhi] Hk. pose proof (digits2_pos_bounds m) as [Dlo Dhi].
  set (d := Zpos (digits2_pos m)) in *.
  assert (Hd : 1 <= d) by (unfold d; lia).
  destruct (Z.lt_trichotomy d k) as [Hlt | [Heq | Hgt]]; [exfalso | exact Heq | exfalso].
  - assert (2 ^ d <= 2 ^ (k - 1)) by (apply pow2_le; lia). lia.
  - assert (2 ^ k <= 2 ^ (d - 1)) by (apply pow2_le; lia). lia.
Qed.

Lemma digits2_pos_le (m1 m2 : positive) :
  (m1 <= m2)%positive -> Zpos (digits2_pos m1) <= Zpos (digits2_pos m2).
Proof.
  intros Hle.
  pose proof (digits2_pos_bounds m1) as [L1 H1].
  pose proof (digits2_pos_bounds m2) as [L2 H2].
  destruct (Z_le_gt_dec (Zpos (digits2_pos m1)) (Zpos (digits2_pos m2)))
    as [Hok | Hgt]; [exact Hok | exfalso].
  assert (2 ^ Zpos (digits2_pos m2) <= 2 ^ (Zpos (digits2_pos m1) - 1))
    by (apply pow2_le; lia).
  lia.
Qed.

Lemma div_div_pow2 (a x y : Z) :
  0 <= x -> 0 <= y -> a / 2 ^ x / 2 ^ y = a / 2 ^ (x + y).
Proof.
  intros Hx Hy. pose proof (pow2_pos x Hx). pose proof (pow2_pos y Hy).
  rewrite pow2_split by lia. apply Z.div_div; lia.
Qed.

(** **** Right shifts of the rounding record *)

Lemma shr_1_m (mrs : shr_record) :
  0 <= shr_m mrs -> shr_m (shr_1 mrs) = shr_m mrs / 2.
Proof.
  destruct mrs as [m r s]. cbn [shr_m]. intros Hm.
  destruct m as [|p|p]; [reflexivity | | lia].
  destruct p as [p|p|]; cbn [shr_1 shr_m].
  - rewrite (Pos2Z.inj_xI p). rewrite Z.mul_comm, Z.div_add_l by lia.
    change (1 / 2) with 0. lia.
  - rewrite (Pos2Z.inj_xO p). rewrite Z.mul_comm, Z.div_mul by lia. reflexivity.
  - reflexivity.
Qed.

Lemma iter_pos_shr_1_m (p : positive) :
  forall mrs, 0 <= shr_m mrs ->
    shr_m (iter_pos shr_1 p mrs) = shr_m mrs / 2 ^ Zpos p.
Proof.
  induction p as [p IH | p IH | ]; intros mrs Hm; cbn [iter_pos].
  - assert (H1 : 0 <= shr_m (shr_1 mrs)).
    { rewrite shr_1_m by exact Hm. apply Z.div_pos; lia. }
    assert (H2 : 0 <= shr_m (iter_pos shr_1 p (shr_1 mrs))).
    { rewrite IH by exact H1. apply Z.div_pos; [exact H1 | apply pow2_pos; lia]. }
    rewrite IH by exact H2. rewrite IH by exact H1. rewrite shr_1_m by exact Hm.
    change 2 with (2 ^ 1) at 1. rewrite !div_div_pow2 by lia.
    f_equal. f_equal. rewrite (Pos2Z.inj_xI p). lia.
  - assert (H1 : 0 <= shr_m (iter_pos shr_1 p mrs)).
    { rewrite IH by exact Hm. apply Z.div_pos; [exact Hm | apply pow2_pos; lia]. }
    rewrite IH by exact H1. rewrite IH by exact Hm.
    rewrite div_div_pow2 by lia.
    f_equal. f_equal. rewrite (Pos2Z.inj_xO p). lia.
  - rewrite shr_1_m by exact Hm. reflexivity.
Qed.

Lemma round_nearest_even_bounds (m : Z) (l : location) :
  m <= round_nearest_even m l <= m + 1.
Proof.
  destruct l as [|[ | | ]]; cbn [round_nearest_even]; try lia.
  destruct (Z.even m); lia.
Qed.

(** **** The round and sticky bits *)

Lemma shr_1_rs (m : Z) (r s : bool) :
  0 <= m ->
  shr_r (shr_1 (Build_shr_record m r s)) = Z.odd m /\
  shr_s (shr_1 (Build_shr_record m r s)) = r || s.
Proof.
  intros Hm. destruct m as [|p|p]; [split; reflexivity | | lia].
  destruct p; split; reflexivity.
Qed.

Lemma testbit_odd_div (P k : Z) :
  0 <= k -> Z.testbit P k = Z.odd (P / 2 ^ k).
Proof.
  intros Hk. rewrite Z.testbit_odd, Z.shiftr_div_pow2 by lia. reflexivity.
Qed.

Lemma mod_pow2_succ (P k : Z) :
  0 <= k ->
  P mod 2 ^ (k + 1)
  = P mod 2 ^ k + 2 ^ k * (if Z.testbit P k then 1 else 0).
Proof.
  intros Hk. pose proof (pow2_pos k Hk) as Hp.
  rewrite pow2_split by lia. change (2 ^ 1) with 2.
  rewrite Z.rem_mul_r by lia.
  rewrite testbit_odd_div by lia. rewrite Zmod_odd. reflexivity.
Qed.

Lemma shr_1_represents (P k : Z) (mrs : shr_record) :
  0 <= P -> 0 <= k ->
  shr_represents P k mrs -> shr_represents P (k + 1) (shr_1 mrs).
Proof.
  intros HP Hk (Hm & Hr & Hs).
  assert (Hm0 : 0 <= shr_m mrs).
  { rewrite Hm. apply Z.div_pos; [exact HP | apply pow2_pos; exact Hk]. }
  unfold shr_represents. rewrite shr_1_m by exact Hm0.
  destruct mrs as [m r s]. cbn [shr_m shr_r shr_s] in *.
  destruct (shr_1_rs m r s Hm0) as [Er Es]. rewrite Er, Es.
  replace (k + 1 - 1) with k by lia.
  replace (0 <? k + 1) with true by (symmetry; apply Z.ltb_lt; lia).
  cbn [andb]. split; [|split].
  - rewrite Hm. change 2 with (2 ^ 1) at 2.
    rewrite div_div_pow2 by lia. reflexivity.
  - rewrite Hm. symmetry. apply testbit_odd_div. exact Hk.
  - subst r s. destruct (Z.eq_dec k 0) as [-> | Hk0].
    + cbn [Z.ltb Z.compare andb orb]. change (2 ^ 0) with 1.
      rewrite Z.mod_1_r. reflexivity.
    + replace (0 <? k) with true by (symmetry; apply Z.ltb_lt; lia).
      cbn [andb].
      pose proof (mod_pow2_succ P (k - 1) ltac:(lia)) as Hsplit.
      replace (k - 1 + 1) with k in Hsplit by lia.
      assert (Hh : 0 < 2 ^ (k - 1)) by (apply pow2_pos; lia).
      pose proof (Z.mod_pos_bound P (2 ^ (k - 1)) Hh) as Hlow.
      rewrite Hsplit.
      destruct (Z.testbit P (k - 1)); cbn [orb].
      * symmetry. apply negb_true_iff, Z.eqb_neq. lia.
      * f_equal. f_equal. lia.
Qed.

Lemma iter_pos_shr_1_represents (P : Z) (p : positive) :
  0 <= P ->
  forall k mrs, 0 <= k ->
    shr_represents P k mrs ->
    shr_represents P (k + Zpos p) (iter_pos shr_1 p mrs).
Proof.
  intros HP. induction p as [p IH | p IH | ]; intros k mrs Hk Hrep;
    cbn [iter_pos].
  - replace (k + Zpos p~1) with (k + 1 + Zpos p + Zpos p) by lia.
    apply IH; [lia|]. apply IH; [lia|].
    apply shr_1_represents; assumption.
  - replace (k + Zpos p~0) with (k + Zpos p + Zpos p) by lia.
    apply IH; [lia|]. apply IH; assumption.
  - apply shr_1_represents; assumption.
Qed.

Lemma shr_represents_start (P : Z) :
  shr_represents P 0 (Build_shr_record P false false).
Proof.
  unfold shr_represents. cbn [shr_m shr_r shr_s Z.ltb Z.compare andb].
  change (2 ^ 0) with 1. rewrite Z.div_1_r. repeat split.
Qed.

(** Rounding the record to nearest-even gives the nearest integer to
    [P / 2^k], ties to even. *)
Lemma round_nearest_even_rne (P k : Z) (mrs : shr_record) :
  0 <= P -> 0 <= k ->
  shr_represents P k mrs ->
  is_rne P (2 ^ k) (round_nearest_even (shr_m mrs) (loc_of_shr_record mrs)).
Proof.
  intros HP Hk (Hm & Hr & Hs).
  destruct mrs as [m r s]. cbn [shr_m shr_r shr_s] in *.
  pose proof (pow2_pos k Hk) as Hp.
  pose proof (Z.div_mod P (2 ^ k) ltac:(lia)) as Hdm.
  pose proof (Z.mod_pos_bound P (2 ^ k) Hp) as Hrem.
  rewrite <- Hm in Hdm.
  unfold is_rne. rewrite (Z.abs_eq (2 ^ k)) by lia.
  destruct (Z.eq_dec k 0) as [-> | Hk0].
  - cbn [Z.ltb Z.compare andb] in Hr, Hs. subst r s.
    cbn [loc_of_shr_record round_nearest_even].
    change (2 ^ 0) with 1 in *. split; [lia | intros; lia].
  - replace (0 <? k) with true in Hr, Hs by (symmetry; apply Z.ltb_lt; lia).
    cbn [andb] in Hr, Hs.
    pose proof (mod_pow2_succ P (k - 1) ltac:(lia)) as Hsplit.
    replace (k - 1 + 1) with k in Hsplit by lia.
    assert (Hh : 0 < 2 ^ (k - 1)) by (apply pow2_pos; lia).
    pose proof (Z.mod_pos_bound P (2 ^ (k - 1)) Hh) as Hlow.
    assert (H2 : 2 ^ k = 2 * 2 ^ (k - 1)).
    { replace k with (1 + (k - 1)) at 1 by lia.
      rewrite pow2_split by lia. reflexivity. }
    set (h := 2 ^ (k - 1)) in *. set (low := P mod h) in *.
    set (rem := P mod 2 ^ k) in *. rewrite H2 in *.
    destruct (Z.testbit P (k - 1)); subst r;
      destruct (low =? 0) eqn:El; cbn [negb] in Hs; subst s;
      cbn [loc_of_shr_record round_nearest_even];
      [apply Z.eqb_eq in El | apply Z.eqb_neq in El
      | apply Z.eqb_eq in El | apply Z.eqb_neq in El].
    + (* tie *)
      destruct (Z.even m) eqn:Ev.
      * split; [lia | intros _; exact Ev].
      * split; [lia | intros _]. rewrite Z.even_add, Ev. reflexivity.
    + split; [lia | intros; lia].
    + split; [lia | intros; lia].
    + split; [lia | intros; lia].
Qed.

(** **** Formats: exponent function, canonical mantissas, scaled values *)

Section Format.

Variables prec emax : Z.
Hypothesis Hprec : 0 < prec.
Hypothesis Hemax : prec < emax.

Local Notation "'vbase'" := (float_vbase prec emax).
Local Notation "'val'" := (float_val prec emax).

Lemma emin_nonpos : emin prec emax <= 0.
Proof. unfold emin. lia. Qed.

Lemma vbase_le_emin : vbase <= emin prec emax.
Proof. unfold float_vbase. pose proof emin_nonpos. lia. Qed.

Lemma fexp_ge_emin (k : Z) : emin prec emax <= fexp prec emax k.
Proof. unfold fexp. lia. Qed.

Lemma fexp_mono (j k : Z) : j <= k -> fexp prec emax j <= fexp prec emax k.
Proof. unfold fexp. lia. Qed.

Lemma canonical_cases (m : positive) (e : Z) :
  canonical_mantissa prec emax m e = true <->
  (Zpos (digits2_pos m) = prec /\ emin prec emax <= e) \/
  (e = emin prec emax /\ Zpos (digits2_pos m) <= prec).
Proof.
  unfold canonical_mantissa, fexp. rewrite Z.eqb_eq. lia.
Qed.

Lemma val_pos (m e : Z) : 0 < m -> vbase <= e -> 0 < val m e.
Proof.
  intros Hm He. unfold float_val. apply Z.mul_pos_pos; [exact Hm|].
  apply pow2_pos. lia.
Qed.

Lemma val_le_mantissa (m1 m2 e : Z) :
  vbase <= e -> m1 <= m2 -> val m1 e <= val m2 e.
Proof.
  intros He Hm. unfold float_val. apply Z.mul_le_mono_nonneg_r; [|exact Hm].
  apply Z.lt_le_incl, pow2_pos. lia.
Qed.

Lemma val_shift (m e k : Z) :
  vbase <= e -> 0 <= k -> val (m * 2 ^ k) e = val m (e + k).
Proof.
  intros He Hk. unfold float_val.
  replace (e + k - vbase) with (k + (e - vbase)) by lia.
  rewrite pow2_split by lia. ring.
Qed.

Lemma val_upper (m : positive) (e : Z) :
  vbase <= e -> val (Zpos m) e < 2 ^ (Zpos (digits2_pos m) + e - vbase).
Proof.
  intros He. unfold float_val. pose proof (digits2_pos_bounds m) as [_ Hhi].
  replace (Zpos (digits2_pos m) + e - vbase)
    with (Zpos (digits2_pos m) + (e - vbase)) by lia.
  rewrite pow2_split by lia.
  apply Z.mul_lt_mono_pos_r; [apply pow2_pos; lia | exact Hhi].
Qed.

Lemma val_lower (m : positive) (e : Z) :
  vbase <= e -> 2 ^ (Zpos (digits2_pos m) - 1 + e - vbase) <= val (Zpos m) e.
Proof.
  intros He. unfold float_val. pose proof (digits2_pos_bounds m) as [Hlo _].
  replace (Zpos (digits2_pos m) - 1 + e - vbase)
    with (Zpos (digits2_pos m) - 1 + (e - vbase)) by lia.
  rewrite pow2_split by lia.
  apply Z.mul_le_mono_nonneg_r; [apply Z.lt_le_incl, pow2_pos; lia | exact Hlo].
Qed.

(** A value bounds the position of its leading digit. *)
Lemma val_le_digits (m1 m2 : positive) (e1 e2 : Z) :
  vbase <= e1 -> vbase <= e2 ->
  val (Zpos m1) e1 <= val (Zpos m2) e2 ->
  Zpos (digits2_pos m1) + e1 <= Zpos (digits2_pos m2) + e2.
Proof.
  intros H1 H2 Hle.
  pose proof (val_lower m1 e1 H1) as Hlo.
  pose proof (val_upper m2 e2 H2) as Hhi.
  destruct (Z_le_gt_dec (Zpos (digits2_pos m1) + e1)
                        (Zpos (digits2_pos m2) + e2)) as [Hok | Hgt];
    [exact Hok | exfalso].
  assert (2 ^ (Zpos (digits2_pos m2) + e2 - vbase)
          <= 2 ^ (Zpos (digits2_pos m1) - 1 + e1 - vbase))
    by (apply pow2_le; lia).
  lia.
Qed.

(** On canonical positive numbers the IEEE comparison is the comparison of
    values. *)
Lemma SFleb_of_val (m1 m2 : positive) (e1 e2 : Z) :
  canonical_mantissa prec emax m1 e1 = true ->
  canonical_mantissa prec emax m2 e2 = true ->
  val (Zpos m1) e1 <= val (Zpos m2) e2 ->
  SFleb (S754_finite false m1 e1) (S754_finite false m2 e2) = true.
Proof.
  intros C1 C2 Hle. apply canonical_cases in C1, C2.
  pose proof vbase_le_emin as Hb.
  assert (B1 : vbase <= e1) by lia. assert (B2 : vbase <= e2) by lia.
  unfold SFleb. cbn [SFcompare].
  destruct (Z.compare_spec e1 e2) as [Heq | Hlt | Hgt]; [| reflexivity | exfalso].
  - subst e2.
    change (PosDef.Pos.compare_cont Eq m1 m2) with (Pos.compare m1 m2).
    destruct (Pos.compare_spec m1 m2) as [ | | Hgt]; try reflexivity.
    exfalso. unfold float_val in Hle.
    assert (0 < 2 ^ (e1 - vbase)) by (apply pow2_pos; lia).
    assert (Zpos m2 < Zpos m1) by lia. nia.
  - assert (D1 : Zpos (digits2_pos m1) = prec) by lia.
    pose proof (val_lower m1 e1 B1) as Hlo.
    pose proof (val_upper m2 e2 B2) as Hhi.
    assert (2 ^ (Zpos (digits2_pos m2) + e2 - vbase)
            <= 2 ^ (Zpos (digits2_pos m1) - 1 + e1 - vbase))
      by (apply pow2_le; lia).
    lia.
Qed.

Lemma val_of_SFleb (m1 m2 : positive) (e1 e2 : Z) :
  canonical_mantissa prec emax m1 e1 = true ->
  canonical_mantissa prec emax m2 e2 = true ->
  SFleb (S754_finite false m1 e1) (S754_finite false m2 e2) = true ->
  val (Zpos m1) e1 <= val (Zpos m2) e2.
Proof.
  intros C1 C2 Hle. apply canonical_cases in C1, C2.
  pose proof vbase_le_emin as Hb.
  assert (B1 : vbase <= e1) by lia. assert (B2 : vbase <= e2) by lia.
  unfold SFleb in Hle. cbn [SFcompare] in Hle.
  destruct (Z.compare_spec e1 e2) as [Heq | Hlt | Hgt]; [| | discriminate].
  - subst e2.
    change (PosDef.Pos.compare_cont Eq m1 m2) with (Pos.compare m1 m2) in Hle.
    apply val_le_mantissa; [exact B1|].
    destruct (Pos.compare_spec m1 m2) as [ | | Hgt]; [lia | lia | discriminate].
  - assert (D2 : Zpos (digits2_pos m2) = prec) by lia.
    pose proof (val_upper m1 e1 B1) as Hhi.
    pose proof (val_lower m2 e2 B2) as Hlo.
    assert (2 ^ (Zpos (digits2_pos m1) + e1 - vbase)
            <= 2 ^ (Zpos (digits2_pos m2) - 1 + e2 - vbase))
      by (apply pow2_le; lia).
    lia.
Qed.

End Format.

(** **** Rounding an exact mantissa *)

Section Rounding.

Variables prec emax : Z.
Hypothesis Hprec : 0 < prec.
Hypothesis Hemax : prec < emax.

Lemma shr_fexp_exact_m (m : positive) (e : Z) :
  let g := fexp prec emax (Zpos (digits2_pos m) + e) in
  e <= g ->
  shr_m (fst (shr_fexp prec emax (Zpos m) e loc_Exact)) = Zpos m / 2 ^ (g - e) /\
  snd (shr_fexp prec emax (Zpos m) e loc_Exact) = g.
Proof.
  cbv zeta. intros Hle. unfold shr_fexp. cbn [Zdigits2 shr_record_of_loc].
  set (g := fexp prec emax (Zpos (digits2_pos m) + e)) in *.
  unfold shr. destruct (g - e) as [|p|p] eqn:En; [| |lia].
  - cbn [fst snd shr_m]. change (2 ^ 0) with 1. rewrite Z.div_1_r. lia.
  - cbn [fst snd]. rewrite iter_pos_shr_1_m by (cbn; lia).
    cbn [shr_m]. lia.
Qed.

Lemma shr_fexp_exact_represents (m : positive) (e : Z) :
  let g := fexp prec emax (Zpos (digits2_pos m) + e) in
  e <= g ->
  shr_represents (Zpos m) (g - e)
                 (fst (shr_fexp prec emax (Zpos m) e loc_Exact)).
Proof.
  cbv zeta. intros Hle. unfold shr_fexp. cbn [Zdigits2 shr_record_of_loc].
  set (g := fexp prec emax (Zpos (digits2_pos m) + e)) in *.
  unfold shr. destruct (g - e) as [|p|p] eqn:En; [| |lia].
  - cbn [fst]. apply shr_represents_start.
  - cbn [fst]. change (Zpos p) with (0 + Zpos p).
    apply iter_pos_shr_1_represents; [lia | lia | apply shr_represents_start].
Qed.

(** The three possible outcomes of rounding [m * 2^e], when [e] does not
    exceed the exponent [g] that the format gives to the number: the rounded
    mantissa [m1] is the truncated one or its successor. *)
Lemma binary_round_aux_cases (s : bool) (m : positive) (e : Z) :
  let g := fexp prec emax (Zpos (digits2_pos m) + e) in
  e <= g ->
  exists m1,
    is_rne (Zpos m) (2 ^ (g - e)) m1 /\
    Zpos m / 2 ^ (g - e) <= m1 <= Zpos m / 2 ^ (g - e) + 1 /\
    m1 <= 2 ^ prec /\
    binary_round_aux prec emax s (Zpos m) e loc_Exact
    = if m1 =? 0 then S754_zero s
      else if m1 <? 2 ^ prec then
             if g <=? emax - prec then S754_finite s (Z.to_pos m1) g
             else S754_infinity s
           else
             if g + 1 <=? emax - prec
             then S754_finite s (Z.to_pos (m1 / 2)) (g + 1)
             else S754_infinity s.
Proof.
  cbv zeta. intros Hle.
  destruct (shr_fexp_exact_m m e Hle) as [Hm He].
  pose proof (shr_fexp_exact_represents m e Hle) as Hrep. cbv zeta in Hrep.
  set (g := fexp prec emax (Zpos (digits2_pos m) + e)) in *.
  pose proof (fexp_ge_emin prec emax (Zpos (digits2_pos m) + e)) as Hg.
  fold g in Hg.
  unfold binary_round_aux.
  destruct (shr_fexp prec emax (Zpos m) e loc_Exact) as [mrs' e'].
  cbn [fst snd] in Hm, He, Hrep. subst e'.
  pose proof (round_nearest_even_rne (Zpos m) (g - e) mrs'
                ltac:(lia) ltac:(lia) Hrep) as Hrne.
  set (m1 := round_nearest_even (shr_m mrs') (loc_of_shr_record mrs')).
  pose proof (round_nearest_even_bounds (shr_m mrs') (loc_of_shr_record mrs'))
    as Hr. fold m1 in Hr. rewrite Hm in Hr.
  assert (Hpp : 0 < 2 ^ prec) by (apply pow2_pos; lia).
  assert (Hn : 0 <= g - e) by lia.
  assert (Hq : 0 <= Zpos m / 2 ^ (g - e) < 2 ^ prec).
  { split; [apply Z.div_pos; [lia | apply pow2_pos; lia]|].
    apply Z.div_lt_upper_bound; [apply pow2_pos; lia|].
    pose proof (digits2_pos_bounds m) as [_ Hhi].
    rewrite <- pow2_split by lia.
    assert (2 ^ Zpos (digits2_pos m) <= 2 ^ (g - e + prec)).
    { apply pow2_le. unfold g, fexp. lia. }
    lia. }
  exists m1. split; [exact Hrne|]. split; [exact Hr|]. split; [lia|].
  destruct m1 as [|q|q] eqn:Em1; [| |lia].
  - (* rounded to zero *)
    cbn [Z.eqb]. unfold shr_fexp. cbn [Zdigits2 shr_record_of_loc].
    unfold shr.
    destruct (fexp prec emax (0 + g) - g) as [|p|p] eqn:En;
      [reflexivity | | reflexivity].
    exfalso. unfold fexp in En. lia.
  - cbn [Z.eqb]. change (Z.to_pos (Zpos q)) with q.
    pose proof (digits2_pos_bounds q) as [Dlo Dhi].
    unfold shr_fexp. cbn [Zdigits2 shr_record_of_loc]. unfold shr.
    destruct (Zpos q <? 2 ^ prec) eqn:Elt.
    + (* the rounded mantissa fits *)
      apply Z.ltb_lt in Elt.
      assert (Hd : Zpos (digits2_pos q) <= prec).
      { destruct (Z_le_gt_dec (Zpos (digits2_pos q)) prec) as [|Hgt];
          [assumption | exfalso].
        assert (2 ^ prec <= 2 ^ (Zpos (digits2_pos q) - 1))
          by (apply pow2_le; lia).
        lia. }
      destruct (fexp prec emax (Zpos (digits2_pos q) + g) - g) as [|p|p] eqn:En;
        [reflexivity | | reflexivity].
      exfalso. unfold fexp in En. lia.
    + (* carry into the next binade *)
      apply Z.ltb_ge in Elt.
      assert (Eq : Zpos q = 2 ^ prec) by lia.
      assert (Hd : Zpos (digits2_pos q) = prec + 1).
      { apply digits2_pos_unique; [|lia].
        replace (prec + 1 - 1) with prec by lia.
        split; [lia|]. rewrite Eq. apply pow2_lt. lia. }
      rewrite Hd.
      replace (fexp prec emax (prec + 1 + g) - g) with 1
        by (unfold fexp; lia).
      cbn [iter_pos fst snd]. rewrite shr_1_m by (cbn; lia). cbn [shr_m].
      assert (Hhalf : Zpos q / 2 = 2 ^ (prec - 1)).
      { rewrite Eq. replace prec with (1 + (prec - 1)) at 1 by lia.
        rewrite pow2_split by lia. change (2 ^ 1) with 2.
        rewrite Z.mul_comm, Z.div_mul by lia. reflexivity. }
      assert (Hpos : 0 < Zpos q / 2) by (rewrite Hhalf; apply pow2_pos; lia).
      destruct (Zpos q / 2) as [|h|h] eqn:Eh; [lia | | lia].
      reflexivity.
Qed.

End Rounding.

Section RoundingBounds.

Variables prec emax : Z.
Hypothesis Hprec : 0 < prec.
Hypothesis Hemax : prec < emax.

Local Notation "'vbase'" := (float_vbase prec emax).
Local Notation "'val'" := (float_val prec emax).

Lemma canonical_fexp (m : positive) (e : Z) :
  canonical_mantissa prec emax m e = true ->
  fexp prec emax (Zpos (digits2_pos m) + e) = e.
Proof. unfold canonical_mantissa. apply Z.eqb_eq. Qed.

(** Truncating [m * 2^e] to the exponent the format gives it does not go
    below a canonical number that [m * 2^e] dominates. *)
Lemma truncation_ge (mf m : positive) (ef e : Z) :
  canonical_mantissa prec emax mf ef = true ->
  vbase <= e ->
  e <= fexp prec emax (Zpos (digits2_pos m) + e) ->
  val (Zpos mf) ef <= val (Zpos m) e ->
  let g := fexp prec emax (Zpos (digits2_pos m) + e) in
  val (Zpos mf) ef <= val (Zpos m / 2 ^ (g - e)) g.
Proof.
  intros Cf Hb Hpre Hle. cbv zeta.
  pose proof (canonical_fexp mf ef Cf) as Hfe.
  apply canonical_cases in Cf.
  pose proof (vbase_le_emin prec emax Hprec Hemax) as Hvb.
  assert (Hbf : vbase <= ef) by lia.
  pose proof (val_le_digits prec emax mf m ef e Hbf Hb Hle) as Hdig.
  pose proof (fexp_mono prec emax _ _ Hdig) as Hmono. rewrite Hfe in Hmono.
  set (d := Zpos (digits2_pos m)) in *.
  set (df := Zpos (digits2_pos mf)) in *.
  set (g := fexp prec emax (d + e)) in *.
  assert (Hd1 : 1 <= d) by (unfold d; lia).
  assert (Hdf1 : 1 <= df) by (unfold df; lia).
  assert (Hn : 0 <= g - e) by lia.
  assert (Hpn : 0 < 2 ^ (g - e)) by (apply pow2_pos; lia).
  assert (Hge : emin prec emax <= g) by (apply fexp_ge_emin).
  destruct (Z.eq_dec ef g) as [Heq | Hne].
  - (* same exponent: compare mantissas *)
    rewrite Heq in *. apply val_le_mantissa; [lia|].
    apply Z.div_le_lower_bound; [exact Hpn|].
    unfold float_val in Hle.
    replace (g - vbase) with ((g - e) + (e - vbase)) in Hle by lia.
    rewrite pow2_split in Hle by lia.
    assert (HT : 0 < 2 ^ (e - vbase)) by (apply pow2_pos; lia).
    nia.
  - (* smaller exponent: the leading digit of the truncation is higher *)
    assert (Hlt : ef < g) by lia.
    assert (Hdig' : df + ef <= d + e - 1).
    { destruct (Z.eq_dec (df + ef) (d + e)) as [E|E]; [|lia].
      exfalso. unfold g in Hlt. rewrite <- E, Hfe in Hlt. lia. }
    pose proof (val_upper prec emax mf ef Hbf) as Hup. fold df in Hup.
    assert (Hk : 0 <= d - 1 - (g - e)).
    { unfold g, fexp. lia. }
    assert (Hq : 2 ^ (d - 1 - (g - e)) <= Zpos m / 2 ^ (g - e)).
    { apply Z.div_le_lower_bound; [exact Hpn|].
      rewrite <- pow2_split by lia.
      replace (g - e + (d - 1 - (g - e))) with (d - 1) by lia.
      pose proof (digits2_pos_bounds m) as [Hlo _]. exact Hlo. }
    assert (Hv : 2 ^ (d + e - 1 - vbase) <= val (Zpos m / 2 ^ (g - e)) g).
    { unfold float_val.
      replace (d + e - 1 - vbase) with ((d - 1 - (g - e)) + (g - vbase)) by lia.
      rewrite pow2_split by lia.
      apply Z.mul_le_mono_nonneg_r; [|exact Hq].
      apply Z.lt_le_incl, pow2_pos. lia. }
    assert (2 ^ (df + ef - vbase) <= 2 ^ (d + e - 1 - vbase))
      by (apply pow2_le; lia).
    lia.
Qed.

(** Rounding [m * 2^e] to nearest: the result is +infinity or a valid
    number, and it is not below a canonical number that [m * 2^e]
    dominates. *)
Lemma binary_round_aux_ge (mf m : positive) (ef e : Z) :
  canonical_mantissa prec emax mf ef = true ->
  vbase <= e ->
  e <= fexp prec emax (Zpos (digits2_pos m) + e) ->
  val (Zpos mf) ef <= val (Zpos m) e ->
  let r := binary_round_aux prec emax false (Zpos m) e loc_Exact in
  r = S754_infinity false \/
  exists m' e',
    r = S754_finite false m' e' /\
    bounded prec emax m' e' = true /\
    val (Zpos mf) ef <= val (Zpos m') e'.
Proof.
  intros Cf Hb Hpre Hle. cbv zeta.
  pose proof (truncation_ge mf m ef e Cf Hb Hpre Hle) as Htr. cbv zeta in Htr.
  destruct (binary_round_aux_cases prec emax Hprec false m e Hpre)
    as (m1 & _ & Hm1 & Hm1p & Hr).
  rewrite Hr. clear Hr.
  pose proof (vbase_le_emin prec emax Hprec Hemax) as Hvb.
  set (d := Zpos (digits2_pos m)) in *.
  set (g := fexp prec emax (d + e)) in *.
  assert (Hge : emin prec emax <= g) by (apply fexp_ge_emin).
  assert (Hbg : vbase <= g) by lia.
  assert (Hfpos : 0 < val (Zpos mf) ef).
  { apply val_pos; [lia|]. apply canonical_cases in Cf. lia. }
  assert (Hv1 : val (Zpos mf) ef <= val m1 g).
  { eapply Z.le_trans; [exact Htr|].
    apply val_le_mantissa; lia. }
  assert (Hm1pos : 0 < m1).
  { destruct (Z_lt_le_dec 0 m1) as [|Hle0]; [assumption | exfalso].
    assert (val m1 g <= 0).
    { unfold float_val. apply Z.mul_nonpos_nonneg; [lia|].
      apply Z.lt_le_incl, pow2_pos. lia. }
    lia. }
  assert (Hpp : 0 < 2 ^ (prec - 1)) by (apply pow2_pos; lia).
  assert (Hp2 : 2 ^ prec = 2 * 2 ^ (prec - 1)).
  { replace prec with (1 + (prec - 1)) at 1 by lia.
    rewrite pow2_split by lia. reflexivity. }
  destruct (m1 =? 0) eqn:E0; [apply Z.eqb_eq in E0; lia|].
  destruct (m1 <? 2 ^ prec) eqn:Elt.
  - apply Z.ltb_lt in Elt.
    destruct (g <=? emax - prec) eqn:Eov; [right | left; reflexivity].
    exists (Z.to_pos m1), g. split; [reflexivity|].
    rewrite Z2Pos.id by lia. split; [|exact Hv1].
    unfold bounded. rewrite Eov, andb_true_r.
    apply canonical_cases.
    pose proof (digits2_pos_bounds (Z.to_pos m1)) as [Dlo Dhi].
    rewrite Z2Pos.id in Dlo, Dhi by lia.
    assert (Hdle : Zpos (digits2_pos (Z.to_pos m1)) <= prec).
    { destruct (Z_le_gt_dec (Zpos (digits2_pos (Z.to_pos m1))) prec)
        as [|Hgt]; [assumption | exfalso].
      assert (2 ^ prec <= 2 ^ (Zpos (digits2_pos (Z.to_pos m1)) - 1))
        by (apply pow2_le; lia).
      lia. }
    destruct (Z.eq_dec g (emin prec emax)) as [Hgm | Hgm]; [right; lia | left].
    split; [|lia].
    apply digits2_pos_unique; [|lia].
    rewrite Z2Pos.id by lia. split; [|exact Elt].
    (* above the minimal exponent the truncated mantissa is normal *)
    assert (Hgd : g = d + e - prec) by (unfold g, fexp in *; lia).
    assert (Hq : 2 ^ (prec - 1) <= Zpos m / 2 ^ (g - e)).
    { apply Z.div_le_lower_bound; [apply pow2_pos; lia|].
      rewrite <- pow2_split by lia.
      replace (g - e + (prec - 1)) with (d - 1) by lia.
      pose proof (digits2_pos_bounds m) as [Hlo _]. exact Hlo. }
    lia.
  - apply Z.ltb_ge in Elt.
    assert (Em1 : m1 = 2 ^ prec) by lia.
    assert (Hhalf : m1 / 2 = 2 ^ (prec - 1)).
    { rewrite Em1, Hp2, Z.mul_comm, Z.div_mul by lia. reflexivity. }
    destruct (g + 1 <=? emax - prec) eqn:Eov; [right | left; reflexivity].
    exists (Z.to_pos (m1 / 2)), (g + 1). split; [reflexivity|].
    rewrite Z2Pos.id by lia. split.
    + unfold bounded. rewrite Eov, andb_true_r.
      apply canonical_cases. left.
      split; [|lia].
      apply digits2_pos_unique; [|lia].
      rewrite Z2Pos.id by lia. rewrite Hhalf.
      split; [lia | apply pow2_lt; lia].
    + rewrite Hhalf.
      rewrite <- (val_shift prec emax (2 ^ (prec - 1)) g 1) by lia.
      change (2 ^ 1) with 2. rewrite Z.mul_comm, <- Hp2, <- Em1. exact Hv1.
Qed.

End RoundingBounds.

(** **** Aligning and normalizing *)

Lemma iter_xO_mul (d m : positive) :
  Zpos (Pos.iter xO m d) = Zpos m * 2 ^ Zpos d.
Proof.
  induction d as [|d IH] using Pos.peano_ind.
  - cbn [Pos.iter]. rewrite (Pos2Z.inj_xO m). change (2 ^ 1) with 2. ring.
  - rewrite Pos.iter_succ, (Pos2Z.inj_xO (Pos.iter xO m d)), IH.
    rewrite Pos2Z.inj_succ, Z.pow_succ_r by lia. ring.
Qed.

Lemma digits2_pos_shift (m m' : positive) (k : Z) :
  0 <= k -> Zpos m' = Zpos m * 2 ^ k ->
  Zpos (digits2_pos m') = Zpos (digits2_pos m) + k.
Proof.
  intros Hk E. apply digits2_pos_unique; [|lia].
  pose proof (digits2_pos_bounds m) as [Hlo Hhi].
  assert (Hp : 0 < 2 ^ k) by (apply pow2_pos; lia).
  rewrite E.
  replace (Zpos (digits2_pos m) + k - 1) with (Zpos (digits2_pos m) - 1 + k)
    by lia.
  rewrite !pow2_split by lia. nia.
Qed.

Lemma digits2_pos_mul_lower (m1 m2 : positive) :
  Zpos (digits2_pos m1) + Zpos (digits2_pos m2) - 1
  <= Zpos (digits2_pos (m1 * m2)).
Proof.
  pose proof (digits2_pos_bounds m1) as [L1 _].
  pose proof (digits2_pos_bounds m2) as [L2 _].
  pose proof (digits2_pos_bounds (m1 * m2)) as [_ H].
  rewrite Pos2Z.inj_mul in H.
  set (d1 := Zpos (digits2_pos m1)) in *.
  set (d2 := Zpos (digits2_pos m2)) in *.
  set (d := Zpos (digits2_pos (m1 * m2))) in *.
  assert (1 <= d1) by (unfold d1; lia).
  assert (1 <= d2) by (unfold d2; lia).
  assert (1 <= d) by (unfold d; lia).
  destruct (Z_le_gt_dec (d1 + d2 - 1) d) as [|Hgt]; [assumption | exfalso].
  assert (Hp : 2 ^ d <= 2 ^ ((d1 - 1) + (d2 - 1))) by (apply pow2_le; lia).
  rewrite pow2_split in Hp by lia.
  assert (0 < 2 ^ (d1 - 1)) by (apply pow2_pos; lia).
  assert (0 < 2 ^ (d2 - 1)) by (apply pow2_pos; lia).
  nia.
Qed.

Lemma shl_align_spec (m : positive) (e e' : Z) :
  (e' < e ->
     snd (shl_align m e e') = e' /\
     Zpos (fst (shl_align m e e')) = Zpos m * 2 ^ (e - e')) /\
  (e <= e' -> shl_align m e e' = (m, e)).
Proof.
  unfold shl_align. split; intros H.
  - destruct (e' - e) as [|p|p] eqn:E; [lia | lia |].
    cbn [fst snd]. split; [reflexivity|].
    rewrite iter_xO_mul. f_equal. f_equal. lia.
  - destruct (e' - e) as [|p|p] eqn:E; [reflexivity | reflexivity | lia].
Qed.

Section OperationBounds.

Variables prec emax : Z.
Hypothesis Hprec : 0 < prec.
Hypothesis Hemax : prec < emax.

Local Notation "'vbase'" := (float_vbase prec emax).
Local Notation "'val'" := (float_val prec emax).

Lemma binary_round_ge (mf m : positive) (ef e : Z) :
  canonical_mantissa prec emax mf ef = true ->
  emin prec emax <= e ->
  val (Zpos mf) ef <= val (Zpos m) e ->
  let r := binary_round prec emax false m e in
  r = S754_infinity false \/
  exists m' e',
    r = S754_finite false m' e' /\
    bounded prec emax m' e' = true /\
    val (Zpos mf) ef <= val (Zpos m') e'.
Proof.
  intros Cf He Hle. cbv zeta. unfold binary_round.
  pose proof (vbase_le_emin prec emax Hprec Hemax) as Hvb.
  set (fe := fexp prec emax (Zpos (digits2_pos m) + e)).
  pose proof (fexp_ge_emin prec emax (Zpos (digits2_pos m) + e)) as Hfe.
  fold fe in Hfe.
  destruct (shl_align_spec m e fe) as [Hshift Hkeep].
  destruct (Z_lt_le_dec fe e) as [Hlt | Hge].
  - destruct (Hshift Hlt) as [Es Em].
    destruct (shl_align m e fe) as [mz ez]. cbn [fst snd] in Es, Em. subst ez.
    pose proof (digits2_pos_shift m mz (e - fe) ltac:(lia) Em) as Hd.
    apply (binary_round_aux_ge prec emax Hprec Hemax mf mz ef fe Cf).
    + lia.
    + rewrite Hd. replace (Zpos (digits2_pos m) + (e - fe) + fe)
        with (Zpos (digits2_pos m) + e) by lia. fold fe. lia.
    + rewrite Em, val_shift by lia.
      replace (fe + (e - fe)) with e by lia. exact Hle.
  - rewrite (Hkeep Hge).
    apply (binary_round_aux_ge prec emax Hprec Hemax mf m ef e Cf);
      [lia | fold fe; lia | exact Hle].
Qed.

End OperationBounds.

(** **** Products and sums of nonnegative numbers *)

Lemma nonneg_float_cases (prec emax : Z) (x : spec_float) :
  nonneg_float prec emax x ->
  (exists s, x = S754_zero s) \/
  x = S754_infinity false \/
  (exists m e, x = S754_finite false m e /\ bounded prec emax m e = true).
Proof.
  intros [Hv Hp]. destruct x as [s | s | | s m e].
  - left. exists s. reflexivity.
  - right. left. destruct s; [discriminate | reflexivity].
  - discriminate.
  - right. right. destruct s; [discriminate|].
    exists m, e. split; [reflexivity | exact Hv].
Qed.

Lemma SFleb_refl (x : spec_float) : isnan x = false -> SFleb x x = true.
Proof.
  destruct x as [s | s | | s m e]; intros H; try discriminate;
    unfold SFleb; cbn [SFcompare]; try reflexivity.
  - destruct s; reflexivity.
  - change (PosDef.Pos.compare_cont Eq m m) with (Pos.compare m m).
    rewrite Z.compare_refl, Pos.compare_refl. destruct s; reflexivity.
Qed.

Section Operations.

Variables prec emax : Z.
Hypothesis Hprec : 0 < prec.
Hypothesis Hemax : prec < emax.

Local Notation "'vbase'" := (float_vbase prec emax).
Local Notation "'val'" := (float_val prec emax).

Lemma bounded_canonical (m : positive) (e : Z) :
  bounded prec emax m e = true -> canonical_mantissa prec emax m e = true.
Proof. unfold bounded. intros H. apply andb_true_iff in H. tauto. Qed.

(** The shape every rounded result takes below. *)
Lemma rounded_result_ge (mf : positive) (ef : Z) (r : spec_float) :
  canonical_mantissa prec emax mf ef = true ->
  (r = S754_infinity false \/
   exists m' e',
     r = S754_finite false m' e' /\
     bounded prec emax m' e' = true /\
     val (Zpos mf) ef <= val (Zpos m') e') ->
  nonneg_float prec emax r /\ SFleb (S754_finite false mf ef) r = true.
Proof.
  intros Cf [-> | (m' & e' & -> & Hb & Hv)].
  - repeat split.
  - split; [split; [exact Hb | reflexivity]|].
    apply (SFleb_of_val prec emax Hprec Hemax); [exact Cf | | exact Hv].
    apply bounded_canonical. exact Hb.
Qed.

(** Multiplying a nonnegative [x] by a finite factor of value at least one
    gives a nonnegative result that is not below [x]. *)
Lemma SFmul_ge (ma : positive) (ea : Z) (x : spec_float) :
  bounded prec emax ma ea = true ->
  val 1 0 <= val (Zpos ma) ea ->
  nonneg_float prec emax x ->
  nonneg_float prec emax (SFmul prec emax (S754_finite false ma ea) x) /\
  SFleb x (SFmul prec emax (S754_finite false ma ea) x) = true.
Proof.
  intros Ba Hone Hx.
  destruct (nonneg_float_cases prec emax x Hx)
    as [[s ->] | [-> | (mx & ex & -> & Bx)]].
  - cbn [SFmul xorb]. repeat split.
  - cbn [SFmul xorb]. repeat split.
  - cbn [SFmul xorb].
    pose proof (bounded_canonical ma ea Ba) as Ca.
    pose proof (bounded_canonical mx ex Bx) as Cx.
    apply rounded_result_ge; [exact Cx|].
    pose proof (vbase_le_emin prec emax Hprec Hemax) as Hvb.
    pose proof (emin_nonpos prec emax Hprec Hemax) as Hem.
    pose proof Ca as Ca'. pose proof Cx as Cx'.
    apply canonical_cases in Ca', Cx'.
    apply (binary_round_aux_ge prec emax Hprec Hemax mx (ma * mx) ex (ea + ex) Cx).
    + unfold float_vbase in *. lia.
    + pose proof (digits2_pos_mul_lower ma mx) as Hd.
      assert (1 <= Zpos (digits2_pos ma)) by lia.
      assert (1 <= Zpos (digits2_pos mx)) by lia.
      unfold fexp. lia.
    + unfold float_val in *. rewrite Pos2Z.inj_mul.
      assert (HA : 0 < 2 ^ (0 - vbase)) by (apply pow2_pos; lia).
      assert (HB : 0 < 2 ^ (ex - vbase)) by (apply pow2_pos; lia).
      assert (Hsplit : 2 ^ (ea - vbase) * 2 ^ (ex - vbase)
                       = 2 ^ (ea + ex - vbase) * 2 ^ (0 - vbase)).
      { rewrite <- !pow2_split by (unfold float_vbase in *; lia).
        f_equal. lia. }
      set (A := 2 ^ (0 - vbase)) in *. set (B := 2 ^ (ex - vbase)) in *.
      set (C := 2 ^ (ea - vbase)) in *. set (D := 2 ^ (ea + ex - vbase)) in *.
      assert (H1 : Zpos mx * B * (1 * A) <= Zpos mx * B * (Zpos ma * C)).
      { apply Z.mul_le_mono_nonneg_l; [nia | exact Hone]. }
      assert (H2 : Zpos mx * B * (Zpos ma * C) = Zpos ma * Zpos mx * D * A).
      { transitivity (Zpos ma * Zpos mx * (C * B)); [ring|].
        rewrite Hsplit. ring. }
      rewrite H2 in H1.
      apply (Z.mul_le_mono_pos_r _ _ A HA). lia.
Qed.

(** Adding a nonnegative [l] to a nonnegative [y] gives a nonnegative
    result that is not below [y]. *)
Lemma SFadd_ge (y l : spec_float) :
  nonneg_float prec emax y ->
  nonneg_float prec emax l ->
  nonneg_float prec emax (SFadd prec emax y l) /\
  SFleb y (SFadd prec emax y l) = true.
Proof.
  intros Hy Hl.
  destruct (nonneg_float_cases prec emax y Hy)
    as [[sy ->] | [-> | (my & ey & -> & By)]];
  destruct (nonneg_float_cases prec emax l Hl)
    as [[sl ->] | [-> | (ml & el & -> & Bl)]];
  cbn [SFadd].
  - destruct sy, sl; repeat split.
  - repeat split.
  - split; [exact Hl | reflexivity].
  - repeat split.
  - repeat split.
  - repeat split.
  - split; [exact Hy|]. apply SFleb_refl. reflexivity.
  - repeat split.
  - pose proof (bounded_canonical my ey By) as Cy.
    pose proof (bounded_canonical ml el Bl) as Cl.
    apply rounded_result_ge; [exact Cy|].
    pose proof (vbase_le_emin prec emax Hprec Hemax) as Hvb.
    pose proof Cy as Cy'. pose proof Cl as Cl'.
    apply canonical_cases in Cy', Cl'.
    cbn [cond_Zopp]. cbn [Z.add]. cbn [binary_normalize].
    set (ez := Z.min ey el).
    apply binary_round_ge; [exact Hprec | exact Hemax | exact Cy | unfold ez; lia |].
    rewrite Pos2Z.inj_add.
    assert (Hy' : Zpos (fst (shl_align my ey ez)) = Zpos my * 2 ^ (ey - ez)).
    { destruct (shl_align_spec my ey ez) as [Hs Hk].
      destruct (Z_lt_le_dec ez ey) as [Hlt | Hge].
      - apply Hs. exact Hlt.
      - rewrite (Hk Hge). cbn [fst].
        replace (ey - ez) with 0 by (unfold ez in *; lia).
        change (2 ^ 0) with 1. lia. }
    rewrite Hy'.
    unfold float_val.
    replace (ey - vbase) with ((ey - ez) + (ez - vbase)) by lia.
    rewrite pow2_split by (unfold ez; lia).
    assert (0 < 2 ^ (ez - vbase)) by (apply pow2_pos; unfold ez; lia).
    assert (0 < Zpos (fst (shl_align ml el ez))) by lia.
    nia.
Qed.

End Operations.

(** **** Exact results *)

Section Exact.

Variables prec emax : Z.
Hypothesis Hprec : 0 < prec.
Hypothesis Hemax : prec < emax.

(** A valid number is its own rounding. *)
Lemma binary_round_aux_canonical (s : bool) (m : positive) (e : Z) :
  bounded prec emax m e = true ->
  binary_round_aux prec emax s (Zpos m) e loc_Exact = S754_finite s m e.
Proof.
  intros Hb. unfold bounded in Hb. apply andb_true_iff in Hb.
  destruct Hb as [Hc Hov].
  pose proof (canonical_fexp prec emax m e Hc) as Hg.
  destruct (binary_round_aux_cases prec emax Hprec s m e ltac:(lia))
    as (m1 & [Hr _] & _ & _ & ->).
  rewrite Hg in *. replace (e - e) with 0 in Hr by lia.
  change (2 ^ 0) with 1 in Hr.
  assert (Em : m1 = Zpos m) by lia. subst m1.
  cbn [Z.eqb]. apply canonical_cases in Hc.
  pose proof (digits2_pos_bounds m) as [_ Dhi].
  assert (Hlt : Zpos m < 2 ^ prec).
  { assert (2 ^ Zpos (digits2_pos m) <= 2 ^ prec) by (apply pow2_le; lia).
    lia. }
  apply Z.ltb_lt in Hlt. rewrite Hlt, Hov. reflexivity.
Qed.

End Exact.

Lemma float_to_uint_neg_exp (m : positive) (e : Z) :
  e < 0 -> float_to_uint (S754_finite false m e) = Zpos m / 2 ^ (- e).
Proof.
  intros He. destruct e as [|p|p]; [lia | lia |].
  cbn [float_to_uint]. rewrite Z.shiftr_div_pow2 by lia. reflexivity.
Qed.

Lemma F32_format : 0 < F32.prec /\ F32.prec < F32.emax.
Proof. unfold F32.prec, F32.emax. lia. Qed.

(** [(float)n] is exact below 2^24: the mantissa is [n] shifted to 24
    bits. *)
Lemma F32_of_Z_exact (p : positive) :
  Zpos p < 2 ^ 24 ->
  let d := Zpos (digits2_pos p) in
  exists mz,
    Zpos mz = Zpos p * 2 ^ (24 - d) /\
    Zpos (digits2_pos mz) = 24 /\
    F32.of_Z (Zpos p) = S754_finite false mz (d - 24).
Proof.
  intros Hlt. cbv zeta.
  destruct F32_format as [Hp He].
  pose proof (digits2_pos_bounds p) as [Dlo Dhi].
  set (d := Zpos (digits2_pos p)) in *.
  assert (Hd : 1 <= d <= 24).
  { split; [unfold d; lia|].
    destruct (Z_le_gt_dec d 24) as [|Hgt]; [assumption | exfalso].
    assert (2 ^ 24 <= 2 ^ (d - 1)) by (apply pow2_le; lia). lia. }
  unfold F32.of_Z. cbn [binary_normalize]. unfold binary_round.
  fold d.
  assert (Hf : fexp F32.prec F32.emax (d + 0) = d - 24).
  { unfold fexp, emin, F32.prec, F32.emax. lia. }
  rewrite Hf.
  destruct (shl_align_spec p 0 (d - 24)) as [Hshift Hkeep].
  destruct (Z.eq_dec d 24) as [E24 | N24].
  - rewrite Hkeep by lia. exists p.
    rewrite E24. change (2 ^ (24 - 24)) with 1.
    split; [lia|]. split; [exact E24|].
    change (24 - 24) with 0.
    apply (binary_round_aux_canonical F32.prec F32.emax Hp).
    unfold bounded. apply andb_true_iff. split; [|reflexivity].
    apply canonical_cases. left. unfold emin, F32.prec, F32.emax.
    fold d. lia.
  - destruct (Hshift ltac:(lia)) as [Es Em].
    destruct (shl_align p 0 (d - 24)) as [mz ez].
    cbn [fst snd] in Es, Em. subst ez.
    replace (0 - (d - 24)) with (24 - d) in Em by lia.
    pose proof (digits2_pos_shift p mz (24 - d) ltac:(lia) Em) as Hdz.
    fold d in Hdz.
    exists mz. split; [exact Em|]. split; [lia|].
    apply (binary_round_aux_canonical F32.prec F32.emax Hp).
    unfold bounded. apply andb_true_iff. split.
    + apply canonical_cases. left. unfold emin, F32.prec, F32.emax. lia.
    + apply Z.leb_le. unfold F32.prec, F32.emax. lia.
Qed.

(* ---------------------------------------------------------------------- *)
(** *** Analyzer: the error recurrence *)

Lemma F64_format : 0 < F64.prec /\ F64.prec < F64.emax.
Proof. unfold F64.prec, F64.emax. lia. Qed.

Lemma SFleb_trans (prec emax : Z) (x y z : spec_float) :
  0 < prec -> prec < emax ->
  nonneg_float prec emax x -> nonneg_float prec emax y ->
  nonneg_float prec emax z ->
  SFleb x y = true -> SFleb y z = true -> SFleb x z = true.
Proof.
  intros Hp He Hx Hy Hz.
  destruct (nonneg_float_cases prec emax x Hx)
    as [[sx ->] | [-> | (mx & ex & -> & Bx)]];
  destruct (nonneg_float_cases prec emax y Hy)
    as [[sy ->] | [-> | (my & ey & -> & By)]];
  destruct (nonneg_float_cases prec emax z Hz)
    as [[sz ->] | [-> | (mz & ez & -> & Bz)]];
  intros Hxy Hyz; try reflexivity; try discriminate.
  apply (SFleb_of_val prec emax Hp He);
    [apply bounded_canonical; exact Bx | apply bounded_canonical; exact Bz |].
  apply Z.le_trans with (float_val prec emax (Zpos my) ey).
  - apply (val_of_SFleb prec emax Hp He);
      [apply bounded_canonical; exact Bx | apply bounded_canonical; exact By
      | exact Hxy].
  - apply (val_of_SFleb prec emax Hp He);
      [apply bounded_canonical; exact By | apply bounded_canonical; exact Bz
      | exact Hyz].
Qed.

(** One step of the recurrence with a finite A >= 1 and L >= 0, entered
    with a nonnegative bound: the output bound is nonnegative and not below
    the input bound. *)
Lemma recurrence_step_ge (c : Analyze.cq_layer_contract_t) (eps : spec_float) :
  amplifying_layer c ->
  nonneg_float F64.prec F64.emax eps ->
  let c' := Analyze.cq_apply_error_recurrence c eps in
  Analyze.input_error_bound c' = eps /\
  nonneg_float F64.prec F64.emax (Analyze.output_error_bound c') /\
  SFleb eps (Analyze.output_error_bound c') = true.
Proof.
  intros (Hv & Hone & Hfin & HL) Heps. cbv zeta.
  destruct F64_format as [Hp He].
  unfold Analyze.cq_apply_error_recurrence.
  cbn [Analyze.input_error_bound Analyze.output_error_bound].
  split; [reflexivity|].
  destruct (Analyze.amp_factor c) as [s | s | | s ma ea];
    try discriminate.
  destruct s; [discriminate|].
  assert (Ba : bounded F64.prec F64.emax ma ea = true) by exact Hv.
  assert (H1 : float_val F64.prec F64.emax 1 0
               <= float_val F64.prec F64.emax (Zpos ma) ea).
  { pose proof (val_of_SFleb F64.prec F64.emax Hp He
                  4503599627370496 ma (-52) ea eq_refl
                  (bounded_canonical F64.prec F64.emax ma ea Ba) Hone) as Hval.
    replace (float_val F64.prec F64.emax 1 0)
      with (float_val F64.prec F64.emax (Zpos 4503599627370496) (-52));
      [exact Hval|].
    change (Zpos 4503599627370496) with (1 * 2 ^ 52).
    rewrite val_shift by (vm_compute; congruence). reflexivity. }
  destruct (SFmul_ge F64.prec F64.emax Hp He ma ea eps Ba H1 Heps)
    as [Hm1 Hm2].
  destruct (SFadd_ge F64.prec F64.emax Hp He _ _ Hm1 HL) as [Ha1 Ha2].
  split; [exact Ha1|].
  exact (SFleb_trans F64.prec F64.emax _ _ _ Hp He Heps Hm1 Ha1 Hm2 Ha2).
Qed.

Lemma nonneg_float_not_nan (prec emax : Z) (x : spec_float) :
  nonneg_float prec emax x -> isnan x = false.
Proof. intros [_ H]. destruct x; [reflexivity | reflexivity | discriminate | reflexivity]. Qed.

Lemma last_cons (l : list Analyze.cq_layer_contract_t) :
  forall a d, last (a :: l) d = last l a.
Proof.
  induction l as [|b l IH]; intros a d; [reflexivity|].
  change (last (a :: b :: l) d) with (last (b :: l) d).
  rewrite (IH b d), (IH b a). reflexivity.
Qed.

Lemma last_output_cons (eps : spec_float) (c : Analyze.cq_layer_contract_t)
    (rest : list Analyze.cq_layer_contract_t) :
  last_output eps (c :: rest)
  = last_output (Analyze.output_error_bound c) rest.
Proof.
  destruct rest as [|r0 rs]; [reflexivity|].
  cbn [last_output]. rewrite last_cons. reflexivity.
Qed.

Lemma propagate_error_app (ls : list Analyze.cq_layer_contract_t) :
  forall eps c,
    Analyze.propagate_error eps (ls ++ [c])
    = Analyze.propagate_error eps ls
      ++ [Analyze.cq_apply_error_recurrence c
            (last_output eps (Analyze.propagate_error eps ls))].
Proof.
  induction ls as [|c0 cs IH]; intros eps c; [reflexivity|].
  cbn [app Analyze.propagate_error]. rewrite IH, last_output_cons.
  reflexivity.
Qed.

Lemma last_output_app (eps : spec_float)
    (ls : list Analyze.cq_layer_contract_t) (c : Analyze.cq_layer_contract_t) :
  last_output eps (ls ++ [c]) = Analyze.output_error_bound c.
Proof.
  revert eps. induction ls as [|c0 cs IH]; intros eps; [reflexivity|].
  cbn [app]. rewrite last_output_cons. apply IH.
Qed.

Lemma propagate_error_monotone (ls : list Analyze.cq_layer_contract_t) :
  forall eps,
    Forall amplifying_layer ls ->
    nonneg_float F64.prec F64.emax eps ->
    let ls' := Analyze.propagate_error eps ls in
    Forall (fun c => SFleb (Analyze.input_error_bound c)
                           (Analyze.output_error_bound c) = true) ls' /\
    nonneg_float F64.prec F64.emax (last_output eps ls') /\
    SFleb eps (last_output eps ls') = true.
Proof.
  destruct F64_format as [Hp He].
  induction ls as [|c cs IH]; intros eps Hall Heps; cbv zeta.
  - cbn [Analyze.propagate_error last_output]. split; [constructor|].
    split; [exact Heps|].
    apply SFleb_refl. exact (nonneg_float_not_nan _ _ _ Heps).
  - inversion Hall as [|? ? Hc Hcs]; subst.
    cbn [Analyze.propagate_error].
    destruct (recurrence_step_ge c eps Hc Heps) as (Hin & Hnn & Hle).
    cbv zeta in Hin, Hnn, Hle.
    set (c' := Analyze.cq_apply_error_recurrence c eps) in *.
    destruct (IH (Analyze.output_error_bound c') Hcs Hnn) as (F1 & F2 & F3).
    cbv zeta in F1, F2, F3.
    set (rest := Analyze.propagate_error (Analyze.output_error_bound c') cs) in *.
    split; [constructor; [rewrite Hin; exact Hle | exact F1]|].
    rewrite last_output_cons. split; [exact F2|].
    exact (SFleb_trans F64.prec F64.emax _ _ _ Hp He Heps Hnn F2 Hle F3).
Qed.

Lemma analyzed_total (ctx : Analyze.cq_analysis_ctx_t) :
  Analyze.total_error_bound (analyzed ctx)
  = last_output (Analyze.entry_error ctx)
      (Analyze.propagate_error (Analyze.entry_error ctx) (Analyze.layers ctx)) /\
  Analyze.layers (analyzed ctx)
  = Analyze.propagate_error (Analyze.entry_error ctx) (Analyze.layers ctx) /\
  Analyze.entry_error (analyzed ctx) = Analyze.entry_error ctx.
Proof.
  unfold analyzed, Analyze.cq_compute_total_error, Analyze.analyze_layers.
  cbn [Analyze.layers Analyze.entry_error].
  destruct (Analyze.propagate_error (Analyze.entry_error ctx)
              (Analyze.layers ctx)); repeat split.
Qed.

(** C3, as stated, fails: a layer with A = 0.5 and L = 0 entered with
    the error 0.5 has the output bound 0.25, so the total error bound is
    below the entry error. *)
Lemma contracting_layer_lowers_the_bound :
  let ctx' := analyzed Scenario.contracting_ctx in
  Analyze.entry_error ctx' = F64.half /\
  Analyze.total_error_bound ctx' = F64.dyadic 1 (-2) /\
  SFleb (Analyze.entry_error ctx') (Analyze.total_error_bound ctx') = false /\
  Forall (fun c => SFleb (Analyze.input_error_bound c)
                         (Analyze.output_error_bound c) = false)
         (Analyze.layers ctx').
Proof.
  cbv zeta. repeat split; try (vm_compute; reflexivity).
  vm_compute. repeat constructor.
Qed.

(** C3, amended. For every chain whose entry error is a nonnegative number
    and whose layers all have a finite amplification factor A >= 1 and a
    local error sum L >= 0, processed by the recurrence and finalized by
    [cq_compute_total_error]: each layer's output bound is at least its
    input bound, the total bound is at least the entry error, and appending
    one more such layer does not decrease the total bound. *)
Theorem error_bounds_nondecreasing
    (ctx : Analyze.cq_analysis_ctx_t) (extra : Analyze.cq_layer_contract_t) :
  nonneg_float F64.prec F64.emax (Analyze.entry_error ctx) ->
  Forall amplifying_layer (Analyze.layers ctx) ->
  amplifying_layer extra ->
  Forall (fun c => SFleb (Analyze.input_error_bound c)
                         (Analyze.output_error_bound c) = true)
         (Analyze.layers (analyzed ctx)) /\
  SFleb (Analyze.entry_error ctx)
        (Analyze.total_error_bound (analyzed ctx)) = true /\
  SFleb (Analyze.total_error_bound (analyzed ctx))
        (Analyze.total_error_bound (analyzed (append_layer ctx extra)))
  = true.
Proof.
  intros Heps Hall Hextra.
  destruct (analyzed_total ctx) as (Et & El & _).
  destruct (analyzed_total (append_layer ctx extra)) as (Et' & _ & _).
  cbn [append_layer Analyze.entry_error Analyze.layers] in Et'.
  destruct (propagate_error_monotone (Analyze.layers ctx)
              (Analyze.entry_error ctx) Hall Heps) as (F1 & F2 & F3).
  cbv zeta in F1, F2, F3.
  rewrite Et, El, Et'. split; [exact F1|]. split; [exact F3|].
  rewrite propagate_error_app, last_output_app.
  destruct (recurrence_step_ge extra _ Hextra F2) as (_ & _ & Hle).
  exact Hle.
Qed.

Lemma error_bounds_nondecreasing_witness :
  Forall (fun c => SFleb (Analyze.input_error_bound c)
                         (Analyze.output_error_bound c) = true)
         (Analyze.layers (analyzed Scenario.amplifying_ctx)) /\
  SFleb (Analyze.entry_error Scenario.amplifying_ctx)
        (Analyze.total_error_bound (analyzed Scenario.amplifying_ctx)) = true /\
  SFleb (Analyze.total_error_bound (analyzed Scenario.amplifying_ctx))
        (Analyze.total_error_bound
           (analyzed (append_layer Scenario.amplifying_ctx
                                   Scenario.amplifying_contract)))
  = true.
Proof.
  apply error_bounds_nondecreasing.
  - split; vm_compute; reflexivity.
  - repeat constructor.
  - repeat split.
Defined.

(* ---------------------------------------------------------------------- *)
(** *** Analyzer: error contributions *)

(** C4, as stated, fails: the function never sees the input scale. With
    [S_w = 2] and a layer input scale [S_x = 4] the bias contribution is
    [0.5 / (2 * 2) = 0.125], not [0.5 / (2 * 4) = 0.0625]. *)
Lemma bias_error_contrib_ignores_input_scale :
  let S_w := F64.of_Z 2 in
  let S_x := F64.of_Z 4 in
  let c := Analyze.cq_compute_error_contributions
             (Analyze.cq_layer_contract_init 0 0 1 1)
             S_w (F64.of_Z 65536) F64.one in
  SFltb F64.zero S_w = true /\
  SFltb F64.zero S_x = true /\
  Analyze.bias_error_contrib c = F64.dyadic 1 (-3) /\
  F64.div F64.half (F64.mul S_w S_x) = F64.dyadic 1 (-4) /\
  SFeqb (Analyze.bias_error_contrib c) (F64.div F64.half (F64.mul S_w S_x))
  = false.
Proof. cbv zeta. repeat split; vm_compute; reflexivity. Qed.

(** C4, amended. For positive weight and output scales and every max input
    norm, the bias error contribution is 0.5 divided by the square of the
    weight scale, whatever the input scale of the layer; it is the
    accumulator quantum [0.5 / (S_w * S_x)] whenever the input scale [S_x]
    equals the weight scale. *)
Theorem bias_error_contrib_weight_scale_squared
    (contract : Analyze.cq_layer_contract_t)
    (weight_scale output_scale max_input_norm : spec_float) :
  SFltb F64.zero weight_scale = true ->
  SFltb F64.zero output_scale = true ->
  let bias :=
    Analyze.bias_error_contrib
      (Analyze.cq_compute_error_contributions
         contract weight_scale output_scale max_input_norm) in
  bias = F64.div F64.half (F64.mul weight_scale weight_scale) /\
  forall input_scale : spec_float,
    input_scale = weight_scale ->
    bias = F64.div F64.half (F64.mul weight_scale input_scale).
Proof.
  intros Hw Ho. cbv zeta.
  assert (E : Analyze.bias_error_contrib
                (Analyze.cq_compute_error_contributions
                   contract weight_scale output_scale max_input_norm)
              = F64.div F64.half (F64.mul weight_scale weight_scale)).
  { unfold Analyze.cq_compute_error_contributions.
    rewrite (SFltb_not_SFleb _ _ Hw), (SFltb_not_SFleb _ _ Ho).
    reflexivity. }
  split; [exact E|].
  intros input_scale Heq. rewrite Heq. exact E.
Qed.

Lemma bias_error_contrib_weight_scale_squared_witness :
  let bias :=
    Analyze.bias_error_contrib
      (Analyze.cq_compute_error_contributions
         (Analyze.cq_layer_contract_init 0 0 100 50)
         (F64.of_Z 65536) (F64.of_Z 65536) (F64.of_Z 10)) in
  bias = F64.div F64.half (F64.mul (F64.of_Z 65536) (F64.of_Z 65536)) /\
  bias = F64.dyadic 1 (-33).
Proof.
  cbv zeta.
  destruct (bias_error_contrib_weight_scale_squared
              (Analyze.cq_layer_contract_init 0 0 100 50)
              (F64.of_Z 65536) (F64.of_Z 65536) (F64.of_Z 10)
              eq_refl eq_refl) as [H Hx].
  split; [exact H|].
  etransitivity; [exact (Hx (F64.of_Z 65536) eq_refl)|].
  vm_compute. reflexivity.
Defined.

(* ---------------------------------------------------------------------- *)
(** *** Calibrator: range veto and coverage *)

Lemma cq_tensor_stats_update_single_skips (stats : Calibrate.cq_tensor_stats_t)
    (v : spec_float) :
  isnan v || isinf v = true ->
  Calibrate.cq_tensor_stats_update_single stats v = stats.
Proof.
  intros H. unfold Calibrate.cq_tensor_stats_update_single.
  rewrite H. reflexivity.
Qed.

Lemma cq_tensor_stats_update_skips (samples : list spec_float) :
  forall stats,
    Forall (fun v => isnan v || isinf v = true) samples ->
    Calibrate.cq_tensor_stats_update stats samples = stats.
Proof.
  unfold Calibrate.cq_tensor_stats_update.
  induction samples as [|v vs IH]; intros stats Hall; [reflexivity|].
  inversion Hall as [|? ? Hv Hvs]; subst. cbn [fold_left].
  rewrite cq_tensor_stats_update_single_skips by exact Hv.
  apply IH. exact Hvs.
Qed.

(** C9. A tensor whose statistics received no finite sample after
    [cq_tensor_stats_init] (only NaNs and infinities, which are skipped, or
    nothing at all) still has the observed range [FLT_MAX, -FLT_MAX], and
    for every safe range with [min_safe <= FLT_MAX] and
    [max_safe >= -FLT_MAX] the range check returns false and stores
    [range_veto = false]. *)
Theorem unobserved_tensor_passes_range_veto
    (id li : Z) (min_safe max_safe : spec_float) (samples : list spec_float) :
  Forall (fun v => isnan v || isinf v = true) samples ->
  SFleb min_safe F32.FLT_MAX = true ->
  SFleb (SFopp F32.FLT_MAX) max_safe = true ->
  let stats :=
    Calibrate.cq_tensor_stats_update
      (Calibrate.cq_tensor_stats_init id li min_safe max_safe) samples in
  Calibrate.min_observed stats = F32.FLT_MAX /\
  Calibrate.max_observed stats = SFopp F32.FLT_MAX /\
  fst (Calibrate.cq_tensor_check_range_veto stats) = false /\
  Calibrate.range_veto (snd (Calibrate.cq_tensor_check_range_veto stats))
  = false.
Proof.
  intros Hall Hmin Hmax. cbv zeta.
  rewrite cq_tensor_stats_update_skips by exact Hall.
  split; [reflexivity|]. split; [reflexivity|].
  unfold Calibrate.cq_tensor_check_range_veto, Calibrate.cq_tensor_stats_init.
  cbn [Calibrate.min_observed Calibrate.max_observed
       Calibrate.min_safe Calibrate.max_safe].
  rewrite (SFleb_not_SFltb _ _ Hmin), (SFleb_not_SFltb _ _ Hmax).
  split; reflexivity.
Qed.

Lemma unobserved_tensor_passes_range_veto_witness :
  let stats :=
    Calibrate.cq_tensor_stats_update
      (Calibrate.cq_tensor_stats_init 7 2 (SFopp F32.one) F32.one)
      [S754_nan; S754_infinity false; S754_infinity true] in
  Calibrate.min_observed stats = F32.FLT_MAX /\
  Calibrate.max_observed stats = SFopp F32.FLT_MAX /\
  fst (Calibrate.cq_tensor_check_range_veto stats) = false /\
  Calibrate.range_veto (snd (Calibrate.cq_tensor_check_range_veto stats))
  = false.
Proof.
  apply (unobserved_tensor_passes_range_veto 7 2 (SFopp F32.one) F32.one).
  - repeat constructor.
  - reflexivity.
  - reflexivity.
Defined.

(** C10, as stated, fails when the configured epsilon is 0: no safe range is
    then "degenerate", and a tensor with safe range [1, 1] and observed
    values 0 and 2 gets its coverage from the division 2 / 0. *)
Lemma coverage_divides_by_zero_when_epsilon_is_zero :
  let r := Calibrate.cq_tensor_compute_coverage
             Scenario.point_range_stats (Some Scenario.zero_epsilon_config) in
  snd r = [Calibrate.EvDiv (F32.of_Z 2) (S754_zero false)] /\
  Calibrate.is_degenerate (fst r) = false /\
  Calibrate.coverage_ratio (fst r) = S754_infinity false.
Proof. cbv zeta. repeat split; vm_compute; reflexivity. Qed.

(** C10, amended. When the safe range is degenerate
    ([|max_safe - min_safe| < epsilon]) the tensor is marked degenerate, its
    coverage is 1.0 and no division is performed.  Whenever the division is
    performed, its denominator is the safe width, and
    [|denominator| < epsilon] is false; hence the denominator is not zero as
    soon as the configured epsilon is positive (as the default 1e-7 is), and
    its magnitude is at least epsilon when neither is a NaN. *)
Theorem coverage_division_guarded
    (stats : Calibrate.cq_tensor_stats_t)
    (config : option Calibrate.cq_calibrate_config_t) :
  let eps := configured_epsilon config in
  let r := Calibrate.cq_tensor_compute_coverage stats config in
  (SFltb (SFabs (safe_width stats)) eps = true ->
     Calibrate.is_degenerate (fst r) = true /\
     Calibrate.coverage_ratio (fst r) = F32.one /\
     snd r = []) /\
  (forall num den, In (Calibrate.EvDiv num den) (snd r) ->
     den = safe_width stats /\
     SFltb (SFabs den) eps = false /\
     (SFltb F32.zero eps = true -> is_zero den = false) /\
     (isnan den = false -> isnan eps = false ->
        SFleb eps (SFabs den) = true)).
Proof.
  cbv zeta. unfold Calibrate.cq_tensor_compute_coverage.
  fold (configured_epsilon config). fold (safe_width stats).
  set (eps := configured_epsilon config).
  set (obs := F32.sub (Calibrate.max_observed stats)
                      (Calibrate.min_observed stats)).
  destruct (SFltb (SFabs obs) eps) eqn:Eo.
  { cbn [fst snd]. split.
    - intros _. repeat split.
    - intros num den []. }
  destruct (SFltb (SFabs (safe_width stats)) eps) eqn:Es.
  { cbn [fst snd]. split.
    - intros _. repeat split.
    - intros num den []. }
  cbn [fst snd]. split; [discriminate|].
  intros num den [Hin | []]. injection Hin as _ Hden. subst den.
  split; [reflexivity|]. split; [exact Es|]. split.
  - intros Hpos. destruct (safe_width stats) eqn:Ew; try reflexivity.
    cbn [SFabs] in Es. unfold F32.zero in Hpos. congruence.
  - intros Hd He.
    assert (Hn : isnan (SFabs (safe_width stats)) = false).
    { destruct (safe_width stats); [reflexivity | reflexivity | discriminate
                                   | reflexivity]. }
    pose proof (SFltb_negb_SFleb eps (SFabs (safe_width stats)) He Hn) as Hl.
    rewrite Es in Hl. destruct (SFleb eps (SFabs (safe_width stats)));
      [reflexivity | discriminate].
Qed.

Lemma coverage_division_guarded_witness :
  (let r := Calibrate.cq_tensor_compute_coverage
              Scenario.point_range_stats None in
   Calibrate.is_degenerate (fst r) = true /\
   Calibrate.coverage_ratio (fst r) = F32.one /\
   snd r = []) /\
  (F32.of_Z 2 = safe_width Scenario.unit_range_stats /\
   SFltb (SFabs (F32.of_Z 2)) (configured_epsilon None) = false /\
   (SFltb F32.zero (configured_epsilon None) = true ->
      is_zero (F32.of_Z 2) = false) /\
   (isnan (F32.of_Z 2) = false -> isnan (configured_epsilon None) = false ->
      SFleb (configured_epsilon None) (SFabs (F32.of_Z 2)) = true)).
Proof.
  split.
  - apply (proj1 (coverage_division_guarded Scenario.point_range_stats None)).
    vm_compute. reflexivity.
  - apply (proj2 (coverage_division_guarded Scenario.unit_range_stats None)
             F32.one (F32.of_Z 2)).
    vm_compute. left. reflexivity.
Defined.

(* ---------------------------------------------------------------------- *)
(** *** Calibrator: the sort behind the percentile *)

Lemma cmp_le_total (a b : spec_float) : cmp_le a b \/ cmp_le b a.
Proof.
  unfold cmp_le, Calibrate.cq_float_compare_asc.
  destruct (SFltb a b) eqn:Eab; [left; reflexivity|].
  destruct (SFltb b a) eqn:Eba; [right; reflexivity | left; reflexivity].
Qed.

(** Without NaNs the comparator order is the weak IEEE order. *)
Lemma cmp_le_SFleb (a b : spec_float) :
  isnan a = false -> isnan b = false -> cmp_le a b -> SFleb a b = true.
Proof.
  intros Ha Hb. unfold cmp_le, Calibrate.cq_float_compare_asc.
  rewrite (SFltb_negb_SFleb a b Ha Hb).
  unfold SFltb, SFleb.
  destruct (SFcompare a b) as [[ | | ]|]; cbn; congruence.
Qed.

Lemma qsort_insert_perm (x : spec_float) (l : list spec_float) :
  Permutation (Calibrate.qsort_insert Calibrate.cq_float_compare_asc x l)
              (x :: l).
Proof.
  induction l as [|y l IH]; cbn [Calibrate.qsort_insert]; [reflexivity|].
  destruct (Calibrate.cq_float_compare_asc x y <=? 0); [reflexivity|].
  rewrite IH. apply perm_swap.
Qed.

Lemma qsort_perm (l : list spec_float) :
  Permutation (Calibrate.qsort Calibrate.cq_float_compare_asc l) l.
Proof.
  induction l as [|x l IH]; cbn [Calibrate.qsort]; [reflexivity|].
  rewrite qsort_insert_perm. apply perm_skip. exact IH.
Qed.

Lemma qsort_insert_sorted (x : spec_float) (l : list spec_float) :
  chain_sorted l ->
  chain_sorted (Calibrate.qsort_insert Calibrate.cq_float_compare_asc x l).
Proof.
  induction l as [|y l IH]; intros Hs; cbn [Calibrate.qsort_insert].
  - exact I.
  - destruct (Calibrate.cq_float_compare_asc x y <=? 0) eqn:E.
    + split; [exact E | exact Hs].
    + assert (Hyx : cmp_le y x).
      { destruct (cmp_le_total x y) as [H | H]; [|exact H].
        unfold cmp_le in H. congruence. }
      destruct l as [|z l'].
      * cbn [Calibrate.qsort_insert]. split; [exact Hyx | exact I].
      * destruct Hs as [Hyz Hs']. specialize (IH Hs').
        cbn [Calibrate.qsort_insert] in *.
        destruct (Calibrate.cq_float_compare_asc x z <=? 0).
        -- split; [exact Hyx | exact IH].
        -- split; [exact Hyz | exact IH].
Qed.

Lemma qsort_sorted (l : list spec_float) :
  chain_sorted (Calibrate.qsort Calibrate.cq_float_compare_asc l).
Proof.
  induction l as [|x l IH]; cbn [Calibrate.qsort]; [exact I|].
  apply qsort_insert_sorted. exact IH.
Qed.

(* ---------------------------------------------------------------------- *)
(** *** Calibrator: the index computed in [float] *)

(** The arithmetic heart: rounding [N * 0.1f] to 24 bits and truncating
    gives [N / 10] for every [N] below 2^24 ([d] is the number of bits of
    [N], [D] that of the exact 48-bit product mantissa). *)
Lemma p10_arith_core (N d D m1 : Z) :
  1 <= d <= 24 -> 2 ^ (d - 1) <= N < 2 ^ d ->
  47 <= D <= 48 ->
  2 ^ (D - 1) <= N * 2 ^ (24 - d) * 13421773 < 2 ^ D ->
  2 * Z.abs (N * 2 ^ (24 - d) * 13421773 - m1 * 2 ^ (D - 24))
  <= 2 ^ (D - 24) ->
  m1 / 2 ^ (75 - D - d) = N / 10.
Proof.
  intros Hd HN HD HP Hr.
  assert (Hd' : d = 1 \/ d = 2 \/ d = 3 \/ d = 4 \/ d = 5 \/ d = 6
                \/ d = 7 \/ d = 8 \/ d = 9 \/ d = 10 \/ d = 11 \/ d = 12
                \/ d = 13 \/ d = 14 \/ d = 15 \/ d = 16 \/ d = 17 \/ d = 18
                \/ d = 19 \/ d = 20 \/ d = 21 \/ d = 22 \/ d = 23 \/ d = 24)
    by lia.
  assert (HD' : D = 47 \/ D = 48) by lia.
  clear Hd HD.
  repeat (destruct Hd' as [-> | Hd']); try subst d;
    destruct HD' as [-> | ->]; eval_pows; lia.
Qed.

Lemma float_index_below_2p24 (p : positive) :
  Zpos p < 2 ^ 24 ->
  float_to_uint (F32.mul (F32.of_Z (Zpos p)) F32.lit_0_1) = Zpos p / 10.
Proof.
  intros Hlt. destruct F32_format as [Hp He].
  destruct (F32_of_Z_exact p Hlt) as (mz & Em & Hdz & ->).
  pose proof (digits2_pos_bounds p) as [Dlo Dhi].
  set (d := Zpos (digits2_pos p)) in *.
  assert (Hd : 1 <= d <= 24).
  { split; [unfold d; lia|].
    destruct (Z_le_gt_dec d 24) as [|Hgt]; [assumption | exfalso].
    assert (2 ^ 24 <= 2 ^ (d - 1)) by (apply pow2_le; lia). lia. }
  unfold F32.mul, F32.lit_0_1. cbn [SFmul xorb].
  (* digits of the exact product *)
  pose proof (digits2_pos_mul_lower mz 13421773) as HDlo.
  pose proof (digits2_pos_bounds (mz * 13421773)) as [PLo PHi].
  rewrite Pos2Z.inj_mul in PLo, PHi.
  pose proof (digits2_pos_bounds mz) as [Zlo Zhi]. rewrite Hdz in Zlo, Zhi.
  change (Zpos (digits2_pos 13421773)) with 24 in HDlo. rewrite Hdz in HDlo.
  set (D := Zpos (digits2_pos (mz * 13421773))) in *.
  assert (HD : 47 <= D <= 48).
  { split; [lia|].
    destruct (Z_le_gt_dec D 48) as [|Hgt]; [assumption | exfalso].
    assert (2 ^ 48 <= 2 ^ (D - 1)) by (apply pow2_le; lia).
    change (2 ^ 48) with (2 ^ 24 * 2 ^ 24) in *.
    change (24 - 1) with 23 in Zlo. nia. }
  assert (Hg : fexp F32.prec F32.emax (D + (d - 24 + -27)) = D + d - 75).
  { unfold fexp, emin, F32.prec, F32.emax. lia. }
  pose proof (binary_round_aux_cases F32.prec F32.emax Hp false
                (mz * 13421773) (d - 24 + -27)) as Hcases.
  cbv zeta in Hcases. fold D in Hcases. rewrite Hg in Hcases.
  destruct (Hcases ltac:(lia)) as (m1 & [Hr _] & Hfl & Hm1 & ->).
  clear Hcases.
  replace (D + d - 75 - (d - 24 + -27)) with (D - 24) in Hr, Hfl by lia.
  rewrite (Z.abs_eq (2 ^ (D - 24))) in Hr
    by (apply Z.lt_le_incl, pow2_pos; lia).
  rewrite Pos2Z.inj_mul, Em in Hr, Hfl.
  pose proof (p10_arith_core (Zpos p) d D m1 Hd ltac:(lia) HD
                ltac:(rewrite <- Em; lia) Hr) as Hcore.
  assert (Hm1nn : 0 <= m1).
  { assert (0 <= Zpos p * 2 ^ (24 - d) * 13421773 / 2 ^ (D - 24)).
    { apply Z.div_pos; [|apply pow2_pos; lia].
      assert (0 < 2 ^ (24 - d)) by (apply pow2_pos; lia). nia. }
    lia. }
  destruct (m1 =? 0) eqn:E0.
  - apply Z.eqb_eq in E0. subst m1. cbn [float_to_uint].
    rewrite <- Hcore. symmetry. apply Z.div_0_l.
    apply Z.neq_sym, Z.lt_neq, pow2_pos. lia.
  - apply Z.eqb_neq in E0.
    replace (D + d - 75 <=? F32.emax - F32.prec) with true
      by (symmetry; apply Z.leb_le; unfold F32.prec, F32.emax; lia).
    replace (D + d - 75 + 1 <=? F32.emax - F32.prec) with true
      by (symmetry; apply Z.leb_le; unfold F32.prec, F32.emax; lia).
    destruct (m1 <? 2 ^ F32.prec) eqn:Elt.
    + rewrite float_to_uint_neg_exp by lia.
      rewrite Z2Pos.id by lia.
      replace (- (D + d - 75)) with (75 - D - d) by lia. exact Hcore.
    + apply Z.ltb_ge in Elt.
      assert (Em1 : m1 = 2 ^ F32.prec) by lia.
      assert (Hhalf : 0 < m1 / 2).
      { rewrite Em1. unfold F32.prec. vm_compute. reflexivity. }
      rewrite float_to_uint_neg_exp by lia.
      rewrite Z2Pos.id by lia.
      change 2 with (2 ^ 1) at 1. rewrite div_div_pow2 by lia.
      replace (1 + - (D + d - 75 + 1)) with (75 - D - d) by lia.
      exact Hcore.
Qed.

(** For every number of tensors up to 2^24 + 2 the index that the code
    computes in [float] arithmetic is [floor (N / 10)]; no clipping
    occurs. *)
Lemma p10_index_exact (N : Z) :
  1 <= N <= 16777218 -> Calibrate.p10_index N = N / 10.
Proof.
  intros HN. unfold Calibrate.p10_index.
  assert (Hidx : float_to_uint (F32.mul (F32.of_Z N) F32.lit_0_1) = N / 10).
  { destruct (Z_lt_le_dec N (2 ^ 24)) as [Hlt | Hge].
    - destruct N as [|p|p]; [lia | | lia].
      apply float_index_below_2p24. exact Hlt.
    - change (2 ^ 24) with 16777216 in Hge.
      assert (Hc : N = 16777216 \/ N = 16777217 \/ N = 16777218) by lia.
      destruct Hc as [-> | [-> | ->]]; vm_compute; reflexivity. }
  rewrite Hidx.
  destruct (N / 10 >=? N) eqn:E; [|reflexivity].
  apply Z.geb_le in E. lia.
Qed.

(* ---------------------------------------------------------------------- *)
(** *** Calibrator: the 10th-percentile index *)

Lemma qsort_chain_sorted_fixed (l : list spec_float) :
  chain_sorted l -> Calibrate.qsort Calibrate.cq_float_compare_asc l = l.
Proof.
  induction l as [|x t IH]; [reflexivity|].
  intros H. cbn [Calibrate.qsort].
  destruct t as [|y t'].
  - reflexivity.
  - destruct H as [Hxy Ht]. rewrite (IH Ht).
    cbn [Calibrate.qsort_insert]. unfold cmp_le in Hxy. rewrite Hxy.
    reflexivity.
Qed.

Lemma chain_sorted_repeat (a : spec_float) (n : nat) :
  cmp_le a a -> chain_sorted (repeat a n).
Proof.
  intros Ha. induction n as [|n IH]; [exact I|].
  cbn [repeat]. destruct n as [|n']; [exact I|].
  cbn [repeat] in *. split; [exact Ha | exact IH].
Qed.

Lemma chain_sorted_plateaus (a b : spec_float) (n m : nat) :
  cmp_le a a -> cmp_le a b -> cmp_le b b ->
  chain_sorted (repeat a n ++ repeat b m).
Proof.
  intros Ha Hab Hb. induction n as [|n IH].
  - apply chain_sorted_repeat. exact Hb.
  - cbn [repeat app]. destruct n as [|n'].
    + cbn [repeat app] in *. destruct m as [|m']; [exact I|].
      cbn [repeat] in *. split; [exact Hab | exact IH].
    + cbn [repeat app] in *. split; [exact Ha | exact IH].
Qed.

Lemma nth_plateaus (a b d : spec_float) (n m k : nat) :
  (k < n + m)%nat ->
  nth k (repeat a n ++ repeat b m) d = if (k <? n)%nat then a else b.
Proof.
  intros Hk. destruct (k <? n)%nat eqn:E.
  - apply Nat.ltb_lt in E. rewrite app_nth1 by (rewrite repeat_length; exact E).
    apply nth_error_nth. apply nth_error_repeat. exact E.
  - apply Nat.ltb_ge in E.
    rewrite app_nth2 by (rewrite repeat_length; exact E).
    rewrite repeat_length.
    apply nth_error_nth. apply nth_error_repeat. lia.
Qed.

Lemma global_coverage_p10_sorted_nth (report : Calibrate.cq_calibration_report_t) :
  Calibrate.tensors report <> [] ->
  Calibrate.global_coverage_p10
    (Calibrate.cq_calibration_compute_global_coverage report true)
  = nth (Z.to_nat (Calibrate.p10_index (Calibrate.tensor_count report)))
        (Calibrate.qsort Calibrate.cq_float_compare_asc
           (map Calibrate.coverage_ratio (Calibrate.tensors report)))
        F32.zero.
Proof.
  intros Hne. unfold Calibrate.cq_calibration_compute_global_coverage.
  destruct (Calibrate.tensors report) as [|t ts] eqn:E; [congruence|].
  reflexivity.
Qed.

Lemma p10_of_plateaus (report : Calibrate.cq_calibration_report_t)
    (lo hi : Calibrate.cq_tensor_stats_t) (n m : nat) :
  Calibrate.tensors report = repeat lo n ++ repeat hi m ->
  (0 < n)%nat ->
  cmp_le (Calibrate.coverage_ratio lo) (Calibrate.coverage_ratio lo) ->
  cmp_le (Calibrate.coverage_ratio lo) (Calibrate.coverage_ratio hi) ->
  cmp_le (Calibrate.coverage_ratio hi) (Calibrate.coverage_ratio hi) ->
  forall k : Z,
    Calibrate.p10_index (Z.of_nat (n + m)) = k ->
    0 <= k < Z.of_nat (n + m) ->
    Calibrate.global_coverage_p10
      (Calibrate.cq_calibration_compute_global_coverage report true)
    = if k <? Z.of_nat n then Calibrate.coverage_ratio lo
      else Calibrate.coverage_ratio hi.
Proof.
  intros Ht Hn Hll Hlh Hhh k Hk Hrange.
  rewrite global_coverage_p10_sorted_nth.
  2:{ rewrite Ht. destruct n; [lia|]. discriminate. }
  unfold Calibrate.tensor_count. rewrite Ht.
  rewrite length_app, !repeat_length, Hk.
  rewrite map_app, !map_repeat.
  rewrite qsort_chain_sorted_fixed by (apply chain_sorted_plateaus; assumption).
  rewrite nth_plateaus by lia.
  destruct (k <? Z.of_nat n) eqn:E1; destruct (Z.to_nat k <? n)%nat eqn:E2;
    try reflexivity.
  - apply Z.ltb_lt in E1. apply Nat.ltb_ge in E2. lia.
  - apply Z.ltb_ge in E1. apply Nat.ltb_lt in E2. lia.
Qed.


(** On every report with at most 2^24 + 2 tensors (and the sort buffer
    available) [global_coverage_p10] is the element at index
    [floor (N / 10)], an index within the array, of a rearrangement of the
    coverage ratios that is ascending for the comparison callback; without
    NaNs adjacent elements are in the weak IEEE order. *)
Lemma global_coverage_p10_small_reports
    (report : Calibrate.cq_calibration_report_t) :
  let N := Calibrate.tensor_count report in
  let coverages := map Calibrate.coverage_ratio (Calibrate.tensors report) in
  let sorted := Calibrate.qsort Calibrate.cq_float_compare_asc coverages in
  1 <= N <= 16777218 ->
  Calibrate.global_coverage_p10
    (Calibrate.cq_calibration_compute_global_coverage report true)
  = nth (Z.to_nat (N / 10)) sorted F32.zero /\
  0 <= N / 10 <= N - 1 /\
  Permutation sorted coverages /\
  chain_sorted sorted.
Proof.
  cbv zeta. intros HN.
  rewrite global_coverage_p10_sorted_nth.
  2:{ unfold Calibrate.tensor_count in HN.
      destruct (Calibrate.tensors report); [cbn in HN; lia | discriminate]. }
  rewrite (p10_index_exact _ HN).
  split; [reflexivity|]. split; [lia|].
  split; [apply qsort_perm | apply qsort_sorted].
Qed.
Lemma p10_index_small_cases :
  map Calibrate.p10_index [1; 9; 10; 19; 20; 99; 100; 1000; 65535]
  = [0; 0; 1; 1; 2; 9; 10; 100; 6553].
Proof. vm_compute. reflexivity. Qed.

(** C8. With 16777219 tensors the index that the code computes in [float]
    arithmetic is 1677722, one more than [floor (0.10 * N)] = 1677721:
    [(float)N] rounds to 16777220 and the product to 1677722.0. On a report
    whose sorted coverages are 1677722 zeros followed by ones, the element
    at index [floor (0.10 * N)] is 0.0 while [global_coverage_p10] is set
    to 1.0. *)
Theorem p10_index_differs_for_large_reports :
  let report := BigScenario.many_tensor_report in
  let N := Calibrate.tensor_count report in
  let sorted :=
    Calibrate.qsort Calibrate.cq_float_compare_asc
      (map Calibrate.coverage_ratio (Calibrate.tensors report)) in
  N = 16777219 /\
  N / 10 = 1677721 /\
  Calibrate.p10_index N = 1677722 /\
  chain_sorted sorted /\
  nth (Z.to_nat (N / 10)) sorted F32.zero = F32.zero /\
  Calibrate.global_coverage_p10
    (Calibrate.cq_calibration_compute_global_coverage report true)
  = F32.one.
Proof.
  cbv zeta.
  assert (Hidx : Calibrate.p10_index 16777219 = 1677722)
    by (vm_compute; reflexivity).
  assert (Hlen : Z.of_nat (Z.to_nat 1677722 + Z.to_nat 15099497) = 16777219)
    by lia.
  assert (HN : Calibrate.tensor_count BigScenario.many_tensor_report = 16777219).
  { unfold Calibrate.tensor_count, BigScenario.many_tensor_report,
      BigScenario.many_tensors. cbn [Calibrate.tensors].
    rewrite length_app, !repeat_length. exact Hlen. }
  assert (Hll : cmp_le F32.zero F32.zero) by reflexivity.
  assert (Hlh : cmp_le F32.zero F32.one) by reflexivity.
  assert (Hhh : cmp_le F32.one F32.one) by reflexivity.
  assert (Hsorted :
    Calibrate.qsort Calibrate.cq_float_compare_asc
      (map Calibrate.coverage_ratio
         (Calibrate.tensors BigScenario.many_tensor_report))
    = repeat F32.zero (Z.to_nat 1677722)
      ++ repeat F32.one (Z.to_nat 15099497)).
  { unfold BigScenario.many_tensor_report, BigScenario.many_tensors.
    cbn [Calibrate.tensors]. rewrite map_app, !map_repeat.
    apply qsort_chain_sorted_fixed.
    apply chain_sorted_plateaus; assumption. }
  rewrite HN, Hsorted.
  split; [reflexivity|]. split; [reflexivity|]. split; [exact Hidx|].
  split; [apply chain_sorted_plateaus; assumption|].
  split.
  - change (16777219 / 10) with 1677721.
    rewrite nth_plateaus by lia.
    assert (E : (Z.to_nat 1677721 <? Z.to_nat 1677722)%nat = true)
      by (apply Nat.ltb_lt; lia).
    rewrite E. reflexivity.
  - rewrite (p10_of_plateaus BigScenario.many_tensor_report
               (BigScenario.stats_with_coverage F32.zero)
               (BigScenario.stats_with_coverage F32.one)
               (Z.to_nat 1677722) (Z.to_nat 15099497)
               eq_refl ltac:(lia) Hll Hlh Hhh 1677722).
    + assert (E : (1677722 <? Z.of_nat (Z.to_nat 1677722)) = false)
        by (apply Z.ltb_ge; lia).
      rewrite E. reflexivity.
    + rewrite Hlen. exact Hidx.
    + lia.
Qed.

(* ---------------------------------------------------------------------- *)
(** *** Verifier: bound checking *)

Lemma check_layers_spec (ls : list Verify.cq_layer_comparison_t) :
  forall st,
    let st' := Verify.check_layers ls st in
    Verify.loop_layers st' = Verify.loop_layers st ++ map checked ls /\
    Verify.loop_all_satisfied st'
    = Verify.loop_all_satisfied st && forallb (fun l => negb (violated l)) ls /\
    bound_violation (Verify.loop_faults st')
    = bound_violation (Verify.loop_faults st) || existsb violated ls /\
    (existsb violated ls = false ->
       Verify.loop_faults st' = Verify.loop_faults st /\
       Verify.loop_result st' = Verify.loop_result st).
Proof.
  induction ls as [|l ls IH]; intros st; cbv zeta.
  - cbn. rewrite app_nil_r, andb_true_r, orb_false_r. auto.
  - cbn [Verify.check_layers map forallb existsb].
    unfold Verify.cq_verify_check_bounds. fold (violated l).
    destruct (violated l) eqn:Ev; cbn [negb Z.eqb CQ_FAULT_BOUND_VIOLATION].
    + match goal with |- context [Verify.check_layers ls ?s] =>
        specialize (IH s); cbv zeta in IH;
        destruct IH as (IH1 & IH2 & IH3 & IH4) end.
      rewrite IH1, IH2, IH3. cbn [Verify.loop_layers Verify.loop_all_satisfied
        Verify.loop_faults set_bound_violation bound_violation].
      unfold checked at 2. rewrite Ev. cbn [negb].
      rewrite <- app_assoc. cbn [app].
      rewrite andb_false_r, andb_false_l, orb_true_r, orb_true_l.
      repeat split; congruence.
    + match goal with |- context [Verify.check_layers ls ?s] =>
        specialize (IH s); cbv zeta in IH;
        destruct IH as (IH1 & IH2 & IH3 & IH4) end.
      rewrite IH1, IH2, IH3. cbn [Verify.loop_layers Verify.loop_all_satisfied
        Verify.loop_faults Verify.loop_result] in *.
      unfold checked at 2. rewrite Ev. cbn [negb].
      rewrite <- app_assoc. cbn [app]. rewrite andb_true_l, orb_false_l.
      repeat split; apply IH4; assumption.
Qed.

(** What the two functions compute, for every report: each flag is the
    negation of the strict test [measured > bound]. *)
Lemma cq_verify_check_all_bounds_spec
    (report : Verify.cq_verification_report_t) (faults : cq_fault_flags_t) :
  let r := Verify.cq_verify_check_all_bounds report faults in
  let report' := snd (fst r) in
  let total_violated :=
    SFltb (Verify.total_error_theoretical report)
          (Verify.total_error_max_measured report) in
  Verify.layers report' = map checked (Verify.layers report) /\
  Verify.all_bounds_satisfied report'
  = forallb (fun l => negb (violated l)) (Verify.layers report) /\
  Verify.total_bound_satisfied report' = negb total_violated /\
  bound_violation (snd r)
  = bound_violation faults || existsb violated (Verify.layers report)
    || total_violated.
Proof.
  cbv zeta. unfold Verify.cq_verify_check_all_bounds.
  destruct (check_layers_spec (Verify.layers report)
              (Verify.mk_loop 0 true [] faults)) as (H1 & H2 & H3 & _).
  cbv zeta in H1, H2, H3.
  cbn [Verify.loop_layers Verify.loop_all_satisfied Verify.loop_faults] in *.
  cbn [fst snd Verify.layers Verify.all_bounds_satisfied
       Verify.total_bound_satisfied].
  rewrite H1, H2. cbn [app andb]. repeat split.
  destruct (SFltb (Verify.total_error_theoretical report)
                  (Verify.total_error_max_measured report));
    cbn [set_bound_violation bound_violation]; rewrite ?H3;
    rewrite ?orb_true_r, ?orb_false_r; reflexivity.
Qed.

(** On reports free of NaNs the statement of C5 holds: per-layer flags are
    the weak comparison, the digest byte is 1 exactly when every layer and
    the total satisfy it, and a fresh fault set gets [bound_violation]
    exactly when some measured maximum exceeds its bound. *)
Lemma cq_verify_bounds_without_nan
    (report : Verify.cq_verification_report_t) :
  no_nan_report report ->
  let r := Verify.cq_verify_check_all_bounds report cq_fault_clear in
  let report' := snd (fst r) in
  let digest := snd (Verify.cq_verification_digest_generate report') in
  Forall (fun l => Verify.bound_satisfied l
                   = SFleb (Verify.error_max_measured l)
                           (Verify.error_bound_theoretical l))
         (Verify.layers report') /\
  (Verify.bounds_satisfied digest = 1 <->
   Forall (fun l => SFleb (Verify.error_max_measured l)
                          (Verify.error_bound_theoretical l) = true)
          (Verify.layers report) /\
   SFleb (Verify.total_error_max_measured report)
         (Verify.total_error_theoretical report) = true) /\
  (bound_violation (snd r) = true <->
   Exists (fun l => violated l = true) (Verify.layers report) \/
   SFltb (Verify.total_error_theoretical report)
         (Verify.total_error_max_measured report) = true).
Proof.
  intros (Hl & Hm & Ht). cbv zeta.
  destruct (cq_verify_check_all_bounds_spec report cq_fault_clear)
    as (H1 & H2 & H3 & H4). cbv zeta in H1, H2, H3, H4.
  assert (Hneg : forall l, In l (Verify.layers report) ->
            negb (violated l)
            = SFleb (Verify.error_max_measured l)
                    (Verify.error_bound_theoretical l)).
  { intros l Hin. rewrite Forall_forall in Hl. destruct (Hl l Hin) as [A B].
    unfold violated. rewrite (SFltb_negb_SFleb _ _ A B).
    apply negb_involutive. }
  split; [|split].
  - rewrite H1. apply Forall_forall. intros l' Hin.
    apply in_map_iff in Hin. destruct Hin as (l & <- & Hin).
    unfold checked. cbn. apply Hneg. exact Hin.
  - unfold Verify.cq_verification_digest_generate.
    cbn [snd Verify.bounds_satisfied]. rewrite H2, H3.
    rewrite (SFltb_negb_SFleb _ _ Hm Ht), negb_involutive.
    rewrite Forall_forall.
    split.
    + intros H.
      destruct (forallb _ _ && _) eqn:E in H; [|discriminate].
      apply andb_true_iff in E. destruct E as [E1 E2].
      split; [|exact E2]. intros l Hin.
      rewrite forallb_forall in E1. rewrite <- (Hneg l Hin). apply E1, Hin.
    + intros [A B]. rewrite B, andb_true_r.
      replace (forallb (fun l => negb (violated l)) (Verify.layers report))
        with true; [reflexivity|].
      symmetry. apply forallb_forall. intros l Hin.
      rewrite (Hneg l Hin). apply A, Hin.
  - rewrite H4. cbn [bound_violation cq_fault_clear orb].
    rewrite orb_true_iff, existsb_exists, Exists_exists. tauto.
Qed.

(** C5. A layer whose theoretical bound is a NaN: nothing is below or equal
    to a NaN, so the layer does not satisfy [max <= bound]; yet the check
    tests [max > bound], which is false as well, marks the layer satisfied,
    raises no [bound_violation] and the digest byte is 1. *)
Theorem nan_bound_passes_verification :
  let r := Verify.cq_verify_check_all_bounds
             Scenario.nan_bound_report cq_fault_clear in
  let report' := snd (fst r) in
  let digest := snd (Verify.cq_verification_digest_generate report') in
  Forall (fun l => SFleb (Verify.error_max_measured l)
                         (Verify.error_bound_theoretical l) = false
                   /\ Verify.bound_satisfied l = true)
         (Verify.layers report') /\
  fst (fst r) = 0 /\
  Verify.all_bounds_satisfied report' = true /\
  Verify.bounds_satisfied digest = 1 /\
  bound_violation (snd r) = false.
Proof.
  cbv zeta. repeat split; try (vm_compute; reflexivity).
  vm_compute. repeat constructor.
Qed.

(* ---------------------------------------------------------------------- *)
(** *** Notary: certificate build *)

(** C2, as stated, fails: a complete builder is turned into a certificate
    although every fatal flag is set in the builder's fault set and in the
    caller's fault set, the calibration digest records a range veto and the
    verification digest records failed bounds. *)
Lemma cq_certificate_build_ignores_fatal_flags :
  let r := Certificate.cq_certificate_build
             Scenario.constant_hash Scenario.no_bytes Scenario.no_bytes
             Scenario.no_bytes Scenario.no_bytes
             (Some Scenario.flagged_builder)
             (Some Scenario.blank_certificate)
             (Some Scenario.all_fatal) 0 in
  cq_has_fatal_fault (Certificate.b_faults Scenario.flagged_builder) = true /\
  cq_has_fatal_fault Scenario.all_fatal = true /\
  Calibrate.range_veto_status
    (Certificate.b_calibration_digest Scenario.flagged_builder) = 1 /\
  Verify.bounds_satisfied
    (Certificate.b_verification_digest Scenario.flagged_builder) = 0 /\
  fst (fst r) = 0 /\
  (exists cert, snd (fst r) = Some cert /\
                Certificate.magic cert = Certificate.CQ_CERTIFICATE_MAGIC).
Proof.
  cbv zeta. repeat split; try (vm_compute; reflexivity).
  eexists. split; vm_compute; reflexivity.
Qed.

Section BuildFacts.

Variable sha256 : list Z -> list Z.
Variable analysis_digest_bytes : Analyze.cq_analysis_digest_t -> list Z.
Variable calibration_digest_bytes
  : Calibrate.cq_calibration_digest_t -> list Z.
Variable verification_digest_bytes
  : Verify.cq_verification_digest_t -> list Z.
Variable certificate_content_bytes : Certificate.cq_certificate_t -> list Z.

(** C2, amended. With non-null arguments, [cq_certificate_build] returns
    a nonzero code and leaves the certificate and the fault set untouched
    exactly when the builder is incomplete; for a complete builder it
    returns 0 and assembles the certificate whatever fault flags are set,
    and ORs the builder's flags into the caller's fault set. *)
Theorem cq_certificate_build_refuses_iff_incomplete
    (b : Certificate.cq_certificate_builder_t)
    (cert : Certificate.cq_certificate_t)
    (faults : cq_fault_flags_t) (now : Z) :
  let r := Certificate.cq_certificate_build
             sha256 analysis_digest_bytes calibration_digest_bytes
             verification_digest_bytes certificate_content_bytes
             (Some b) (Some cert) (Some faults) now in
  (fst (fst r) <> 0 <->
   Certificate.cq_certificate_builder_is_complete (Some b) = false) /\
  (Certificate.cq_certificate_builder_is_complete (Some b) = false ->
     r = (Certificate.CQ_ERROR_INCOMPLETE_BUILDER, Some cert, Some faults)) /\
  (Certificate.cq_certificate_builder_is_complete (Some b) = true ->
     r = (0,
          Some (Certificate.assemble
                  sha256 analysis_digest_bytes calibration_digest_bytes
                  verification_digest_bytes certificate_content_bytes b now),
          Some (cq_fault_merge faults (Certificate.b_faults b)))).
Proof.
  cbv zeta. unfold Certificate.cq_certificate_build.
  destruct (Certificate.cq_certificate_builder_is_complete (Some b));
    cbn [negb fst snd].
  - split; [|split]; [split|discriminate|reflexivity].
    + intros H. exfalso. apply H. reflexivity.
    + discriminate.
  - split; [|split]; [split|reflexivity|discriminate].
    + reflexivity.
    + intros _. unfold Certificate.CQ_ERROR_INCOMPLETE_BUILDER. lia.
Qed.

Lemma cq_certificate_build_null_pointer
    (builder : option Certificate.cq_certificate_builder_t)
    (cert : option Certificate.cq_certificate_t)
    (faults : option cq_fault_flags_t) (now : Z) :
  builder = None \/ cert = None \/ faults = None ->
  Certificate.cq_certificate_build
    sha256 analysis_digest_bytes calibration_digest_bytes
    verification_digest_bytes certificate_content_bytes
    builder cert faults now
  = (CQ_ERROR_NULL_POINTER, cert, faults).
Proof.
  unfold Certificate.cq_certificate_build.
  intros [-> | [-> | ->]]; [reflexivity| |].
  - destruct builder; reflexivity.
  - destruct builder, cert; reflexivity.
Qed.

End BuildFacts.

Lemma cq_certificate_build_refuses_iff_incomplete_witness :
  Certificate.cq_certificate_build
    Scenario.constant_hash Scenario.no_bytes Scenario.no_bytes
    Scenario.no_bytes Scenario.no_bytes
    (Some Certificate.cq_certificate_builder_init)
    (Some Scenario.blank_certificate) (Some Scenario.all_fatal) 0
  = (Certificate.CQ_ERROR_INCOMPLETE_BUILDER,
     Some Scenario.blank_certificate, Some Scenario.all_fatal)
  /\
  Certificate.cq_certificate_build
    Scenario.constant_hash Scenario.no_bytes Scenario.no_bytes
    Scenario.no_bytes Scenario.no_bytes
    (Some Scenario.flagged_builder) (Some Scenario.blank_certificate)
    (Some cq_fault_clear) 0
  = (0,
     Some (Certificate.assemble
             Scenario.constant_hash Scenario.no_bytes Scenario.no_bytes
             Scenario.no_bytes Scenario.no_bytes Scenario.flagged_builder 0),
     Some (cq_fault_merge cq_fault_clear
             (Certificate.b_faults Scenario.flagged_builder))).
Proof.
  split.
  - apply (proj1 (proj2 (cq_certificate_build_refuses_iff_incomplete
                    Scenario.constant_hash Scenario.no_bytes Scenario.no_bytes
                    Scenario.no_bytes Scenario.no_bytes
                    Certificate.cq_certificate_builder_init
                    Scenario.blank_certificate Scenario.all_fatal 0))).
    reflexivity.
  - apply (proj2 (proj2 (cq_certificate_build_refuses_iff_incomplete
                    Scenario.constant_hash Scenario.no_bytes Scenario.no_bytes
                    Scenario.no_bytes Scenario.no_bytes
                    Scenario.flagged_builder Scenario.blank_certificate
                    cq_fault_clear 0))).
    reflexivity.
Defined.

(* ====================================================================== *)
(** * Further properties of the code *)
(* ====================================================================== *)

(** *** Fault flags *)

(** X6 (merging fault sets). [cq_fault_merge] is idempotent,
    commutative and associative, has the cleared set as unit, and never
    clears a flag: the merged set carries a fault (a fatal fault) exactly
    when one of the two sets does.  Every fatal fault is a fault; a set
    with only overflow and underflow raised carries no fatal fault. *)
Theorem cq_fault_merge_laws (a b c : cq_fault_flags_t) :
  cq_fault_merge a a = a /\
  cq_fault_merge a b = cq_fault_merge b a /\
  cq_fault_merge (cq_fault_merge a b) c = cq_fault_merge a (cq_fault_merge b c) /\
  cq_fault_merge a cq_fault_clear = a /\
  cq_has_fault (cq_fault_merge a b) = cq_has_fault a || cq_has_fault b /\
  cq_has_fatal_fault (cq_fault_merge a b)
  = cq_has_fatal_fault a || cq_has_fatal_fault b /\
  (cq_has_fatal_fault a = true -> cq_has_fault a = true) /\
  cq_has_fatal_fault (set_overflow (set_underflow cq_fault_clear)) = false.
Proof.
  destruct a as [a1 a2 a3 a4 a5 a6 a7].
  destruct b as [b1 b2 b3 b4 b5 b6 b7].
  destruct c as [c1 c2 c3 c4 c5 c6 c7].
  unfold cq_fault_merge, cq_has_fault, cq_has_fatal_fault, cq_fault_clear.
  cbn [overflow underflow div_zero range_exceed unfolded_bn asymmetric
       bound_violation].
  split; [rewrite !orb_diag; reflexivity|].
  split; [f_equal; apply orb_comm|].
  split; [rewrite !orb_assoc; reflexivity|].
  split; [rewrite !orb_false_r; reflexivity|].
  split.
  { destruct a1, a2, a3, a4, a5, a6, a7; cbn [orb]; try reflexivity;
      rewrite ?orb_true_r; reflexivity. }
  split.
  { destruct a3, a4, a5, a6, a7; cbn [orb]; try reflexivity;
      rewrite ?orb_true_r; reflexivity. }
  split; [|reflexivity].
  destruct a1, a2; cbn [orb]; try reflexivity. intros H; exact H.
Qed.

Lemma cq_fault_merge_laws_witness :
  cq_has_fault (set_div_zero cq_fault_clear) = true.
Proof.
  destruct (cq_fault_merge_laws (set_div_zero cq_fault_clear)
              cq_fault_clear cq_fault_clear)
    as (_ & _ & _ & _ & _ & _ & H & _).
  exact (H eq_refl).
Defined.


(** *** Saturating 64-bit arithmetic and the accumulator *)

Lemma wrap_s64_id (x : Z) : is_int64 x -> wrap_s64 x = x.
Proof.
  unfold is_int64, INT64_MIN, INT64_MAX, wrap_s64. intros H.
  eval_pows. lia.
Qed.

Lemma wrap_s32_id (x : Z) : is_int32 x -> wrap_s32 x = x.
Proof.
  unfold is_int32, INT32_MIN, INT32_MAX, wrap_s32. intros H.
  eval_pows. lia.
Qed.

(** X1 (saturating addition and subtraction). For all 64-bit operands
    [cq_add64_sat] and [cq_sub64_sat] return the exact sum, respectively
    difference, saturated to the [int64_t] range; no intermediate value
    leaves that range; the overflow flag is raised exactly when the exact
    result exceeds [INT64_MAX], the underflow flag exactly when it is below
    [INT64_MIN], and otherwise the flags are returned unchanged. *)
Theorem cq_add64_sub64_sat_exact (a b : Z) (f : cq_fault_flags_t) :
  is_int64 a -> is_int64 b ->
  DVM.cq_add64_sat a b f
  = (sat64 (a + b),
     if a + b >? INT64_MAX then set_overflow f
     else if a + b <? INT64_MIN then set_underflow f else f) /\
  DVM.cq_sub64_sat a b f
  = (sat64 (a - b),
     if a - b >? INT64_MAX then set_overflow f
     else if a - b <? INT64_MIN then set_underflow f else f) /\
  (0 < b -> is_int64 (INT64_MAX - b) /\ is_int64 (INT64_MIN + b)) /\
  (b < 0 -> is_int64 (INT64_MIN - b) /\ is_int64 (INT64_MAX + b)).
Proof.
  intros Ha Hb. unfold is_int64, INT64_MIN, INT64_MAX in *.
  repeat split; try lia.
  - unfold DVM.cq_add64_sat, sat64, INT64_MIN, INT64_MAX.
    destruct (b >? 0) eqn:E1; destruct (a >? 9223372036854775807 - b) eqn:E2;
      destruct (b <? 0) eqn:E3; destruct (a <? -9223372036854775808 - b) eqn:E4;
      destruct (a + b >? 9223372036854775807) eqn:E5;
      destruct (a + b <? -9223372036854775808) eqn:E6;
      cbn [andb]; try lia;
      try (rewrite wrap_s64_id by (unfold is_int64, INT64_MIN, INT64_MAX; lia));
      f_equal; lia.
  - unfold DVM.cq_sub64_sat, sat64, INT64_MIN, INT64_MAX.
    destruct (b >? 0) eqn:E1; destruct (a >? 9223372036854775807 + b) eqn:E2;
      destruct (b <? 0) eqn:E3; destruct (a <? -9223372036854775808 + b) eqn:E4;
      destruct (a - b >? 9223372036854775807) eqn:E5;
      destruct (a - b <? -9223372036854775808) eqn:E6;
      cbn [andb]; try lia;
      try (rewrite wrap_s64_id by (unfold is_int64, INT64_MIN, INT64_MAX; lia));
      f_equal; lia.
Qed.

Lemma cq_add64_sub64_sat_exact_witness :
  DVM.cq_add64_sat INT64_MAX 1 cq_fault_clear
  = (INT64_MAX, set_overflow cq_fault_clear) /\
  DVM.cq_sub64_sat INT64_MIN 1 cq_fault_clear
  = (INT64_MIN, set_underflow cq_fault_clear) /\
  is_int64 (INT64_MAX - 1) /\ is_int64 (INT64_MIN - -1).
Proof.
  destruct (cq_add64_sub64_sat_exact INT64_MAX 1 cq_fault_clear
              ltac:(unfold is_int64, INT64_MIN, INT64_MAX; lia)
              ltac:(unfold is_int64, INT64_MIN, INT64_MAX; lia))
    as [H [_ [Hpos _]]].
  destruct (cq_add64_sub64_sat_exact INT64_MIN 1 cq_fault_clear
              ltac:(unfold is_int64, INT64_MIN, INT64_MAX; lia)
              ltac:(unfold is_int64, INT64_MIN, INT64_MAX; lia)) as [_ [H' _]].
  destruct (cq_add64_sub64_sat_exact 0 (-1) cq_fault_clear
              ltac:(unfold is_int64, INT64_MIN, INT64_MAX; lia)
              ltac:(unfold is_int64, INT64_MIN, INT64_MAX; lia))
    as [_ [_ [_ Hneg]]].
  split; [exact H|]. split; [exact H'|].
  split; [exact (proj1 (Hpos ltac:(lia))) | exact (proj1 (Hneg ltac:(lia)))].
Defined.

Lemma mac_chain_exact (B : Z) (pairs : list (Z * Z)) :
  forall acc f,
    0 <= B ->
    Forall (fun wx => Z.abs (fst wx * snd wx) <= B) pairs ->
    Z.abs acc + Z.of_nat (length pairs) * B < 2 ^ 63 ->
    fold_left (fun st wx => DVM.cq_mac_q16 (fst st) (fst wx) (snd wx) (snd st))
              pairs (acc, f)
    = (fold_left (fun s wx => s + fst wx * snd wx) pairs acc, f) /\
    Z.abs (fold_left (fun s wx => s + fst wx * snd wx) pairs acc)
    <= Z.abs acc + Z.of_nat (length pairs) * B.
Proof.
  induction pairs as [|[w x] pairs IH]; intros acc f HB Hall Hsum.
  - cbn. split; [reflexivity | lia].
  - inversion Hall as [|? ? Hwx Hrest]; subst. cbn [fst snd] in Hwx.
    cbn [fold_left fst snd length] in *.
    rewrite Nat2Z.inj_succ in Hsum |- *.
    assert (Hstep : DVM.cq_mac_q16 acc w x f = (acc + w * x, f)).
    { unfold DVM.cq_mac_q16, DVM.cq_add64_sat, INT64_MAX, INT64_MIN.
      change (2 ^ 63) with 9223372036854775808 in Hsum.
      assert (0 <= Z.of_nat (length pairs) * B) by nia.
      destruct ((w * x >? 0) && (acc >? 9223372036854775807 - w * x)) eqn:E1;
        [apply andb_prop in E1; lia|].
      destruct ((w * x <? 0) && (acc <? -9223372036854775808 - w * x)) eqn:E2;
        [apply andb_prop in E2; lia|].
      rewrite wrap_s64_id by (unfold is_int64, INT64_MIN, INT64_MAX; lia).
      reflexivity. }
    rewrite Hstep.
    assert (0 <= Z.of_nat (length pairs) * B) by nia.
    destruct (IH (acc + w * x) f HB Hrest ltac:(lia)) as [IH1 IH2].
    split; [exact IH1 | lia].
Qed.

(** X2 (the overflow proof covers the accumulator). When
    [cq_compute_overflow_proof] accepts the magnitudes [W], [X] and the
    length [n], every dot product of [n] weights of magnitude at most [W]
    with [n] inputs of magnitude at most [X], accumulated from zero by
    [cq_mac_q16], is computed exactly: no call saturates, the accumulator
    ends at the exact sum of products, and no fault flag is touched. *)
Theorem mac_all_exact_when_proved_safe
    (W X : Z) (ws xs : list Z) (f : cq_fault_flags_t) :
  is_uint32 W -> is_uint32 X -> is_uint32 (Z.of_nat (length ws)) ->
  length xs = length ws ->
  Forall (fun w => Z.abs w <= W) ws ->
  Forall (fun x => Z.abs x <= X) xs ->
  fst (Analyze.cq_compute_overflow_proof W X (Z.of_nat (length ws))) = true ->
  mac_all ws xs f = (dot_product ws xs, f) /\
  is_int64 (dot_product ws xs).
Proof.
  intros HW HX Hn Hlen Hws Hxs Hsafe.
  destruct (cq_compute_overflow_proof_exact W X _ HW HX Hn) as [E1 [E2 _]].
  cbv zeta in E1, E2. rewrite E1 in Hsafe. apply E2 in Hsafe.
  assert (Hpairs : Forall (fun wx => Z.abs (fst wx * snd wx) <= W * X)
                          (combine ws xs)).
  { apply Forall_forall. intros [w x] Hin. cbn [fst snd].
    pose proof (in_combine_l _ _ _ _ Hin) as Hw.
    pose proof (in_combine_r _ _ _ _ Hin) as Hx.
    rewrite Forall_forall in Hws, Hxs.
    specialize (Hws _ Hw). specialize (Hxs _ Hx). cbn beta in Hws, Hxs.
    rewrite Z.abs_mul. unfold is_uint32 in *. nia. }
  assert (Hcl : length (combine ws xs) = length ws).
  { rewrite length_combine. lia. }
  unfold is_uint32 in *.
  destruct (mac_chain_exact (W * X) (combine ws xs) 0 f ltac:(nia) Hpairs)
    as [H1 H2].
  { rewrite Hcl. cbn [Z.abs]. lia. }
  unfold mac_all, dot_product. split; [exact H1|].
  rewrite Hcl in H2. cbn [Z.abs] in H2.
  unfold is_int64, INT64_MIN, INT64_MAX.
  change (2 ^ 63) with 9223372036854775808 in Hsafe. lia.
Qed.

Lemma mac_all_exact_when_proved_safe_witness :
  mac_all [32767; -32768; 5] [-32768; -32768; 7] cq_fault_clear
  = (32803, cq_fault_clear) /\
  is_int64 (dot_product [32767; -32768; 5] [-32768; -32768; 7]).
Proof.
  refine (mac_all_exact_when_proved_safe 32768 32768
            [32767; -32768; 5] [-32768; -32768; 7] cq_fault_clear
            _ _ _ _ _ _ _).
  - unfold is_uint32, UINT32_MAX; lia.
  - unfold is_uint32, UINT32_MAX; lia.
  - unfold is_uint32, UINT32_MAX; cbn; lia.
  - reflexivity.
  - repeat constructor; cbn; lia.
  - repeat constructor; cbn; lia.
  - vm_compute. reflexivity.
Defined.


(** *** Q16.16 products and quotients *)

Lemma cq_clamp32_id (x : Z) (f : cq_fault_flags_t) :
  is_int32 x -> DVM.cq_clamp32 x f = (x, f).
Proof.
  unfold is_int32, DVM.cq_clamp32, INT32_MIN, INT32_MAX. intros H.
  destruct (x >? 2147483647) eqn:E1; [lia|].
  destruct (x <? -2147483648) eqn:E2; [lia|]. reflexivity.
Qed.

Lemma is_rne_exact (q d : Z) : d <> 0 -> is_rne (q * d) d q.
Proof.
  intros Hd. unfold is_rne. rewrite Z.sub_diag.
  split; [lia | intros H; lia].
Qed.

Lemma cq_mul_q16_exact (a b : Z) (f : cq_fault_flags_t) :
  (a * b) mod 2 ^ 16 = 0 ->
  DVM.cq_mul_q16 a b f = DVM.cq_clamp32 (a * b / 2 ^ 16) f.
Proof.
  intros Hdiv. unfold DVM.cq_mul_q16, CQ_Q16_SHIFT. cbv zeta.
  destruct (cq_round_shift_rne_nearest (a * b) 16 f ltac:(lia)) as [q [Hq Heq]].
  rewrite Heq. f_equal.
  apply (is_rne_unique (a * b) (2 ^ 16)); [eval_pows; lia | exact Hq |].
  replace (a * b) with (a * b / 2 ^ 16 * 2 ^ 16) at 1
    by (eval_pows; eval_pows; lia).
  apply is_rne_exact. eval_pows. lia.
Qed.

(** X3 (Q16.16 products). For all 32-bit operands [cq_mul_q16] is
    commutative and equals one [cq_mac_q16] into a zero accumulator
    followed by [cq_acc_to_q16]; a product whose exact value has no bits
    below the 16th is returned exactly (saturated to 32 bits); and
    [CQ_Q16_ONE] is a unit of [cq_mul_q16] on both sides and of
    [cq_div_q16] on the right, with no fault raised. *)
Theorem cq_mul_q16_laws (a b : Z) (f : cq_fault_flags_t) :
  is_int32 a -> is_int32 b ->
  DVM.cq_mul_q16 a b f = DVM.cq_mul_q16 b a f /\
  (let '(acc, f1) := DVM.cq_mac_q16 0 a b f in DVM.cq_acc_to_q16 acc f1)
  = DVM.cq_mul_q16 a b f /\
  ((a * b) mod 2 ^ 16 = 0 ->
   DVM.cq_mul_q16 a b f = DVM.cq_clamp32 (a * b / 2 ^ 16) f) /\
  DVM.cq_mul_q16 a CQ_Q16_ONE f = (a, f) /\
  DVM.cq_mul_q16 CQ_Q16_ONE a f = (a, f) /\
  DVM.cq_div_q16 a CQ_Q16_ONE f = (a, f).
Proof.
  intros Ha Hb.
  assert (Hone : DVM.cq_mul_q16 a CQ_Q16_ONE f = (a, f)).
  { rewrite cq_mul_q16_exact.
    - unfold CQ_Q16_ONE. change (2 ^ 16) with 65536.
      rewrite Z.div_mul by lia. apply cq_clamp32_id, Ha.
    - unfold CQ_Q16_ONE. change (2 ^ 16) with 65536. apply Z.mod_mul. lia. }
  split; [|split; [|split; [|split; [|split]]]].
  - unfold DVM.cq_mul_q16. rewrite (Z.mul_comm a b). reflexivity.
  - unfold DVM.cq_mac_q16, DVM.cq_add64_sat, INT64_MAX, INT64_MIN.
    unfold is_int32, INT32_MIN, INT32_MAX in Ha, Hb.
    assert (-4611686018427387904 <= a * b <= 4611686018427387904) by nia.
    destruct ((a * b >? 0) && (0 >? 9223372036854775807 - a * b)) eqn:E1;
      [apply andb_prop in E1; lia|].
    destruct ((a * b <? 0) && (0 <? -9223372036854775808 - a * b)) eqn:E2;
      [apply andb_prop in E2; lia|].
    rewrite wrap_s64_id by (unfold is_int64, INT64_MIN, INT64_MAX; lia).
    reflexivity.
  - apply cq_mul_q16_exact.
  - exact Hone.
  - unfold DVM.cq_mul_q16 in *. rewrite (Z.mul_comm CQ_Q16_ONE a). exact Hone.
  - unfold DVM.cq_div_q16, CQ_Q16_ONE, CQ_Q16_SHIFT. cbv zeta.
    change (2 ^ 16) with 65536. change (65536 =? 0) with false. cbv iota.
    rewrite Z.quot_mul by lia. rewrite Z.rem_mul by lia.
    change (65536 >? 0) with true. cbv iota.
    change (Z.quot 65536 2) with 32768.
    change (0 >=? 0) with true. cbv iota.
    change (0 >? 32768) with false. change (0 =? 32768) with false. cbv iota.
    apply cq_clamp32_id, Ha.
Qed.

Lemma cq_mul_q16_laws_witness :
  DVM.cq_mul_q16 131072 196608 cq_fault_clear
  = DVM.cq_mul_q16 196608 131072 cq_fault_clear /\
  DVM.cq_mul_q16 131072 196608 cq_fault_clear = (393216, cq_fault_clear) /\
  DVM.cq_mul_q16 131072 CQ_Q16_ONE cq_fault_clear = (131072, cq_fault_clear).
Proof.
  destruct (cq_mul_q16_laws 131072 196608 cq_fault_clear
              ltac:(unfold is_int32, INT32_MIN, INT32_MAX; lia)
              ltac:(unfold is_int32, INT32_MIN, INT32_MAX; lia))
    as [H1 [_ [H3 [H4 _]]]].
  split; [exact H1|]. split; [|exact H4].
  exact (H3 ltac:(reflexivity)).
Defined.


(** *** Division by an even divisor *)

Lemma quot_rem_signs (x b : Z) :
  b <> 0 ->
  x = b * Z.quot x b + Z.rem x b /\
  Z.abs (Z.rem x b) < Z.abs b /\
  (0 <= x -> 0 <= Z.rem x b) /\
  (x <= 0 -> Z.rem x b <= 0) /\
  (0 <= x -> 0 < b -> 0 <= Z.quot x b) /\
  (x <= 0 -> b < 0 -> 0 <= Z.quot x b) /\
  (0 <= x -> b < 0 -> Z.quot x b <= 0) /\
  (x <= 0 -> 0 < b -> Z.quot x b <= 0).
Proof.
  intros Hb.
  split; [apply Z.quot_rem'|].
  split; [pose proof (Z.rem_bound_abs x b Hb); lia|].
  split; [intros; apply Z.rem_nonneg; lia|].
  split; [intros; apply Z.rem_nonpos; lia|].
  split; [intros; apply Z.quot_pos; lia|].
  split.
  { intros. rewrite <- (Z.opp_involutive x), <- (Z.opp_involutive b).
    rewrite Z.quot_opp_opp by lia. apply Z.quot_pos; lia. }
  split.
  { intros. rewrite <- (Z.opp_involutive b).
    rewrite Z.quot_opp_r by lia.
    pose proof (Z.quot_pos x (- b)). lia. }
  { intros. rewrite <- (Z.opp_involutive x).
    rewrite Z.quot_opp_l by lia.
    pose proof (Z.quot_pos (- x) b). lia. }
Qed.

Lemma even_abs_half (b : Z) : Z.even b = true -> Z.abs b = 2 * (Z.abs b / 2).
Proof.
  intros Heven. apply Z.even_spec in Heven. destruct Heven as [k Hk].
  subst b. lia.
Qed.

(** X4 (division by an even divisor). For every even divisor [b] other
    than 0 and [INT32_MIN], and every dividend [a] that has the sign of
    [b] or satisfies [|a| * 2^16 >= |b|], [cq_div_q16] returns the exact
    quotient [a * 2^16 / b] rounded to the nearest integer, ties to even,
    and saturated to 32 bits by [cq_clamp32]. *)
Theorem cq_div_q16_even_divisor (a b : Z) (f : cq_fault_flags_t) :
  is_int32 a -> is_int32 b -> b <> 0 -> INT32_MIN < b ->
  Z.even b = true ->
  (0 <= a * b \/ Z.abs b <= Z.abs a * 2 ^ 16) ->
  exists q, is_rne (a * 2 ^ 16) b q /\
            DVM.cq_div_q16 a b f = DVM.cq_clamp32 q f.
Proof.
  intros Ha Hb Hb0 Hbmin Heven Hsign.
  unfold DVM.cq_div_q16, CQ_Q16_SHIFT. cbv zeta.
  destruct (b =? 0) eqn:E0; [lia|].
  change (2 ^ 16) with 65536 in *.
  assert (Hsign' : (0 <= a /\ 0 < b) \/ (a <= 0 /\ b < 0)
                   \/ Z.abs b <= Z.abs (a * 65536)).
  { destruct Hsign as [H|H]; [nia | lia]. }
  clear Hsign.
  assert (Hxa : (0 <= a <-> 0 <= a * 65536) /\ (a <= 0 <-> a * 65536 <= 0))
    by (clear; lia).
  set (x := a * 65536) in *.
  destruct (quot_rem_signs x b Hb0) as (Hx & Hrb & Hr1 & Hr2 & Hq1 & Hq2 & Hq3 & Hq4).
  set (q0 := Z.quot x b) in *. set (r := Z.rem x b) in *.
  assert (Hhalf : (if b >? 0 then Z.quot b 2 else Z.quot (wrap_s32 (- b)) 2)
                  = Z.abs b / 2).
  { destruct (b >? 0) eqn:Eb.
    - rewrite Z.quot_div_nonneg by lia. rewrite Z.abs_eq by lia. reflexivity.
    - rewrite wrap_s32_id
        by (unfold is_int32, INT32_MIN, INT32_MAX in *; lia).
      rewrite Z.quot_div_nonneg by lia. rewrite Z.abs_neq by lia. reflexivity. }
  rewrite Hhalf.
  pose proof (even_abs_half b Heven) as Hb2.
  set (h := Z.abs b / 2) in *.
  assert (Habsr : (if r >=? 0 then r else - r) = Z.abs r).
  { destruct (r >=? 0) eqn:Er; lia. }
  rewrite Habsr.
  pose proof (land_1_even q0) as Hland.
  clearbody h q0 r x. clear Hhalf Habsr Heven Ha Hb Hbmin E0.
  destruct (Z.abs r >? h) eqn:E1.
  - eexists. split; [|reflexivity]. unfold is_rne.
    destruct (q0 >=? 0) eqn:Eq; split; try lia.
  - destruct (Z.abs r =? h) eqn:E2.
    + destruct (Z.even q0) eqn:Ev; rewrite Hland; cbn [Z.eqb negb].
      * exists q0. split; [|reflexivity]. unfold is_rne. split; [lia|].
        intros _. exact Ev.
      * eexists. split; [|reflexivity]. unfold is_rne.
        destruct (q0 >=? 0) eqn:Eq; (split; [lia|]); intros _.
        -- apply even_succ_of_odd, Ev.
        -- replace (q0 + -1) with (q0 - 1) by ring.
           apply even_pred_of_odd, Ev.
    + exists q0. split; [|reflexivity]. unfold is_rne. split; lia.
Qed.

Lemma cq_div_q16_even_divisor_witness :
  exists q, is_rne (1 * 2 ^ 16) 131072 q /\
            DVM.cq_div_q16 1 131072 cq_fault_clear
            = DVM.cq_clamp32 q cq_fault_clear.
Proof.
  refine (cq_div_q16_even_divisor 1 131072 cq_fault_clear _ _ _ _ _ _).
  - unfold is_int32, INT32_MIN, INT32_MAX; lia.
  - unfold is_int32, INT32_MIN, INT32_MAX; lia.
  - lia.
  - unfold INT32_MIN; lia.
  - reflexivity.
  - left; lia.
Defined.

(** The sign condition cannot be dropped: the exact quotient of [-3] by
    [4.0] is [-0.75], whose nearest integer is [-1]. *)
Lemma cq_div_q16_small_negative_quotient :
  DVM.cq_div_q16 (-3) 262144 cq_fault_clear = (1, cq_fault_clear) /\
  is_rne (-3 * 2 ^ 16) 262144 (-1).
Proof.
  split; [reflexivity|]. unfold is_rne. cbn. split; [lia | intros H; lia].
Qed.

(** *** Portable arithmetic shifts *)

Lemma lor_high_low (h h' y n : Z) :
  0 <= n -> 0 <= y < 2 ^ n ->
  Z.lor (h * 2 ^ n + y) (h' * 2 ^ n) = Z.lor h h' * 2 ^ n + y.
Proof.
  intros Hn Hy.
  assert (Hp : 0 < 2 ^ n) by (apply Z.pow_pos_nonneg; lia).
  assert (Hlow : forall a i, 0 <= i < n ->
            Z.testbit (a * 2 ^ n + y) i = Z.testbit y i).
  { intros a i Hi.
    rewrite <- (Z.mod_pow2_bits_low (a * 2 ^ n + y) n i) by lia.
    rewrite Z.add_comm, Z.mod_add by lia.
    rewrite Z.mod_small by lia. reflexivity. }
  assert (Hhigh : forall a i, n <= i ->
            Z.testbit (a * 2 ^ n + y) i = Z.testbit a (i - n)).
  { intros a i Hi.
    replace i with ((i - n) + n) at 1 by ring.
    rewrite <- Z.div_pow2_bits by lia.
    rewrite Z.add_comm, Z.div_add by lia.
    rewrite Z.div_small by lia. reflexivity. }
  apply Z.bits_inj'. intros i Hi.
  rewrite Z.lor_spec.
  destruct (Z.lt_ge_cases i n) as [Hlt|Hge].
  - rewrite !Hlow by lia.
    rewrite Z.mul_pow2_bits_low by lia. apply orb_false_r.
  - rewrite !Hhigh by lia.
    rewrite Z.mul_pow2_bits by lia. rewrite Z.lor_spec. reflexivity.
Qed.

Lemma sra_fallback_generic (w v s : Z) :
  0 < s < w -> - 2 ^ (w - 1) <= v < 0 ->
  let ws x := (x + 2 ^ (w - 1)) mod 2 ^ w - 2 ^ (w - 1) in
  let wu x := x mod 2 ^ w in
  let mask := wu (Z.lnot (Z.shiftr (2 ^ w - 1) s)) in
  ws (Z.lor (wu (Z.shiftr v s)) mask) = Z.shiftr v s /\
  ws (Z.lor (wu (ws (Z.shiftr (wu v) s))) mask) = Z.shiftr v s.
Proof.
  intros Hs Hv ws wu mask.
  set (n := w - s).
  assert (HP : 0 < 2 ^ s) by (apply Z.pow_pos_nonneg; lia).
  assert (HQ : 0 < 2 ^ n) by (apply Z.pow_pos_nonneg; lia).
  assert (Hw : 2 ^ w = 2 ^ s * 2 ^ n).
  { rewrite <- Z.pow_add_r by lia. f_equal. lia. }
  assert (Hw1 : 2 ^ (w - 1) = 2 ^ s * 2 ^ (n - 1)).
  { rewrite <- Z.pow_add_r by lia. f_equal. lia. }
  assert (Hn1 : 2 ^ n = 2 * 2 ^ (n - 1)).
  { replace n with (1 + (n - 1)) at 1 by ring.
    rewrite Z.pow_add_r by lia. reflexivity. }
  assert (HQ1 : 0 < 2 ^ (n - 1)) by (apply Z.pow_pos_nonneg; lia).
  assert (Hs1 : 2 <= 2 ^ s).
  { replace s with (1 + (s - 1)) by ring. rewrite Z.pow_add_r by lia.
    assert (0 < 2 ^ (s - 1)) by (apply Z.pow_pos_nonneg; lia). lia. }
  rewrite !Z.shiftr_div_pow2 by lia.
  set (P := 2 ^ s) in *. set (Q := 2 ^ n) in *. set (Q1 := 2 ^ (n - 1)) in *.
  set (t := v / P).
  assert (Ht : - Q1 <= t <= -1).
  { unfold t. split.
    - apply Z.div_le_lower_bound; [lia|]. nia.
    - assert (v / P < 0) by (apply Z.div_lt_upper_bound; lia). lia. }
  assert (Hmask : mask = (P - 1) * Q).
  { unfold mask, wu. rewrite Z.shiftr_div_pow2 by lia. fold P.
    assert (E : (2 ^ w - 1) / P = Q - 1).
    { symmetry. apply (Z.div_unique_pos _ _ _ (P - 1)); [lia|]. rewrite Hw. ring. }
    rewrite E. unfold Z.lnot. rewrite Hw.
    symmetry. apply (Z.mod_unique_pos _ _ (-1)); [nia | unfold Z.pred; ring]. }
  assert (Hwst : ws (t + 2 ^ w) = t).
  { unfold ws. rewrite Hw, Hw1. fold P Q Q1.
    replace (t + P * Q + P * Q1) with (t + P * Q1 + 1 * (P * Q)) by ring.
    rewrite Z.mod_add by nia. rewrite Z.mod_small by nia. ring. }
  rewrite Hmask.
  split.
  - assert (E : wu t = (P - 1) * Q + (t + Q)).
    { unfold wu. rewrite Hw. fold P Q.
      symmetry. apply (Z.mod_unique_pos _ _ (-1)); [nia | ring]. }
    rewrite E. unfold Q. rewrite lor_high_low by (fold Q; lia).
    rewrite Z.lor_diag. fold Q.
    replace ((P - 1) * Q + (t + Q)) with (t + 2 ^ w) by (rewrite Hw; fold P Q; ring).
    exact Hwst.
  - assert (E1 : wu v = v + P * Q).
    { unfold wu. rewrite Hw. fold P Q.
      symmetry. apply (Z.mod_unique_pos _ _ (-1)); [|ring].
      rewrite Hw1 in Hv. fold P Q1 in Hv. nia. }
    rewrite E1.
    assert (E2 : (v + P * Q) / P = t + Q).
    { rewrite (Z.mul_comm P Q), Z.div_add by lia. reflexivity. }
    rewrite E2.
    assert (E3 : ws (t + Q) = t + Q).
    { unfold ws. rewrite Hw, Hw1. fold P Q Q1.
      rewrite Z.mod_small by nia. ring. }
    rewrite E3.
    assert (E4 : wu (t + Q) = 0 * Q + (t + Q)).
    { unfold wu. rewrite Hw. fold P Q. rewrite Z.mod_small by nia. ring. }
    rewrite E4. unfold Q. rewrite lor_high_low by (fold Q; lia).
    rewrite Z.lor_0_l. fold Q.
    replace ((P - 1) * Q + (t + Q)) with (t + 2 ^ w) by (rewrite Hw; fold P Q; ring).
    exact Hwst.
Qed.

Lemma shiftr_range (w v s : Z) :
  0 <= s -> 0 < w -> - 2 ^ (w - 1) <= v < 2 ^ (w - 1) ->
  - 2 ^ (w - 1) <= Z.shiftr v s < 2 ^ (w - 1).
Proof.
  intros Hs Hw Hv. rewrite Z.shiftr_div_pow2 by lia.
  assert (0 < 2 ^ s) by (apply Z.pow_pos_nonneg; lia).
  assert (0 < 2 ^ (w - 1)) by (apply Z.pow_pos_nonneg; lia).
  split.
  - apply Z.div_le_lower_bound; [lia|]. nia.
  - apply Z.div_lt_upper_bound; [lia|]. nia.
Qed.

Lemma shr_zero_filling_nonneg (w v s : Z) :
  0 <= s -> 0 < w -> - 2 ^ (w - 1) <= v < 2 ^ (w - 1) ->
  0 <= v \/ s = 0 ->
  (Z.shiftr (v mod 2 ^ w) s + 2 ^ (w - 1)) mod 2 ^ w - 2 ^ (w - 1)
  = Z.shiftr v s.
Proof.
  intros Hs Hw Hv Hcase.
  assert (Hpw : 2 ^ w = 2 * 2 ^ (w - 1)).
  { replace w with (1 + (w - 1)) at 1 by ring.
    rewrite Z.pow_add_r by lia. reflexivity. }
  assert (0 < 2 ^ (w - 1)) by (apply Z.pow_pos_nonneg; lia).
  destruct Hcase as [Hv0 | ->].
  - rewrite (Z.mod_small v) by lia.
    pose proof (shiftr_range w v s Hs Hw Hv).
    assert (0 <= Z.shiftr v s) by (apply Z.shiftr_nonneg; lia).
    rewrite Z.mod_small by lia. ring.
  - rewrite !Z.shiftr_0_r.
    destruct (Z.lt_ge_cases v 0).
    + replace (v mod 2 ^ w) with (v + 2 ^ w)
        by (apply (Z.mod_unique_pos _ _ (-1)); [lia | ring]).
      replace (v + 2 ^ w + 2 ^ (w - 1)) with (v + 2 ^ (w - 1) + 1 * 2 ^ w) by ring.
      rewrite Z.mod_add by lia. rewrite Z.mod_small by lia. ring.
    + rewrite (Z.mod_small v) by lia. rewrite Z.mod_small by lia. ring.
Qed.

(** X5 (portable arithmetic shift). For every shift count below the
    width, the fallback branch of [cq_sra32] and [cq_sra64] returns the
    same value as the GCC/Clang branch, whichever way the compiler shifts
    negative numbers: the quotient of [v] by [2^s] rounded toward minus
    infinity, which lies in the range of the type. *)
Theorem cq_sra_fallback_is_arithmetic (impl : DVM.signed_shift) (v s : Z) :
  (is_int32 v -> 0 <= s < 32 ->
     DVM.cq_sra32_fallback impl v s = DVM.cq_sra32_gnu v s /\
     DVM.cq_sra32_gnu v s = v / 2 ^ s /\
     is_int32 (DVM.cq_sra32_gnu v s)) /\
  (is_int64 v -> 0 <= s < 64 ->
     DVM.cq_sra64_fallback impl v s = DVM.cq_sra64_gnu v s /\
     DVM.cq_sra64_gnu v s = v / 2 ^ s /\
     is_int64 (DVM.cq_sra64_gnu v s)).
Proof.
  split.
  - intros Hv Hs. unfold is_int32, INT32_MIN, INT32_MAX in Hv.
    unfold DVM.cq_sra32_gnu, DVM.cq_sra32_fallback. cbn [DVM.shr_s32].
    split; [|split].
    + destruct ((v <? 0) && (s >? 0)) eqn:E.
      * apply andb_prop in E.
        destruct (sra_fallback_generic 32 v s ltac:(lia)
                    ltac:(change (2 ^ (32 - 1)) with 2147483648; lia))
          as [H1 H2].
        destruct impl; [exact H1 | exact H2].
      * destruct impl; [reflexivity|].
        apply (shr_zero_filling_nonneg 32 v s);
          [lia | lia | change (2 ^ (32 - 1)) with 2147483648; lia |].
        destruct (v <? 0) eqn:E1; destruct (s >? 0) eqn:E2;
          cbn in E; try discriminate; lia.
    + apply Z.shiftr_div_pow2. lia.
    + pose proof (shiftr_range 32 v s ltac:(lia) ltac:(lia)
                    ltac:(change (2 ^ (32 - 1)) with 2147483648; lia)) as H.
      change (2 ^ (32 - 1)) with 2147483648 in H.
      unfold is_int32, INT32_MIN, INT32_MAX. lia.
  - intros Hv Hs. unfold is_int64, INT64_MIN, INT64_MAX in Hv.
    unfold DVM.cq_sra64_gnu, DVM.cq_sra64_fallback. cbn [DVM.shr_s64].
    split; [|split].
    + destruct ((v <? 0) && (s >? 0)) eqn:E.
      * apply andb_prop in E.
        destruct (sra_fallback_generic 64 v s ltac:(lia)
                    ltac:(change (2 ^ (64 - 1)) with 9223372036854775808; lia))
          as [H1 H2].
        destruct impl; [exact H1 | exact H2].
      * destruct impl; [reflexivity|].
        apply (shr_zero_filling_nonneg 64 v s);
          [lia | lia | change (2 ^ (64 - 1)) with 9223372036854775808; lia |].
        destruct (v <? 0) eqn:E1; destruct (s >? 0) eqn:E2;
          cbn in E; try discriminate; lia.
    + apply Z.shiftr_div_pow2. lia.
    + pose proof (shiftr_range 64 v s ltac:(lia) ltac:(lia)
                    ltac:(change (2 ^ (64 - 1)) with 9223372036854775808; lia)) as H.
      change (2 ^ (64 - 1)) with 9223372036854775808 in H.
      unfold is_int64, INT64_MIN, INT64_MAX. lia.
Qed.

Lemma cq_sra_fallback_is_arithmetic_witness :
  DVM.cq_sra32_fallback DVM.ZeroFilling (-5) 1 = -3 /\
  DVM.cq_sra64_fallback DVM.SignExtending (-5) 1 = -3.
Proof.
  destruct (cq_sra_fallback_is_arithmetic DVM.ZeroFilling (-5) 1) as [H32 _].
  destruct (cq_sra_fallback_is_arithmetic DVM.SignExtending (-5) 1) as [_ H64].
  destruct (H32 ltac:(unfold is_int32, INT32_MIN, INT32_MAX; lia) ltac:(lia))
    as [E1 _].
  destruct (H64 ltac:(unfold is_int64, INT64_MIN, INT64_MAX; lia) ltac:(lia))
    as [E2 _].
  split; [exact E1 | exact E2].
Defined.


(** *** SHA-256: hashing in pieces *)

Lemma land_63 (c : Z) : 0 <= c -> Z.land c 63 = c mod 64.
Proof. intros H. change 63 with (Z.ones 6). rewrite Z.land_ones by lia. reflexivity. Qed.

Lemma transform_blocks_fuel (f1 : nat) :
  forall f2 st p,
    (length p < 64 * (f1 + 1))%nat -> (length p < 64 * (f2 + 1))%nat ->
    SHA256.transform_blocks f1 st p = SHA256.transform_blocks f2 st p.
Proof.
  induction f1 as [|f1 IH]; intros f2 st p H1 H2.
  - destruct f2 as [|f2]; [reflexivity|]. cbn [SHA256.transform_blocks].
    destruct (64 <=? length p)%nat eqn:E; [apply Nat.leb_le in E; lia | reflexivity].
  - cbn [SHA256.transform_blocks].
    destruct (64 <=? length p)%nat eqn:E.
    + apply Nat.leb_le in E.
      destruct f2 as [|f2]; [lia|]. cbn [SHA256.transform_blocks].
      assert (E' : (64 <=? length p)%nat = true) by (apply Nat.leb_le; lia).
      rewrite E'. apply IH; rewrite length_skipn; lia.
    + destruct f2 as [|f2]; [reflexivity|]. cbn [SHA256.transform_blocks].
      rewrite E. reflexivity.
Qed.

Lemma absorb_fuel (f : nat) (st p : list Z) :
  (length p <= f)%nat -> SHA256.transform_blocks f st p = absorb st p.
Proof. intros H. apply transform_blocks_fuel; lia. Qed.

Lemma absorb_short (st p : list Z) :
  (length p < 64)%nat -> absorb st p = (st, p).
Proof.
  intros H. unfold absorb. destruct (length p) eqn:E; [reflexivity|].
  cbn [SHA256.transform_blocks]. rewrite E.
  destruct (64 <=? S n)%nat eqn:E'; [apply Nat.leb_le in E'; lia | reflexivity].
Qed.

Lemma absorb_block (st p : list Z) :
  (64 <= length p)%nat ->
  absorb st p = absorb (SHA256.transform st (firstn 64 p)) (skipn 64 p).
Proof.
  intros H. unfold absorb at 1. destruct (length p) eqn:E; [lia|].
  cbn [SHA256.transform_blocks]. rewrite E.
  assert (E' : (64 <=? S n)%nat = true) by (apply Nat.leb_le; lia).
  rewrite E'. apply absorb_fuel. rewrite length_skipn. lia.
Qed.

Lemma absorb_rest_length (n : nat) :
  forall st p, (length p <= n)%nat ->
    length (snd (absorb st p)) = (length p mod 64)%nat.
Proof.
  induction n as [|n IH]; intros st p Hn.
  - rewrite absorb_short by lia. cbn [snd]. rewrite Nat.mod_small; lia.
  - destruct (Nat.lt_ge_cases (length p) 64) as [Hlt|Hge].
    + rewrite absorb_short by lia. cbn [snd]. rewrite Nat.mod_small; lia.
    + rewrite absorb_block by lia. rewrite IH by (rewrite length_skipn; lia).
      rewrite length_skipn.
      replace (length p) with ((length p - 64) + 1 * 64)%nat at 2 by lia.
      rewrite Nat.Div0.mod_add. reflexivity.
Qed.

Lemma absorb_app (n : nat) :
  forall st a b, (length a <= n)%nat ->
    absorb st (a ++ b)
    = absorb (fst (absorb st a)) (snd (absorb st a) ++ b).
Proof.
  induction n as [|n IH]; intros st a b Hn.
  - rewrite (absorb_short st a) by lia. reflexivity.
  - destruct (Nat.lt_ge_cases (length a) 64) as [Hlt|Hge].
    + rewrite (absorb_short st a) by lia. reflexivity.
    + rewrite (absorb_block st (a ++ b)) by (rewrite length_app; lia).
      rewrite (absorb_block st a) by lia.
      rewrite firstn_app, skipn_app.
      replace (64 - length a)%nat with 0%nat by lia.
      rewrite firstn_O, skipn_O, app_nil_r.
      apply IH. rewrite length_skipn. lia.
Qed.

Lemma wrap_u64_mod64 (x : Z) : wrap_u64 x mod 64 = x mod 64.
Proof.
  unfold wrap_u64. change (2 ^ 64) with 18446744073709551616. lia.
Qed.

Lemma wrap_u64_range (x : Z) : 0 <= wrap_u64 x < 2 ^ 64.
Proof. unfold wrap_u64. apply Z.mod_pos_bound. reflexivity. Qed.

(** What [cq_sha256_update] does to the state, the count and the pending
    bytes. *)
Lemma cq_sha256_update_spec (ctx : SHA256.cq_sha256_ctx_t) (data : list Z) :
  ctx_wf ctx ->
  let ctx' := SHA256.cq_sha256_update ctx data in
  ctx_wf ctx' /\
  SHA256.count ctx' = wrap_u64 (SHA256.count ctx + Z.of_nat (length data)) /\
  (SHA256.state ctx', pending ctx')
  = absorb (SHA256.state ctx) (pending ctx ++ data).
Proof.
  intros [Hc Hb]. cbv zeta.
  assert (Hlen : forall st, length (snd (absorb st (pending ctx ++ data)))
                 = Z.to_nat (wrap_u64 (SHA256.count ctx + Z.of_nat (length data)) mod 64)).
  { intros st. rewrite (absorb_rest_length _ st _ (Nat.le_refl _)).
    rewrite wrap_u64_mod64. unfold pending.
    rewrite length_app, length_firstn, Hb.
    rewrite Nat.min_l by lia.
    apply Nat2Z.inj. rewrite Nat2Z.inj_mod. lia. }
  unfold SHA256.cq_sha256_update.
  rewrite land_63 by lia.
  set (idx := Z.to_nat (SHA256.count ctx mod 64)) in *.
  assert (Hidx : (idx < 64)%nat) by lia.
  assert (Hpl : length (pending ctx) = idx).
  { unfold pending. fold idx. rewrite length_firstn. lia. }
  set (count' := wrap_u64 (SHA256.count ctx + Z.of_nat (length data))) in *.
  pose proof (wrap_u64_range (SHA256.count ctx + Z.of_nat (length data))) as Hc'.
  fold count' in Hc'.
  destruct (0 <? idx)%nat eqn:E0.
  - apply Nat.ltb_lt in E0.
    destruct (length data <? 64 - idx)%nat eqn:E1.
    + apply Nat.ltb_lt in E1.
      specialize (Hlen (SHA256.state ctx)).
      rewrite absorb_short in * by (rewrite length_app; lia).
      cbn [snd] in Hlen.
      unfold ctx_wf, pending. cbn [SHA256.count SHA256.buffer SHA256.state].
      split; [split; [exact Hc'|]|split; [reflexivity|]].
      * unfold SHA256.memcpy_at. rewrite !length_app, length_firstn, length_skipn. lia.
      * f_equal. rewrite <- Hlen. unfold SHA256.memcpy_at.
        fold idx. unfold pending. fold idx.
        rewrite app_assoc. rewrite firstn_app.
        rewrite !length_app, length_firstn.
        replace (min idx (length (SHA256.buffer ctx))) with idx by lia.
        rewrite Nat.sub_diag. cbn [firstn]. rewrite app_nil_r.
        apply firstn_all2. rewrite length_app, length_firstn. lia.
    + apply Nat.ltb_ge in E1.
      set (fill := (64 - idx)%nat) in *.
      set (buffer1 := SHA256.memcpy_at (SHA256.buffer ctx) idx (firstn fill data)).
      assert (Hb1 : buffer1 = pending ctx ++ firstn fill data).
      { unfold buffer1, SHA256.memcpy_at, pending. fold idx.
        rewrite skipn_all2 by (rewrite length_firstn; lia).
        rewrite app_nil_r. reflexivity. }
      assert (Hb1l : length buffer1 = 64%nat).
      { rewrite Hb1, length_app, length_firstn. lia. }
      assert (Habs : absorb (SHA256.state ctx) (pending ctx ++ data)
                     = absorb (SHA256.transform (SHA256.state ctx) buffer1)
                              (skipn fill data)).
      { rewrite absorb_block by (rewrite length_app; lia).
        rewrite firstn_app, skipn_app, Hpl.
        rewrite (firstn_all2 (n := 64) (pending ctx)) by lia.
        rewrite (skipn_all2 (n := 64) (pending ctx)) by lia.
        cbn [app]. fold fill. rewrite <- Hb1. reflexivity. }
      rewrite Habs in *.
      specialize (Hlen (SHA256.state ctx)). rewrite Habs in Hlen.
      change (SHA256.transform_blocks (length (skipn fill data))
                (SHA256.transform (SHA256.state ctx) buffer1) (skipn fill data))
        with (absorb (SHA256.transform (SHA256.state ctx) buffer1)
                     (skipn fill data)).
      destruct (absorb (SHA256.transform (SHA256.state ctx) buffer1)
                       (skipn fill data)) as [state2 p'] eqn:Ea.
      cbn [snd] in Hlen.
      unfold ctx_wf, pending. cbn [SHA256.count SHA256.buffer SHA256.state].
      assert (Hp' : (length p' < 64)%nat) by lia.
      split; [split; [exact Hc'|]|split; [reflexivity|]].
      * destruct (0 <? length p')%nat; [|exact Hb1l].
        unfold SHA256.memcpy_at. cbn [firstn app Nat.add].
        rewrite length_app, length_skipn. lia.
      * f_equal. rewrite <- Hlen.
        destruct (0 <? length p')%nat eqn:Ep.
        -- unfold SHA256.memcpy_at. cbn [firstn app Nat.add].
           rewrite firstn_app, Nat.sub_diag. cbn [firstn]. rewrite app_nil_r.
           apply firstn_all.
        -- apply Nat.ltb_ge in Ep. destruct p'; [reflexivity | cbn in Ep; lia].
  - apply Nat.ltb_ge in E0. assert (Hi0 : idx = 0%nat) by lia.
    assert (Hpn : pending ctx = []).
    { unfold pending. fold idx. rewrite Hi0. reflexivity. }
    rewrite Hpn in *. cbn [app] in *.
    change (SHA256.transform_blocks (length data) (SHA256.state ctx) data)
      with (absorb (SHA256.state ctx) data).
    specialize (Hlen (SHA256.state ctx)).
    destruct (absorb (SHA256.state ctx) data) as [state2 p'] eqn:Ea.
    cbn [snd] in Hlen.
    unfold ctx_wf, pending. cbn [SHA256.count SHA256.buffer SHA256.state].
    assert (Hp' : (length p' < 64)%nat) by lia.
    split; [split; [exact Hc'|]|split; [reflexivity|]].
    * destruct (0 <? length p')%nat; [|exact Hb].
      unfold SHA256.memcpy_at. cbn [firstn app Nat.add].
      rewrite length_app, length_skipn. lia.
    * f_equal. rewrite <- Hlen.
      destruct (0 <? length p')%nat eqn:Ep.
      -- unfold SHA256.memcpy_at. cbn [firstn app Nat.add].
         rewrite firstn_app, Nat.sub_diag. cbn [firstn]. rewrite app_nil_r.
         apply firstn_all.
      -- apply Nat.ltb_ge in Ep. destruct p'; [reflexivity | cbn in Ep; lia].
Qed.

Lemma firstn_app_exact (n : nat) (a b : list Z) :
  length a = n -> firstn n (a ++ b) = a.
Proof.
  intros <-. rewrite firstn_app, Nat.sub_diag, firstn_O, app_nil_r.
  apply firstn_all.
Qed.

Lemma skipn_app_exact (n : nat) (a b : list Z) :
  length a = n -> skipn n (a ++ b) = b.
Proof.
  intros <-. rewrite skipn_app, Nat.sub_diag, skipn_O, skipn_all. reflexivity.
Qed.

Lemma cq_sha256_final_spec (ctx : SHA256.cq_sha256_ctx_t) :
  ctx_wf ctx ->
  snd (SHA256.cq_sha256_final ctx)
  = digest_bytes (fst (absorb (SHA256.state ctx)
                              (pending ctx ++ padding (SHA256.count ctx)))).
Proof.
  intros [Hc Hb]. unfold SHA256.cq_sha256_final, padding.
  rewrite land_63 by lia.
  fold (length_bytes (SHA256.count ctx)).
  set (lb := length_bytes (SHA256.count ctx)).
  assert (Hlb : length lb = 8%nat) by reflexivity.
  set (idx := Z.to_nat (SHA256.count ctx mod 64)).
  assert (Hidx : (idx < 64)%nat) by lia.
  set (live := pending ctx).
  assert (Hlive : length live = idx).
  { unfold live, pending. fold idx. rewrite length_firstn. lia. }
  set (buffer1 := SHA256.memset_at (SHA256.buffer ctx) idx 128 1).
  assert (Hb1 : buffer1 = (live ++ [128]) ++ skipn (idx + 1) (SHA256.buffer ctx)).
  { unfold buffer1, SHA256.memset_at, live, pending. fold idx.
    rewrite <- app_assoc. reflexivity. }
  assert (Hl1 : length (live ++ [128]) = S idx).
  { rewrite length_app, Hlive. cbn. lia. }
  assert (Hb1l : length buffer1 = 64%nat).
  { rewrite Hb1, length_app, Hl1, length_skipn. lia. }
  destruct (56 <? S idx)%nat eqn:E.
  - apply Nat.ltb_lt in E.
    assert (E' : (56 <=? idx)%nat = true) by (apply Nat.leb_le; lia).
    rewrite E'.
    set (b := SHA256.memset_at buffer1 (S idx) 0 (64 - S idx)).
    assert (Hbv : b = (live ++ [128]) ++ repeat 0 (64 - S idx)).
    { unfold b, SHA256.memset_at.
      rewrite skipn_all2 by lia. rewrite app_nil_r.
      rewrite Hb1, firstn_app_exact by exact Hl1. reflexivity. }
    assert (Hbl : length b = 64%nat).
    { rewrite Hbv, length_app, Hl1, repeat_length. lia. }
    set (buffer3 := SHA256.memset_at b 0 0 (56 - 0)).
    assert (Hb3 : buffer3 = repeat 0 56 ++ skipn 56 b).
    { unfold buffer3, SHA256.memset_at. reflexivity. }
    set (buffer4 := SHA256.memcpy_at buffer3 56 _).
    assert (Hb4 : buffer4 = repeat 0 56 ++ lb).
    { unfold buffer4, SHA256.memcpy_at. fold lb.
      rewrite skipn_all2
        by (rewrite Hb3, length_app, repeat_length, length_skipn, Hlb; lia).
      rewrite app_nil_r. rewrite Hb3.
      rewrite firstn_app_exact by apply repeat_length. reflexivity. }
    cbn [snd]. fold (digest_bytes (SHA256.transform (SHA256.transform (SHA256.state ctx) b) buffer4)).
    f_equal.
    replace (live ++ [128] ++ repeat 0 (119 - idx) ++ lb)
      with (b ++ buffer4).
    2:{ rewrite Hbv, Hb4. replace (119 - idx)%nat with ((64 - S idx) + 56)%nat by lia.
        rewrite repeat_app. rewrite <- !app_assoc. reflexivity. }
    rewrite absorb_block by (rewrite length_app; lia).
    rewrite firstn_app_exact, skipn_app_exact by exact Hbl.
    rewrite absorb_block by (rewrite Hb4, length_app, repeat_length, Hlb; lia).
    assert (Hb4l : length buffer4 = 64%nat)
      by (rewrite Hb4, length_app, repeat_length, Hlb; lia).
    rewrite firstn_all2, skipn_all2 by lia.
    rewrite absorb_short by (cbn; lia). reflexivity.
  - apply Nat.ltb_ge in E.
    assert (E' : (56 <=? idx)%nat = false) by (apply Nat.leb_gt; lia).
    rewrite E'.
    set (buffer3 := SHA256.memset_at buffer1 (S idx) 0 (56 - S idx)).
    assert (Hb3 : buffer3 = ((live ++ [128]) ++ repeat 0 (55 - idx))
                            ++ skipn 56 buffer1).
    { unfold buffer3, SHA256.memset_at.
      rewrite Hb1 at 1. rewrite firstn_app_exact by exact Hl1.
      replace (S idx + (56 - S idx))%nat with 56%nat by lia.
      replace (56 - S idx)%nat with (55 - idx)%nat by lia.
      rewrite <- !app_assoc. reflexivity. }
    assert (Hl3 : length ((live ++ [128]) ++ repeat 0 (55 - idx)) = 56%nat).
    { rewrite length_app, Hl1, repeat_length. lia. }
    set (buffer4 := SHA256.memcpy_at buffer3 56 _).
    assert (Hb4 : buffer4 = ((live ++ [128]) ++ repeat 0 (55 - idx)) ++ lb).
    { unfold buffer4, SHA256.memcpy_at. fold lb.
      rewrite skipn_all2
        by (rewrite Hb3, length_app, Hl3, length_skipn, Hlb; lia).
      rewrite app_nil_r. rewrite Hb3.
      rewrite firstn_app_exact by exact Hl3. reflexivity. }
    cbn [snd]. fold (digest_bytes (SHA256.transform (SHA256.state ctx) buffer4)).
    f_equal.
    replace (live ++ [128] ++ repeat 0 (55 - idx) ++ lb) with buffer4
      by (rewrite Hb4, <- !app_assoc; reflexivity).
    assert (Hb4l : length buffer4 = 64%nat)
      by (rewrite Hb4, length_app, Hl3, Hlb; lia).
    rewrite absorb_block by lia.
    rewrite firstn_all2, skipn_all2 by lia.
    rewrite absorb_short by (cbn; lia). reflexivity.
Qed.

Lemma cq_sha256_init_wf (u : SHA256.cq_sha256_ctx_t) :
  length (SHA256.buffer u) = 64%nat ->
  ctx_wf (SHA256.cq_sha256_init u) /\ pending (SHA256.cq_sha256_init u) = [].
Proof.
  intros H. split; [split; [cbn; lia | exact H] | reflexivity].
Qed.

(** Absorbing chunk after chunk leaves the context where one call on the
    concatenation leaves it. *)
Lemma cq_sha256_update_chunks (chunks : list (list Z)) :
  forall ctx,
    ctx_wf ctx ->
    let ctx' := fold_left SHA256.cq_sha256_update chunks ctx in
    ctx_wf ctx' /\
    SHA256.count ctx'
    = wrap_u64 (SHA256.count ctx + Z.of_nat (length (concat chunks))) /\
    (SHA256.state ctx', pending ctx')
    = absorb (SHA256.state ctx) (pending ctx ++ concat chunks).
Proof.
  induction chunks as [|c chunks IH]; intros ctx Hwf; cbv zeta.
  - cbn [fold_left concat length]. rewrite app_nil_r.
    split; [exact Hwf|]. split.
    + rewrite Z.add_0_r. unfold wrap_u64. destruct Hwf as [Hc _].
      rewrite Z.mod_small by lia. reflexivity.
    + unfold pending. rewrite absorb_short; [reflexivity|].
      destruct Hwf as [Hc Hb]. rewrite length_firstn. lia.
  - cbn [fold_left concat].
    destruct (cq_sha256_update_spec ctx c Hwf) as [Hwf1 [Hc1 Hs1]].
    destruct (IH _ Hwf1) as [Hwf2 [Hc2 Hs2]].
    split; [exact Hwf2|]. split.
    + rewrite Hc2, Hc1. rewrite length_app, Nat2Z.inj_add.
      unfold wrap_u64. change (2 ^ 64) with 18446744073709551616. lia.
    + rewrite Hs2. rewrite app_assoc.
      rewrite (absorb_app _ (SHA256.state ctx) (pending ctx ++ c) (concat chunks)
                 (Nat.le_refl _)).
      rewrite <- Hs1. reflexivity.
Qed.

Lemma transform_length (st data : list Z) :
  length (SHA256.transform st data) = 8%nat.
Proof. reflexivity. Qed.

Lemma absorb_state_length (n : nat) :
  forall st p, (length p <= n)%nat -> (64 <= length p)%nat \/ length st = 8%nat ->
    length (fst (absorb st p)) = 8%nat.
Proof.
  induction n as [|n IH]; intros st p Hn Hcase.
  - rewrite absorb_short by lia. cbn [fst]. lia.
  - destruct (Nat.lt_ge_cases (length p) 64) as [Hlt|Hge].
    + rewrite absorb_short by lia. cbn [fst]. lia.
    + rewrite absorb_block by lia. apply IH.
      * rewrite length_skipn. lia.
      * right. apply transform_length.
Qed.

Lemma digest_bytes_length (st : list Z) :
  length (digest_bytes st) = (4 * length st)%nat.
Proof.
  induction st as [|s st IH]; [reflexivity|].
  cbn [digest_bytes flat_map length app] in *.
  fold (digest_bytes st). rewrite IH. lia.
Qed.

Lemma padding_length (count : Z) :
  (9 <= length (padding count))%nat.
Proof.
  unfold padding. rewrite !length_app, repeat_length.
  change (length (length_bytes count)) with 8%nat. cbn [length]. lia.
Qed.

Lemma digest_of_chunks_spec (u : SHA256.cq_sha256_ctx_t)
    (chunks : list (list Z)) :
  length (SHA256.buffer u) = 64%nat ->
  digest_of_chunks u chunks
  = digest_bytes
      (fst (absorb (SHA256.state (SHA256.cq_sha256_init u))
                   (concat chunks
                    ++ padding (wrap_u64 (Z.of_nat (length (concat chunks))))))).
Proof.
  intros Hu. unfold digest_of_chunks.
  destruct (cq_sha256_init_wf u Hu) as [Hwf Hp].
  destruct (cq_sha256_update_chunks chunks _ Hwf) as [Hwf' [Hc Hs]].
  cbv zeta in Hwf', Hc, Hs.
  rewrite cq_sha256_final_spec by exact Hwf'.
  rewrite Hp in Hs. cbn [app] in Hs.
  rewrite Hc. change (SHA256.count (SHA256.cq_sha256_init u)) with 0.
  rewrite Z.add_0_l.
  set (ctx' := fold_left SHA256.cq_sha256_update chunks (SHA256.cq_sha256_init u)) in *.
  f_equal.
  rewrite (absorb_app _ _ (concat chunks) _ (Nat.le_refl _)).
  rewrite <- Hs. reflexivity.
Qed.

(** X7 (hashing in pieces). Whatever the uninitialised context holds,
    and however a message is cut into pieces, [cq_sha256_init] followed by
    one [cq_sha256_update] per piece and [cq_sha256_final] yields the
    digest that the one-shot [cq_sha256] computes for the whole message;
    the digest has 32 bytes. *)
Theorem cq_sha256_chunked (u u' : SHA256.cq_sha256_ctx_t)
    (chunks : list (list Z)) :
  length (SHA256.buffer u) = 64%nat ->
  length (SHA256.buffer u') = 64%nat ->
  digest_of_chunks u chunks = SHA256.cq_sha256 u' (concat chunks) /\
  length (digest_of_chunks u chunks) = 32%nat.
Proof.
  intros Hu Hu'. split.
  - rewrite (digest_of_chunks_spec u chunks Hu).
    change (SHA256.cq_sha256 u' (concat chunks))
      with (digest_of_chunks u' [concat chunks]).
    rewrite (digest_of_chunks_spec u' [concat chunks] Hu').
    cbn [concat]. rewrite app_nil_r. reflexivity.
  - rewrite (digest_of_chunks_spec u chunks Hu).
    rewrite digest_bytes_length.
    rewrite (absorb_state_length _ _ _ (Nat.le_refl _)); [reflexivity|].
    right. reflexivity.
Qed.

Lemma cq_sha256_chunked_witness :
  digest_of_chunks (SHA256.mk_ctx [] 0 (repeat 77 64)) [[97]; []; [98; 99]]
  = SHA256.cq_sha256 (SHA256.mk_ctx [] 0 (repeat 0 64)) [97; 98; 99] /\
  length (digest_of_chunks (SHA256.mk_ctx [] 0 (repeat 77 64))
                           [[97]; []; [98; 99]]) = 32%nat.
Proof.
  apply (cq_sha256_chunked (SHA256.mk_ctx [] 0 (repeat 77 64))
           (SHA256.mk_ctx [] 0 (repeat 0 64)) [[97]; []; [98; 99]]);
    reflexivity.
Defined.

(** X8 (what the digest is). For every message shorter than 2^61 bytes
    [cq_sha256] returns the big-endian bytes of the state reached from the
    initial state by applying [transform] to the successive 64-byte blocks
    of the message followed by its padding: the byte 0x80, the least
    number of zero bytes that brings the length to 56 modulo 64, and the
    bit length of the message as a big-endian 64-bit number. *)
Theorem cq_sha256_is_iterated_transform (u : SHA256.cq_sha256_ctx_t)
    (data : list Z) :
  length (SHA256.buffer u) = 64%nat ->
  Z.of_nat (length data) < 2 ^ 61 ->
  let n := Z.of_nat (length data) in
  let padded := data ++ padding n in
  SHA256.cq_sha256 u data
  = digest_bytes
      (fst (absorb (SHA256.state (SHA256.cq_sha256_init u)) padded)) /\
  snd (absorb (SHA256.state (SHA256.cq_sha256_init u)) padded) = [] /\
  Z.of_nat (length padded) mod 64 = 0 /\
  Z.of_nat (length (padding n)) <= 72 /\
  length_bytes n
  = map (fun i : nat => Z.shiftr (8 * n) (56 - Z.of_nat i * 8) mod 256)
        (seq 0 8).
Proof.
  intros Hu Hn n padded.
  assert (Hw : wrap_u64 n = n).
  { unfold wrap_u64, n. rewrite Z.mod_small; [reflexivity|].
    change (2 ^ 61) with 2305843009213693952 in Hn.
    change (2 ^ 64) with 18446744073709551616. lia. }
  assert (Hlen : length padded = (length data + length (padding n))%nat)
    by apply length_app.
  assert (Hpl : Z.of_nat (length (padding n))
                = 1 + (if (56 <=? Z.to_nat (n mod 64))%nat
                       then 119 - n mod 64 else 55 - n mod 64) + 8).
  { unfold padding. rewrite !length_app, repeat_length.
    change (length (length_bytes n)) with 8%nat. cbn [length].
    destruct (56 <=? Z.to_nat (n mod 64))%nat eqn:E;
      [apply Nat.leb_le in E | apply Nat.leb_gt in E]; lia. }
  split; [|split; [|split; [|split]]].
  - change (SHA256.cq_sha256 u data) with (digest_of_chunks u [data]).
    rewrite (digest_of_chunks_spec u [data] Hu).
    cbn [concat]. rewrite app_nil_r. fold n. rewrite Hw. reflexivity.
  - apply length_zero_iff_nil.
    rewrite (absorb_rest_length _ _ _ (Nat.le_refl _)).
    apply Nat2Z.inj. rewrite Nat2Z.inj_mod, Hlen, Nat2Z.inj_add, Hpl.
    fold n.
    destruct (56 <=? Z.to_nat (n mod 64))%nat; cbn [Z.of_nat]; lia.
  - rewrite Hlen, Nat2Z.inj_add, Hpl. fold n.
    destruct (56 <=? Z.to_nat (n mod 64))%nat; lia.
  - rewrite Hpl.
    destruct (56 <=? Z.to_nat (n mod 64))%nat eqn:E;
      [apply Nat.leb_le in E | apply Nat.leb_gt in E]; lia.
  - unfold length_bytes. apply map_ext. intros i.
    unfold SHA256.wrap_u8. change (2 ^ 8) with 256.
    replace (wrap_u64 (n * 8)) with (8 * n); [reflexivity|].
    unfold wrap_u64. rewrite Z.mod_small; [ring|].
    change (2 ^ 61) with 2305843009213693952 in Hn.
    change (2 ^ 64) with 18446744073709551616. lia.
Qed.

Lemma cq_sha256_is_iterated_transform_witness :
  SHA256.cq_sha256 (SHA256.mk_ctx [] 0 (repeat 77 64)) [97; 98; 99]
  = digest_bytes
      (fst (absorb (SHA256.state (SHA256.cq_sha256_init
                                    (SHA256.mk_ctx [] 0 (repeat 77 64))))
                   ([97; 98; 99] ++ padding 3))).
Proof.
  refine (proj1 (cq_sha256_is_iterated_transform
                   (SHA256.mk_ctx [] 0 (repeat 77 64)) [97; 98; 99] _ _)).
  - reflexivity.
  - cbn. lia.
Defined.


(** *** The order of IEEE comparisons *)

Lemma SFcompare_key (x y : spec_float) :
  isnan x = false -> isnan y = false ->
  (SFcompare x y = Some Lt <-> key_lt (float_key x) (float_key y)) /\
  (SFcompare x y = Some Eq <-> key_eq (float_key x) (float_key y)) /\
  (SFcompare x y = Some Gt <-> key_lt (float_key y) (float_key x)).
Proof.
  intros Hx Hy.
  destruct x as [sx|sx| |sx mx ex]; try discriminate;
    destruct y as [sy|sy| |sy my ey]; try discriminate;
    try destruct sx; try destruct sy;
    unfold key_lt, key_eq; cbn [SFcompare float_key fst snd];
    try match goal with
    | |- context [PosDef.Pos.compare_cont Eq ?a ?b] =>
        change (PosDef.Pos.compare_cont Eq a b) with (Pos.compare a b);
        destruct (Pos.compare_spec a b)
    end;
    try match goal with
    | |- context [Z.compare ?a ?b] => destruct (Z.compare_spec a b)
    end;
    cbn [CompOpp];
    (split; [|split]); (split; intros H'); try discriminate; try reflexivity;
    lia.
Qed.

Lemma SFcompare_nan (x y : spec_float) :
  isnan x = true \/ isnan y = true -> SFcompare x y = None.
Proof. intros H. apply SFcompare_None. exact H. Qed.

Lemma SFltb_true_iff (x y : spec_float) :
  SFltb x y = true <->
  isnan x = false /\ isnan y = false /\ key_lt (float_key x) (float_key y).
Proof.
  unfold SFltb.
  destruct (isnan x) eqn:Hx;
    [rewrite SFcompare_nan by (left; exact Hx); split;
       [discriminate | intros [H _]; discriminate]|].
  destruct (isnan y) eqn:Hy;
    [rewrite SFcompare_nan by (right; exact Hy); split;
       [discriminate | intros [_ [H _]]; discriminate]|].
  destruct (SFcompare_key x y Hx Hy) as [HLt [HEq HGt]].
  destruct (SFcompare x y) as [[| |]|].
  - split; [discriminate|]. intros [_ [_ H]]. apply HLt in H. discriminate.
  - split; [intros _; repeat split; apply HLt; reflexivity | reflexivity].
  - split; [discriminate|]. intros [_ [_ H]]. apply HLt in H. discriminate.
  - split; [discriminate|]. intros [_ [_ H]]. apply HLt in H. discriminate.
Qed.

Lemma SFleb_true_iff (x y : spec_float) :
  SFleb x y = true <->
  isnan x = false /\ isnan y = false /\ key_le (float_key x) (float_key y).
Proof.
  unfold SFleb, key_le.
  destruct (isnan x) eqn:Hx;
    [rewrite SFcompare_nan by (left; exact Hx); split;
       [discriminate | intros [H _]; discriminate]|].
  destruct (isnan y) eqn:Hy;
    [rewrite SFcompare_nan by (right; exact Hy); split;
       [discriminate | intros [_ [H _]]; discriminate]|].
  destruct (SFcompare_key x y Hx Hy) as [HLt [HEq HGt]].
  destruct (SFcompare x y) as [[| |]|].
  - split; [intros _; repeat split; right; apply HEq; reflexivity | reflexivity].
  - split; [intros _; repeat split; left; apply HLt; reflexivity | reflexivity].
  - split; [discriminate|].
    intros [_ [_ [H|H]]]; [apply HLt in H | apply HEq in H]; discriminate.
  - split; [discriminate|].
    intros [_ [_ [H|H]]]; [apply HLt in H | apply HEq in H]; discriminate.
Qed.

Lemma SFltb_false_iff (x y : spec_float) :
  isnan x = false -> isnan y = false ->
  (SFltb x y = false <-> key_le (float_key y) (float_key x)).
Proof.
  intros Hx Hy. unfold SFltb, key_le.
  destruct (SFcompare_key x y Hx Hy) as [HLt [HEq HGt]].
  destruct (SFcompare x y) as [[| |]|] eqn:E.
  - split; [intros _; right | reflexivity].
    destruct HEq as [HEq _]. specialize (HEq eq_refl).
    unfold key_eq in *. lia.
  - split; [discriminate|]. destruct HLt as [HLt _]. specialize (HLt eq_refl).
    unfold key_lt, key_eq in *. lia.
  - split; [intros _; left; apply HGt; reflexivity | reflexivity].
  - exfalso. apply SFcompare_None in E. rewrite Hx, Hy in E.
    destruct E; discriminate.
Qed.

Lemma SFleb_false_iff (x y : spec_float) :
  isnan x = false -> isnan y = false ->
  (SFleb x y = false <-> key_lt (float_key y) (float_key x)).
Proof.
  intros Hx Hy. unfold SFleb.
  destruct (SFcompare_key x y Hx Hy) as [HLt [HEq HGt]].
  destruct (SFcompare x y) as [[| |]|] eqn:E.
  - split; [discriminate|]. destruct HEq as [HEq _]. specialize (HEq eq_refl).
    unfold key_lt, key_eq in *. lia.
  - split; [discriminate|]. destruct HLt as [HLt _]. specialize (HLt eq_refl).
    unfold key_lt in *. lia.
  - split; [intros _; apply HGt; reflexivity | reflexivity].
  - exfalso. apply SFcompare_None in E. rewrite Hx, Hy in E.
    destruct E; discriminate.
Qed.

Lemma SFleb_trans_any (x y z : spec_float) :
  SFleb x y = true -> SFleb y z = true -> SFleb x z = true.
Proof.
  rewrite !SFleb_true_iff. intros (Hx & Hy & H1) (_ & Hz & H2).
  repeat split; try assumption. key_cases. lia.
Qed.

Lemma SFltb_leb_trans (x y z : spec_float) :
  SFltb x y = true -> SFleb y z = true -> SFltb x z = true.
Proof.
  rewrite !SFltb_true_iff, SFleb_true_iff. intros (Hx & Hy & H1) (_ & Hz & H2).
  repeat split; try assumption. key_cases. lia.
Qed.

Lemma SFleb_ltb_trans (x y z : spec_float) :
  SFleb x y = true -> SFltb y z = true -> SFltb x z = true.
Proof.
  rewrite !SFltb_true_iff, SFleb_true_iff. intros (Hx & Hy & H1) (_ & Hz & H2).
  repeat split; try assumption. key_cases. lia.
Qed.

Lemma SFltb_SFleb (x y : spec_float) : SFltb x y = true -> SFleb x y = true.
Proof.
  rewrite SFltb_true_iff, SFleb_true_iff. intros (Hx & Hy & H).
  repeat split; try assumption. left. exact H.
Qed.

Lemma SFltb_false_SFleb (x y : spec_float) :
  isnan x = false -> isnan y = false -> SFltb x y = false -> SFleb y x = true.
Proof.
  intros Hx Hy H. apply (SFltb_false_iff x y Hx Hy) in H.
  apply SFleb_true_iff. repeat split; assumption.
Qed.

Lemma SFleb_true_not_nan (x y : spec_float) :
  SFleb x y = true -> isnan x = false /\ isnan y = false.
Proof. rewrite SFleb_true_iff. intros (Hx & Hy & _). split; assumption. Qed.

Lemma SFltb_true_not_nan (x y : spec_float) :
  SFltb x y = true -> isnan x = false /\ isnan y = false.
Proof. rewrite SFltb_true_iff. intros (Hx & Hy & _). split; assumption. Qed.


Lemma float_key_opp (x : spec_float) :
  float_key (SFopp x)
  = (- fst (fst (float_key x)), - snd (fst (float_key x)), - snd (float_key x)).
Proof.
  destruct x as [s|s| |s m e]; try destruct s; cbn; try reflexivity.
  rewrite Z.opp_involutive. reflexivity.
Qed.

Lemma isnan_opp (x : spec_float) : isnan (SFopp x) = isnan x.
Proof. destruct x; reflexivity. Qed.

Lemma isnan_abs (x : spec_float) : isnan (SFabs x) = isnan x.
Proof. destruct x; reflexivity. Qed.

Lemma float_key_zero : float_key F64.zero = (0, 0, 0).
Proof. reflexivity. Qed.

(** *** Conversions never produce a NaN *)

Section NotNan.

Variables prec emax : Z.
Hypothesis Hprec : 0 < prec.
Lemma binary_round_not_nan (s : bool) (m : positive) (e : Z) :
  isnan (binary_round prec emax s m e) = false.
Proof.
  unfold binary_round.
  set (fe := fexp prec emax (Zpos (digits2_pos m) + e)).
  destruct (shl_align_spec m e fe) as [Hshift Hkeep].
  assert (Haux : forall mz ez,
            ez <= fexp prec emax (Zpos (digits2_pos mz) + ez) ->
            isnan (binary_round_aux prec emax s (Zpos mz) ez loc_Exact) = false).
  { intros mz ez Hle.
    destruct (binary_round_aux_cases prec emax Hprec s mz ez Hle)
      as (m1 & _ & _ & _ & ->).
    destruct (m1 =? 0); [reflexivity|].
    destruct (m1 <? 2 ^ prec).
    - destruct (_ <=? _); reflexivity.
    - destruct (_ <=? _); reflexivity. }
  destruct (Z_lt_le_dec fe e) as [Hlt | Hge].
  - destruct (Hshift Hlt) as [Es Em].
    destruct (shl_align m e fe) as [mz ez]. cbn [fst snd] in Es, Em. subst ez.
    apply Haux.
    rewrite (digits2_pos_shift m mz (e - fe) ltac:(lia) Em).
    replace (Zpos (digits2_pos m) + (e - fe) + fe)
      with (Zpos (digits2_pos m) + e) by lia.
    fold fe. lia.
  - rewrite (Hkeep Hge).
    apply Haux. fold fe. exact Hge.
Qed.

Lemma binary_normalize_not_nan (m e : Z) (s : bool) :
  isnan (binary_normalize prec emax m e s) = false.
Proof.
  destruct m as [|p|p]; cbn [binary_normalize];
    [reflexivity | apply binary_round_not_nan | apply binary_round_not_nan].
Qed.

End NotNan.

Lemma F64_of_float_not_nan (x : spec_float) :
  isnan (F64.of_float x) = isnan x.
Proof.
  destruct x as [s|s| |s m e]; try reflexivity.
  unfold F64.of_float.
  apply binary_normalize_not_nan; reflexivity.
Qed.

Lemma F64_of_Z_not_nan (n : Z) : isnan (F64.of_Z n) = false.
Proof. apply binary_normalize_not_nan; reflexivity. Qed.


(** *** Running maxima and minima *)

(** The loop [if (f(i) > max) max = f(i)] over the indices [l]. *)
Lemma running_max {A : Type} (f : A -> spec_float) (l : list A) :
  forall m0,
    isnan m0 = false ->
    let m := fold_left (fun mx i => if SFltb mx (f i) then f i else mx) l m0 in
    SFleb m0 m = true /\
    (m = m0 \/ exists i, In i l /\ m = f i) /\
    forall i, In i l -> isnan (f i) = true \/ SFleb (f i) m = true.
Proof.
  induction l as [|j l IH]; intros m0 H0; cbv zeta.
  - cbn [fold_left]. split; [apply SFleb_refl, H0|].
    split; [left; reflexivity | intros i []].
  - cbn [fold_left].
    destruct (SFltb m0 (f j)) eqn:E.
    + destruct (SFltb_true_not_nan _ _ E) as [_ Hj].
      destruct (IH (f j) Hj) as [H1 [H2 H3]]. cbv zeta in H1, H2, H3.
      split; [apply (SFleb_trans_any _ (f j)); [apply SFltb_SFleb, E | exact H1]|].
      split.
      * right. destruct H2 as [-> | [i [Hi ->]]];
          [exists j; split; [left; reflexivity | reflexivity]
          | exists i; split; [right; exact Hi | reflexivity]].
      * intros i [<- | Hi]; [right; exact H1 | apply H3, Hi].
    + destruct (IH m0 H0) as [H1 [H2 H3]]. cbv zeta in H1, H2, H3.
      split; [exact H1|]. split.
      * destruct H2 as [-> | [i [Hi ->]]];
          [left; reflexivity | right; exists i; split; [right; exact Hi | reflexivity]].
      * intros i [<- | Hi]; [|apply H3, Hi].
        destruct (isnan (f j)) eqn:Hn; [left; reflexivity | right].
        apply (SFleb_trans_any _ m0); [|exact H1].
        apply SFltb_false_SFleb; assumption.
Qed.

(** *** Analyzer: ranges and norms *)

Lemma weight_range_step (ws : list spec_float) :
  forall (mn mx : spec_float) (seen : list spec_float),
    isnan mn = false -> isnan mx = false ->
    In mn seen -> In mx seen ->
    Forall (fun d => SFleb mn d = true /\ SFleb d mx = true) seen ->
    Forall (fun w => isnan w = false) ws ->
    let acc :=
      fold_left
        (fun (acc : spec_float * spec_float) (w : spec_float) =>
           let v := F64.of_float w in
           ((if SFltb v (fst acc) then v else fst acc),
            (if SFltb (snd acc) v then v else snd acc)))
        ws (mn, mx) in
    let all := seen ++ map F64.of_float ws in
    In (fst acc) all /\ In (snd acc) all /\
    Forall (fun d => SFleb (fst acc) d = true /\ SFleb d (snd acc) = true) all.
Proof.
  induction ws as [|w ws IH]; intros mn mx seen Hmn Hmx Imn Imx Hall Hws;
    cbv zeta.
  - cbn [fold_left map fst snd]. rewrite app_nil_r. repeat split; assumption.
  - inversion Hws as [|? ? Hw Hws']; subst.
    cbn [fold_left map fst snd].
    set (v := F64.of_float w).
    assert (Hv : isnan v = false)
      by (unfold v; rewrite F64_of_float_not_nan; exact Hw).
    set (mn' := if SFltb v mn then v else mn).
    set (mx' := if SFltb mx v then v else mx).
    replace (seen ++ v :: map F64.of_float ws)
      with ((seen ++ [v]) ++ map F64.of_float ws)
      by (rewrite <- app_assoc; reflexivity).
    assert (Hmn' : SFleb mn' mn = true /\ SFleb mn' v = true /\
                   (mn' = mn \/ mn' = v)).
    { unfold mn'. destruct (SFltb v mn) eqn:E.
      - repeat split; [apply SFltb_SFleb, E | apply SFleb_refl, Hv | right; reflexivity].
      - repeat split; [apply SFleb_refl, Hmn
                      | apply SFltb_false_SFleb; assumption | left; reflexivity]. }
    assert (Hmx' : SFleb mx mx' = true /\ SFleb v mx' = true /\
                   (mx' = mx \/ mx' = v)).
    { unfold mx'. destruct (SFltb mx v) eqn:E.
      - repeat split; [apply SFltb_SFleb, E | apply SFleb_refl, Hv | right; reflexivity].
      - repeat split; [apply SFleb_refl, Hmx
                      | apply SFltb_false_SFleb; assumption | left; reflexivity]. }
    destruct Hmn' as (A1 & A2 & A3). destruct Hmx' as (B1 & B2 & B3).
    apply IH.
    + destruct A3 as [-> | ->]; assumption.
    + destruct B3 as [-> | ->]; assumption.
    + apply in_or_app. destruct A3 as [-> | ->];
        [left; exact Imn | right; left; reflexivity].
    + apply in_or_app. destruct B3 as [-> | ->];
        [left; exact Imx | right; left; reflexivity].
    + apply Forall_app. split.
      * apply Forall_forall. intros d Hd. rewrite Forall_forall in Hall.
        destruct (Hall d Hd) as [L1 L2].
        split; [apply (SFleb_trans_any _ mn) | apply (SFleb_trans_any _ mx)];
          assumption.
      * constructor; [split; assumption | constructor].
    + exact Hws'.
Qed.

(** X9 (weight range). For a non-empty array of weights without NaN,
    [cq_compute_weight_range] returns two of the weights (converted to
    [double]), and every weight lies between them. A NULL pointer or an
    empty array gives the range [0, 0]. *)
Theorem cq_compute_weight_range_encloses (w0 : spec_float)
    (ws : list spec_float) :
  Forall (fun w => isnan w = false) (w0 :: ws) ->
  let r := Analyze.cq_compute_weight_range (Some (w0 :: ws)) in
  let ds := map F64.of_float (w0 :: ws) in
  In (Analyze.min_val r) ds /\ In (Analyze.max_val r) ds /\
  Forall (fun d => SFleb (Analyze.min_val r) d = true /\
                   SFleb d (Analyze.max_val r) = true) ds /\
  Analyze.cq_compute_weight_range None
  = Analyze.mk_range F64.zero F64.zero /\
  Analyze.cq_compute_weight_range (Some [])
  = Analyze.mk_range F64.zero F64.zero.
Proof.
  intros Hall. cbv zeta. inversion Hall as [|? ? H0 Hws]; subst.
  assert (Hv : isnan (F64.of_float w0) = false)
    by (rewrite F64_of_float_not_nan; exact H0).
  pose proof (weight_range_step ws (F64.of_float w0) (F64.of_float w0)
                [F64.of_float w0] Hv Hv (or_introl eq_refl) (or_introl eq_refl))
    as H.
  specialize (H ltac:(constructor;
                      [split; apply SFleb_refl, Hv | constructor]) Hws).
  cbv zeta in H. destruct H as (H1 & H2 & H3).
  unfold Analyze.cq_compute_weight_range.
  cbn [Analyze.min_val Analyze.max_val map app] in *.
  repeat split; assumption.
Qed.

Lemma cq_compute_weight_range_encloses_witness :
  let r := Analyze.cq_compute_weight_range
             (Some [F32.one; SFopp F32.one; F32.zero]) in
  Analyze.min_val r = SFopp F64.one /\ Analyze.max_val r = F64.one /\
  Forall (fun d => SFleb (Analyze.min_val r) d = true /\
                   SFleb d (Analyze.max_val r) = true)
         (map F64.of_float [F32.one; SFopp F32.one; F32.zero]).
Proof.
  cbv zeta.
  destruct (cq_compute_weight_range_encloses F32.one [SFopp F32.one; F32.zero]
              ltac:(repeat constructor)) as (_ & _ & H & _).
  split; [reflexivity|]. split; [reflexivity | exact H].
Defined.

(** X10 (ReLU range). Whatever the input range, NaN included, the range
    returned by [cq_propagate_range_relu] has both ends at or above zero
    and is a fixed point of the function; an ordered input range gives an
    ordered output range, and a range that lies above zero is returned
    unchanged. *)
Theorem cq_propagate_range_relu_nonneg (r : Analyze.cq_range_t) :
  let o := Analyze.cq_propagate_range_relu (Some r) in
  SFleb F64.zero (Analyze.min_val o) = true /\
  SFleb F64.zero (Analyze.max_val o) = true /\
  Analyze.cq_propagate_range_relu (Some o) = o /\
  (SFleb (Analyze.min_val r) (Analyze.max_val r) = true ->
   SFleb (Analyze.min_val o) (Analyze.max_val o) = true) /\
  (SFltb F64.zero (Analyze.min_val r) = true ->
   SFleb (Analyze.min_val r) (Analyze.max_val r) = true -> o = r).
Proof.
  destruct r as [mn mx]. cbv zeta. unfold Analyze.cq_propagate_range_relu.
  cbn [Analyze.min_val Analyze.max_val].
  split; [|split; [|split; [|split]]].
  - destruct (SFltb F64.zero mn) eqn:E; [apply SFltb_SFleb, E | reflexivity].
  - destruct (SFltb F64.zero mx) eqn:E; [apply SFltb_SFleb, E | reflexivity].
  - destruct (SFltb F64.zero mn) eqn:E1; destruct (SFltb F64.zero mx) eqn:E2;
      rewrite ?E1, ?E2; reflexivity.
  - intros Hle.
    destruct (SFltb F64.zero mn) eqn:E1; destruct (SFltb F64.zero mx) eqn:E2.
    + exact Hle.
    + pose proof (SFltb_leb_trans _ _ _ E1 Hle) as H. congruence.
    + apply SFltb_SFleb, E2.
    + reflexivity.
  - intros E1 Hle. rewrite E1.
    rewrite (SFltb_leb_trans _ _ _ E1 Hle). reflexivity.
Qed.

Lemma cq_propagate_range_relu_nonneg_witness :
  Analyze.cq_propagate_range_relu
    (Some (Analyze.mk_range (SFopp F64.one) F64.one))
  = Analyze.mk_range F64.zero F64.one /\
  Analyze.cq_propagate_range_relu
    (Some (Analyze.mk_range F64.half F64.one))
  = Analyze.mk_range F64.half F64.one /\
  SFleb (Analyze.min_val
           (Analyze.cq_propagate_range_relu
              (Some (Analyze.mk_range (SFopp F64.one) F64.one))))
        (Analyze.max_val
           (Analyze.cq_propagate_range_relu
              (Some (Analyze.mk_range (SFopp F64.one) F64.one)))) = true.
Proof.
  destruct (cq_propagate_range_relu_nonneg (Analyze.mk_range F64.half F64.one))
    as (_ & _ & _ & _ & H2).
  destruct (cq_propagate_range_relu_nonneg
              (Analyze.mk_range (SFopp F64.one) F64.one))
    as (_ & _ & _ & H1 & _).
  split; [reflexivity|]. split; [exact (H2 eq_refl eq_refl)|].
  exact (H1 eq_refl).
Defined.

(** X11 (row-sum norm). [cq_row_sum_norm] never returns a NaN or a
    negative number, and its result is at least the absolute sum of every
    row whose absolute sum is not a NaN; the result is zero or one of the
    row sums.  With a NULL pointer, no rows or no columns the result is
    exactly zero. *)
Theorem cq_row_sum_norm_bounds (weights : list spec_float) (rows cols : nat) :
  let n := Analyze.cq_row_sum_norm (Some weights) rows cols in
  SFleb F64.zero n = true /\
  (n = F64.zero \/
   exists i, (i < rows)%nat /\ n = Analyze.row_abs_sum weights cols i) /\
  (cols <> 0%nat ->
   forall i, (i < rows)%nat ->
     isnan (Analyze.row_abs_sum weights cols i) = true \/
     SFleb (Analyze.row_abs_sum weights cols i) n = true) /\
  Analyze.cq_row_sum_norm None rows cols = F64.zero /\
  (rows = 0%nat \/ cols = 0%nat -> n = F64.zero).
Proof.
  cbv zeta. unfold Analyze.cq_row_sum_norm.
  destruct ((rows =? 0)%nat || (cols =? 0)%nat) eqn:E.
  - split; [reflexivity|]. split; [left; reflexivity|].
    split; [|split; reflexivity].
    intros Hc i Hi. apply orb_prop in E.
    destruct E as [E|E]; apply Nat.eqb_eq in E; lia.
  - destruct (running_max (Analyze.row_abs_sum weights cols) (seq 0 rows)
                F64.zero eq_refl) as (H1 & H2 & H3).
    cbv zeta in H1, H2, H3.
    split; [exact H1|]. split; [|split; [|split; [reflexivity|]]].
    + destruct H2 as [H2 | [i [Hi H2]]]; [left; exact H2 | right].
      exists i. apply in_seq in Hi. split; [lia | exact H2].
    + intros _ i Hi. apply H3. apply in_seq. lia.
    + apply orb_false_elim in E. destruct E as [Er Ec].
      apply Nat.eqb_neq in Er. apply Nat.eqb_neq in Ec. intros [H|H]; lia.
Qed.

Lemma cq_row_sum_norm_bounds_witness :
  Analyze.cq_row_sum_norm
    (Some [F32.one; SFopp F32.one; F32.zero; F32.one]) 2 2 = F64.of_Z 2 /\
  (isnan (Analyze.row_abs_sum [F32.one; SFopp F32.one; F32.zero; F32.one] 2 1)
   = true \/
   SFleb (Analyze.row_abs_sum [F32.one; SFopp F32.one; F32.zero; F32.one] 2 1)
         (Analyze.cq_row_sum_norm
            (Some [F32.one; SFopp F32.one; F32.zero; F32.one]) 2 2) = true) /\
  Analyze.cq_row_sum_norm (Some [F32.one; F32.one]) 2 0 = F64.zero.
Proof.
  destruct (cq_row_sum_norm_bounds
              [F32.one; SFopp F32.one; F32.zero; F32.one] 2 2)
    as (_ & _ & H & _).
  destruct (cq_row_sum_norm_bounds [F32.one; F32.one] 2 0)
    as (_ & _ & _ & _ & H0).
  split; [reflexivity|]. split; [apply H; [discriminate | lia]|].
  apply H0. right. reflexivity.
Defined.

Lemma SFopp_antitone (a b : spec_float) :
  SFleb a b = true -> SFleb (SFopp b) (SFopp a) = true.
Proof.
  rewrite !SFleb_true_iff, !isnan_opp, !float_key_opp.
  intros (Ha & Hb & H). repeat split; try assumption. key_cases. lia.
Qed.

(** The absolute value written [(x < 0) ? -x : x]. *)
Lemma abs_by_test (x : spec_float) :
  isnan x = false ->
  let a := if SFltb x F64.zero then SFopp x else x in
  SFleb F64.zero a = true /\ SFleb x a = true /\ SFleb (SFopp a) x = true.
Proof.
  intros Hx. cbv zeta.
  assert (Hkz : float_key F64.zero = (0, 0, 0)) by reflexivity.
  destruct (SFltb x F64.zero) eqn:E.
  - apply SFltb_true_iff in E. destruct E as (_ & _ & E). rewrite Hkz in E.
    rewrite !SFleb_true_iff, !isnan_opp, !float_key_opp, Hkz.
    cbn [fst snd]. repeat split; try assumption; key_cases; lia.
  - apply (SFltb_false_iff x F64.zero Hx eq_refl) in E. rewrite Hkz in E.
    rewrite !SFleb_true_iff, !isnan_opp, !float_key_opp, Hkz.
    repeat split; try assumption; key_cases; lia.
Qed.

(** X12 (range magnitude). For a range whose ends are not NaN,
    [cq_range_magnitude] is not negative and the range lies between the
    magnitude and its opposite. *)
Theorem cq_range_magnitude_bounds (r : Analyze.cq_range_t) :
  isnan (Analyze.min_val r) = false ->
  isnan (Analyze.max_val r) = false ->
  let m := Analyze.cq_range_magnitude r in
  SFleb F64.zero m = true /\
  SFleb (SFopp m) (Analyze.min_val r) = true /\
  SFleb (Analyze.min_val r) m = true /\
  SFleb (SFopp m) (Analyze.max_val r) = true /\
  SFleb (Analyze.max_val r) m = true.
Proof.
  destruct r as [mn mx]. cbn [Analyze.min_val Analyze.max_val].
  intros Hmn Hmx. cbv zeta. unfold Analyze.cq_range_magnitude.
  cbn [Analyze.min_val Analyze.max_val].
  destruct (abs_by_test mn Hmn) as (N1 & N2 & N3).
  destruct (abs_by_test mx Hmx) as (X1 & X2 & X3).
  cbv zeta in N1, N2, N3, X1, X2, X3.
  set (abs_min := if SFltb mn F64.zero then SFopp mn else mn) in *.
  set (abs_max := if SFltb mx F64.zero then SFopp mx else mx) in *.
  clearbody abs_min abs_max.
  destruct (SFleb_true_not_nan _ _ N1) as [_ Hn].
  destruct (SFleb_true_not_nan _ _ X1) as [_ Hx].
  set (m := if SFltb abs_max abs_min then abs_min else abs_max).
  assert (Hm : SFleb abs_min m = true /\ SFleb abs_max m = true).
  { unfold m. destruct (SFltb abs_max abs_min) eqn:E.
    - split; [apply SFleb_refl, Hn | apply SFltb_SFleb, E].
    - split; [apply SFltb_false_SFleb; assumption | apply SFleb_refl, Hx]. }
  destruct Hm as [M1 M2]. clearbody m.
  split; [apply (SFleb_trans_any _ abs_min); assumption|].
  split; [apply (SFleb_trans_any _ (SFopp abs_min));
          [apply SFopp_antitone, M1 | exact N3]|].
  split; [apply (SFleb_trans_any _ abs_min); assumption|].
  split; [apply (SFleb_trans_any _ (SFopp abs_max));
          [apply SFopp_antitone, M2 | exact X3]|].
  apply (SFleb_trans_any _ abs_max); assumption.
Qed.

Lemma cq_range_magnitude_bounds_witness :
  SFleb (Analyze.cq_range_magnitude
           (Analyze.mk_range (SFopp (F64.of_Z 3)) F64.one))
        (F64.of_Z 3) = true /\
  SFleb (SFopp F64.one)
        (Analyze.cq_range_magnitude
           (Analyze.mk_range (SFopp (F64.of_Z 3)) F64.one)) = true.
Proof.
  destruct (cq_range_magnitude_bounds
              (Analyze.mk_range (SFopp (F64.of_Z 3)) F64.one)
              eq_refl eq_refl) as (H & _).
  split; [reflexivity|].
  apply (SFleb_trans_any _ F64.zero); [reflexivity | exact H].
Defined.


(** *** Analyzer: entry error and digest *)

(** X13 (entry error). For every input scale exponent from 0 to 62
    [cq_compute_entry_error] returns exactly [2^-(exp+1)], half a
    quantisation step of the input scale, and a context initialised
    without configuration gets the entry error of the exponent 16,
    [2^-17]. *)
Theorem cq_compute_entry_error_exact (exp : Z) :
  0 <= exp <= 62 ->
  Analyze.cq_compute_entry_error exp
  = S754_finite false 4503599627370496 (- (exp + 1) - 52) /\
  F64.valid (Analyze.cq_compute_entry_error exp) = true /\
  (forall layers,
     Analyze.entry_error (Analyze.cq_analysis_ctx_init layers None)
     = Analyze.cq_compute_entry_error 16 /\
     Analyze.entry_error (Analyze.cq_analysis_ctx_init layers (Some exp))
     = Analyze.cq_compute_entry_error exp).
Proof.
  intros H.
  assert (E : exists n : nat, exp = Z.of_nat n /\ (n <= 62)%nat)
    by (exists (Z.to_nat exp); lia).
  destruct E as [n [-> Hn]].
  split; [|split; [|intros layers; split; reflexivity]];
    do 63 (destruct n as [|n]; [vm_compute; reflexivity|]); lia.
Qed.

Lemma cq_compute_entry_error_exact_witness :
  Analyze.cq_compute_entry_error 16
  = S754_finite false 4503599627370496 (-69).
Proof.
  exact (proj1 (cq_compute_entry_error_exact 16 ltac:(lia))).
Defined.

Lemma count_safe_fold (ls : list Analyze.cq_layer_contract_t) :
  forall n,
    0 <= n -> n + Z.of_nat (length ls) <= UINT32_MAX ->
    fold_left (fun n c => if is_safe (Analyze.overflow_proof c)
                          then wrap_u32 (n + 1) else n) ls n
    = n + Z.of_nat (length (filter (fun c => is_safe (Analyze.overflow_proof c))
                                   ls)).
Proof.
  induction ls as [|c ls IH]; intros n Hn Hb.
  - cbn. lia.
  - cbn [fold_left filter length] in *. rewrite Nat2Z.inj_succ in Hb.
    unfold UINT32_MAX in *.
    destruct (is_safe (Analyze.overflow_proof c)).
    + assert (Hw : wrap_u32 (n + 1) = n + 1).
      { unfold wrap_u32. change (2 ^ 32) with 4294967296.
        rewrite Z.mod_small by lia. reflexivity. }
      rewrite Hw, IH by lia. cbn [length]. rewrite Nat2Z.inj_succ. lia.
    + rewrite IH by lia. reflexivity.
Qed.

(** X14 (analysis digest). For a context whose layer count fits in 32
    bits, the digest written by [cq_analysis_digest_generate] copies the
    entry error, the total bound and the layer count, counts the layers
    whose overflow proof is safe (so that [overflow_safe_count] is at most
    [layer_count], with equality exactly when every proof is safe), and
    carries a 32-byte hash that does not depend on what the hashing
    context held before the call. *)
Theorem cq_analysis_digest_generate_counts
    (contracts_bytes : list Analyze.cq_layer_contract_t -> list Z)
    (sha_ctx sha_ctx' : SHA256.cq_sha256_ctx_t)
    (ctx : Analyze.cq_analysis_ctx_t) :
  is_uint32 (Analyze.layer_count ctx) ->
  length (SHA256.buffer sha_ctx) = 64%nat ->
  length (SHA256.buffer sha_ctx') = 64%nat ->
  let r := Analyze.cq_analysis_digest_generate contracts_bytes sha_ctx ctx in
  let d := snd r in
  fst r = 0 /\
  Analyze.digest_entry_error d = Analyze.entry_error ctx /\
  Analyze.digest_total_error_bound d = Analyze.total_error_bound ctx /\
  Analyze.digest_layer_count d = Analyze.layer_count ctx /\
  Analyze.overflow_safe_count d
  = Z.of_nat (length (filter (fun c => is_safe (Analyze.overflow_proof c))
                             (Analyze.layers ctx))) /\
  0 <= Analyze.overflow_safe_count d <= Analyze.digest_layer_count d /\
  (Analyze.overflow_safe_count d = Analyze.digest_layer_count d <->
   Forall (fun c => is_safe (Analyze.overflow_proof c) = true)
          (Analyze.layers ctx)) /\
  length (Analyze.layers_hash d) = 32%nat /\
  Analyze.layers_hash d
  = Analyze.layers_hash
      (snd (Analyze.cq_analysis_digest_generate contracts_bytes sha_ctx' ctx)).
Proof.
  intros Hn Hb Hb'. cbv zeta. unfold Analyze.cq_analysis_digest_generate.
  cbn [fst snd Analyze.digest_entry_error Analyze.digest_total_error_bound
       Analyze.digest_layer_count Analyze.overflow_safe_count
       Analyze.layers_hash].
  unfold is_uint32, Analyze.layer_count in *.
  rewrite count_safe_fold by lia. rewrite Z.add_0_l.
  set (safe := fun c => is_safe (Analyze.overflow_proof c)).
  pose proof (filter_length_le safe (Analyze.layers ctx)) as Hle.
  repeat split; try lia.
  - intros Heq. apply Nat2Z.inj in Heq.
    apply Forall_forall. intros c Hc.
    assert (Hf : filter safe (Analyze.layers ctx) = Analyze.layers ctx).
    { clear Hn Hle Hc. induction (Analyze.layers ctx) as [|a l IH];
        [reflexivity|].
      cbn [filter length] in *. pose proof (filter_length_le safe l).
      destruct (safe a); [f_equal; apply IH; cbn [length] in Heq; lia
                         | lia]. }
    rewrite <- Hf in Hc. apply filter_In in Hc. exact (proj2 Hc).
  - intros Hall. f_equal. f_equal.
    apply forallb_filter_id. apply forallb_forall.
    rewrite Forall_forall in Hall. exact Hall.
  - destruct (Analyze.layers ctx) as [|c ls]; [reflexivity|].
    change (snd (SHA256.cq_sha256_final
                   (SHA256.cq_sha256_update (SHA256.cq_sha256_init sha_ctx)
                                            (contracts_bytes (c :: ls)))))
      with (digest_of_chunks sha_ctx [contracts_bytes (c :: ls)]).
    rewrite (digest_of_chunks_spec sha_ctx _ Hb), digest_bytes_length.
    rewrite (absorb_state_length _ _ _ (Nat.le_refl _)); [reflexivity|].
    right. reflexivity.
  - destruct (Analyze.layers ctx) as [|c ls]; [reflexivity|].
    change (snd (SHA256.cq_sha256_final
                   (SHA256.cq_sha256_update (SHA256.cq_sha256_init sha_ctx)
                                            (contracts_bytes (c :: ls)))))
      with (digest_of_chunks sha_ctx [contracts_bytes (c :: ls)]).
    change (snd (SHA256.cq_sha256_final
                   (SHA256.cq_sha256_update (SHA256.cq_sha256_init sha_ctx')
                                            (contracts_bytes (c :: ls)))))
      with (digest_of_chunks sha_ctx' [contracts_bytes (c :: ls)]).
    rewrite (digest_of_chunks_spec sha_ctx _ Hb).
    rewrite (digest_of_chunks_spec sha_ctx' _ Hb'). reflexivity.
Qed.

Lemma cq_analysis_digest_generate_counts_witness :
  let d := snd (Analyze.cq_analysis_digest_generate
                  Scenario.no_bytes stale_sha_ctx
                  (analyzed Scenario.amplifying_ctx)) in
  Analyze.digest_layer_count d = 3 /\
  Analyze.overflow_safe_count d = 0 /\
  length (Analyze.layers_hash d) = 32%nat.
Proof.
  cbv zeta.
  destruct (cq_analysis_digest_generate_counts
              Scenario.no_bytes stale_sha_ctx stale_sha_ctx
              (analyzed Scenario.amplifying_ctx)
              ltac:(unfold is_uint32, UINT32_MAX; cbn; lia)
              eq_refl eq_refl)
    as (_ & _ & _ & H1 & H2 & _ & _ & H3 & _).
  split; [exact H1|]. split; [exact H2 | exact H3].
Defined.


(** *** Calibrator: observed ranges *)

Lemma cq_tensor_stats_update_single_spec (s : Calibrate.cq_tensor_stats_t)
    (v : spec_float) :
  isnan (Calibrate.min_observed s) = false ->
  isnan (Calibrate.max_observed s) = false ->
  let s' := Calibrate.cq_tensor_stats_update_single s v in
  isnan (Calibrate.min_observed s') = false /\
  isnan (Calibrate.max_observed s') = false /\
  SFleb (Calibrate.min_observed s') (Calibrate.min_observed s) = true /\
  SFleb (Calibrate.max_observed s) (Calibrate.max_observed s') = true /\
  (isnan v || isinf v = true \/
   (SFleb (Calibrate.min_observed s') v = true /\
    SFleb v (Calibrate.max_observed s') = true)) /\
  (Calibrate.min_observed s' = Calibrate.min_observed s \/
   Calibrate.min_observed s' = v) /\
  (Calibrate.max_observed s' = Calibrate.max_observed s \/
   Calibrate.max_observed s' = v) /\
  same_settings s s'.
Proof.
  intros Hmn Hmx. cbv zeta. unfold Calibrate.cq_tensor_stats_update_single.
  destruct (isnan v || isinf v) eqn:E.
  - repeat split; try assumption; try (apply SFleb_refl; assumption);
      try (left; reflexivity).
  - apply orb_false_elim in E. destruct E as [Hv _].
    cbn [Calibrate.min_observed Calibrate.max_observed].
    unfold same_settings. cbn.
    destruct (SFltb v (Calibrate.min_observed s)) eqn:E1;
      destruct (SFltb (Calibrate.max_observed s) v) eqn:E2;
      repeat split;
      try assumption; try reflexivity;
      try (apply SFleb_refl; assumption);
      try (apply SFltb_SFleb; assumption);
      try (left; reflexivity); try (right; reflexivity);
      right; split;
      try (apply SFleb_refl; assumption);
      try (apply SFltb_false_SFleb; assumption).
Qed.

Lemma same_settings_trans (a b c : Calibrate.cq_tensor_stats_t) :
  same_settings a b -> same_settings b c -> same_settings a c.
Proof.
  unfold same_settings. intros (A1&A2&A3&A4&A5&A6&A7) (B1&B2&B3&B4&B5&B6&B7).
  repeat split; congruence.
Qed.

(** X15 (observed range). Starting from statistics whose observed
    bounds are not NaN (those of [cq_tensor_stats_init] in particular),
    [cq_tensor_stats_update] only ever widens the observed range, the new
    bounds are old bounds or samples, every sample that is neither NaN nor
    infinite lies inside the new range, and nothing but the observed range
    is modified. *)
Theorem cq_tensor_stats_update_encloses (tensor : list spec_float) :
  forall stats : Calibrate.cq_tensor_stats_t,
    isnan (Calibrate.min_observed stats) = false ->
    isnan (Calibrate.max_observed stats) = false ->
    let s' := Calibrate.cq_tensor_stats_update stats tensor in
    SFleb (Calibrate.min_observed s') (Calibrate.min_observed stats) = true /\
    SFleb (Calibrate.max_observed stats) (Calibrate.max_observed s') = true /\
    Forall (fun v => isnan v || isinf v = true \/
                     (SFleb (Calibrate.min_observed s') v = true /\
                      SFleb v (Calibrate.max_observed s') = true)) tensor /\
    (Calibrate.min_observed s' = Calibrate.min_observed stats \/
     In (Calibrate.min_observed s') tensor) /\
    (Calibrate.max_observed s' = Calibrate.max_observed stats \/
     In (Calibrate.max_observed s') tensor) /\
    same_settings stats s'.
Proof.
  induction tensor as [|v tensor IH]; intros stats Hmn Hmx; cbv zeta.
  - cbn [Calibrate.cq_tensor_stats_update fold_left].
    repeat split; try (apply SFleb_refl; assumption);
      try (left; reflexivity); constructor.
  - unfold Calibrate.cq_tensor_stats_update. cbn [fold_left].
    destruct (cq_tensor_stats_update_single_spec stats v Hmn Hmx)
      as (N1 & N2 & L1 & L2 & Hv & M1 & M2 & S1).
    cbv zeta in N1, N2, L1, L2, Hv, M1, M2, S1.
    set (s1 := Calibrate.cq_tensor_stats_update_single stats v) in *.
    destruct (IH s1 N1 N2) as (K1 & K2 & KF & P1 & P2 & S2).
    cbv zeta in K1, K2, KF, P1, P2, S2.
    unfold Calibrate.cq_tensor_stats_update in K1, K2, KF, P1, P2, S2.
    set (s' := fold_left Calibrate.cq_tensor_stats_update_single tensor s1) in *.
    split; [apply (SFleb_trans_any _ (Calibrate.min_observed s1)); assumption|].
    split; [apply (SFleb_trans_any _ (Calibrate.max_observed s1)); assumption|].
    split.
    { constructor; [|exact KF].
      destruct Hv as [Hv | [Hv1 Hv2]]; [left; exact Hv | right].
      split; [apply (SFleb_trans_any _ (Calibrate.min_observed s1))
             | apply (SFleb_trans_any _ (Calibrate.max_observed s1))];
        assumption. }
    split.
    { destruct P1 as [P1 | P1]; [|right; right; exact P1].
      rewrite P1. destruct M1 as [M1 | M1];
        [left; exact M1 | right; left; symmetry; exact M1]. }
    split.
    { destruct P2 as [P2 | P2]; [|right; right; exact P2].
      rewrite P2. destruct M2 as [M2 | M2];
        [left; exact M2 | right; left; symmetry; exact M2]. }
    apply (same_settings_trans _ s1); assumption.
Qed.

Lemma cq_tensor_stats_update_encloses_witness :
  let s' := Calibrate.cq_tensor_stats_update
              (Calibrate.cq_tensor_stats_init 0 0 (SFopp F32.one) F32.one)
              [F32.one; S754_nan; F32.zero] in
  Calibrate.min_observed s' = F32.zero /\
  Calibrate.max_observed s' = F32.one /\
  Forall (fun v => isnan v || isinf v = true \/
                   (SFleb (Calibrate.min_observed s') v = true /\
                    SFleb v (Calibrate.max_observed s') = true))
         [F32.one; S754_nan; F32.zero].
Proof.
  cbv zeta.
  destruct (cq_tensor_stats_update_encloses [F32.one; S754_nan; F32.zero]
              (Calibrate.cq_tensor_stats_init 0 0 (SFopp F32.one) F32.one)
              eq_refl eq_refl) as (_ & _ & H & _).
  split; [reflexivity|]. split; [reflexivity | exact H].
Defined.

(** *** Calibrator: veto predicates *)

(** X16 (range veto and range validity). [cq_tensor_check_range_veto]
    changes nothing but the veto flag, which it sets to its result: the
    identifiers, the observed and the safe range, the coverage ratio and
    the degenerate flag are those of the argument.  A
    tensor for which [cq_tensor_range_valid] holds is never vetoed, and
    when none of the four bounds is a NaN the veto is exactly the negation
    of [cq_tensor_range_valid]. *)
Theorem cq_tensor_range_veto_iff_invalid (stats : Calibrate.cq_tensor_stats_t) :
  let r := Calibrate.cq_tensor_check_range_veto stats in
  Calibrate.range_veto (snd r) = fst r /\
  fst r = out_of_range stats /\
  Calibrate.min_observed (snd r) = Calibrate.min_observed stats /\
  Calibrate.max_observed (snd r) = Calibrate.max_observed stats /\
  Calibrate.coverage_ratio (snd r) = Calibrate.coverage_ratio stats /\
  Calibrate.is_degenerate (snd r) = Calibrate.is_degenerate stats /\
  Calibrate.tensor_id (snd r) = Calibrate.tensor_id stats /\
  Calibrate.layer_index (snd r) = Calibrate.layer_index stats /\
  Calibrate.min_safe (snd r) = Calibrate.min_safe stats /\
  Calibrate.max_safe (snd r) = Calibrate.max_safe stats /\
  (Calibrate.cq_tensor_range_valid stats = true -> fst r = false) /\
  (isnan (Calibrate.min_observed stats) = false ->
   isnan (Calibrate.max_observed stats) = false ->
   isnan (Calibrate.min_safe stats) = false ->
   isnan (Calibrate.max_safe stats) = false ->
   fst r = negb (Calibrate.cq_tensor_range_valid stats)).
Proof.
  cbv zeta. unfold Calibrate.cq_tensor_check_range_veto, out_of_range,
    Calibrate.cq_tensor_range_valid.
  destruct (SFltb (Calibrate.min_observed stats) (Calibrate.min_safe stats)
            || SFltb (Calibrate.max_safe stats) (Calibrate.max_observed stats))
    eqn:E; cbn [fst snd Calibrate.range_veto Calibrate.min_observed
                Calibrate.max_observed Calibrate.coverage_ratio
                Calibrate.is_degenerate];
    (repeat split; try reflexivity).
  - intros Hv. apply andb_prop in Hv. destruct Hv as [H1 H2].
    apply SFleb_not_SFltb in H1. apply SFleb_not_SFltb in H2.
    rewrite H1, H2 in E. discriminate.
  - intros N1 N2 N3 N4.
    rewrite (SFltb_negb_SFleb _ _ N3 N1), (SFltb_negb_SFleb _ _ N2 N4) in E.
    rewrite negb_andb, E. reflexivity.
  - intros N1 N2 N3 N4.
    rewrite (SFltb_negb_SFleb _ _ N3 N1), (SFltb_negb_SFleb _ _ N2 N4) in E.
    rewrite negb_andb, E. reflexivity.
Qed.

Lemma cq_tensor_range_veto_iff_invalid_witness :
  fst (Calibrate.cq_tensor_check_range_veto Scenario.unit_range_stats) = false /\
  fst (Calibrate.cq_tensor_check_range_veto Scenario.point_range_stats)
  = negb (Calibrate.cq_tensor_range_valid Scenario.point_range_stats).
Proof.
  destruct (cq_tensor_range_veto_iff_invalid Scenario.unit_range_stats)
    as (_ & _ & _ & _ & _ & _ & _ & _ & _ & _ & H1 & _).
  destruct (cq_tensor_range_veto_iff_invalid Scenario.point_range_stats)
    as (_ & _ & _ & _ & _ & _ & _ & _ & _ & _ & _ & H2).
  split; [exact (H1 eq_refl) | exact (H2 eq_refl eq_refl eq_refl eq_refl)].
Defined.

(** X17 (degenerate tensors). [cq_tensor_check_degenerate] sets the
    degenerate flag to its result and changes nothing else: the
    identifiers, the observed and the safe range, the coverage ratio and
    the veto flag are those of the argument.  When it
    answers true for the configured epsilon, [cq_tensor_compute_coverage]
    marks the tensor degenerate with coverage 1.0 and divides nothing; in
    general the coverage computation marks a tensor degenerate exactly
    when the observed range or the safe range is narrower than epsilon. *)
Theorem cq_tensor_check_degenerate_agrees
    (stats : Calibrate.cq_tensor_stats_t)
    (config : Calibrate.cq_calibrate_config_t) :
  let eps := Calibrate.degenerate_epsilon config in
  let d := Calibrate.cq_tensor_check_degenerate stats eps in
  let c := Calibrate.cq_tensor_compute_coverage stats (Some config) in
  Calibrate.is_degenerate (snd d) = fst d /\
  Calibrate.coverage_ratio (snd d) = Calibrate.coverage_ratio stats /\
  Calibrate.range_veto (snd d) = Calibrate.range_veto stats /\
  Calibrate.min_observed (snd d) = Calibrate.min_observed stats /\
  Calibrate.max_observed (snd d) = Calibrate.max_observed stats /\
  Calibrate.tensor_id (snd d) = Calibrate.tensor_id stats /\
  Calibrate.layer_index (snd d) = Calibrate.layer_index stats /\
  Calibrate.min_safe (snd d) = Calibrate.min_safe stats /\
  Calibrate.max_safe (snd d) = Calibrate.max_safe stats /\
  (fst d = true ->
   Calibrate.is_degenerate (fst c) = true /\
   Calibrate.coverage_ratio (fst c) = F32.one /\ snd c = []) /\
  Calibrate.is_degenerate (fst c)
  = fst d || SFltb (SFabs (safe_width stats)) eps.
Proof.
  cbv zeta.
  unfold Calibrate.cq_tensor_check_degenerate,
    Calibrate.cq_tensor_compute_coverage, safe_width.
  destruct (SFltb (SFabs (F32.sub (Calibrate.max_observed stats)
                                  (Calibrate.min_observed stats)))
                  (Calibrate.degenerate_epsilon config)) eqn:E1;
    cbn [fst snd Calibrate.is_degenerate Calibrate.coverage_ratio
         Calibrate.range_veto Calibrate.min_observed Calibrate.max_observed
         Calibrate.set_coverage orb].
  - repeat split; reflexivity.
  - destruct (SFltb (SFabs (F32.sub (Calibrate.max_safe stats)
                                    (Calibrate.min_safe stats)))
                    (Calibrate.degenerate_epsilon config)) eqn:E2;
      cbn [fst snd Calibrate.is_degenerate Calibrate.coverage_ratio
           Calibrate.set_coverage];
      repeat split; try reflexivity; discriminate.
Qed.

Lemma cq_tensor_check_degenerate_agrees_witness :
  let stats := Calibrate.cq_tensor_stats_update
                 (Calibrate.cq_tensor_stats_init 0 0 (SFopp F32.one) F32.one)
                 [F32.one] in
  let config := Calibrate.mk_config F32.zero F32.zero F32.lit_1em7 1 in
  Calibrate.is_degenerate
    (fst (Calibrate.cq_tensor_compute_coverage stats (Some config))) = true /\
  Calibrate.coverage_ratio
    (fst (Calibrate.cq_tensor_compute_coverage stats (Some config))) = F32.one /\
  snd (Calibrate.cq_tensor_compute_coverage stats (Some config)) = [].
Proof.
  cbv zeta.
  destruct (cq_tensor_check_degenerate_agrees
              (Calibrate.cq_tensor_stats_update
                 (Calibrate.cq_tensor_stats_init 0 0 (SFopp F32.one) F32.one)
                 [F32.one])
              (Calibrate.mk_config F32.zero F32.zero F32.lit_1em7 1))
    as (_ & _ & _ & _ & _ & _ & _ & _ & _ & H & _).
  exact (H eq_refl).
Defined.


(** *** Calibrator: finalising a report *)

Lemma finalize_loop_spec (config : Calibrate.cq_calibrate_config_t)
    (ts : list Calibrate.cq_tensor_stats_t) :
  forall st,
    let st' := fold_left (Calibrate.finalize_tensor config) ts st in
    Calibrate.fin_tensors st'
    = Calibrate.fin_tensors st ++ map (finalized config) ts /\
    Calibrate.fin_range_veto st'
    = Calibrate.fin_range_veto st || existsb out_of_range ts /\
    Calibrate.fin_faults st'
    = if existsb out_of_range ts
      then set_range_exceed (Calibrate.fin_faults st)
      else Calibrate.fin_faults st.
Proof.
  induction ts as [|t ts IH]; intros st; cbv zeta.
  - cbn [fold_left map existsb]. rewrite app_nil_r, orb_false_r.
    repeat split; reflexivity.
  - cbn [fold_left map existsb].
    destruct (IH (Calibrate.finalize_tensor config st t)) as (H1 & H2 & H3).
    cbv zeta in H1, H2, H3. rewrite H1, H2, H3. clear H1 H2 H3 IH.
    unfold Calibrate.finalize_tensor, finalized.
    assert (Hout : fst (Calibrate.cq_tensor_check_range_veto
                          (fst (Calibrate.cq_tensor_compute_coverage
                                  t (Some config))))
                   = out_of_range t).
    { unfold Calibrate.cq_tensor_check_range_veto, out_of_range,
        Calibrate.cq_tensor_compute_coverage.
      destruct (SFltb (SFabs _) _); [|destruct (SFltb (SFabs _) _)];
        cbn [fst Calibrate.set_coverage Calibrate.min_observed
             Calibrate.max_observed Calibrate.min_safe Calibrate.max_safe];
        destruct (_ || _); reflexivity. }
    destruct (Calibrate.cq_tensor_check_range_veto
                (fst (Calibrate.cq_tensor_compute_coverage t (Some config))))
      as [veto t2] eqn:Ev.
    cbn [fst snd] in *. subst veto.
    destruct (out_of_range t);
      cbn [Calibrate.fin_tensors Calibrate.fin_range_veto Calibrate.fin_faults
           orb];
      rewrite <- app_assoc; cbn [app].
    + rewrite orb_true_r. repeat split.
      destruct (existsb out_of_range ts); [|reflexivity].
      destruct (Calibrate.fin_faults st); reflexivity.
    + repeat split.
Qed.

Lemma global_coverage_preserves (r : Calibrate.cq_calibration_report_t)
    (buffer_available : bool) :
  let r2 := Calibrate.cq_calibration_compute_global_coverage
              r buffer_available in
  Calibrate.tensors r2 = Calibrate.tensors r /\
  Calibrate.range_veto_triggered r2 = Calibrate.range_veto_triggered r /\
  Calibrate.coverage_veto_triggered r2 = Calibrate.coverage_veto_triggered r /\
  Calibrate.faults r2 = Calibrate.faults r /\
  Calibrate.dataset_hash r2 = Calibrate.dataset_hash r /\
  Calibrate.sample_count r2 = Calibrate.sample_count r.
Proof.
  cbv zeta. unfold Calibrate.cq_calibration_compute_global_coverage.
  destruct (Calibrate.tensors r) eqn:E;
    cbn [Calibrate.tensors Calibrate.range_veto_triggered
         Calibrate.coverage_veto_triggered Calibrate.faults
         Calibrate.dataset_hash Calibrate.sample_count];
    repeat split; try reflexivity; exact E.
Qed.

(** X18 (finalising a calibration report). With non-null arguments
    [cq_calibration_report_finalize] returns 0; every tensor has had its
    coverage and its range veto computed; the report's range-veto flag is
    raised, and the caller's [range_exceed] fault set, exactly when it was
    already or some tensor's observed range leaves its safe range, and no
    other fault flag of the caller changes, whatever the coverage veto
    says; the report's faults are merged with the caller's, and the digest
    generated afterwards reports the range veto. *)
Theorem cq_calibration_report_finalize_spec
    (report : Calibrate.cq_calibration_report_t)
    (config : Calibrate.cq_calibrate_config_t)
    (faults : cq_fault_flags_t) (buffer_available : bool) :
  let r := Calibrate.cq_calibration_report_finalize
             report config faults buffer_available in
  let report' := snd (fst r) in
  let any_out := existsb out_of_range (Calibrate.tensors report) in
  fst (fst r) = 0 /\
  Calibrate.tensors report' = map (finalized config) (Calibrate.tensors report) /\
  Calibrate.range_veto_triggered report'
  = Calibrate.range_veto_triggered report || any_out /\
  snd r = (if any_out then set_range_exceed faults else faults) /\
  Calibrate.faults report' = cq_fault_merge (Calibrate.faults report) (snd r) /\
  Calibrate.coverage_veto_triggered report'
  = Calibrate.coverage_veto_triggered report
    || Calibrate.cq_calibration_check_coverage_threshold report' config /\
  Calibrate.cq_calibration_passed report'
  = negb (Calibrate.range_veto_triggered report) && negb any_out /\
  Calibrate.range_veto_status
    (snd (Calibrate.cq_calibration_digest_generate report'))
  = (if Calibrate.range_veto_triggered report || any_out then 1 else 0) /\
  Calibrate.dataset_hash report' = Calibrate.dataset_hash report /\
  Calibrate.sample_count report' = Calibrate.sample_count report.
Proof.
  cbv zeta. unfold Calibrate.cq_calibration_report_finalize.
  destruct (finalize_loop_spec config (Calibrate.tensors report)
              (Calibrate.mk_finalize [] (Calibrate.range_veto_triggered report)
                                     faults)) as (H1 & H2 & H3).
  cbv zeta in H1, H2, H3.
  cbn [Calibrate.fin_tensors Calibrate.fin_range_veto Calibrate.fin_faults app]
    in H1, H2, H3.
  set (st := fold_left (Calibrate.finalize_tensor config)
               (Calibrate.tensors report) _) in *.
  set (r1 := Calibrate.mk_report _ _ (Calibrate.fin_tensors st) _ _ _ _ _ _).
  pose proof (global_coverage_preserves r1 buffer_available) as Hr2.
  cbv zeta in Hr2. destruct Hr2 as (T1 & T2 & T3 & T4 & T5 & T6).
  set (r2 := Calibrate.cq_calibration_compute_global_coverage
               r1 buffer_available) in *.
  unfold Calibrate.cq_calibration_passed,
    Calibrate.cq_calibration_digest_generate,
    Calibrate.cq_calibration_check_coverage_threshold.
  cbn [fst snd Calibrate.tensors Calibrate.range_veto_triggered
       Calibrate.faults Calibrate.coverage_veto_triggered
       Calibrate.dataset_hash Calibrate.sample_count
       Calibrate.range_veto_status Calibrate.global_coverage_min
       Calibrate.global_coverage_p10].
  rewrite T1, T2, T3, T4, T5, T6. unfold r1.
  cbn [Calibrate.tensors Calibrate.range_veto_triggered
       Calibrate.faults Calibrate.coverage_veto_triggered
       Calibrate.dataset_hash Calibrate.sample_count].
  rewrite H1, H2, H3.
  split; [reflexivity|]. split; [reflexivity|]. split; [reflexivity|].
  split; [reflexivity|]. split; [reflexivity|].
  split.
  { destruct (SFltb (Calibrate.global_coverage_min r2) _
              || SFltb (Calibrate.global_coverage_p10 r2) _);
      destruct (Calibrate.coverage_veto_triggered report); reflexivity. }
  split; [apply negb_orb|].
  repeat split.
Qed.


(** *** Calibrator: global coverage *)

(** The loop [if (c < min) min = c] over the values [cs]. *)
Lemma running_min (cs : list spec_float) :
  forall m0,
    isnan m0 = false ->
    let m := fold_left (fun min_cov c => if SFltb c min_cov then c else min_cov)
                       cs m0 in
    SFleb m m0 = true /\
    (m = m0 \/ In m cs) /\
    Forall (fun c => isnan c = true \/ SFleb m c = true) cs.
Proof.
  induction cs as [|c cs IH]; intros m0 H0; cbv zeta.
  - cbn [fold_left]. split; [apply SFleb_refl, H0|].
    split; [left; reflexivity | constructor].
  - cbn [fold_left].
    destruct (SFltb c m0) eqn:E.
    + destruct (SFltb_true_not_nan _ _ E) as [Hc _].
      destruct (IH c Hc) as (H1 & H2 & H3). cbv zeta in H1, H2, H3.
      split; [apply (SFleb_trans_any _ c); [exact H1 | apply SFltb_SFleb, E]|].
      split.
      * right. destruct H2 as [-> | H2]; [left; reflexivity | right; exact H2].
      * constructor; [right; exact H1 | exact H3].
    + destruct (IH m0 H0) as (H1 & H2 & H3). cbv zeta in H1, H2, H3.
      split; [exact H1|]. split.
      * destruct H2 as [H2 | H2]; [left; exact H2 | right; right; exact H2].
      * constructor; [|exact H3].
        destruct (isnan c) eqn:Hn; [left; reflexivity | right].
        apply (SFleb_trans_any _ m0); [exact H1|].
        apply SFltb_false_SFleb; assumption.
Qed.

Lemma float_to_uint_nonneg (v : spec_float) : 0 <= float_to_uint v.
Proof.
  destruct v as [s|s| |s m e]; try (cbn; lia).
  destruct s; [cbn; lia|].
  destruct e as [|p|p]; cbn [float_to_uint].
  - apply Z.shiftl_nonneg. lia.
  - apply Z.shiftl_nonneg. lia.
  - apply Z.shiftr_nonneg. lia.
Qed.

Lemma p10_index_range (n : Z) : 1 <= n -> 0 <= Calibrate.p10_index n < n.
Proof.
  intros Hn. unfold Calibrate.p10_index. cbv zeta.
  pose proof (float_to_uint_nonneg (F32.mul (F32.of_Z n) F32.lit_0_1)) as H.
  destruct (_ >=? n) eqn:E; lia.
Qed.

(** X19 (global coverage). For a report with at least one tensor and no
    NaN among the coverage ratios, the minimum stored by
    [cq_calibration_compute_global_coverage] is at most every coverage
    ratio and is one of them or [FLT_MAX]; the stored 10th percentile is
    one of the coverage ratios when the sort buffer was obtained, and the
    minimum itself otherwise, so that it is never below the minimum, for
    any number of tensors. An empty report is returned unchanged. *)
Theorem global_coverage_min_below_p10
    (report : Calibrate.cq_calibration_report_t) (buffer_available : bool) :
  Calibrate.tensors report <> [] ->
  Forall (fun t => isnan (Calibrate.coverage_ratio t) = false)
         (Calibrate.tensors report) ->
  let r' := Calibrate.cq_calibration_compute_global_coverage
              report buffer_available in
  let cs := map Calibrate.coverage_ratio (Calibrate.tensors report) in
  Forall (fun c => SFleb (Calibrate.global_coverage_min r') c = true) cs /\
  (Calibrate.global_coverage_min r' = F32.FLT_MAX \/
   In (Calibrate.global_coverage_min r') cs) /\
  (if buffer_available then In (Calibrate.global_coverage_p10 r') cs
   else Calibrate.global_coverage_p10 r' = Calibrate.global_coverage_min r') /\
  SFleb (Calibrate.global_coverage_min r') (Calibrate.global_coverage_p10 r')
  = true /\
  forall empty,
    Calibrate.tensors empty = [] ->
    Calibrate.cq_calibration_compute_global_coverage empty buffer_available
    = empty.
Proof.
  intros Hne Hnan. cbv zeta.
  assert (Hempty : forall empty,
            Calibrate.tensors empty = [] ->
            Calibrate.cq_calibration_compute_global_coverage
              empty buffer_available = empty).
  { intros e He. unfold Calibrate.cq_calibration_compute_global_coverage.
    rewrite He. reflexivity. }
  unfold Calibrate.cq_calibration_compute_global_coverage.
  destruct (Calibrate.tensors report) as [|t ts] eqn:Et; [congruence|].
  cbn [Calibrate.global_coverage_min Calibrate.global_coverage_p10].
  set (cs := map Calibrate.coverage_ratio (t :: ts)).
  assert (Hcs : Forall (fun c => isnan c = false) cs).
  { unfold cs. apply Forall_map. exact Hnan. }
  destruct (running_min cs F32.FLT_MAX eq_refl) as (H1 & H2 & H3).
  cbv zeta in H1, H2, H3. fold (Calibrate.coverage_min cs) in H1, H2, H3.
  set (mn := Calibrate.coverage_min cs) in *.
  assert (Hlow : Forall (fun c => SFleb mn c = true) cs).
  { rewrite Forall_forall in *. intros c Hc.
    destruct (H3 c Hc) as [Hn | Hle]; [|exact Hle].
    rewrite (Hcs c Hc) in Hn. discriminate. }
  assert (Hmn : isnan mn = false)
    by (apply (SFleb_true_not_nan _ _ H1)).
  split; [exact Hlow|]. split; [exact H2|].
  assert (Hn : Calibrate.tensor_count report = Z.of_nat (length cs)).
  { unfold Calibrate.tensor_count, cs. rewrite Et, length_map. reflexivity. }
  destruct buffer_available.
  - set (sorted := Calibrate.qsort Calibrate.cq_float_compare_asc cs).
    pose proof (qsort_perm cs) as Hperm. fold sorted in Hperm.
    assert (Hin : In (nth (Z.to_nat (Calibrate.p10_index
                                       (Calibrate.tensor_count report)))
                          sorted F32.zero) cs).
    { apply (Permutation_in _ Hperm). apply nth_In.
      rewrite (Permutation_length Hperm).
      pose proof (p10_index_range (Calibrate.tensor_count report)) as Hr.
      rewrite Hn in *. unfold cs in *. cbn [length map] in *. lia. }
    split; [exact Hin|]. split; [|exact Hempty].
    rewrite Forall_forall in Hlow. apply Hlow, Hin.
  - split; [reflexivity|]. split; [apply SFleb_refl, Hmn | exact Hempty].
Qed.

Lemma global_coverage_min_below_p10_witness :
  let report := Calibrate.cq_calibration_report_init
                  [BigScenario.stats_with_coverage F32.one;
                   BigScenario.stats_with_coverage F32.zero;
                   BigScenario.stats_with_coverage F32.one] in
  let r' := Calibrate.cq_calibration_compute_global_coverage report true in
  Calibrate.global_coverage_min r' = F32.zero /\
  SFleb (Calibrate.global_coverage_min r') (Calibrate.global_coverage_p10 r')
  = true /\
  Calibrate.cq_calibration_compute_global_coverage
    (Calibrate.cq_calibration_report_init []) true
  = Calibrate.cq_calibration_report_init [].
Proof.
  cbv zeta.
  destruct (global_coverage_min_below_p10
              (Calibrate.cq_calibration_report_init
                 [BigScenario.stats_with_coverage F32.one;
                  BigScenario.stats_with_coverage F32.zero;
                  BigScenario.stats_with_coverage F32.one]) true
              ltac:(discriminate) ltac:(repeat constructor))
    as (_ & _ & _ & H & He).
  split; [reflexivity|]. split; [exact H|].
  exact (He (Calibrate.cq_calibration_report_init []) eq_refl).
Defined.


(** *** Verifier: error norms *)

(** X20 (maximum norms). [cq_linf_norm] and [cq_linf_norm_q16] never
    return a NaN or a negative number; the result is zero or one of the
    absolute differences, and it is at least every absolute difference
    that is not a NaN. With a NULL array the result is zero. *)
Theorem cq_linf_norm_bounds (a b fp : list spec_float) (q16 : list Z)
    (n : nat) :
  let d := Verify.cq_linf_norm (Some a) (Some b) n in
  let dq := Verify.cq_linf_norm_q16 (Some fp) (Some q16) n in
  (SFleb F64.zero d = true /\
   (d = F64.zero \/ exists i, (i < n)%nat /\ d = abs_diff a b i) /\
   (forall i, (i < n)%nat ->
      isnan (abs_diff a b i) = true \/ SFleb (abs_diff a b i) d = true)) /\
  (SFleb F64.zero dq = true /\
   (dq = F64.zero \/ exists i, (i < n)%nat /\ dq = abs_diff_q16 fp q16 i) /\
   (forall i, (i < n)%nat ->
      isnan (abs_diff_q16 fp q16 i) = true \/
      SFleb (abs_diff_q16 fp q16 i) dq = true)) /\
  Verify.cq_linf_norm None (Some b) n = F64.zero /\
  Verify.cq_linf_norm (Some a) None n = F64.zero /\
  Verify.cq_linf_norm_q16 None (Some q16) n = F64.zero /\
  Verify.cq_linf_norm_q16 (Some fp) None n = F64.zero.
Proof.
  cbv zeta.
  split; [|split; [|repeat split]].
  - destruct (running_max (abs_diff a b) (seq 0 n) F64.zero eq_refl)
      as (H1 & H2 & H3). cbv zeta in H1, H2, H3.
    split; [exact H1|]. split.
    + destruct H2 as [H2 | [i [Hi H2]]]; [left; exact H2 | right].
      exists i. apply in_seq in Hi. split; [lia | exact H2].
    + intros i Hi. apply H3, in_seq. lia.
  - destruct (running_max (abs_diff_q16 fp q16) (seq 0 n) F64.zero eq_refl)
      as (H1 & H2 & H3). cbv zeta in H1, H2, H3.
    split; [exact H1|]. split.
    + destruct H2 as [H2 | [i [Hi H2]]]; [left; exact H2 | right].
      exists i. apply in_seq in Hi. split; [lia | exact H2].
    + intros i Hi. apply H3, in_seq. lia.
Qed.

Lemma cq_linf_norm_bounds_witness :
  Verify.cq_linf_norm (Some [F32.one; F32.zero]) (Some [F32.zero; F32.zero]) 2
  = F64.one /\
  (isnan (abs_diff [F32.one; F32.zero] [F32.zero; F32.zero] 1) = true \/
   SFleb (abs_diff [F32.one; F32.zero] [F32.zero; F32.zero] 1)
         (Verify.cq_linf_norm (Some [F32.one; F32.zero])
                              (Some [F32.zero; F32.zero]) 2) = true) /\
  (isnan (abs_diff_q16 [F32.one] [65536] 0) = true \/
   SFleb (abs_diff_q16 [F32.one] [65536] 0)
         (Verify.cq_linf_norm_q16 (Some [F32.one]) (Some [65536]) 1) = true).
Proof.
  destruct (cq_linf_norm_bounds [F32.one; F32.zero] [F32.zero; F32.zero]
              [F32.one] [65536] 2) as ((_ & _ & H) & _).
  destruct (cq_linf_norm_bounds [F32.one; F32.zero] [F32.zero; F32.zero]
              [F32.one] [65536] 1) as (_ & (_ & _ & Hq) & _).
  split; [reflexivity|]. split; [apply H; lia | apply Hq; lia].
Defined.

Lemma sub_self (x : spec_float) :
  SFabs (F64.sub x x) = S754_nan \/ SFabs (F64.sub x x) = S754_zero false.
Proof.
  destruct x as [s|s| |s m e].
  - right. destruct s; reflexivity.
  - left. destruct s; reflexivity.
  - left. reflexivity.
  - right. unfold F64.sub. cbn [SFsub]. rewrite Z.sub_diag. reflexivity.
Qed.

Lemma cq_linf_norm_self (a : list spec_float) (n : nat) :
  Verify.cq_linf_norm (Some a) (Some a) n = F64.zero.
Proof.
  unfold Verify.cq_linf_norm.
  generalize (seq 0 n). intros l.
  induction l as [|i l IH]; [reflexivity|].
  cbn [fold_left].
  destruct (sub_self (F64.of_float (nth i a F32.zero))) as [E | E];
    rewrite E; exact IH.
Qed.


(** *** Verifier: the maximum norm as a distance *)

Section RoundSign.

Variables prec emax : Z.
Hypothesis Hprec : 0 < prec.

Lemma binary_round_aux_sign (m : positive) (e : Z) :
  e <= fexp prec emax (Zpos (digits2_pos m) + e) ->
  SFabs (binary_round_aux prec emax true (Zpos m) e loc_Exact)
  = SFabs (binary_round_aux prec emax false (Zpos m) e loc_Exact).
Proof.
  intros Hle.
  destruct (binary_round_aux_cases prec emax Hprec true m e Hle)
    as (m1 & R1 & _ & _ & ->).
  destruct (binary_round_aux_cases prec emax Hprec false m e Hle)
    as (m2 & R2 & _ & _ & ->).
  assert (E : m1 = m2).
  { apply (is_rne_unique (Zpos m) (2 ^ (fexp prec emax (Zpos (digits2_pos m) + e) - e)));
      [|assumption|assumption].
    assert (0 < 2 ^ (fexp prec emax (Zpos (digits2_pos m) + e) - e))
      by (apply pow2_pos; lia).
    lia. }
  subst m2.
  destruct (m1 =? 0); [reflexivity|].
  destruct (m1 <? 2 ^ prec); destruct (_ <=? _); reflexivity.
Qed.

Lemma binary_round_sign (m : positive) (e : Z) :
  SFabs (binary_round prec emax true m e)
  = SFabs (binary_round prec emax false m e).
Proof.
  unfold binary_round.
  set (fe := fexp prec emax (Zpos (digits2_pos m) + e)).
  destruct (shl_align_spec m e fe) as [Hshift Hkeep].
  destruct (Z_lt_le_dec fe e) as [Hlt | Hge].
  - destruct (Hshift Hlt) as [Es Em].
    destruct (shl_align m e fe) as [mz ez]. cbn [fst snd] in Es, Em. subst ez.
    apply binary_round_aux_sign.
    rewrite (digits2_pos_shift m mz (e - fe) ltac:(lia) Em).
    replace (Zpos (digits2_pos m) + (e - fe) + fe)
      with (Zpos (digits2_pos m) + e) by lia.
    fold fe. lia.
  - rewrite (Hkeep Hge). apply binary_round_aux_sign. fold fe. exact Hge.
Qed.

Lemma binary_normalize_opp (z e : Z) :
  SFabs (binary_normalize prec emax (- z) e false)
  = SFabs (binary_normalize prec emax z e false).
Proof.
  destruct z as [|p|p]; cbn [Z.opp binary_normalize];
    [reflexivity | apply binary_round_sign | symmetry; apply binary_round_sign].
Qed.

Lemma SFsub_abs_sym (x y : spec_float) :
  SFabs (SFsub prec emax x y) = SFabs (SFsub prec emax y x).
Proof.
  destruct x as [sx|sx| |sx mx ex]; destruct y as [sy|sy| |sy my ey];
    try reflexivity;
    try (destruct sx, sy; reflexivity).
  cbn [SFsub]. rewrite (Z.min_comm ey ex).
  rewrite <- binary_normalize_opp. f_equal. f_equal. ring.
Qed.

End RoundSign.

Lemma abs_diff_sym (a b : list spec_float) (i : nat) :
  abs_diff a b i = abs_diff b a i.
Proof. unfold abs_diff, F64.sub. apply SFsub_abs_sym. reflexivity. Qed.

Lemma cq_linf_norm_sym (a b : list spec_float) (n : nat) :
  Verify.cq_linf_norm (Some a) (Some b) n
  = Verify.cq_linf_norm (Some b) (Some a) n.
Proof.
  unfold Verify.cq_linf_norm.
  generalize F64.zero. generalize (seq 0 n). intros l.
  induction l as [|i l IH]; intros m; [reflexivity|].
  cbn [fold_left].
  fold (abs_diff a b i). fold (abs_diff b a i).
  rewrite (abs_diff_sym a b i). apply IH.
Qed.

(** X21 (the maximum norm as a distance). [cq_linf_norm] does not
    depend on the order of its two arrays, and the norm of the difference
    of a tensor with itself is exactly zero, whatever the tensor holds:
    NaN and infinite elements, whose difference with themselves is a NaN,
    are passed over. *)
Theorem cq_linf_norm_distance (a b : list spec_float) (n : nat) :
  Verify.cq_linf_norm (Some a) (Some b) n
  = Verify.cq_linf_norm (Some b) (Some a) n /\
  Verify.cq_linf_norm (Some a) (Some a) n = F64.zero.
Proof.
  split; [apply cq_linf_norm_sym | apply cq_linf_norm_self].
Qed.


(** *** Verifier: recording errors *)

Lemma running_max_values (es : list spec_float) (m0 : spec_float) :
  isnan m0 = false ->
  let m := fold_left (fun mx e => if SFltb mx e then e else mx) es m0 in
  SFleb m0 m = true /\
  (m = m0 \/ In m es) /\
  forall e, In e es -> isnan e = true \/ SFleb e m = true.
Proof.
  intros H0.
  destruct (running_max (fun e : spec_float => e) es m0 H0) as (H1 & H2 & H3).
  cbv beta zeta in H1, H2, H3. cbv zeta.
  split; [exact H1|]. split; [|exact H3].
  destruct H2 as [H2 | [i [Hi H2]]]; [left; exact H2 | right].
  rewrite H2. exact Hi.
Qed.

Lemma measured_fields (es : list spec_float) :
  forall layer,
    0 <= Verify.layer_sample_count layer < 2 ^ 32 ->
    Verify.error_max_measured (measured layer es)
    = fold_left (fun mx e => if SFltb mx e then e else mx) es
                (Verify.error_max_measured layer) /\
    Verify.error_bound_theoretical (measured layer es)
    = Verify.error_bound_theoretical layer /\
    Verify.bound_satisfied (measured layer es) = Verify.bound_satisfied layer /\
    Verify.layer_index (measured layer es) = Verify.layer_index layer /\
    Verify.layer_sample_count (measured layer es)
    = wrap_u32 (Verify.layer_sample_count layer + Z.of_nat (length es)).
Proof.
  induction es as [|e es IH]; intros layer Hc.
  - cbn. repeat split. unfold wrap_u32. rewrite Z.add_0_r, Z.mod_small; lia.
  - unfold measured in *. cbn [fold_left].
    destruct (IH (Verify.cq_verify_layer_update layer e)) as (H1 & H2 & H3 & H4 & H5).
    { cbn. unfold wrap_u32. apply Z.mod_pos_bound. reflexivity. }
    rewrite H1, H2, H3, H4, H5. cbn [Verify.cq_verify_layer_update
      Verify.error_max_measured Verify.error_bound_theoretical
      Verify.bound_satisfied Verify.layer_index Verify.layer_sample_count length].
    repeat split.
    unfold wrap_u32. change (2 ^ 32) with 4294967296 in *.
    rewrite Nat2Z.inj_succ. lia.
Qed.


(** X22 (recorded errors decide the check). For a layer comparison
    initialised with a bound that is zero or more, on which the errors
    [es] were then recorded by [cq_verify_layer_update],
    [cq_verify_check_bounds] reports a violation (code 64, flag
    [bound_violation], [bound_satisfied] false) exactly when one of the
    recorded errors exceeds the bound; errors that are NaN never cause a
    violation. The sample counter holds the number of errors modulo 2^32
    and the recorded maximum is at least every error that is not a NaN. *)
Theorem recorded_errors_decide_the_check (idx : Z) (bound : spec_float)
    (es : list spec_float) (faults : cq_fault_flags_t) :
  SFleb F64.zero bound = true ->
  let layer := measured (Verify.cq_layer_comparison_init idx bound) es in
  let r := Verify.cq_verify_check_bounds layer faults in
  let exceeded := existsb (fun e => SFltb bound e) es in
  fst (fst r) = (if exceeded then CQ_FAULT_BOUND_VIOLATION else 0) /\
  Verify.bound_satisfied (snd (fst r)) = negb exceeded /\
  snd r = (if exceeded then set_bound_violation faults else faults) /\
  Verify.layer_sample_count layer = Z.of_nat (length es) mod 2 ^ 32 /\
  SFleb F64.zero (Verify.error_max_measured layer) = true /\
  (forall e, In e es ->
     isnan e = true \/ SFleb e (Verify.error_max_measured layer) = true).
Proof.
  intros Hb. cbv zeta.
  destruct (measured_fields es (Verify.cq_layer_comparison_init idx bound)
              ltac:(cbn; lia)) as (H1 & H2 & _ & _ & H5).
  cbn [Verify.cq_layer_comparison_init Verify.error_max_measured
       Verify.error_bound_theoretical Verify.layer_sample_count] in H1, H2, H5.
  destruct (running_max_values es F64.zero eq_refl) as (M1 & M2 & M3).
  cbv zeta in M1, M2, M3. rewrite <- H1 in M1, M2, M3.
  set (layer := measured (Verify.cq_layer_comparison_init idx bound) es) in *.
  assert (Hex : SFltb bound (Verify.error_max_measured layer)
                = existsb (fun e => SFltb bound e) es).
  { destruct (existsb (fun e => SFltb bound e) es) eqn:E.
    - apply existsb_exists in E. destruct E as [e [He Hlt]].
      destruct (SFltb_true_not_nan _ _ Hlt) as [_ Hn].
      destruct (M3 e He) as [Hn' | Hle]; [congruence|].
      apply (SFltb_leb_trans _ e); assumption.
    - destruct M2 as [M2 | M2].
      + rewrite M2. apply SFleb_not_SFltb, Hb.
      + destruct (SFltb bound (Verify.error_max_measured layer)) eqn:E';
          [|reflexivity].
        assert (existsb (fun e => SFltb bound e) es = true)
          by (apply existsb_exists; eexists; split; eassumption).
        congruence. }
  unfold Verify.cq_verify_check_bounds. rewrite H2, Hex.
  split; [|split; [|split; [|split; [|split]]]].
  - destruct (existsb _ es); reflexivity.
  - destruct (existsb _ es); reflexivity.
  - destruct (existsb _ es); reflexivity.
  - rewrite H5. reflexivity.
  - exact M1.
  - exact M3.
Qed.

Lemma recorded_errors_decide_the_check_witness :
  let layer := measured (Verify.cq_layer_comparison_init 0 F64.one)
                        [F64.half; S754_nan; F64.of_Z 2] in
  fst (fst (Verify.cq_verify_check_bounds layer cq_fault_clear))
  = CQ_FAULT_BOUND_VIOLATION /\
  Verify.layer_sample_count layer = 3 /\
  (isnan F64.half = true \/
   SFleb F64.half (Verify.error_max_measured layer) = true).
Proof.
  cbv zeta.
  destruct (recorded_errors_decide_the_check 0 F64.one
              [F64.half; S754_nan; F64.of_Z 2] cq_fault_clear eq_refl)
    as (H1 & _ & _ & H4 & _ & H6).
  split; [exact H1|]. split; [exact H4|].
  apply H6. left. reflexivity.
Defined.

(** *** Verifier: result code, report and digest *)

Lemma check_layers_result (ls : list Verify.cq_layer_comparison_t) :
  forall st,
    Verify.loop_result (Verify.check_layers ls st)
    = if existsb violated ls then CQ_FAULT_BOUND_VIOLATION
      else Verify.loop_result st.
Proof.
  induction ls as [|l ls IH]; intros st; [reflexivity|].
  cbn [Verify.check_layers existsb].
  unfold Verify.cq_verify_check_bounds. fold (violated l).
  destruct (violated l); cbn [negb Z.eqb CQ_FAULT_BOUND_VIOLATION orb];
    rewrite IH; cbn [Verify.loop_result].
  - destruct (existsb violated ls); reflexivity.
  - reflexivity.
Qed.

Lemma filter_checked_length (ls : list Verify.cq_layer_comparison_t) :
  length (filter Verify.bound_satisfied (map checked ls))
  = length (filter (fun l => negb (violated l)) ls).
Proof.
  induction ls as [|l ls IH]; [reflexivity|].
  cbn [map filter]. unfold checked at 1.
  cbn [Verify.set_bound_satisfied Verify.bound_satisfied].
  destruct (negb (violated l)); cbn [length]; rewrite IH; reflexivity.
Qed.

Lemma filter_all_length {A : Type} (p : A -> bool) (l : list A) :
  length (filter p l) = length l <-> forallb p l = true.
Proof.
  induction l as [|a l IH]; [split; reflexivity|].
  cbn [filter forallb length]. pose proof (filter_length_le p l).
  destruct (p a); cbn [length andb].
  - rewrite <- IH. lia.
  - split; [lia | discriminate].
Qed.

Lemma forallb_negb_existsb {A : Type} (p : A -> bool) (l : list A) :
  forallb (fun a => negb (p a)) l = negb (existsb p l).
Proof.
  induction l as [|a l IH]; [reflexivity|].
  cbn [forallb existsb]. rewrite IH, negb_orb. reflexivity.
Qed.

(** X23 (result code, report and digest agree). The code returned by
    [cq_verify_check_all_bounds] is 0 or 64; it is 0 exactly when
    [cq_verify_passed] holds of the report afterwards, which is exactly
    when the digest generated from that report has [bounds_satisfied] 1.
    A nonzero code always comes with the fatal [bound_violation] flag in
    the caller's fault set and in the report.  The digest's
    [layers_passed] counts the layers whose measured maximum does not
    exceed their bound and equals the number of layers exactly when
    [all_bounds_satisfied] holds. *)
Theorem cq_verify_result_matches_report
    (report : Verify.cq_verification_report_t) (faults : cq_fault_flags_t) :
  let r := Verify.cq_verify_check_all_bounds report faults in
  let code := fst (fst r) in
  let report' := snd (fst r) in
  let digest := snd (Verify.cq_verification_digest_generate report') in
  (code = 0 \/ code = CQ_FAULT_BOUND_VIOLATION) /\
  (code = 0 <-> Verify.cq_verify_passed report' = true) /\
  (Verify.cq_verify_passed report' = true <->
   Verify.bounds_satisfied digest = 1) /\
  (code <> 0 ->
   bound_violation (snd r) = true /\
   cq_has_fatal_fault (snd r) = true /\
   cq_has_fatal_fault (Verify.report_faults report') = true) /\
  Verify.layers_passed digest
  = Z.of_nat (length (filter (fun l => negb (violated l))
                             (Verify.layers report))) /\
  length (Verify.layers report') = length (Verify.layers report) /\
  (Verify.layers_passed digest = Z.of_nat (length (Verify.layers report)) <->
   Verify.all_bounds_satisfied report' = true).
Proof.
  cbv zeta.
  destruct (cq_verify_check_all_bounds_spec report faults)
    as (S1 & S2 & S3 & S4). cbv zeta in S1, S2, S3, S4.
  unfold Verify.cq_verify_passed, Verify.cq_verification_digest_generate.
  cbn [snd Verify.bounds_satisfied Verify.layers_passed].
  rewrite S1, S2, S3, filter_checked_length, length_map.
  assert (Hcode : fst (fst (Verify.cq_verify_check_all_bounds report faults))
                  = if existsb violated (Verify.layers report)
                       || SFltb (Verify.total_error_theoretical report)
                                (Verify.total_error_max_measured report)
                    then CQ_FAULT_BOUND_VIOLATION else 0).
  { unfold Verify.cq_verify_check_all_bounds. cbn [fst].
    rewrite check_layers_result. cbn [Verify.loop_result].
    destruct (SFltb _ _); destruct (existsb _ _); reflexivity. }
  pose proof (forallb_negb_existsb violated (Verify.layers report)) as Hall.
  assert (Hrf : bound_violation
                  (Verify.report_faults
                     (snd (fst (Verify.cq_verify_check_all_bounds report faults))))
                = bound_violation (Verify.report_faults report)
                  || bound_violation
                       (snd (Verify.cq_verify_check_all_bounds report faults))).
  { reflexivity. }
  assert (Hfatal : forall f, bound_violation f = true ->
                             cq_has_fatal_fault f = true).
  { intros f Hf. unfold cq_has_fatal_fault. rewrite Hf.
    rewrite !orb_true_r. reflexivity. }
  rewrite Hcode, Hall.
  set (ev := existsb violated (Verify.layers report)) in *.
  set (tv := SFltb (Verify.total_error_theoretical report)
                   (Verify.total_error_max_measured report)) in *.
  unfold CQ_FAULT_BOUND_VIOLATION.
  split; [destruct (ev || tv); [right | left]; reflexivity|].
  split; [destruct ev, tv; cbn; split; intros H; try reflexivity;
          discriminate|].
  split; [destruct ev, tv; cbn; split; intros H; try reflexivity;
          discriminate|].
  split.
  { intros Hne.
    assert (Hbv : bound_violation
                    (snd (Verify.cq_verify_check_all_bounds report faults))
                  = true).
    { rewrite S4. fold ev tv. destruct ev, tv; cbn in Hne |- *;
        try (rewrite ?orb_true_r; reflexivity). congruence. }
    split; [exact Hbv|]. split; [apply Hfatal, Hbv|].
    apply Hfatal. rewrite Hrf, Hbv. apply orb_true_r. }
  split; [reflexivity|]. split; [reflexivity|].
  rewrite <- Hall. rewrite <- filter_all_length. split; intros H; lia.
Qed.

Lemma cq_verify_result_matches_report_witness :
  let report := Verify.cq_verification_report_init
                  [measured (Verify.cq_layer_comparison_init 0 F64.one)
                            [F64.of_Z 2]] F64.one in
  let r := Verify.cq_verify_check_all_bounds report cq_fault_clear in
  fst (fst r) = CQ_FAULT_BOUND_VIOLATION /\
  bound_violation (snd r) = true /\
  cq_has_fatal_fault (snd r) = true.
Proof.
  cbv zeta.
  destruct (cq_verify_result_matches_report
              (Verify.cq_verification_report_init
                 [measured (Verify.cq_layer_comparison_init 0 F64.one)
                           [F64.of_Z 2]] F64.one) cq_fault_clear)
    as (_ & _ & _ & H & _).
  split; [reflexivity|].
  destruct (H ltac:(discriminate)) as (H1 & H2 & _).
  split; assumption.
Defined.


(** *** Notary: the builder *)

Lemma builder_flags_after (calls : list builder_call) :
  forall b,
    let b' := fold_left apply_call calls b in
    Certificate.source_model_hash_set b'
    = Certificate.source_model_hash_set b || existsb gives_source calls /\
    Certificate.bn_info_set b'
    = Certificate.bn_info_set b || existsb gives_bn_info calls /\
    Certificate.analysis_set b'
    = Certificate.analysis_set b || existsb gives_analysis calls /\
    Certificate.calibration_set b'
    = Certificate.calibration_set b || existsb gives_calibration calls /\
    Certificate.verification_set b'
    = Certificate.verification_set b || existsb gives_verification calls /\
    Certificate.target_set b'
    = Certificate.target_set b || existsb gives_target calls /\
    Certificate.b_faults b' = Certificate.b_faults b.
Proof.
  induction calls as [|c calls IH]; intros b; cbv zeta.
  - cbn [fold_left existsb]. rewrite !orb_false_r. repeat split; reflexivity.
  - cbn [fold_left existsb].
    destruct (IH (apply_call b c)) as (H1 & H2 & H3 & H4 & H5 & H6 & H7).
    cbv zeta in H1, H2, H3, H4, H5, H6, H7.
    rewrite H1, H2, H3, H4, H5, H6, H7. clear.
    destruct c as [? ? ? ?|[h|]|f [h|]|[d|]|[d|]|[d|]|[h|] ? ?|?];
      cbn; rewrite ?orb_false_l, ?orb_true_r, ?orb_false_r;
      repeat split; try reflexivity;
      rewrite ?orb_true_l, ?orb_true_r; reflexivity.
Qed.

(** X24 (what completes a builder). After [cq_certificate_builder_init]
    and any sequence of setter calls, the builder is complete, and
    [cq_certificate_build] returns 0, exactly when each of the source
    hash, the analysis, calibration and verification digests and the
    target has been set at least once with a non-null argument and the
    BatchNorm information has been set at least once (a NULL hash is
    accepted there); the order and the repetition of the calls do not
    matter, and no setter touches the builder's fault flags. *)
Theorem builder_complete_iff_all_set
    (sha256 : list Z -> list Z)
    (analysis_digest_bytes : Analyze.cq_analysis_digest_t -> list Z)
    (calibration_digest_bytes : Calibrate.cq_calibration_digest_t -> list Z)
    (verification_digest_bytes : Verify.cq_verification_digest_t -> list Z)
    (certificate_content_bytes : Certificate.cq_certificate_t -> list Z)
    (calls : list builder_call)
    (cert : Certificate.cq_certificate_t) (faults : cq_fault_flags_t)
    (now : Z) :
  let b := fold_left apply_call calls Certificate.cq_certificate_builder_init in
  let all_given :=
    existsb gives_source calls && existsb gives_bn_info calls
    && existsb gives_analysis calls && existsb gives_calibration calls
    && existsb gives_verification calls && existsb gives_target calls in
  Certificate.cq_certificate_builder_is_complete (Some b) = all_given /\
  (fst (fst (Certificate.cq_certificate_build
               sha256 analysis_digest_bytes calibration_digest_bytes
               verification_digest_bytes certificate_content_bytes
               (Some b) (Some cert) (Some faults) now)) = 0
   <-> all_given = true) /\
  Certificate.b_faults b = cq_fault_clear /\
  Certificate.cq_certificate_builder_is_complete
    (Some Certificate.cq_certificate_builder_init) = false /\
  Certificate.cq_certificate_builder_is_complete None = false.
Proof.
  cbv zeta.
  destruct (builder_flags_after calls Certificate.cq_certificate_builder_init)
    as (H1 & H2 & H3 & H4 & H5 & H6 & H7).
  cbv zeta in H1, H2, H3, H4, H5, H6, H7.
  cbn [Certificate.cq_certificate_builder_init
       Certificate.source_model_hash_set Certificate.bn_info_set
       Certificate.analysis_set Certificate.calibration_set
       Certificate.verification_set Certificate.target_set
       Certificate.b_faults orb] in H1, H2, H3, H4, H5, H6, H7.
  assert (Hc : Certificate.cq_certificate_builder_is_complete
                 (Some (fold_left apply_call calls
                                  Certificate.cq_certificate_builder_init))
               = existsb gives_source calls && existsb gives_bn_info calls
                 && existsb gives_analysis calls
                 && existsb gives_calibration calls
                 && existsb gives_verification calls
                 && existsb gives_target calls).
  { unfold Certificate.cq_certificate_builder_is_complete.
    rewrite H1, H2, H3, H4, H5, H6. reflexivity. }
  split; [exact Hc|]. split; [|split; [exact H7 | split; reflexivity]].
  unfold Certificate.cq_certificate_build. rewrite Hc.
  destruct (_ && _); cbn [negb fst]; split; intros H;
    try reflexivity; try discriminate.
Qed.

Lemma builder_complete_iff_all_set_witness :
  fst (fst (Certificate.cq_certificate_build
              real_hash Scenario.no_bytes Scenario.no_bytes
              Scenario.no_bytes content_fields
              (Some (fold_left apply_call complete_session
                               Certificate.cq_certificate_builder_init))
              (Some Scenario.blank_certificate) (Some cq_fault_clear) 0))
  = 0.
Proof.
  destruct (builder_complete_iff_all_set
              real_hash Scenario.no_bytes Scenario.no_bytes
              Scenario.no_bytes content_fields complete_session
              Scenario.blank_certificate cq_fault_clear 0) as (_ & H & _).
  exact (proj2 H eq_refl).
Defined.

(** *** Notary: the certificate that is built *)

Lemma memcmp_eq_refl (a : list Z) (n : nat) : Certificate.memcmp_eq a a n = true.
Proof.
  unfold Certificate.memcmp_eq. apply forallb_forall. intros i _.
  apply Z.eqb_refl.
Qed.

Section Built.

Variable sha256 : list Z -> list Z.
Variable analysis_digest_bytes : Analyze.cq_analysis_digest_t -> list Z.
Variable calibration_digest_bytes
  : Calibrate.cq_calibration_digest_t -> list Z.
Variable verification_digest_bytes
  : Verify.cq_verification_digest_t -> list Z.
Variable certificate_content_bytes : Certificate.cq_certificate_t -> list Z.

(** X25 (the certificate that is built). On a complete builder
    [cq_certificate_build] returns 0, merges the builder's faults into
    the caller's and writes a certificate that starts with the magic
    "CQCR", declares the symmetric scope, carries the builder's version,
    format, source hash, BatchNorm hash and status, target hash and
    counts and the time of the call, holds the SHA-256 of each of the
    three digest structures, claims the entry error and the total bound
    of the analysis digest and the measured maximum of the verification
    digest, and is unsigned (64 zero bytes).  It passes
    [cq_certificate_verify_header] exactly when the builder's format is
    one of the two known codes: [cq_certificate_builder_set_format]
    accepts any code, and the build does not check it. *)
Theorem assembled_certificate_fields
    (b : Certificate.cq_certificate_builder_t)
    (old : Certificate.cq_certificate_t) (faults : cq_fault_flags_t)
    (now : Z) :
  let c := Certificate.assemble
             sha256 analysis_digest_bytes calibration_digest_bytes
             verification_digest_bytes certificate_content_bytes b now in
  (Certificate.cq_certificate_builder_is_complete (Some b) = true ->
   Certificate.cq_certificate_build
     sha256 analysis_digest_bytes calibration_digest_bytes
     verification_digest_bytes certificate_content_bytes
     (Some b) (Some old) (Some faults) now
   = (0, Some c, Some (cq_fault_merge faults (Certificate.b_faults b)))) /\
  Certificate.magic c = [67; 81; 67; 82] /\
  Certificate.version c = Certificate.tool_version b /\
  Certificate.timestamp c = now /\
  Certificate.scope_symmetric_only c = 1 /\
  Certificate.scope_format c = Certificate.b_scope_format b /\
  Certificate.source_model_hash c = Certificate.b_source_model_hash b /\
  Certificate.bn_folding_hash c = Certificate.b_bn_folding_hash b /\
  Certificate.bn_folding_status c = (if Certificate.bn_folded b then 1 else 0) /\
  Certificate.analysis_digest c
  = sha256 (analysis_digest_bytes (Certificate.b_analysis_digest b)) /\
  Certificate.calibration_digest c
  = sha256 (calibration_digest_bytes (Certificate.b_calibration_digest b)) /\
  Certificate.verification_digest c
  = sha256 (verification_digest_bytes (Certificate.b_verification_digest b)) /\
  Certificate.epsilon_0_claimed c
  = Analyze.digest_entry_error (Certificate.b_analysis_digest b) /\
  Certificate.epsilon_total_claimed c
  = Analyze.digest_total_error_bound (Certificate.b_analysis_digest b) /\
  Certificate.epsilon_max_measured c
  = Verify.digest_total_error_max_measured
      (Certificate.b_verification_digest b) /\
  Certificate.target_model_hash c = Certificate.b_target_model_hash b /\
  Certificate.target_param_count c = Certificate.b_target_param_count b /\
  Certificate.target_layer_count c = Certificate.b_target_layer_count b /\
  Certificate.signature c = repeat 0 64 /\
  Certificate.cq_certificate_verify_header (Some c)
  = (Certificate.b_scope_format b =? 0) || (Certificate.b_scope_format b =? 1) /\
  Certificate.cq_certificate_bounds_satisfied c
  = SFleb (Verify.digest_total_error_max_measured
             (Certificate.b_verification_digest b))
          (Analyze.digest_total_error_bound (Certificate.b_analysis_digest b)) /\
  forall format,
    Certificate.b_scope_format
      (Certificate.cq_certificate_builder_set_format b format) = format.
Proof.
  cbv zeta. split.
  { intros Hc. unfold Certificate.cq_certificate_build.
    rewrite Hc. reflexivity. }
  unfold Certificate.assemble.
  cbn [Certificate.magic Certificate.scope_symmetric_only Certificate.version
       Certificate.timestamp Certificate.scope_format
       Certificate.source_model_hash Certificate.bn_folding_hash
       Certificate.target_model_hash
       Certificate.target_param_count Certificate.target_layer_count
       Certificate.analysis_digest Certificate.calibration_digest
       Certificate.verification_digest
       Certificate.bn_folding_status Certificate.epsilon_0_claimed
       Certificate.epsilon_total_claimed Certificate.epsilon_max_measured
       Certificate.signature].
  repeat split.
  unfold Certificate.cq_certificate_verify_header.
  cbn [Certificate.magic Certificate.scope_symmetric_only
       Certificate.scope_format].
  change (Certificate.memcmp_eq Certificate.CQ_CERTIFICATE_MAGIC
            Certificate.CQ_CERTIFICATE_MAGIC 4) with true.
  change (Certificate.CQ_SCOPE_SYMMETRIC_ONLY
          =? Certificate.CQ_SCOPE_SYMMETRIC_ONLY) with true.
  cbn [negb]. unfold Certificate.CQ_FORMAT_Q16_16_CODE,
    Certificate.CQ_FORMAT_Q8_24_CODE.
  destruct (Certificate.b_scope_format b =? 0);
    destruct (Certificate.b_scope_format b =? 1); reflexivity.
Qed.

(** X26 (integrity of a built certificate). When the first 264 bytes of
    a certificate in memory depend on the fields that precede the Merkle
    root only, the certificate assembled by [cq_certificate_build] stores
    the hash of those bytes as its Merkle root and passes
    [cq_certificate_verify_integrity], whatever the builder holds; a NULL
    certificate does not pass. *)
Theorem assembled_certificate_passes_integrity
    (b : Certificate.cq_certificate_builder_t) (now : Z) :
  (forall c c', same_content c c' ->
                certificate_content_bytes c = certificate_content_bytes c') ->
  let c := Certificate.assemble
             sha256 analysis_digest_bytes calibration_digest_bytes
             verification_digest_bytes certificate_content_bytes b now in
  Certificate.merkle_root c = sha256 (certificate_content_bytes c) /\
  Certificate.cq_certificate_verify_integrity
    sha256 certificate_content_bytes (Some c) = true /\
  Certificate.cq_certificate_verify_integrity
    sha256 certificate_content_bytes None = false.
Proof.
  intros Hlayout. cbv zeta.
  assert (Hroot : Certificate.merkle_root
                    (Certificate.assemble
                       sha256 analysis_digest_bytes calibration_digest_bytes
                       verification_digest_bytes certificate_content_bytes b now)
                  = sha256 (certificate_content_bytes
                              (Certificate.assemble
                                 sha256 analysis_digest_bytes
                                 calibration_digest_bytes
                                 verification_digest_bytes
                                 certificate_content_bytes b now))).
  { unfold Certificate.assemble at 1. cbn [Certificate.merkle_root].
    unfold Certificate.cq_certificate_compute_merkle. f_equal.
    apply Hlayout. unfold Certificate.assemble, same_content. cbn.
    repeat split. }
  split; [exact Hroot|]. split; [|reflexivity].
  unfold Certificate.cq_certificate_verify_integrity,
    Certificate.cq_certificate_compute_merkle.
  rewrite Hroot. apply memcmp_eq_refl.
Qed.

End Built.

Lemma assembled_certificate_fields_witness :
  Certificate.cq_certificate_build
    real_hash Scenario.no_bytes Scenario.no_bytes Scenario.no_bytes
    content_image (Some session_builder) (Some Scenario.blank_certificate)
    (Some cq_fault_clear) 1700000000
  = (0, Some built_certificate, Some cq_fault_clear) /\
  Certificate.source_model_hash built_certificate = repeat 1 32 /\
  Certificate.bn_folding_hash built_certificate = repeat 0 32 /\
  Certificate.target_model_hash built_certificate = repeat 2 32 /\
  Certificate.scope_format built_certificate = 1.
Proof.
  destruct (assembled_certificate_fields
              real_hash Scenario.no_bytes Scenario.no_bytes Scenario.no_bytes
              content_image session_builder Scenario.blank_certificate
              cq_fault_clear 1700000000)
    as (H & _ & _ & _ & _ & Hf & Hs & Hb & _ & _ & _ & _ & _ & _ & _ & Ht & _).
  split; [exact (H eq_refl)|].
  split; [exact Hs|]. split; [exact Hb|]. split; [exact Ht | exact Hf].
Defined.

Lemma content_fields_layout (c c' : Certificate.cq_certificate_t) :
  same_content c c' -> content_fields c = content_fields c'.
Proof.
  unfold same_content, content_fields.
  intros (H1&H2&H3&H4&H5&H6&H7&H8&H9&H10&H11&_&_&_&H15&H16&H17).
  rewrite H1, H2, H3, H4, H5, H6, H7, H8, H9, H10, H11, H15, H16, H17.
  reflexivity.
Qed.

Lemma assembled_certificate_passes_integrity_witness :
  Certificate.cq_certificate_verify_integrity
    real_hash content_fields
    (Some (Certificate.assemble
             real_hash Scenario.no_bytes Scenario.no_bytes
             Scenario.no_bytes content_fields Scenario.flagged_builder 0))
  = true.
Proof.
  exact (proj1 (proj2 (assembled_certificate_passes_integrity
                         real_hash Scenario.no_bytes Scenario.no_bytes
                         Scenario.no_bytes content_fields
                         Scenario.flagged_builder 0 content_fields_layout))).
Defined.


(** *** Notary: serialisation *)

Lemma le_bytes_length (n : nat) : forall v, length (le_bytes n v) = n.
Proof.
  induction n as [|n IH]; intros v; [reflexivity|].
  cbn [le_bytes length]. rewrite IH. reflexivity.
Qed.

Lemma le_value_le_bytes (n : nat) :
  forall v, 0 <= v < 256 ^ Z.of_nat n -> le_value (le_bytes n v) = v.
Proof.
  induction n as [|n IH]; intros v Hv.
  - cbn in *. lia.
  - cbn [le_bytes le_value fold_right]. fold (le_value (le_bytes n (v / 256))).
    rewrite Nat2Z.inj_succ, Z.pow_succ_r in Hv by lia.
    rewrite IH; [|split; [apply Z.div_pos; lia|
                          apply Z.div_lt_upper_bound; lia]].
    pose proof (Z.div_mod v 256 ltac:(lia)). lia.
Qed.

(** Every binary64 number, NaN included, is read back from its bits. *)
Lemma double_of_bits_double_bits (x : spec_float) :
  F64.valid x = true -> double_of_bits (double_bits x) = x.
Proof.
  intros Hv. destruct x as [s|s| |s m e].
  - destruct s; reflexivity.
  - destruct s; reflexivity.
  - reflexivity.
  - unfold F64.valid, valid_binary, bounded in Hv.
    apply andb_prop in Hv. destruct Hv as [Hc He].
    apply canonical_cases in Hc. apply Z.leb_le in He.
    unfold emin, F64.prec, F64.emax in *.
    pose proof (digits2_pos_bounds m) as Hd.
    assert (Hm : 0 < Zpos m < 2 ^ 53).
    { split; [lia|]. destruct Hc as [[Hc _]|[_ Hc]].
      - rewrite Hc in Hd. lia.
      - eapply Z.lt_le_trans; [exact (proj2 Hd)|].
        apply Z.pow_le_mono_r; lia. }
    unfold double_bits.
    destruct (Zpos m <? 2 ^ 52) eqn:E.
    + apply Z.ltb_lt in E.
      assert (He' : e = -1074).
      { destruct Hc as [[Hc _]|[Hc _]]; [|lia].
        rewrite Hc in Hd. change (2 ^ (53 - 1)) with (2 ^ 52) in Hd. lia. }
      subst e. unfold double_of_bits. cbv zeta.
      set (b := (if s then 2 ^ 63 else 0) + Zpos m).
      assert (Hb1 : (b / 2 ^ 52) mod 2 ^ 11 = 0).
      { subst b. eval_pows. destruct s; lia. }
      assert (Hb2 : b mod 2 ^ 52 = Zpos m).
      { subst b. eval_pows. destruct s; lia. }
      assert (Hb3 : (2 ^ 63 <=? b) = s).
      { subst b. eval_pows. destruct s; [apply Z.leb_le | apply Z.leb_gt]; lia. }
      rewrite Hb1, Hb2, Hb3. reflexivity.
    + apply Z.ltb_ge in E.
      assert (He' : -1074 <= e <= 971) by (destruct Hc as [[_ Hc]|[Hc _]]; lia).
      unfold double_of_bits. cbv zeta.
      set (b := (if s then 2 ^ 63 else 0) + (e + 1075) * 2 ^ 52
                + (Zpos m - 2 ^ 52)).
      assert (Hb1 : (b / 2 ^ 52) mod 2 ^ 11 = e + 1075).
      { subst b. eval_pows. destruct s; lia. }
      assert (Hb2 : b mod 2 ^ 52 = Zpos m - 2 ^ 52).
      { subst b. eval_pows. destruct s; lia. }
      assert (Hb3 : (2 ^ 63 <=? b) = s).
      { subst b. eval_pows. destruct s; [apply Z.leb_le | apply Z.leb_gt]; lia. }
      rewrite Hb1, Hb2, Hb3.
      destruct (e + 1075 =? 2047) eqn:E1; [apply Z.eqb_eq in E1; lia|].
      destruct (e + 1075 =? 0) eqn:E2; [apply Z.eqb_eq in E2; lia|].
      replace (Zpos m - 2 ^ 52 + 2 ^ 52) with (Zpos m) by lia.
      f_equal. lia.
Qed.

Lemma length_concat_sizes (l : list (list Z)) :
  length (concat l) = list_sum (map (@length Z) l).
Proof.
  induction l as [|x l IH]; [reflexivity|].
  cbn [concat map list_sum]. rewrite length_app, IH. reflexivity.
Qed.

(** Reading chunk [k] back out of a concatenation of chunks. *)
Lemma slice_chunk (cs : list (list Z)) (k off len : nat) :
  (k < length (map (@length Z) cs))%nat ->
  off = list_sum (firstn k (map (@length Z) cs)) ->
  len = nth k (map (@length Z) cs) 0%nat ->
  slice off len (concat cs) = nth k cs [].
Proof.
  rewrite length_map. intros Hk Hoff Hlen.
  assert (Hoff' : length (concat (firstn k cs)) = off).
  { rewrite length_concat_sizes, <- firstn_map. symmetry. exact Hoff. }
  rewrite <- (firstn_skipn k cs) at 1. rewrite concat_app.
  unfold slice. rewrite (skipn_app_exact off _ _ Hoff').
  destruct (skipn k cs) as [|x rest] eqn:E.
  - exfalso. apply (f_equal (@length _)) in E. rewrite length_skipn in E.
    cbn in E. lia.
  - assert (Hx : nth k cs [] = x).
    { rewrite <- (firstn_skipn k cs) at 1. rewrite E.
      rewrite app_nth2 by (rewrite length_firstn; lia).
      rewrite length_firstn.
      replace (k - Nat.min k (length cs))%nat with 0%nat by lia.
      reflexivity. }
    cbn [concat]. rewrite Hx. apply firstn_app_exact.
    rewrite Hlen. change 0%nat with (length (@nil Z)).
    rewrite map_nth. rewrite Hx. reflexivity.
Qed.

Lemma nth_chunk (cs : list (list Z)) (k off : nat) (v : Z) :
  (k < length (map (@length Z) cs))%nat ->
  off = list_sum (firstn k (map (@length Z) cs)) ->
  nth k cs [] = [v] ->
  nth off (concat cs) 0 = v.
Proof.
  intros Hk Hoff Hv.
  assert (H1 : 1%nat = nth k (map (@length Z) cs) 0%nat).
  { change 0%nat with (length (@nil Z)). rewrite map_nth, Hv. reflexivity. }
  pose proof (slice_chunk cs k off 1 Hk Hoff H1) as H.
  rewrite Hv in H. unfold slice in H.
  rewrite <- (firstn_skipn off (concat cs)).
  destruct (skipn off (concat cs)) as [|y r] eqn:E; [discriminate|].
  assert (Hle : length (firstn off (concat cs)) = off).
  { apply firstn_length_le.
    apply (f_equal (@length _)) in E. rewrite length_skipn in E.
    cbn [length] in E. lia. }
  rewrite app_nth2 by lia. rewrite Hle, Nat.sub_diag.
  cbn in H. injection H as H. exact H.
Qed.

Lemma double_bits_range (x : spec_float) :
  F64.valid x = true -> 0 <= double_bits x < 2 ^ 64.
Proof.
  intros Hx. destruct x as [s|s| |s m e]; unfold double_bits.
  - eval_pows. destruct s; lia.
  - eval_pows. destruct s; lia.
  - eval_pows. lia.
  - unfold F64.valid, valid_binary, bounded in Hx.
    apply andb_prop in Hx. destruct Hx as [Hc He].
    apply canonical_cases in Hc. apply Z.leb_le in He.
    unfold emin, F64.prec, F64.emax in *.
    pose proof (digits2_pos_bounds m) as Hd.
    assert (Hm : 0 < Zpos m < 2 ^ 53).
    { split; [lia|]. destruct Hc as [[Hc _]|[_ Hc]].
      - rewrite Hc in Hd. lia.
      - eapply Z.lt_le_trans; [exact (proj2 Hd)|].
        apply Z.pow_le_mono_r; lia. }
    assert (He' : -1074 <= e <= 971)
      by (destruct Hc as [[_ Hc]|[Hc _]]; lia).
    clear Hc Hd.
    destruct (Zpos m <? 2 ^ 52) eqn:E;
      [apply Z.ltb_lt in E | apply Z.ltb_ge in E];
      eval_pows; destruct s; lia.
Qed.

(** On the little-endian layout the image of every certificate whose
    fields fit their C types has 360 bytes and reads back unchanged. *)
Lemma certificate_image_round_trip (c : Certificate.cq_certificate_t) :
  fields_fit c ->
  length (certificate_image c) = 360%nat /\
  read_image (certificate_image c) = c.
Proof.
  destruct c as [magic version timestamp sym format source bnhash bnstatus
                 analysis calibration verification e0 etotal emax
                 target params layers root signature].
  unfold fields_fit, certificate_image.
  cbn [Certificate.magic Certificate.version Certificate.timestamp
       Certificate.scope_symmetric_only Certificate.scope_format
       Certificate.source_model_hash Certificate.bn_folding_hash
       Certificate.bn_folding_status
       Certificate.analysis_digest Certificate.calibration_digest
       Certificate.verification_digest Certificate.epsilon_0_claimed
       Certificate.epsilon_total_claimed Certificate.epsilon_max_measured
       Certificate.target_model_hash Certificate.target_param_count
       Certificate.target_layer_count Certificate.merkle_root
       Certificate.signature].
  intros (L1 & L2 & Ht & L3 & L4 & L5 & L6 & L7 & V1 & V2 & V3 & L8 & Hp & Hl
          & L9 & L10).
  match goal with |- length (concat ?cs) = _ /\ _ => set (chunks := cs) end.
  assert (Hsizes : map (@length Z) chunks
                   = [4; 4; 8; 1; 1; 6; 32; 32; 1; 7; 32; 32; 32; 8; 8; 8; 8;
                      32; 4; 4; 32; 64]%nat).
  { subst chunks. cbn [map].
    rewrite !le_bytes_length, !repeat_length, L1, L2, L3, L4, L5, L6, L7, L8,
      L9, L10. reflexivity. }
  split.
  - rewrite length_concat_sizes, Hsizes. reflexivity.
  - unfold read_image.
    assert (T : le_value (le_bytes 8 timestamp) = timestamp)
      by (apply le_value_le_bytes; change (256 ^ Z.of_nat 8) with (2 ^ 64); lia).
    assert (P : le_value (le_bytes 4 params) = params)
      by (apply le_value_le_bytes; change (256 ^ Z.of_nat 4) with (2 ^ 32); lia).
    assert (Ly : le_value (le_bytes 4 layers) = layers)
      by (apply le_value_le_bytes; change (256 ^ Z.of_nat 4) with (2 ^ 32); lia).
    assert (B : forall x, F64.valid x = true ->
                          double_of_bits (le_value (le_bytes 8 (double_bits x)))
                          = x).
    { intros x Hx. rewrite le_value_le_bytes.
      - apply double_of_bits_double_bits. exact Hx.
      - change (256 ^ Z.of_nat 8) with (2 ^ 64).
        apply double_bits_range. exact Hx. }
    rewrite (slice_chunk chunks 0 0 4),
            (slice_chunk chunks 1 4 4),
            (slice_chunk chunks 2 8 8),
            (nth_chunk chunks 3 16 sym),
            (nth_chunk chunks 4 17 format),
            (slice_chunk chunks 6 24 32),
            (slice_chunk chunks 7 56 32),
            (nth_chunk chunks 8 88 bnstatus),
            (slice_chunk chunks 10 96 32),
            (slice_chunk chunks 11 128 32),
            (slice_chunk chunks 12 160 32),
            (slice_chunk chunks 13 192 8),
            (slice_chunk chunks 14 200 8),
            (slice_chunk chunks 15 208 8),
            (slice_chunk chunks 17 224 32),
            (slice_chunk chunks 18 256 4),
            (slice_chunk chunks 19 260 4),
            (slice_chunk chunks 20 264 32),
            (slice_chunk chunks 21 296 64);
      try (rewrite Hsizes; first [reflexivity | cbn; lia]);
      try reflexivity.
    subst chunks. cbn [nth].
    rewrite T, P, Ly, (B _ V1), (B _ V2), (B _ V3). reflexivity.
Qed.

(** X27 (serialise, deserialise). [cq_certificate_deserialise] refuses
    a buffer of fewer than 360 bytes with code -2 and leaves the caller's
    certificate untouched.  For every memory layout under which the image
    of a certificate [c] has 360 bytes and reads back as [c],
    [cq_certificate_serialise] returns 0 with size 360, and
    [cq_certificate_deserialise] of the bytes it wrote, followed by
    anything, overwrites the caller's certificate with [c] and returns 0
    when [c] passes [cq_certificate_verify_header] and -3 otherwise. *)
Theorem cq_certificate_deserialise_cases
    (certificate_bytes : Certificate.cq_certificate_t -> list Z)
    (certificate_of_bytes : list Z -> Certificate.cq_certificate_t)
    (c old : Certificate.cq_certificate_t) (buffer extra : list Z) (size : Z) :
  (size < 360 ->
   Certificate.cq_certificate_deserialise certificate_of_bytes buffer size old
   = (-2, old)) /\
  (length (certificate_bytes c) = 360%nat ->
   certificate_of_bytes (certificate_bytes c) = c ->
   let s := Certificate.cq_certificate_serialise certificate_bytes c in
   fst (fst s) = 0 /\ snd s = 360 /\
   Certificate.cq_certificate_deserialise
     certificate_of_bytes (snd (fst s) ++ extra)
     (snd s + Z.of_nat (length extra)) old
   = (if Certificate.cq_certificate_verify_header (Some c) then 0 else -3, c)).
Proof.
  split.
  - intros Hs. unfold Certificate.cq_certificate_deserialise,
      Certificate.CQ_CERTIFICATE_SIZE.
    destruct (size <? 360) eqn:E; [reflexivity | apply Z.ltb_ge in E; lia].
  - intros Hlen Hread. cbv zeta.
    unfold Certificate.cq_certificate_serialise,
      Certificate.cq_certificate_deserialise, Certificate.CQ_CERTIFICATE_SIZE.
    cbn [fst snd]. split; [reflexivity|]. split; [reflexivity|].
    destruct (360 + Z.of_nat (length extra) <? 360) eqn:E;
      [apply Z.ltb_lt in E; lia|].
    change (Z.to_nat 360) with 360%nat.
    rewrite firstn_app_exact by exact Hlen. rewrite Hread.
    destruct (Certificate.cq_certificate_verify_header (Some c)); reflexivity.
Qed.

Lemma cq_certificate_deserialise_cases_witness :
  Certificate.cq_certificate_deserialise
    read_image (repeat 0 100) 100 Scenario.blank_certificate
  = (-2, Scenario.blank_certificate) /\
  Certificate.cq_certificate_deserialise
    read_image (certificate_image built_certificate ++ [1; 2]) 362
    Scenario.blank_certificate
  = (0, built_certificate) /\
  Certificate.cq_certificate_deserialise
    read_image (certificate_image odd_format_certificate ++ []) 360
    Scenario.blank_certificate
  = (-3, odd_format_certificate) /\
  Certificate.magic built_certificate = [67; 81; 67; 82] /\
  Certificate.magic Scenario.blank_certificate = [0; 0; 0; 0].
Proof.
  destruct (cq_certificate_deserialise_cases certificate_image read_image
              built_certificate Scenario.blank_certificate
              (repeat 0 100) [1; 2] 100) as [H1 H2].
  destruct (cq_certificate_deserialise_cases certificate_image read_image
              odd_format_certificate Scenario.blank_certificate
              [] [] 0) as [_ H3].
  assert (L2 : length (certificate_image built_certificate) = 360%nat)
    by (vm_compute; reflexivity).
  assert (R2 : read_image (certificate_image built_certificate)
               = built_certificate) by (vm_compute; reflexivity).
  assert (L3 : length (certificate_image odd_format_certificate) = 360%nat)
    by (vm_compute; reflexivity).
  assert (R3 : read_image (certificate_image odd_format_certificate)
               = odd_format_certificate) by (vm_compute; reflexivity).
  assert (V2 : Certificate.cq_certificate_verify_header
                 (Some built_certificate) = true) by (vm_compute; reflexivity).
  assert (V3 : Certificate.cq_certificate_verify_header
                 (Some odd_format_certificate) = false)
    by (vm_compute; reflexivity).
  pose proof (proj2 (proj2 (H2 L2 R2))) as E2.
  pose proof (proj2 (proj2 (H3 L3 R3))) as E3.
  cbv zeta in E2, E3. rewrite V2 in E2. rewrite V3 in E3.
  split; [exact (H1 eq_refl)|].
  split; [exact E2|]. split; [exact E3|].
  split; reflexivity.
Defined.

(** *** Analyzer: a completed analysis *)

Lemma propagate_error_valid (ls : list Analyze.cq_layer_contract_t) :
  forall eps, forallb Analyze.is_valid (Analyze.propagate_error eps ls) = true.
Proof.
  induction ls as [|c ls IH]; intros eps; [reflexivity|].
  cbn [Analyze.propagate_error forallb Analyze.cq_apply_error_recurrence
       Analyze.is_valid andb]. apply IH.
Qed.

(** X28 (a completed analysis). [cq_compute_total_error] returns 0 and
    marks the context complete; it marks it valid exactly when every layer
    contract is valid, that is, has been through
    [cq_apply_error_recurrence].  A context whose layers have all been
    processed therefore passes [cq_analysis_passed] exactly when its fault
    set carries no fatal fault, while a freshly initialised context, or one
    holding a layer as [cq_layer_contract_init] leaves it, does not pass. *)
Theorem cq_analysis_passed_iff
    (ctx : Analyze.cq_analysis_ctx_t) (layers : list Analyze.cq_layer_contract_t)
    (exp : option Z) (li lt fi fo : Z) :
  let r := Analyze.cq_compute_total_error ctx in
  fst r = 0 /\
  Analyze.is_complete (snd r) = true /\
  Analyze.ctx_is_valid (snd r) = forallb Analyze.is_valid (Analyze.layers ctx) /\
  Analyze.layers (snd r) = Analyze.layers ctx /\
  Analyze.faults (snd r) = Analyze.faults ctx /\
  Analyze.cq_analysis_passed (analyzed ctx)
  = negb (cq_has_fatal_fault (Analyze.faults ctx)) /\
  Analyze.cq_analysis_passed (Analyze.cq_analysis_ctx_init layers exp) = false /\
  (In (Analyze.cq_layer_contract_init li lt fi fo) (Analyze.layers ctx) ->
   Analyze.cq_analysis_passed (snd r) = false).
Proof.
  cbv zeta.
  assert (Hv : Analyze.ctx_is_valid (snd (Analyze.cq_compute_total_error ctx))
               = forallb Analyze.is_valid (Analyze.layers ctx)).
  { unfold Analyze.cq_compute_total_error.
    destruct (Analyze.layers ctx) eqn:E; reflexivity. }
  split; [unfold Analyze.cq_compute_total_error;
          destruct (Analyze.layers ctx); reflexivity|].
  split; [unfold Analyze.cq_compute_total_error;
          destruct (Analyze.layers ctx); reflexivity|].
  split; [exact Hv|].
  split; [unfold Analyze.cq_compute_total_error;
          destruct (Analyze.layers ctx) eqn:E; cbn [snd Analyze.layers];
          congruence|].
  split; [unfold Analyze.cq_compute_total_error;
          destruct (Analyze.layers ctx); reflexivity|].
  split.
  { unfold analyzed, Analyze.cq_analysis_passed, Analyze.cq_compute_total_error.
    unfold Analyze.analyze_layers. cbn [Analyze.layers Analyze.entry_error
      Analyze.input_scale_exp Analyze.faults].
    destruct (Analyze.propagate_error (Analyze.entry_error ctx)
                                      (Analyze.layers ctx)) eqn:E;
      cbn [snd Analyze.is_complete Analyze.ctx_is_valid Analyze.faults andb];
      [reflexivity|].
    rewrite <- E, propagate_error_valid. reflexivity. }
  split; [reflexivity|].
  intros Hin. unfold Analyze.cq_analysis_passed. rewrite Hv.
  assert (Hf : forallb Analyze.is_valid (Analyze.layers ctx) = false).
  { destruct (forallb Analyze.is_valid (Analyze.layers ctx)) eqn:E;
      [|reflexivity].
    rewrite forallb_forall in E. specialize (E _ Hin). discriminate. }
  rewrite Hf, andb_false_r. reflexivity.
Qed.

Lemma cq_analysis_passed_iff_witness :
  Analyze.cq_analysis_passed
    (snd (Analyze.cq_compute_total_error
            (Analyze.cq_analysis_ctx_init
               [Analyze.cq_layer_contract_init 0 0 1 1] None))) = false.
Proof.
  destruct (cq_analysis_passed_iff
              (Analyze.cq_analysis_ctx_init
                 [Analyze.cq_layer_contract_init 0 0 1 1] None)
              [] None 0 0 1 1) as (_ & _ & _ & _ & _ & _ & _ & H).
  apply H. left. reflexivity.
Defined.
